(* ===== verification/_CoqProject ===== *)
-Q . S2P
Prelude.v
Float64.v
GoValue.v
Util.v
Hashing.v
Chan.v
Timeline.v
Flattener.v
TransportCore.v
HttpTransport.v
FlattenerConc.v
OpenTSDBTransport.v
TimelineManager.v
TimelineSystem.v
Scheduler.v
SchedulerConc.v
Snitch.v
SnitchState.v
SnitchConc.v
SnitchSystem.v
Election.v
ElectionSession.v
ElectionRefine.v
TestSupport.v
Logh.v
Http.v
Rip.v
Gzip.v
RipGzip.v
RipStack.v
RipConc.v
TestServer.v
Files.v
FileScanner.v
Solar.v
Databases.v
