(* ===== verification/Prelude.v ===== *)
(** * gobol: a verification development (root file)

    gobol is a set of Go libraries for services that collect time series: the
    hashing of arbitrary values ([src/hashing]), the buffering, aggregation and
    transfer of points ([src/timeline]), repeated jobs ([src/scheduler]), the
    statistics of the services themselves ([src/snitch]), the election of a
    master among them ([src/election]), HTTP middlewares and response helpers
    ([src/rip]), a service over Solr ([src/solar]), files and compression
    ([src/files], [src/compress]), logging ([src/logh]), an HTTP server for tests
    ([src/tester]), and the set-up of databases and configuration files.  This
    development models these packages as executable definitions and transition
    systems and proves what they do, on their error paths and under concurrency
    too.

    ** Files

    - [Prelude]: outcomes of Go functions ([result]: value, error or panic) with
      their bind notation in [go_scope], strings, 64-bit integers, [sort.Sort]
      (also with a comparison that panics), invariants of step relations and
      of runs of partial transition functions ([run_acts]), lists with one
      element changed, the hint database [go].
    - [Float64]: [float64] as its bit pattern over [SpecFloat]; encoding round
      trips, the order, exactness of integer sums below 2^53.
    - [GoValue]: the dynamic values [reflect] can see, their kinds, strings as
      bytes and their order.
    - [Util]: [src/util] and [src/structs]; [GetSyncMapSize] also while other
      goroutines change the map.
    - [Hashing]: [src/hashing].  [getByteArray] over the value universe, maps as
      entry lists in iteration order, [sortKeys] with the four comparators, every
      [Generate] function.  The digests of [crypto] are the class [Digests], with
      their sizes in [DigestLaws]; [toy_digests] is an instance.
    - [Chan]: buffered channels: send, receive, close, blocking, panics.
    - [Timeline]: the data the parts of [src/timeline] exchange, and the
      [Transport] interface as a class; [TransportLaws] is what the flattener
      relies on, and both transports are instances.
    - [TransportCore]: [transport.go].  Validation, and the transfer loop with
      producers and [Close] as [core_step].
    - [Flattener]: [flattener.go] called sequentially: [Add], [flatten],
      [processEntry], the [Range] of one cycle, against a grouping specification.
    - [HttpTransport], [OpenTSDBTransport]: [http.go] and [opentsdb.go].  The
      serializers and the network are parameters; a run of the reconnecting
      transfer is a function of the script of outcomes of the network calls.
    - [FlattenerConc]: the goroutines of [flattener.go] as [f_step0]: [Add] split
      at its [Load] and [Store], the cycle at its map and channel operations,
      [Close] at its two statements, entries shared by pointer.
    - [TimelineManager]: [manager.go], over any transport.
    - [TimelineSystem]: the pipeline of a manager: [FlattenerConc] and
      [TransportCore] composed, with the manager's direct sends.  The channel they
      share is one: a step on it is a step of both ([pl_step0]).
    - [Scheduler]: [src/scheduler].  Tasks in a store shared by callers, map and
      goroutines; the manager's operations as functions with an abstract
      specification.
    - [SchedulerConc]: the same operations as single steps of callers
      ([caller_step]), interleaved with the goroutines of [Start] ([loop_move]),
      whose jobs take time, and a clock; alone, the steps are the functions of
      [Scheduler].
    - [Snitch]: [src/snitch].  Points in a store shared by the map and the cron
      entries; updates, [Run], the clients' loops.  [cron.Parse] and
      [time.ParseDuration] are parameters.
    - [SnitchState]: the type invariant of [Stats] under all of these, and the
      effect of a call on the point of a key, which [Rip] uses.
    - [SnitchConc]: [ValueAdd] and [Run] at the granularity of their loads,
      stores and compare-and-swaps, any number of goroutines, any schedule.
    - [SnitchSystem]: an instance with all its goroutines: [start], the cron with
      a goroutine per firing, the HTTP or UDP client, the runtime collector and
      the callers with the single steps of [SnitchConc], [Terminate] included, as
      a partial transition function [act].
    - [Election]: [src/election].  Functions as trees of ZooKeeper calls ([prog]),
      run alone ([exec]) or interleaved ([net_step]) against any server with the
      laws [ZkLaws], which let a failing call have its effect or not;
      [tree_server] is an instance.
    - [ElectionSession]: the goroutines of a session: the event loop of [connect]
      with its reconnection and the two listeners, as moves over the shared flag,
      feedback channel and connections.
    - [ElectionRefine]: the programs [Start] and [Disconnect] of [Election] are
      moves of the session of [ElectionSession].
    - [TestSupport]: [src/tests/election/main.go], which reads the signals of a
      session, and the helpers of [src/tests/files].
    - [Logh]: [src/logh].  The flags the other packages test, and loggers with a
      context; zerolog is the class [Zerolog].
    - [Http]: what the servers use of [net/http]: canonical headers, the server's
      response with its implicit header and length checks, handlers as trees of
      calls over the class [ResponseWriter], and the simulation of writers that
      behave alike ([writer_sim], [Parametric]).
    - [Rip]: [rip.go], [log_middleware.go], [router.go], over [Http], [Logh] and
      [Snitch].
    - [Gzip]: [src/compress], and the class [GzipLib] for the gzip format;
      [toy_gzip] is an instance.
    - [RipGzip]: [gzip_middleware.go], over any response writer.
    - [RipStack]: a request through the log middleware, the gzip middleware and
      the application's handler.
    - [RipConc]: the calls of the statistics of requests served at the same time,
      step by step, over [SnitchConc].
    - [TestServer]: [src/tester/httpserver].
    - [Files], [FileScanner]: [src/files]: operations on a map of files with
      descriptors and failing system calls; the scanner over directory trees.
    - [Solar]: [src/solar] as a state and error monad over the calls of the Solr
      client, with a program logic.
    - [Databases]: [src/cassandra], [src/cockroach], [src/loader].

    ** What is shown

    - Hashing: independence of map iteration order for maps with scalar keys
      (C1), the outcome on every branch (C34), the exact set of hashable values
      (C35), injectivity on numbers; unsigned map keys panic, array keys are not
      sorted and string boundaries are lost.
    - Timeline, the parts: a cycle sends one item per key (C2) with correct
      minimum and maximum (C15) and exact sums, counts and means of integers
      (C16); conversions are inverse (C14); end to end, exact totals (C17); the
      transfer loop hands items over once, in order (C4); HTTP batches are all or
      nothing (C37); the OpenTSDB transfer persists until it succeeds (C29).
    - Timeline, the pipeline: no value is counted twice between [Add] and the
      backend, under every interleaving (C3), and until [Close] what is held can
      be delivered (C9); after [Close] only the batch in transfer still goes out
      (C40).  As further
      theorems: lost updates, a panic in [Close], confused transports, a
      panicking conversion, an ignored end of file, silent loss without a
      backend.
    - Scheduler: the manager implements its specification (C6); under every
      interleaving of single steps running tasks execute if their goroutine does
      not overtake its [Start] (C28), and stopped ones at most once more for each
      goroutine past its test (C38); a goroutine that does overtake leaves a task
      that never runs, and quick restarts multiply the goroutines.
    - Snitch, the parts: the invariant of the state (C12); sums, means and counters
      are reported correctly (C25); the atomic steps implement the calls (C22),
      concurrent additions are exact under every schedule (C8) and end within a
      quadratic number of steps (C21); two first calls can split a metric and an
      update during [Run] is lost.
    - Snitch, the instance: where every message is between [Run] and the network,
      and which ones the UDP client drops (C7), the HTTP client can deliver
      everything while it runs (C23), every stored metric has one or two cron
      entries or is about to get its first (C30); after [Terminate] the cron goes on
      and its goroutines wait for good (C24), and a slow client makes a value
      reported twice.
    - Election: at most one master under every interleaving without session loss,
      whichever calls fail (C5), the outcome of an election (C26); [Start] as a program refines the
      session's start (C27); a master that disconnects keeps believing it is one
      (C39); a listener joins at most one later election (C36), recoveries leak
      connections and goroutines, and a disconnection by the application is undone.
    - Rip: the log middleware changes nothing of a response (C20); concurrent
      requests are counted exactly between two runs of the counter's cron entry
      (C10); [Fail] on every branch (C31); bodies survive the gzip middleware
      (C13), unless the handler declares a length; a request through both
      middlewares, with what is measured of it (C11).
    - Solar: interfaces are created once and before use (C18); a panic of the
      client looks like success.
    - Files and tests: [Scan] is its reference (C19); archives restore their files
      (C33), errors of the decompression are lost; what the test server answers on
      every branch (C32).

    ** Conventions and bounds

    Durations, timestamps and counters are [Z]; where a width matters the
    wrap-around is written out ([int64_of_Z], [uint64_of_Z]).  There is no fuel:
    loops over slices and maps are structural, endless loops are step relations
    or functions of the list of outcomes of the outside calls, and the theorems
    about them are for every list, or prove that the loop ends.  Maps that are
    ranged over are given with the order in which [range] yields them, any
    permutation.  A panic is a result, not an assumption.  Concurrent code is
    interleaved at its map, channel and server operations, in [SchedulerConc] also
    at the reads and writes of the [running] flag, and in [SnitchConc] at its
    atomic memory operations; other plain memory accesses between two of them are
    one step, so data races on single words are outside the model.  The body of a
    response is what the server's [Write] accepted; [sent_body] is what goes out,
    nothing for HEAD.  A gzip
    writer that meets an error of its output reports zero bytes.

    ** Not modelled

    The text of log messages; the serializers, JSON, regular expressions, the HTTP
    client, cron, ZooKeeper, the Solr client, the database drivers, the digests
    and the gzip format, which are parameters; hijacked
    connections in [Http]; the routes of the HTTP router; the Go test
    functions under [src/tests]; decompressing a file onto itself, whose outcome is an
    argument. *)

From stdpp Require Import base gmap strings list sorting relations.
From Stdlib Require Import ZArith Lia.

(** ** Outcomes of Go functions

    A Go function that returns [(T, error)] and that may panic is modelled by
    [result E T]: [Ok] is the [nil]-error return, [Err] the error return, and
    [Panic] an unrecovered run-time panic of the calling goroutine. *)

Inductive result (E A : Type) : Type :=
| Ok (a : A)
| Err (e : E)
| Panic.

Arguments Ok {E A} a.
Arguments Err {E A} e.
Arguments Panic {E A}.

Declare Scope go_scope.
Delimit Scope go_scope with go.

Definition rbind {E A B : Type} (m : result E A) (k : A -> result E B) : result E B :=
  match m with
  | Ok a => k a
  | Err e => Err e
  | Panic => Panic
  end.

Notation "'let*' x := m 'in' k" := (rbind m (fun x => k))
  (at level 10, x pattern, m at level 100, k at level 200) : go_scope.

Definition rmap {E A B : Type} (f : A -> B) (m : result E A) : result E B :=
  rbind m (fun a => Ok (f a)).

Definition is_ok {E A : Type} (m : result E A) : bool :=
  match m with Ok _ => true | _ => false end.

(** A loop over a slice that stops at the first error or panic. *)
Fixpoint rmapM {E A B : Type} (f : A -> result E B) (l : list A) : result E (list B) :=
  match l with
  | [] => Ok []
  | x :: l' => rbind (f x) (fun y => rbind (rmapM f l') (fun ys => Ok (y :: ys)))
  end.

Lemma rbind_assoc {E A B C} (m : result E A) (f : A -> result E B) (g : B -> result E C) :
  rbind (rbind m f) g = rbind m (fun a => rbind (f a) g).
Proof. by destruct m. Qed.

Lemma rbind_Ok_inv {E A B} (m : result E A) (k : A -> result E B) b :
  rbind m k = Ok b -> exists a, m = Ok a /\ k a = Ok b.
Proof. destruct m as [a| |]; naive_solver. Qed.

(** Inverts every hypothesis that says a chain of binds returned [Ok]. *)
Ltac inv_ok :=
  repeat match goal with
  | H : rbind _ _ = Ok _ |- _ =>
      let a := fresh "r" in let H1 := fresh H in
      apply rbind_Ok_inv in H as (a & H1 & H)
  | H : Ok _ = Ok _ |- _ => injection H as H
  | H : Err _ = Ok _ |- _ => discriminate H
  | H : Panic = Ok _ |- _ => discriminate H
  end.

Section results.
Context {E A B : Type}.

Lemma rmapM_app (f : A -> result E B) l1 l2 :
  rmapM f (l1 ++ l2) = rbind (rmapM f l1) (fun y1 => rbind (rmapM f l2) (fun y2 => Ok (y1 ++ y2))).
Proof.
  induction l1 as [|x l1 IH]; simpl.
  - by destruct (rmapM f l2).
  - destruct (f x); simpl; [|done..]. rewrite IH.
    destruct (rmapM f l1); simpl; [|done..]. by destruct (rmapM f l2).
Qed.

Lemma rmapM_ext (f g : A -> result E B) l :
  (forall x, x ∈ l -> f x = g x) -> rmapM f l = rmapM g l.
Proof.
  induction l as [|x l IH]; intros Hfg; simpl; [done|].
  rewrite (Hfg x) by set_solver. rewrite IH; [done|]. set_solver.
Qed.

Lemma rmapM_Ok_length (f : A -> result E B) l ys :
  rmapM f l = Ok ys -> length ys = length l.
Proof.
  revert ys; induction l as [|x l IH]; intros ys H; simpl in H; [naive_solver|].
  inv_ok. subst. simpl. f_equal. by apply IH.
Qed.

Lemma rmapM_Ok_Forall2 (f : A -> result E B) l ys :
  rmapM f l = Ok ys <-> Forall2 (fun x y => f x = Ok y) l ys.
Proof.
  split.
  - revert ys; induction l as [|x l IH]; intros ys H; simpl in H.
    { simplify_eq. constructor. }
    inv_ok. subst. constructor; auto.
  - induction 1 as [|x y l ys Hx _ IH]; simpl; [done|]. by rewrite Hx, IH.
Qed.
End results.

(** ** Strings *)

Lemma string_app_nil_r (s : string) : s +:+ "" = s.
Proof. induction s as [|a s IH]; [done|]. by apply (f_equal (String a)). Qed.

Lemma string_app_assoc (s t u : string) : (s +:+ t) +:+ u = s +:+ (t +:+ u).
Proof. induction s as [|a s IH]; [done|]. by apply (f_equal (String a)). Qed.

Lemma string_length_app (s t : string) : String.length (s +:+ t) = (String.length s + String.length t)%nat.
Proof. induction s as [|a s IH]; [done|]. exact (f_equal S IH). Qed.

(** ** Machine integers

    [int] is 64 bits wide on the platforms the library targets, so [int],
    [int64] and [time.Duration] are [Z] values in [int64_range], and [uint64]
    values are in [uint64_range]. *)

Definition two64 : Z := Eval cbv in (2 ^ 64)%Z.
Definition two63 : Z := Eval cbv in (2 ^ 63)%Z.

Definition uint64_range (z : Z) : Prop := (0 <= z < two64)%Z.
Definition int64_range (z : Z) : Prop := (- two63 <= z < two63)%Z.

(** The conversion [uint64(i)] and its inverse [int64(u)]: two's complement. *)
Definition uint64_of_Z (z : Z) : Z := (z mod two64)%Z.
Definition int64_of_Z (z : Z) : Z := ((z + two63) mod two64 - two63)%Z.

Lemma uint64_of_Z_range z : uint64_range (uint64_of_Z z).
Proof. unfold uint64_range, uint64_of_Z, two64. apply Z.mod_pos_bound. lia. Qed.

Lemma uint64_of_Z_id z : uint64_range z -> uint64_of_Z z = z.
Proof. unfold uint64_range, uint64_of_Z. apply Z.mod_small. Qed.

Lemma int64_of_Z_range z : int64_range (int64_of_Z z).
Proof.
  unfold int64_range, int64_of_Z.
  pose proof (Z.mod_pos_bound (z + two63) two64 ltac:(by unfold two64)).
  unfold two63, two64 in *. lia.
Qed.

Lemma int64_of_Z_id z : int64_range z -> int64_of_Z z = z.
Proof.
  unfold int64_range, int64_of_Z. intros ?.
  rewrite Z.mod_small; unfold two63, two64 in *; lia.
Qed.

Lemma int64_of_uint64 z : int64_range z -> int64_of_Z (uint64_of_Z z) = z.
Proof.
  intros H. rewrite <- (int64_of_Z_id z) at 2 by done.
  unfold int64_of_Z, uint64_of_Z. by rewrite Zplus_mod_idemp_l.
Qed.

(** ** [sort.Sort]

    [sort.Sort] leaves the slice a permutation of its input in which no element
    is [less] than one before it.  On the short slices the library sorts it is
    an insertion sort; where the elements are pairwise comparable the result
    does not depend on the algorithm ([sort_unique]). *)

Section go_sort.
Context {A : Type} (less : A -> A -> bool).

Fixpoint insert_by (x : A) (l : list A) : list A :=
  match l with
  | [] => [x]
  | y :: l' => if less x y then x :: l else y :: insert_by x l'
  end.

Definition go_sort (l : list A) : list A := foldr insert_by [] (reverse l).

Definition sorted_by : list A -> Prop :=
  StronglySorted (fun x y => less y x = false).

Lemma insert_by_perm x l : insert_by x l ≡ₚ x :: l.
Proof.
  induction l as [|y l IH]; simpl; [done|].
  destruct (less x y); [done|]. rewrite IH. apply Permutation_swap.
Qed.

Lemma go_sort_perm l : go_sort l ≡ₚ l.
Proof.
  unfold go_sort. rewrite <- (reverse_Permutation l) at 2.
  induction (reverse l) as [|x k IH]; simpl; [done|]. by rewrite insert_by_perm, IH.
Qed.

Lemma go_sort_length l : length (go_sort l) = length l.
Proof. by rewrite go_sort_perm. Qed.

(** [less] orders the elements satisfying [P] strictly and totally. *)
Record strict_order_on (P : A -> Prop) : Prop := {
  so_irrefl x : P x -> less x x = false;
  so_trans x y z : P x -> P y -> P z -> less x y = true -> less y z = true -> less x z = true;
  so_total x y : P x -> P y -> less x y = false -> less y x = false -> x = y;
}.

Context (P : A -> Prop) (HP : strict_order_on P).

Lemma insert_by_sorted x l :
  P x -> Forall P l -> sorted_by l -> sorted_by (insert_by x l).
Proof.
  intros Hx Hl Hs. induction Hs as [|y l Hs IH Hy]; simpl; [repeat constructor|].
  apply Forall_cons in Hl as [Hpy Hl].
  destruct (less x y) eqn:Hxy.
  - constructor; [by constructor|].
    assert (Hge : forall z, P z -> less z y = false -> less z x = false).
    { intros z Hz Hzy. destruct (less z x) eqn:Hzx; [|done].
      by rewrite (so_trans P HP z x y) in Hzy. }
    constructor.
    + destruct (less y x) eqn:Hyx; [|done].
      rewrite <- (so_irrefl P HP x Hx). symmetry. by apply (so_trans P HP x y x).
    + rewrite Forall_forall in Hy, Hl |- *. intros z Hz. apply Hge; auto.
  - constructor; [by apply IH|].
    rewrite insert_by_perm. constructor; done.
Qed.

Lemma go_sort_sorted l : Forall P l -> sorted_by (go_sort l).
Proof.
  intros Hl. rewrite <- (reverse_Permutation l) in Hl. unfold go_sort.
  induction (reverse l) as [|x k IH]; simpl; [constructor|].
  apply Forall_cons in Hl as [Hx Hk].
  apply insert_by_sorted; [done| |by apply IH].
  change (Forall P (foldr insert_by [] k)).
  assert (Hp : foldr insert_by [] k ≡ₚ k).
  { clear. induction k as [|z k IH]; simpl; [done|]. by rewrite insert_by_perm, IH. }
  by rewrite Hp.
Qed.

Lemma sort_unique l1 l2 :
  Forall P l1 -> sorted_by l1 -> sorted_by l2 -> l1 ≡ₚ l2 -> l1 = l2.
Proof.
  intros Hl1 Hs1. revert l2 Hl1. induction Hs1 as [|x l1 Hs1 IH Hx]; intros l2 Hl1 Hs2 Hp.
  { by apply Permutation_nil_l in Hp. }
  destruct Hs2 as [|y l2 Hs2 Hy]; [by apply Permutation_nil_r in Hp|].
  assert (Hl2 : Forall P (y :: l2)) by by rewrite <- Hp.
  apply Forall_cons in Hl1 as [Hpx Hl1]. apply Forall_cons in Hl2 as [Hpy Hl2].
  assert (x = y) as <-.
  { rewrite Forall_forall in Hx, Hy.
    assert (Hx' : x ∈ y :: l2) by (rewrite <- Hp; apply elem_of_cons; auto).
    assert (Hy' : y ∈ x :: l1) by (rewrite Hp; apply elem_of_cons; auto).
    apply elem_of_cons in Hx' as [?|Hx']; [done|].
    apply elem_of_cons in Hy' as [?|Hy']; [done|].
    apply (so_total P HP); auto. }
  f_equal. apply IH; [done..|]. by apply Permutation_cons_inv in Hp.
Qed.

(** The result of sorting does not depend on the order of the input. *)
Lemma go_sort_proper l1 l2 : Forall P l1 -> l1 ≡ₚ l2 -> go_sort l1 = go_sort l2.
Proof.
  intros Hl Hp. apply sort_unique.
  - by rewrite go_sort_perm.
  - by apply go_sort_sorted.
  - apply go_sort_sorted. by rewrite <- Hp.
  - by rewrite !go_sort_perm.
Qed.
End go_sort.

(** The same algorithm with a [Less] that may panic. *)
Section go_sortM.
Context {E A : Type} (less : A -> A -> result E bool).

Fixpoint insertM (x : A) (l : list A) : result E (list A) :=
  match l with
  | [] => Ok [x]
  | y :: l' => rbind (less x y) (fun b =>
      if b then Ok (x :: l) else rmap (cons y) (insertM x l'))
  end.

Definition go_sortM (l : list A) : result E (list A) :=
  foldr (fun x acc => rbind acc (insertM x)) (Ok []) (reverse l).

Lemma insertM_pure (f : A -> A -> bool) x l :
  (forall y, y ∈ l -> less x y = Ok (f x y)) -> insertM x l = Ok (insert_by f x l).
Proof.
  induction l as [|y l IH]; intros H; simpl; [done|].
  rewrite H by set_solver. simpl. destruct (f x y); [done|].
  rewrite IH by set_solver. done.
Qed.

Lemma go_sortM_pure (f : A -> A -> bool) l :
  (forall x y, x ∈ l -> y ∈ l -> less x y = Ok (f x y)) -> go_sortM l = Ok (go_sort f l).
Proof.
  intros H. unfold go_sortM, go_sort.
  assert (Hr : forall x y, x ∈ reverse l -> y ∈ reverse l -> less x y = Ok (f x y)).
  { intros x y. rewrite !elem_of_reverse. apply H. }
  clear H. induction (reverse l) as [|x k IH]; simpl; [done|].
  rewrite IH by set_solver. simpl. apply insertM_pure.
  assert (Hp : foldr (insert_by f) [] k ≡ₚ k).
  { clear. induction k as [|z k IH]; simpl; [done|]. by rewrite insert_by_perm, IH. }
  intros y. rewrite Hp. set_solver.
Qed.

(** [sort.Sort] calls [Less] as soon as there are two elements. *)
Lemma go_sortM_panic l :
  (2 <= length l)%nat -> (forall x y, x ∈ l -> y ∈ l -> less x y = Panic) -> go_sortM l = Panic.
Proof.
  intros Hl H. unfold go_sortM. rewrite <- length_reverse in Hl.
  assert (Hr : forall x y, x ∈ reverse l -> y ∈ reverse l -> less x y = Panic).
  { intros x y. rewrite !elem_of_reverse. apply H. }
  clear H. induction (reverse l) as [|x [|y k] IH]; simpl in *; [lia..|].
  destruct k as [|z k].
  - simpl. by rewrite Hr by set_solver.
  - rewrite IH; [done|simpl; lia|]. intros x' y' Hx' Hy'. by apply Hr; apply elem_of_cons; right.
Qed.

Lemma go_sortM_short x : go_sortM [x] = Ok [x].
Proof. done. Qed.
End go_sortM.

(** ** Step relations

    A predicate preserved by every step holds in every reachable state. *)
Lemma rtc_invariant {S : Type} (R : S -> S -> Prop) (P : S -> Prop) s s' :
  (forall a b, P a -> R a b -> P b) -> rtc R s s' -> P s -> P s'.
Proof. intros HP Hr. induction Hr; eauto. Qed.

(** Runs of a transition function: a list of actions, each of which may be
    disabled. *)
Section runs.
Context {Act S : Type} (act : Act -> S -> option S).

Fixpoint run_acts (l : list Act) (s : S) : option S :=
  match l with
  | [] => Some s
  | a :: l => act a s ≫= run_acts l
  end.

Lemma run_acts_app l1 l2 s : run_acts (l1 ++ l2) s = run_acts l1 s ≫= run_acts l2.
Proof.
  revert s. induction l1 as [|a l1 IH]; intros s; [done|]. simpl. destruct (act a s); [|done]. simpl. apply IH.
Qed.

Lemma run_acts_trans l1 l2 s s1 s2 :
  run_acts l1 s = Some s1 -> run_acts l2 s1 = Some s2 -> run_acts (l1 ++ l2) s = Some s2.
Proof. intros H1 H2. by rewrite run_acts_app, H1. Qed.

Lemma run_acts_invariant (P : S -> Prop) :
  (forall a s s', act a s = Some s' -> P s -> P s') -> forall l s s', run_acts l s = Some s' -> P s -> P s'.
Proof.
  intros HP l. induction l as [|a l IH]; intros s s' Hr Hs; simpl in Hr; [by simplify_eq|].
  destruct (act a s) as [s1|] eqn:E; [|done]. eauto.
Qed.

(** As a relation: [R s s'] between the ends of every run. *)
Lemma run_acts_relation (R : S -> S -> Prop) `{!PreOrder R} :
  (forall a s s', act a s = Some s' -> R s s') -> forall l s s', run_acts l s = Some s' -> R s s'.
Proof.
  intros HR l s s' Hr. eapply (run_acts_invariant (R s)); [|exact Hr|done].
  intros a s1 s2 Ha H1. etrans; [exact H1|by eapply HR].
Qed.
End runs.

(** ** Lists and strings *)

Lemma list_alter_alter {A} (f g : A -> A) i (l : list A) :
  alter f i (alter g i l) = alter (fun x => f (g x)) i l.
Proof.
  revert i. induction l as [|x l IH]; intros [|i]; [done..|]. by apply (f_equal (cons x)), IH.
Qed.

Lemma foldl_snoc {A B} (f : A -> B) l acc :
  foldl (fun acc x => acc ++ [f x]) acc l = acc ++ (f <$> l).
Proof.
  revert acc. induction l as [|x l IH]; intros acc; simpl; [by rewrite app_nil_r|].
  rewrite IH, <- app_assoc. done.
Qed.

Lemma string_append_assoc s t u : (s +:+ t) +:+ u = s +:+ (t +:+ u).
Proof. induction s as [|c s IH]; [done|]. exact (f_equal (String c) IH). Qed.

(** ** Automation

    The database [go] holds the facts the components share: ranges of converted
    integers, order laws and permutations of sorting. *)
Create HintDb go discriminated.
#[export] Hint Resolve uint64_of_Z_range int64_of_Z_range go_sort_perm : go.
#[export] Hint Rewrite @rbind_assoc @go_sort_length : go.

(** ** Counting the elements of a list that has one changed *)

Lemma filter_length_insert {A} (P : A -> Prop) `{forall x, Decision (P x)} (k : list A) i x y :
  k !! i = Some x ->
  (length (filter P (<[i := y]> k)) + (if decide (P x) then 1 else 0) =
   length (filter P k) + if decide (P y) then 1 else 0)%nat.
Proof.
  revert i. induction k as [|z k IH]; intros [|i] Hi; simplify_eq/=; rewrite !filter_cons.
  - destruct (decide (P x)), (decide (P y)); simpl; lia.
  - pose proof (IH _ Hi). destruct (decide (P z)); simpl; lia.
Qed.

Lemma filter_length_delete {A} (P : A -> Prop) `{forall x, Decision (P x)} (k : list A) i x :
  k !! i = Some x ->
  (length (filter P (delete i k)) + (if decide (P x) then 1 else 0) = length (filter P k))%nat.
Proof.
  revert i. induction k as [|z k IH]; intros [|i] Hi; simplify_eq/=; rewrite !filter_cons.
  - destruct (decide (P x)); simpl; lia.
  - pose proof (IH _ Hi). destruct (decide (P z)); simpl; lia.
Qed.

(** ** The elements of a list that has one changed *)

Lemma elem_insert {A} (k : list A) i x y : x ∈ <[i := y]> k -> x = y \/ x ∈ k.
Proof.
  intros [j Hj]%list_elem_of_lookup. apply list_lookup_insert_Some in Hj as [(_ & <- & _)|[_ Hj]]; [by left|].
  right. by eapply list_elem_of_lookup_2.
Qed.

Lemma elem_insert_ne {A} (k : list A) i x y z : k !! i = Some x -> z ∈ k -> z <> x -> z ∈ <[i := y]> k.
Proof.
  intros Hi [j Hj]%list_elem_of_lookup Hne. apply (list_elem_of_lookup_2 _ j).
  rewrite list_lookup_insert_ne; [done|]. intros ->. by simplify_eq.
Qed.

Lemma elem_delete {A} (k : list A) i x z : k !! i = Some x -> z ∈ k -> z <> x -> z ∈ delete i k.
Proof. intros Hi Hz Hne. rewrite (delete_Permutation k i x Hi) in Hz. by apply elem_of_cons in Hz as [->|?]. Qed.
