(* ===== verification/Float64.v ===== *)
(** * Go's [float64] (and [float32])

    A Go [float64] is an IEEE-754 binary64 value; the library stores it as its
    bit pattern wherever it is updated atomically ([snitch/custom_point.go]) and
    hashes that pattern ([hashing/byteconv.go]).  A [float64] is therefore its
    64-bit pattern here, with [math.Float64bits]/[math.Float64frombits] the
    constructor and projection, and arithmetic and comparisons are those of
    [SpecFloat] on the decoded number.  The payload of a NaN produced by an
    operation is not specified by Go; the canonical NaN of [math.NaN] is used. *)

From stdpp Require Import base numbers list.
From Stdlib Require Import ZArith Lia.
From Corelib Require Import SpecFloat.
From S2P Require Import Prelude.

Local Open Scope Z_scope.

Record float64 : Type := Float64frombits { Float64bits : Z }.

#[global] Instance float64_eq_dec : EqDecision float64.
Proof. solve_decision. Defined.

Definition float64_range (f : float64) : Prop := uint64_range (Float64bits f).

(** ** The binary64 format: 1 sign, 11 exponent and 52 fraction bits *)

Definition frac_mod : Z := Eval cbv in 2 ^ 52.
Definition sign_bit : Z := Eval cbv in 2 ^ 63.
Definition nan_bits : Z := Eval cbv in 2047 * 2 ^ 52 + 2 ^ 51 + 1.

Definition bits_frac (b : Z) : Z := b mod frac_mod.
Definition bits_exp (b : Z) : Z := (b / frac_mod) mod 2048.
Definition bits_sign (b : Z) : bool := (sign_bit <=? b).

Definition decode (b : Z) : spec_float :=
  let s := bits_sign b in
  let e := bits_exp b in
  let m := bits_frac b in
  if e =? 0 then
    match m with Zpos p => S754_finite s p (-1074) | _ => S754_zero s end
  else if e =? 2047 then
    if m =? 0 then S754_infinity s else S754_nan
  else S754_finite s (Z.to_pos (m + frac_mod)) (e - 1075).

Definition join_bits (s : bool) (e m : Z) : Z :=
  (if s then sign_bit else 0) + e * frac_mod + m.

Definition encode (x : spec_float) : Z :=
  match x with
  | S754_zero s => join_bits s 0 0
  | S754_infinity s => join_bits s 2047 0
  | S754_nan => nan_bits
  | S754_finite s m e =>
      if Zpos m <? frac_mod then join_bits s 0 (Zpos m)
      else join_bits s (e + 1075) (Zpos m - frac_mod)
  end.

Definition f64_decode (f : float64) : spec_float := decode (Float64bits f).
Definition f64_encode (x : spec_float) : float64 := Float64frombits (encode x).

(** ** Operations *)

Definition f64_add (a b : float64) : float64 :=
  f64_encode (SFadd 53 1024 (f64_decode a) (f64_decode b)).
Definition f64_div (a b : float64) : float64 :=
  f64_encode (SFdiv 53 1024 (f64_decode a) (f64_decode b)).
Definition f64_ltb (a b : float64) : bool := SFltb (f64_decode a) (f64_decode b).
Definition f64_leb (a b : float64) : bool := SFleb (f64_decode a) (f64_decode b).
Definition f64_eqb (a b : float64) : bool := SFeqb (f64_decode a) (f64_decode b).

(** The conversion [float64(i)] of an integer, rounded to nearest even. *)
Definition f64_of_Z (z : Z) : float64 :=
  f64_encode (binary_normalize 53 1024 z 0 false).

Definition f64_zero : float64 := Float64frombits 0.

Definition f64_is_nan (f : float64) : bool :=
  match f64_decode f with S754_nan => true | _ => false end.
Definition f64_is_inf (f : float64) : bool :=
  match f64_decode f with S754_infinity _ => true | _ => false end.

(** [float32] values: the conversion to [float64] is exact. *)
Definition decode32 (b : Z) : spec_float :=
  let s := (2 ^ 31 <=? b) in
  let e := (b / 2 ^ 23) mod 256 in
  let m := b mod 2 ^ 23 in
  if e =? 0 then
    match m with Zpos p => S754_finite s p (-149) | _ => S754_zero s end
  else if e =? 255 then
    if m =? 0 then S754_infinity s else S754_nan
  else S754_finite s (Z.to_pos (m + 2 ^ 23)) (e - 150).

Definition f64_of_f32bits (b : Z) : float64 :=
  f64_encode
    match decode32 b with
    | S754_finite s m e => binary_round 53 1024 s m e
    | x => x
    end.

(** ** Encoding and decoding *)

Lemma join_bits_split s e m :
  join_bits s e m = m + (e + (if s then 2048 else 0)) * frac_mod.
Proof. unfold join_bits, sign_bit, frac_mod. destruct s; lia. Qed.

Lemma join_bits_decode s e m :
  0 <= e < 2048 -> 0 <= m < frac_mod ->
  bits_sign (join_bits s e m) = s /\ bits_exp (join_bits s e m) = e /\
  bits_frac (join_bits s e m) = m /\ uint64_range (join_bits s e m).
Proof.
  intros He Hm. unfold bits_exp, bits_frac. split; [|split; [|split]].
  - unfold bits_sign, join_bits, sign_bit, frac_mod in *.
    destruct s; [apply Z.leb_le|apply Z.leb_gt]; lia.
  - rewrite join_bits_split, Z.div_add, Z.div_small by (unfold frac_mod in *; lia).
    destruct s; rewrite ?Z.add_0_l, ?Z.add_0_r.
    + replace (e + 2048) with (e + 1 * 2048) by lia. rewrite Z_mod_plus_full. by apply Z.mod_small.
    + by apply Z.mod_small.
  - rewrite join_bits_split, Z_mod_plus_full. by apply Z.mod_small.
  - unfold uint64_range, join_bits, sign_bit, frac_mod, two64 in *. destruct s; lia.
Qed.

Lemma bits_join b :
  uint64_range b -> join_bits (bits_sign b) (bits_exp b) (bits_frac b) = b.
Proof.
  intros Hb. rewrite join_bits_split.
  assert (Hq : bits_exp b + (if bits_sign b then 2048 else 0) = b / frac_mod).
  { unfold bits_exp, bits_sign, uint64_range, sign_bit, frac_mod, two64 in *.
    pose proof (Z.div_mod b 4503599627370496 ltac:(lia)).
    pose proof (Z.mod_pos_bound b 4503599627370496 ltac:(lia)).
    set (q := b / 4503599627370496) in *.
    pose proof (Z.div_mod q 2048 ltac:(lia)). pose proof (Z.mod_pos_bound q 2048 ltac:(lia)).
    destruct (Z.leb_spec 9223372036854775808 b);
      [assert (q / 2048 = 1) by lia|assert (q / 2048 = 0) by lia]; lia. }
  rewrite Hq. unfold bits_frac. pose proof (Z.div_mod b frac_mod ltac:(done)). lia.
Qed.

Lemma bits_frac_range b : 0 <= bits_frac b < frac_mod.
Proof. unfold bits_frac, frac_mod. apply Z.mod_pos_bound. lia. Qed.

Lemma bits_exp_range b : 0 <= bits_exp b < 2048.
Proof. unfold bits_exp. apply Z.mod_pos_bound. lia. Qed.

(** A bit pattern is recovered from the number it denotes, except for the
    payload of a NaN. *)
Lemma encode_decode b :
  uint64_range b -> decode b <> S754_nan -> encode (decode b) = b.
Proof.
  intros Hb. pose proof (bits_join b Hb) as Hj.
  pose proof (bits_frac_range b) as Hm. pose proof (bits_exp_range b) as He.
  unfold decode. destruct (Z.eqb_spec (bits_exp b) 0) as [E|E].
  - intros _. rewrite E in Hj. destruct (bits_frac b) as [|p|p] eqn:Ef; cbn [encode].
    + done.
    + destruct (Z.ltb_spec (Z.pos p) frac_mod); [done|lia].
    + lia.
  - destruct (Z.eqb_spec (bits_exp b) 2047) as [E'|E'].
    + destruct (Z.eqb_spec (bits_frac b) 0) as [E0|]; [|done].
      intros _. cbn [encode]. by rewrite <- E', <- E0 at 1.
    + intros _. cbn [encode]. rewrite Z2Pos.id by (unfold frac_mod in *; lia).
      destruct (Z.ltb_spec (bits_frac b + frac_mod) frac_mod); [lia|].
      rewrite <- Hj at 4. unfold join_bits. lia.
Qed.

(** ** Digits of a mantissa *)

Lemma digits2_pos_spec p :
  2 ^ (Zpos (digits2_pos p) - 1) <= Zpos p < 2 ^ Zpos (digits2_pos p).
Proof.
  induction p as [p IH|p IH|]; cbn [digits2_pos]; [| |done].
  all: rewrite Pos2Z.inj_succ;
    replace (Z.succ (Zpos (digits2_pos p)) - 1) with (Z.succ (Zpos (digits2_pos p) - 1)) by lia;
    rewrite !Z.pow_succ_r by lia; lia.
Qed.

Lemma digits2_pos_unique p d :
  2 ^ (d - 1) <= Zpos p < 2 ^ d -> Zpos (digits2_pos p) = d.
Proof.
  intros Hd. pose proof (digits2_pos_spec p) as Hp.
  assert (0 < d) by (destruct (Z.lt_ge_cases 0 d); [done|];
    destruct Hd as [_ Hd]; destruct (Z.eq_dec d 0) as [->|]; [simpl in Hd; lia|];
    rewrite Z.pow_neg_r in Hd by lia; lia).
  assert (d - 1 < Zpos (digits2_pos p)).
  { apply (Z.pow_lt_mono_r_iff 2); lia. }
  assert (Zpos (digits2_pos p) - 1 < d).
  { apply (Z.pow_lt_mono_r_iff 2); lia. }
  lia.
Qed.

Lemma decode_encode x : valid_binary 53 1024 x = true -> decode (encode x) = x.
Proof.
  assert (Hdec : forall s e m, 0 <= e < 2048 -> 0 <= m < frac_mod ->
    decode (join_bits s e m) =
    if e =? 0 then match m with Zpos p => S754_finite s p (-1074) | _ => S754_zero s end
    else if e =? 2047 then if m =? 0 then S754_infinity s else S754_nan
    else S754_finite s (Z.to_pos (m + frac_mod)) (e - 1075)).
  { intros s e m He Hm. unfold decode.
    destruct (join_bits_decode s e m He Hm) as (-> & -> & -> & _). done. }
  destruct x as [s|s| |s m e]; cbn [valid_binary encode]; intros Hv.
  - by rewrite Hdec.
  - by rewrite Hdec.
  - done.
  - unfold bounded, canonical_mantissa, fexp, emin in Hv.
    apply andb_true_iff in Hv as [Hc%Z.eqb_eq He%Z.leb_le].
    pose proof (digits2_pos_spec m) as Hm. unfold frac_mod in *.
    destruct (Z.ltb_spec (Zpos m) 4503599627370496) as [Hs|Hs].
    + assert (Zpos (digits2_pos m) - 1 < 52) by (apply (Z.pow_lt_mono_r_iff 2); lia).
      rewrite Hdec by lia. cbn. f_equal. lia.
    + assert (52 < Zpos (digits2_pos m)).
      { apply (Z.pow_lt_mono_r_iff 2); [lia..|]. change (2 ^ 52) with 4503599627370496. lia. }
      assert (Hd : Zpos (digits2_pos m) = 53) by lia. rewrite Hd in Hm.
      change (2 ^ (53 - 1)) with 4503599627370496 in Hm.
      change (2 ^ 53) with 9007199254740992 in Hm.
      rewrite Hdec by lia.
      destruct (Z.eqb_spec (e + 1075) 0); [lia|]. destruct (Z.eqb_spec (e + 1075) 2047); [lia|].
      f_equal; [|lia]. rewrite Z.sub_add. done.
Qed.

(** ** The order on numbers

    Each non-NaN number is mapped to a triple of integers whose lexicographic
    order is the order of the numbers. *)

Definition fkey (x : spec_float) : Z * Z * Z :=
  match x with
  | S754_zero _ => (0, 0, 0)
  | S754_infinity s => (if s then -2 else 2, 0, 0)
  | S754_nan => (0, 0, 0)
  | S754_finite s m e => if s then (-1, - e, - Zpos m) else (1, e, Zpos m)
  end.

Definition key_lt (k1 k2 : Z * Z * Z) : Prop :=
  k1.1.1 < k2.1.1 \/ k1.1.1 = k2.1.1 /\
    (k1.1.2 < k2.1.2 \/ k1.1.2 = k2.1.2 /\ k1.2 < k2.2).

Lemma SFcompare_fkey x y :
  x <> S754_nan -> y <> S754_nan ->
  match SFcompare x y with
  | Some Lt => key_lt (fkey x) (fkey y)
  | Some Eq => fkey x = fkey y
  | Some Gt => key_lt (fkey y) (fkey x)
  | None => False
  end.
Proof.
  unfold key_lt.
  destruct x as [s1|s1| |s1 m1 e1], y as [s2|s2| |s2 m2 e2]; intros Hx Hy; try congruence;
    try (destruct s1; try destruct s2; cbn; lia || done); try (destruct s2; cbn; lia || done).
  cbn [SFcompare]. change (Pos.compare_cont Eq m1 m2) with (Pos.compare m1 m2).
  destruct s1, s2; cbn; try lia;
    destruct (Z.compare_spec e1 e2); cbn; try lia;
    destruct (Pos.compare_spec m1 m2); cbn; subst; done || lia.
Qed.

Section order.
Implicit Types a b c : float64.

Lemma f64_is_nan_false a : f64_is_nan a = false <-> f64_decode a <> S754_nan.
Proof. unfold f64_is_nan. by destruct (f64_decode a). Qed.

Lemma f64_ltb_key a b :
  f64_is_nan a = false -> f64_is_nan b = false ->
  f64_ltb a b = true <-> key_lt (fkey (f64_decode a)) (fkey (f64_decode b)).
Proof.
  rewrite !f64_is_nan_false. intros Ha Hb. unfold f64_ltb, SFltb.
  pose proof (SFcompare_fkey _ _ Ha Hb) as H. unfold key_lt in *.
  destruct (SFcompare _ _) as [[]|]; [rewrite H|..]; split; try done; lia.
Qed.

Lemma f64_eqb_key a b :
  f64_is_nan a = false -> f64_is_nan b = false ->
  f64_eqb a b = true <-> fkey (f64_decode a) = fkey (f64_decode b).
Proof.
  rewrite !f64_is_nan_false. intros Ha Hb. unfold f64_eqb, SFeqb.
  pose proof (SFcompare_fkey _ _ Ha Hb) as H. unfold key_lt in *.
  destruct (SFcompare _ _) as [[]|]; split; try done; intros Heq; rewrite Heq in H; lia.
Qed.

Lemma f64_ltb_nan_l a b : f64_is_nan a = true -> f64_ltb a b = false.
Proof. unfold f64_is_nan, f64_ltb. by destruct (f64_decode a). Qed.

Lemma f64_ltb_nan_r a b : f64_is_nan b = true -> f64_ltb a b = false.
Proof. unfold f64_is_nan, f64_ltb. destruct (f64_decode a), (f64_decode b); done. Qed.

Lemma f64_ltb_irrefl a : f64_ltb a a = false.
Proof.
  destruct (f64_is_nan a) eqn:Ha; [by apply f64_ltb_nan_l|].
  apply not_true_iff_false. rewrite f64_ltb_key by done. unfold key_lt. lia.
Qed.

Lemma f64_ltb_trans a b c :
  f64_ltb a b = true -> f64_ltb b c = true -> f64_ltb a c = true.
Proof.
  destruct (f64_is_nan a) eqn:Ha; [by rewrite f64_ltb_nan_l|].
  destruct (f64_is_nan b) eqn:Hb; [by rewrite f64_ltb_nan_r|].
  destruct (f64_is_nan c) eqn:Hc; [by rewrite (f64_ltb_nan_r b)|].
  rewrite !f64_ltb_key by done. unfold key_lt. lia.
Qed.

Lemma f64_ltb_total a b :
  f64_is_nan a = false -> f64_is_nan b = false ->
  f64_ltb a b = false -> f64_ltb b a = false -> f64_eqb a b = true.
Proof.
  intros Ha Hb. rewrite <- !not_true_iff_false, !f64_ltb_key, f64_eqb_key by done.
  unfold key_lt. destruct (fkey (f64_decode a)) as [[x1 y1] z1], (fkey (f64_decode b)) as [[x2 y2] z2].
  cbn. intros. repeat f_equal; lia.
Qed.

Lemma f64_ltb_false_trans a b c :
  f64_is_nan a = false -> f64_is_nan b = false -> f64_is_nan c = false ->
  f64_ltb b a = false -> f64_ltb c b = false -> f64_ltb c a = false.
Proof.
  intros Ha Hb Hc. rewrite <- !not_true_iff_false, !f64_ltb_key by done. unfold key_lt. lia.
Qed.

Lemma f64_eqb_sym a b : f64_eqb a b = f64_eqb b a.
Proof.
  destruct (f64_is_nan a) eqn:Ha.
  { unfold f64_is_nan, f64_eqb in *. by destruct (f64_decode a), (f64_decode b). }
  destruct (f64_is_nan b) eqn:Hb.
  { unfold f64_is_nan, f64_eqb in *. by destruct (f64_decode a), (f64_decode b). }
  apply eq_bool_prop_intro. rewrite !Is_true_true, !f64_eqb_key by done. naive_solver.
Qed.

Lemma f64_eqb_refl a : f64_eqb a a = negb (f64_is_nan a).
Proof.
  destruct (f64_is_nan a) eqn:Ha; [unfold f64_is_nan, f64_eqb in *; by destruct (f64_decode a)|].
  by apply f64_eqb_key.
Qed.
End order.

(** ** Integers below 2^53 are exact

    [int_float n] is the normalised binary64 number of value [n]; rounding any
    representation [n * 2^j * 2^(-j)] of [n] yields it, so conversions from
    integers and sums of such conversions are exact. *)

Definition max_exact : Z := Eval cbv in 2 ^ 53.

Definition int_float (n : Z) : spec_float :=
  match n with
  | Zpos p =>
      let k := 53 - Zpos (digits2_pos p) in
      S754_finite false (Z.to_pos (Zpos p * 2 ^ k)) (- k)
  | _ => S754_zero false
  end.

Lemma digits2_pos_mul_pow p q j :
  0 <= j -> Zpos q = Zpos p * 2 ^ j -> Zpos (digits2_pos q) = Zpos (digits2_pos p) + j.
Proof.
  intros Hj Hq. apply digits2_pos_unique. rewrite Hq.
  pose proof (digits2_pos_spec p). pose proof (Z.pow_pos_nonneg 2 j ltac:(lia) Hj).
  replace (Zpos (digits2_pos p) + j - 1) with (Zpos (digits2_pos p) - 1 + j) by lia.
  rewrite !Z.pow_add_r by lia. nia.
Qed.

Lemma digits2_pos_small p : Zpos p < max_exact -> 1 <= Zpos (digits2_pos p) <= 53.
Proof.
  intros Hp. pose proof (digits2_pos_spec p).
  assert (Zpos (digits2_pos p) - 1 < 53); [|lia].
  apply (Z.pow_lt_mono_r_iff 2); [lia..|]. change (2 ^ 53) with max_exact. lia.
Qed.

Lemma iter_xO p d : Zpos (Pos.iter xO p d) = Zpos p * 2 ^ Zpos d.
Proof.
  revert p. induction d as [|d IH] using Pos.peano_ind; intros p; [cbn; lia|].
  rewrite Pos.iter_succ, Pos2Z.inj_succ, Z.pow_succ_r, Pos2Z.inj_xO, IH by lia. lia.
Qed.

Lemma iter_pos_comm {A} (f : A -> A) d x : iter_pos f d (f x) = f (iter_pos f d x).
Proof. revert x. induction d as [d IH|d IH|]; intros x; cbn [iter_pos]; by rewrite ?IH. Qed.

Lemma iter_pos_succ {A} (f : A -> A) d x : iter_pos f (Pos.succ d) x = iter_pos f d (f x).
Proof.
  revert x. induction d as [d IH|d IH|]; intros x; [|done..].
  change (Pos.succ d~1) with (Pos.succ d)~0%positive. cbn [iter_pos].
  by rewrite !IH, !iter_pos_comm.
Qed.

Lemma iter_shr_1 d m :
  iter_pos shr_1 d (Build_shr_record (Zpos m * 2 ^ Zpos d) false false)
  = Build_shr_record (Zpos m) false false.
Proof.
  revert m. induction d as [|d IH] using Pos.peano_ind; intros m.
  - cbn [iter_pos]. by replace (Zpos m * 2 ^ 1) with (Zpos m~0) by lia.
  - rewrite iter_pos_succ, Pos2Z.inj_succ, Z.pow_succ_r by lia.
    replace (Zpos m * (2 * 2 ^ Zpos d)) with (2 * (Zpos m * 2 ^ Zpos d)) by lia.
    rewrite <- (IH m) at 1. f_equal.
    pose proof (Z.pow_pos_nonneg 2 (Zpos d) ltac:(lia) ltac:(lia)).
    destruct (Zpos m * 2 ^ Zpos d) eqn:E; [lia|done|lia].
Qed.

Lemma fexp_int d j :
  1 <= d -> 0 <= j <= 100 -> fexp 53 1024 (d + j + - j) = d - 53.
Proof. intros. unfold fexp, emin. lia. Qed.

(** Rounding a mantissa that already has the right exponent changes nothing. *)
Lemma binary_round_aux_exact m e :
  Zpos (digits2_pos m) = 53 -> -100 <= e <= 971 ->
  binary_round_aux 53 1024 false (Zpos m) e loc_Exact = S754_finite false m e.
Proof.
  intros Hd He. unfold binary_round_aux, shr_fexp. cbn [shr_record_of_loc Zdigits2].
  rewrite Hd. replace (fexp 53 1024 (53 + e) - e) with 0 by (unfold fexp, emin; lia).
  cbn [shr loc_of_shr_record shr_m round_nearest_even Zdigits2 shr_record_of_loc].
  rewrite Hd. replace (fexp 53 1024 (53 + e) - e) with 0 by (unfold fexp, emin; lia).
  cbn [shr shr_m]. destruct (Z.leb_spec e (1024 - 53)); [done|lia].
Qed.

(** A longer mantissa with trailing zeros is shifted right exactly. *)
Lemma binary_round_aux_shift m e d :
  Zpos (digits2_pos m) = 53 -> -100 <= e <= 971 ->
  binary_round_aux 53 1024 false (Zpos m * 2 ^ Zpos d) (e - Zpos d) loc_Exact
  = S754_finite false m e.
Proof.
  intros Hd He. rewrite <- (binary_round_aux_exact m e Hd He).
  destruct (Zpos m * 2 ^ Zpos d) as [|q|q] eqn:Eq; [| |].
  1,3: pose proof (Z.pow_pos_nonneg 2 (Zpos d) ltac:(lia) ltac:(lia)); lia.
  pose proof (digits2_pos_mul_pow m q (Zpos d) ltac:(lia) ltac:(lia)) as Hq.
  unfold binary_round_aux, shr_fexp at 1 3. cbn [shr_record_of_loc Zdigits2].
  rewrite Hq, Hd.
  replace (fexp 53 1024 (53 + Zpos d + (e - Zpos d)) - (e - Zpos d)) with (Zpos d)
    by (unfold fexp, emin; lia).
  replace (fexp 53 1024 (53 + e) - e) with 0 by (unfold fexp, emin; lia).
  cbn [shr]. rewrite <- Eq, iter_shr_1. by replace (e - Zpos d + Zpos d) with e by lia.
Qed.

Lemma int_float_pos p :
  Zpos p < max_exact ->
  exists m, Zpos m = Zpos p * 2 ^ (53 - Zpos (digits2_pos p)) /\
    Zpos (digits2_pos m) = 53 /\
    int_float (Zpos p) = S754_finite false m (- (53 - Zpos (digits2_pos p))).
Proof.
  intros Hp. pose proof (digits2_pos_small p Hp). cbn [int_float].
  pose proof (Z.pow_pos_nonneg 2 (53 - Zpos (digits2_pos p)) ltac:(lia) ltac:(lia)).
  exists (Z.to_pos (Zpos p * 2 ^ (53 - Zpos (digits2_pos p)))).
  rewrite Z2Pos.id by lia. split; [done|]. split; [|done].
  rewrite (digits2_pos_mul_pow p _ (53 - Zpos (digits2_pos p))); [lia..|].
  rewrite Z2Pos.id by lia. done.
Qed.

Lemma binary_round_int p j q :
  Zpos p < max_exact -> 0 <= j <= 53 -> Zpos q = Zpos p * 2 ^ j ->
  binary_round 53 1024 false q (- j) = int_float (Zpos p).
Proof.
  intros Hp Hj Hq. destruct (int_float_pos p Hp) as (m & Hm & Hdm & ->).
  pose proof (digits2_pos_small p Hp) as Hdp.
  unfold binary_round, shl_align.
  rewrite (digits2_pos_mul_pow p q j), fexp_int by lia.
  replace (Zpos (digits2_pos p) - 53 - - j) with (j - (53 - Zpos (digits2_pos p))) by lia.
  set (k := 53 - Zpos (digits2_pos p)) in *.
  destruct (j - k) as [|d|d] eqn:Ed.
  - assert (j = k) as -> by lia. assert (q = m) as -> by lia.
    apply binary_round_aux_exact; lia.
  - replace (Zpos q) with (Zpos m * 2 ^ Zpos d).
    + replace (- j) with (- k - Zpos d) by lia. apply binary_round_aux_shift; lia.
    + rewrite Hq, Hm. replace j with (k + Zpos d) by lia. rewrite Z.pow_add_r by lia. lia.
  - rewrite iter_xO. replace (Zpos q * 2 ^ Zpos d) with (Zpos m).
    + replace (Zpos (digits2_pos p) - 53) with (- k) by lia. apply binary_round_aux_exact; lia.
    + rewrite Hq, Hm. replace k with (j + Zpos d) by lia. rewrite Z.pow_add_r by lia. lia.
Qed.

Lemma binary_normalize_int n j :
  0 <= n < max_exact -> 0 <= j <= 53 ->
  binary_normalize 53 1024 (n * 2 ^ j) (- j) false = int_float n.
Proof.
  intros Hn Hj. pose proof (Z.pow_pos_nonneg 2 j ltac:(lia) ltac:(lia)).
  destruct n as [|p|p]; [done| |lia].
  destruct (Zpos p * 2 ^ j) as [|q|q] eqn:Eq; [lia| |lia].
  cbn [binary_normalize]. apply binary_round_int; lia.
Qed.

Lemma shl_align_int p j m k :
  Zpos m = Zpos p * 2 ^ k -> 0 <= k <= j ->
  Zpos (shl_align m (- k) (- j)).1 = Zpos p * 2 ^ j.
Proof.
  intros Hm Hk. unfold shl_align. replace (- j - - k) with (k - j) by lia.
  destruct (k - j) as [|d|d] eqn:Ed; cbn [fst]; [|lia|].
  - by replace j with k by lia.
  - rewrite iter_xO, Hm. replace j with (k + Zpos d) by lia. rewrite Z.pow_add_r by lia. lia.
Qed.

Lemma SFadd_int a b :
  0 <= a -> 0 <= b -> a + b < max_exact ->
  SFadd 53 1024 (int_float a) (int_float b) = int_float (a + b).
Proof.
  intros Ha Hb Hab. destruct a as [|p|p]; [|destruct b as [|q|q]|]; [| | |lia|lia].
  { destruct b; [done|done|lia]. }
  { by rewrite Z.add_0_r. }
  destruct (int_float_pos p ltac:(lia)) as (m1 & Hm1 & _ & ->).
  destruct (int_float_pos q ltac:(lia)) as (m2 & Hm2 & _ & ->).
  pose proof (digits2_pos_small p ltac:(lia)). pose proof (digits2_pos_small q ltac:(lia)).
  set (k1 := 53 - Zpos (digits2_pos p)) in *. set (k2 := 53 - Zpos (digits2_pos q)) in *.
  cbn [SFadd cond_Zopp]. rewrite <- Z.opp_max_distr.
  rewrite (shl_align_int p (Z.max k1 k2) m1 k1), (shl_align_int q (Z.max k1 k2) m2 k2) by (done || lia).
  rewrite <- Z.mul_add_distr_r. apply binary_normalize_int; lia.
Qed.

Lemma int_float_valid n : 0 <= n < max_exact -> valid_binary 53 1024 (int_float n) = true.
Proof.
  intros Hn. destruct n as [|p|p]; [done| |done].
  destruct (int_float_pos p ltac:(lia)) as (m & _ & Hd & ->).
  pose proof (digits2_pos_small p ltac:(lia)). cbn [valid_binary].
  unfold bounded, canonical_mantissa, fexp, emin. rewrite Hd.
  apply andb_true_iff. split; [apply Z.eqb_eq|apply Z.leb_le]; lia.
Qed.

Lemma f64_decode_of_Z n : 0 <= n < max_exact -> f64_decode (f64_of_Z n) = int_float n.
Proof.
  intros Hn. unfold f64_decode, f64_of_Z, f64_encode. cbn [Float64bits].
  rewrite <- (Z.mul_1_r n) at 1. change 1 with (2 ^ 0). change 0 with (- 0) at 2.
  rewrite binary_normalize_int by lia. apply decode_encode, int_float_valid, Hn.
Qed.

Lemma f64_of_Z_encode n : 0 <= n < max_exact -> f64_of_Z n = f64_encode (int_float n).
Proof.
  intros Hn. unfold f64_of_Z. f_equal.
  rewrite <- (Z.mul_1_r n) at 1. change 1 with (2 ^ 0). change 0 with (- 0) at 2.
  by apply binary_normalize_int.
Qed.

(** Sums of non-negative integers are exact below 2^53. *)
Lemma f64_add_of_Z a b :
  0 <= a -> 0 <= b -> a + b < max_exact -> f64_add (f64_of_Z a) (f64_of_Z b) = f64_of_Z (a + b).
Proof.
  intros. unfold f64_add. rewrite !f64_decode_of_Z by lia.
  rewrite SFadd_int by lia. symmetry. apply f64_of_Z_encode. lia.
Qed.

Lemma f64_of_Z_not_nan n : 0 <= n < max_exact -> f64_is_nan (f64_of_Z n) = false.
Proof. intros Hn. unfold f64_is_nan. rewrite f64_decode_of_Z by done. by destruct n. Qed.

Lemma f64_of_Z_0 : f64_of_Z 0 = f64_zero.
Proof. reflexivity. Qed.

(** Distinct integers below 2^53 convert to distinct numbers. *)
Lemma f64_of_Z_inj a b :
  0 <= a < max_exact -> 0 <= b < max_exact -> f64_of_Z a = f64_of_Z b -> a = b.
Proof.
  intros Ha Hb Heq. apply (f_equal f64_decode) in Heq. rewrite !f64_decode_of_Z in Heq by done.
  destruct a as [|p|p], b as [|q|q]; try done; try lia.
  destruct (int_float_pos p ltac:(lia)) as (m1 & Hm1 & _ & E1).
  destruct (int_float_pos q ltac:(lia)) as (m2 & Hm2 & _ & E2).
  rewrite E1, E2 in Heq. injection Heq as <- Hk.
  pose proof (digits2_pos_small p ltac:(lia)).
  replace (Zpos (digits2_pos q)) with (Zpos (digits2_pos p)) in * by lia.
  rewrite Hm1 in Hm2. apply Z.mul_cancel_r in Hm2; [done|].
  pose proof (Z.pow_pos_nonneg 2 (53 - Zpos (digits2_pos p)) ltac:(lia) ltac:(lia)). lia.
Qed.

(** ** Folds over numbers *)

(** A generic fold that keeps the extreme element for a strict order. *)
Section extreme.
Context (gt : float64 -> float64 -> bool).
Let step (acc v : float64) := if gt v acc then v else acc.

Lemma foldl_extreme_mem v0 vs : foldl step v0 vs ∈ v0 :: vs.
Proof.
  revert v0. induction vs as [|v vs IH]; intros v0; simpl; [by apply elem_of_cons; left|].
  rewrite !elem_of_cons. destruct (proj1 (elem_of_cons _ _ _) (IH (step v0 v))) as [->|]; [|auto].
  unfold step. destruct (gt v v0); auto.
Qed.

Context (ok : float64 -> Prop).
Context (Hirr : forall a, gt a a = false).
Context (Htr : forall a b c, ok a -> ok b -> ok c ->
  gt b a = false -> gt c b = false -> gt c a = false).
Context (Hasym : forall a b, ok a -> ok b -> gt a b = true -> gt b a = false).

Lemma foldl_extreme_bound v0 vs v :
  ok v0 -> Forall ok vs -> v ∈ v0 :: vs -> gt v (foldl step v0 vs) = false.
Proof.
  revert v0 v. induction vs as [|w vs IH]; intros v0 v H0 Hvs Hv; simpl.
  { apply list_elem_of_singleton in Hv as ->. apply Hirr. }
  apply Forall_cons in Hvs as [Hw Hvs].
  assert (Hs : ok (step v0 w)) by (unfold step; by destruct (gt w v0)).
  assert (Hr : ok (foldl step (step v0 w) vs)).
  { pose proof (foldl_extreme_mem (step v0 w) vs) as Hm.
    apply elem_of_cons in Hm as [->|Hm]; [done|]. rewrite Forall_forall in Hvs. auto. }
  assert (Hbase : gt (step v0 w) (foldl step (step v0 w) vs) = false)
    by (apply IH; [done..|by apply elem_of_cons; left]).
  apply elem_of_cons in Hv as [->|[->|Hv]%elem_of_cons]; [| |apply IH; [done..|by apply elem_of_cons; right]].
  - apply (Htr _ (step v0 w)); [done..|]. unfold step.
    destruct (gt w v0) eqn:E; [by apply Hasym|apply Hirr].
  - apply (Htr _ (step v0 w)); [done..|]. unfold step.
    destruct (gt w v0) eqn:E; [apply Hirr|done].
Qed.
End extreme.

Lemma f64_ltb_asym a b : f64_ltb a b = true -> f64_ltb b a = false.
Proof.
  intros H. destruct (f64_ltb b a) eqn:E; [|done].
  rewrite <- (f64_ltb_irrefl a). symmetry. by eapply f64_ltb_trans.
Qed.

Lemma sum_values_int acc ns :
  0 <= acc -> Forall (fun n => 0 <= n) ns -> acc + foldr Z.add 0 ns < max_exact ->
  foldl f64_add (f64_of_Z acc) (f64_of_Z <$> ns) = f64_of_Z (acc + foldr Z.add 0 ns).
Proof.
  intros Hacc Hns. revert acc Hacc. induction Hns as [|n ns Hn Hns IH]; intros acc Hacc Hb; simpl in *.
  { by rewrite Z.add_0_r. }
  assert (0 <= foldr Z.add 0 ns) by (clear -Hns; induction Hns; simpl; lia).
  rewrite f64_add_of_Z by lia. rewrite IH by lia. f_equal. lia.
Qed.

#[export] Hint Resolve f64_ltb_irrefl f64_ltb_asym f64_ltb_trans f64_ltb_false_trans : go.

Example f64_bits_one : Float64bits (f64_of_Z 1) = 0x3ff0000000000000.
Proof. reflexivity. Qed.

Example f64_add_half :
  f64_add (Float64frombits 0x4016000000000000) (Float64frombits 0x3ff3d70a3d70a3d7)
  = Float64frombits 0x401af5c28f5c28f6.
Proof. vm_compute. reflexivity. Qed.
