(* ===== verification/GoValue.v ===== *)
(** * Dynamic Go values

    The universe of values an [interface{}] parameter of the library can hold,
    as [reflect.ValueOf] sees them: the argument type of [hashing.Generate]
    and of the timeline's parameter lists.  A value carries its dynamic type
    as far as the code observes it: its [reflect.Kind], and whether the type
    is a named one (a type assertion [x.(string)] fails on a named string
    type, while [Kind] sees through the name). *)

From stdpp Require Import base gmap strings list.
From Stdlib Require Import ZArith Lia.
From S2P Require Import Prelude Float64.

Local Open Scope Z_scope.

#[local] Set Warnings "-register-all".

Inductive kind : Type :=
| KInvalid | KBool
| KInt | KInt8 | KInt16 | KInt32 | KInt64
| KUint | KUint8 | KUint16 | KUint32 | KUint64 | KUintptr
| KFloat32 | KFloat64 | KComplex64 | KComplex128
| KArray | KChan | KFunc | KInterface | KMap | KPtr | KSlice | KString | KStruct
| KUnsafePointer.

#[global] Instance kind_eq_dec : EqDecision kind.
Proof. solve_decision. Defined.

Inductive ikind : Type := I_int | I_int8 | I_int16 | I_int32 | I_int64.
Inductive ukind : Type := U_uint | U_uint8 | U_uint16 | U_uint32 | U_uint64.

#[global] Instance ikind_eq_dec : EqDecision ikind.
Proof. solve_decision. Defined.
#[global] Instance ukind_eq_dec : EqDecision ukind.
Proof. solve_decision. Defined.

Definition kind_of_ikind (k : ikind) : kind :=
  match k with
  | I_int => KInt | I_int8 => KInt8 | I_int16 => KInt16 | I_int32 => KInt32 | I_int64 => KInt64
  end.
Definition kind_of_ukind (k : ukind) : kind :=
  match k with
  | U_uint => KUint | U_uint8 => KUint8 | U_uint16 => KUint16 | U_uint32 => KUint32
  | U_uint64 => KUint64
  end.

(** Values.  A map is the list of its entries in some iteration order; a value
    of static interface type inside a container is a [VIface]; [VInvalid] is
    the zero [reflect.Value] (what [reflect.ValueOf(nil)] returns); the kinds
    the library never looks inside are [VOpaque] with an identity. *)
Inductive value : Type :=
| VBool (b : bool)
| VInt (k : ikind) (i : Z)
| VUint (k : ukind) (i : Z)
| VFloat32 (bits : Z)
| VFloat64 (f : float64)
| VString (s : string)
| VSlice (l : list value)
| VArray (l : list value)
| VMap (entries : list (value * value))
| VIface (v : value)
| VNamed (name : string) (v : value)
| VOpaque (k : kind) (id : Z)
| VInvalid.

(** [v.Kind()] *)
Fixpoint kind_of (v : value) : kind :=
  match v with
  | VBool _ => KBool
  | VInt k _ => kind_of_ikind k
  | VUint k _ => kind_of_ukind k
  | VFloat32 _ => KFloat32
  | VFloat64 _ => KFloat64
  | VString _ => KString
  | VSlice _ => KSlice
  | VArray _ => KArray
  | VMap _ => KMap
  | VIface _ => KInterface
  | VNamed _ v => kind_of v
  | VOpaque k _ => k
  | VInvalid => KInvalid
  end.

(** The underlying value, without type names: what the [reflect] accessors
    [Int], [Uint], [Float], [String], [Bool] read. *)
Fixpoint strip (v : value) : value :=
  match v with
  | VNamed _ v => strip v
  | _ => v
  end.

(** [a == b] on two comparable operands of the same static type. *)
Fixpoint go_eqb (a b : value) {struct a} : bool :=
  match a, b with
  | VBool x, VBool y => Bool.eqb x y
  | VInt k x, VInt k' y => bool_decide (k = k') && (x =? y)
  | VUint k x, VUint k' y => bool_decide (k = k') && (x =? y)
  | VFloat32 x, VFloat32 y => f64_eqb (f64_of_f32bits x) (f64_of_f32bits y)
  | VFloat64 x, VFloat64 y => f64_eqb x y
  | VString x, VString y => bool_decide (x = y)
  | VArray l, VArray l' =>
      (fix all l l' := match l, l' with
        | [], [] => true
        | x :: l, y :: l' => go_eqb x y && all l l'
        | _, _ => false
        end) l l'
  | VIface x, VIface y => go_eqb x y
  | VNamed n x, VNamed n' y => bool_decide (n = n') && go_eqb x y
  | VOpaque k x, VOpaque k' y => bool_decide (k = k') && (x =? y)
  | _, _ => false
  end.

(** Induction on values through the containers. *)
Section value_induction.
Context (P : value -> Prop).
Context (Hbool : forall b, P (VBool b)) (Hint : forall k i, P (VInt k i))
  (Huint : forall k i, P (VUint k i)) (Hf32 : forall b, P (VFloat32 b))
  (Hf64 : forall f, P (VFloat64 f)) (Hstr : forall s, P (VString s))
  (Hslice : forall l, Forall P l -> P (VSlice l))
  (Harray : forall l, Forall P l -> P (VArray l))
  (Hmap : forall es, Forall (fun e => P e.1 /\ P e.2) es -> P (VMap es))
  (Hiface : forall v, P v -> P (VIface v))
  (Hnamed : forall n v, P v -> P (VNamed n v))
  (Hopaque : forall k i, P (VOpaque k i)) (Hinvalid : P VInvalid).

Fixpoint value_ind' (v : value) : P v :=
  let all := fix all l : Forall P l :=
    match l with
    | [] => Forall_nil_2 _
    | x :: l => Forall_cons_2 _ _ _ (value_ind' x) (all l)
    end in
  match v with
  | VBool b => Hbool b
  | VInt k i => Hint k i
  | VUint k i => Huint k i
  | VFloat32 b => Hf32 b
  | VFloat64 f => Hf64 f
  | VString s => Hstr s
  | VSlice l => Hslice l (all l)
  | VArray l => Harray l (all l)
  | VMap es => Hmap es ((fix alle es : Forall (fun e => P e.1 /\ P e.2) es :=
      match es with
      | [] => Forall_nil_2 _
      | e :: es => Forall_cons_2 _ _ _
          (match e return P e.1 /\ P e.2 with (k, x) => conj (value_ind' k) (value_ind' x) end)
          (alle es)
      end) es)
  | VIface v => Hiface v (value_ind' v)
  | VNamed n v => Hnamed n v (value_ind' v)
  | VOpaque k i => Hopaque k i
  | VInvalid => Hinvalid
  end.
End value_induction.

Lemma kind_of_strip v : kind_of (strip v) = kind_of v.
Proof. induction v; simpl; auto. Qed.

(** ** Strings as byte sequences *)

Definition byte_of_ascii (c : Ascii.ascii) : Z := Z.of_N (Ascii.N_of_ascii c).

(** [[]byte(s)] *)
Fixpoint bytes_of_string (s : string) : list Z :=
  match s with
  | EmptyString => []
  | String c s' => byte_of_ascii c :: bytes_of_string s'
  end.

Definition is_byte (b : Z) : Prop := 0 <= b < 256.

Lemma byte_of_ascii_range c : is_byte (byte_of_ascii c).
Proof.
  unfold is_byte, byte_of_ascii. pose proof (Ascii.N_ascii_bounded c). lia.
Qed.

Lemma byte_of_ascii_inj c d : byte_of_ascii c = byte_of_ascii d -> c = d.
Proof.
  unfold byte_of_ascii. intros H%N2Z.inj.
  by rewrite <- (Ascii.ascii_N_embedding c), <- (Ascii.ascii_N_embedding d), H.
Qed.

Lemma bytes_of_string_inj s t : bytes_of_string s = bytes_of_string t -> s = t.
Proof.
  revert t. induction s as [|c s IH]; intros [|d t]; simpl; [done..|].
  intros [= ->%byte_of_ascii_inj ->%IH]. done.
Qed.

Lemma bytes_of_string_app s t :
  bytes_of_string (s +:+ t) = bytes_of_string s ++ bytes_of_string t.
Proof. induction s as [|c s IH]; simpl; [done|]. by f_equal. Qed.

Lemma bytes_of_string_bytes s : Forall is_byte (bytes_of_string s).
Proof. induction s; simpl; constructor; auto using byte_of_ascii_range. Qed.

(** Go's [<] on strings compares bytes lexicographically. *)
Definition string_ltb (s t : string) : bool :=
  match String.compare s t with Lt => true | _ => false end.

Lemma string_ltb_irrefl s : string_ltb s s = false.
Proof.
  unfold string_ltb. pose proof (String.compare_antisym s s) as H.
  by destruct (String.compare s s).
Qed.

Lemma string_ltb_cons c s d t :
  string_ltb (String c s) (String d t)
  = (byte_of_ascii c <? byte_of_ascii d) || (byte_of_ascii c =? byte_of_ascii d) && string_ltb s t.
Proof.
  unfold string_ltb, byte_of_ascii. simpl. unfold Ascii.compare.
  destruct (N.compare_spec (Ascii.N_of_ascii c) (Ascii.N_of_ascii d)) as [E|E|E].
  - by rewrite E, Z.ltb_irrefl, Z.eqb_refl.
  - by rewrite (proj2 (Z.ltb_lt _ _)) by lia.
  - rewrite (proj2 (Z.ltb_ge _ _)), (proj2 (Z.eqb_neq _ _)) by lia. done.
Qed.

Lemma string_ltb_trans s t u :
  string_ltb s t = true -> string_ltb t u = true -> string_ltb s u = true.
Proof.
  revert t u. induction s as [|c s IH]; intros [|d t] [|e u]; try done.
  rewrite !string_ltb_cons, !orb_true_iff, !andb_true_iff, !Z.ltb_lt, !Z.eqb_eq.
  intros [?|[? ?]] [?|[? ?]]; [left; lia..|right]. split; [lia|eauto].
Qed.

Lemma string_ltb_total s t : string_ltb s t = false -> string_ltb t s = false -> s = t.
Proof.
  unfold string_ltb. rewrite (String.compare_antisym t s).
  destruct (String.compare s t) eqn:E; [|done..]. intros _ _. by apply String.compare_eq_iff.
Qed.

#[export] Hint Resolve string_ltb_irrefl string_ltb_trans string_ltb_total : go.

Lemma string_order : strict_order_on string_ltb (fun _ => True).
Proof. split; eauto with go. Qed.
