(* ===== verification/Util.v ===== *)
(** * Packages [util] and [structs] ([util/*.go], [structs/mycenae.go])

    [GetSyncMapSize] counts the calls of a [Range] callback.  [sync.Map.Range]
    visits no key twice and, while other goroutines store and delete, may or may
    not see the keys that come and go: the count is modelled for one goroutine
    ([GetSyncMapSize]) and under interference ([count_step]). *)

From stdpp Require Import base gmap strings list relations.
From Stdlib Require Import ZArith Lia.
From S2P Require Import Prelude Float64.

(** ** [util.go] *)

(** What [CreateHTTPClient] sets of an [http.Client] and its transport. *)
Record HttpClient : Type := mkHttpClient {
  Timeout : Z;
  InsecureSkipVerify : bool;
}.

Definition CreateHTTPClient (timeout : Z) (insecureSkipVerify : bool) : HttpClient :=
  mkHttpClient timeout insecureSkipVerify.

(** ** [collections.go] *)

(** The count over the keys in the order [Range] yields them. *)
Definition GetSyncMapSize {K : Type} (order : list K) : nat := foldl (fun length _ => S length) 0%nat order.

Lemma GetSyncMapSize_length {K} (order : list K) : GetSyncMapSize order = length order.
Proof.
  unfold GetSyncMapSize. assert (H : forall n, foldl (fun length (_ : K) => S length) n order = (n + length order)%nat).
  { induction order as [|k order IH]; intros n; simpl; [lia|]. rewrite IH. lia. }
  apply H.
Qed.

Lemma GetSyncMapSize_set `{Countable K} (order : list K) (m : gset K) :
  order ≡ₚ elements m -> GetSyncMapSize order = size m.
Proof. intros Ho. by rewrite GetSyncMapSize_length, Ho. Qed.

(** ** Counting under interference *)

Section counting.
Context {K : Type} `{Countable K}.

(** The map, the keys [Range] has called back, the count, and the keys that were
    in the map all the time or at some time since the call began. *)
Record counting : Type := mkCounting {
  ct_map : gset K;
  ct_visited : gset K;
  ct_length : nat;
  ct_returned : bool;
  ct_always : gset K;
  ct_ever : gset K;
}.

Definition count_init (m : gset K) : counting := mkCounting m ∅ 0 false m m.

Inductive count_step : counting -> counting -> Prop :=
(* another goroutine stores or deletes a key *)
| count_store s k :
    ct_returned s = false ->
    count_step s (mkCounting ({[k]} ∪ ct_map s) (ct_visited s) (ct_length s) false (ct_always s) ({[k]} ∪ ct_ever s))
| count_delete s k :
    ct_returned s = false ->
    count_step s (mkCounting (ct_map s ∖ {[k]}) (ct_visited s) (ct_length s) false (ct_always s ∖ {[k]}) (ct_ever s))
(* the callback on a key that is in the map and was not visited: [length++] *)
| count_visit s k :
    ct_returned s = false -> k ∈ ct_map s -> k ∉ ct_visited s ->
    count_step s (mkCounting (ct_map s) ({[k]} ∪ ct_visited s) (S (ct_length s)) false (ct_always s) (ct_ever s))
(* [Range] ends when the keys that were there all the time are visited *)
| count_return s :
    ct_returned s = false -> ct_always s ⊆ ct_visited s ->
    count_step s (mkCounting (ct_map s) (ct_visited s) (ct_length s) true (ct_always s) (ct_ever s)).

Record count_inv (s : counting) : Prop := {
  ci_length : ct_length s = size (ct_visited s);
  ci_visited : ct_visited s ⊆ ct_ever s;
  ci_map : ct_map s ⊆ ct_ever s;
  ci_always : ct_always s ⊆ ct_map s;
  ci_returned : ct_returned s = true -> ct_always s ⊆ ct_visited s;
}.

Lemma count_inv_step s s' : count_inv s -> count_step s s' -> count_inv s'.
Proof.
  intros [Hl Hv Hm Ha Hr] Hs. destruct Hs as [s k Hx|s k Hx|s k Hx Hk Hn|s Hx Hd].
  - split; simpl; [done|clear -Hv; set_solver|clear -Hm; set_solver|clear -Ha; set_solver|done].
  - split; simpl; [done|done|clear -Hm; set_solver|clear -Ha; set_solver|done].
  - split; simpl; [|clear -Hv Hm Hk; set_solver|done|done|done].
    rewrite Hl, size_union, size_singleton by (clear -Hn; set_solver). done.
  - by split.
Qed.

(** Under any interference of other goroutines [GetSyncMapSize] returns a
    number between the size of the set of keys that were in the map during the
    whole call and that of the keys that were in it at some time; when nobody
    interferes it is the size of the map, so [cluster_changed] compares what it
    means to. *)
Theorem GetSyncMapSize_bounds m s :
  rtc count_step (count_init m) s -> ct_returned s = true ->
  (size (ct_always s) <= ct_length s <= size (ct_ever s))%nat /\
  (ct_always s = m -> ct_ever s = m -> ct_length s = size m).
Proof.
  intros Hr Hret. assert (Hi : count_inv s).
  { eapply (rtc_invariant _ count_inv); [apply count_inv_step|exact Hr|]. by split; simpl; try done. }
  destruct Hi as [Hl Hv Hm Ha Hd]. rewrite Hl. split.
  - split; apply subseteq_size; auto.
  - intros E1 E2. f_equal. rewrite E1, E2 in *. apply (anti_symm (⊆)); auto.
Qed.
End counting.
Arguments counting K {_ _}.

(** Two keys; a third is stored and one deleted while the count is at work. *)
Lemma GetSyncMapSize_bounds_witness :
  let s := mkCounting (({["c"]} ∪ {["a"; "b"]}) ∖ {["b"]}) ({["c"]} ∪ ({["a"]} ∪ ∅)) 2 true
             ({["a"; "b"]} ∖ {["b"]}) ({["c"]} ∪ {["a"; "b"]}) : counting string in
  (size (ct_always s) <= 2 <= size (ct_ever s))%nat.
Proof.
  intros s. apply (GetSyncMapSize_bounds {["a"; "b"]} s); [|reflexivity].
  eapply rtc_l; [apply (count_visit _ "a"); [reflexivity|set_solver|set_solver]|].
  eapply rtc_l; [apply (count_store _ "c"); reflexivity|].
  eapply rtc_l; [apply (count_delete _ "b"); reflexivity|].
  eapply rtc_l; [apply (count_visit _ "c"); [reflexivity|set_solver|set_solver]|].
  eapply rtc_l; [apply count_return; [reflexivity|set_solver]|]. apply rtc_refl.
Defined.

(** ** [structs/mycenae.go] *)

Record Point : Type := mkMycenaePoint {
  pt_Metric : string;
  pt_Tags : gmap string string;
  pt_Timestamp : Z;
}.

Record NumberPoint : Type := mkNumberPoint { np_Point : Point; np_Value : float64 }.
Record TextPoint : Type := mkTextPoint { tp_Point : Point; tp_Text : string }.
