(* ===== verification/Hashing.v ===== *)
(** * Package [hashing]

    [hashing/byteconv.go] (values to bytes), [hashing/sortconv.go] (the sort
    orders of map keys) and [hashing/hashing.go] (the digest front end).  The
    digest algorithms themselves are the [Digests] interface. *)

From stdpp Require Import base gmap strings list.
From Stdlib Require Import ZArith Lia.
From S2P Require Import Prelude Float64 GoValue.

Local Open Scope Z_scope.
Local Open Scope go_scope.

Inductive hash_error : Type :=
| ErrByteArrayNotMapped (k : kind)
| ErrSortKeysNotMapped (k : kind)
| ErrNoAlgorithm (a : string).

(** ** byteconv.go *)

(** [binary.BigEndian.PutUint64] into a fresh 8-byte buffer. *)
Definition PutUint64 (v : Z) : list Z :=
  (fun s => Z.land (Z.shiftr v s) 255) <$> [56; 48; 40; 32; 24; 16; 8; 0].

Definition float64ToByteArray (f : float64) : list Z := PutUint64 (Float64bits f).
Definition int64ToByteArray (i : Z) : list Z := PutUint64 (uint64_of_Z i).
Definition uint64ToByteArray (i : Z) : list Z := PutUint64 i.
Definition boolToByteArray (b : bool) : list Z := if b then [1] else [0].
Definition stringToByteArray (s : string) : list Z :=
  if (String.length s =? 0)%nat then [] else bytes_of_string s.

(** *** sortconv.go: the [Less] methods

    The accessors [Int], [Float], [Bool] of [reflect.Value] panic on a value of
    another kind; [String] does not, but every key of a map has the kind of the
    first, so its fallback is not reached. *)

Definition value_Int (v : value) : result hash_error Z :=
  match strip v with VInt _ i => Ok i | _ => Panic end.
Definition value_Float (v : value) : result hash_error float64 :=
  match strip v with
  | VFloat32 b => Ok (f64_of_f32bits b)
  | VFloat64 f => Ok f
  | _ => Panic
  end.
Definition value_Bool (v : value) : result hash_error bool :=
  match strip v with VBool b => Ok b | _ => Panic end.
Definition value_String (v : value) : result hash_error string :=
  match strip v with VString s => Ok s | _ => Panic end.

Definition byString_Less (a b : value) : result hash_error bool :=
  let* x := value_String a in let* y := value_String b in Ok (string_ltb x y).
Definition byFloat_Less (a b : value) : result hash_error bool :=
  let* x := value_Float a in let* y := value_Float b in Ok (f64_ltb x y).
Definition byInt_Less (a b : value) : result hash_error bool :=
  let* x := value_Int a in let* y := value_Int b in Ok (x <? y).
Definition byBool_Less (a b : value) : result hash_error bool :=
  let* x := value_Bool a in
  let inti := if x then 1 else 0 in
  let* y := value_Bool b in
  let intj := if y then 1 else 0 in
  Ok (inti <? intj).

(** A row of the map being converted: a key of [v.MapKeys()] with the outcomes
    of converting it and of converting [v.MapIndex(k)]. *)
Definition row : Type := value * result hash_error (list Z) * result hash_error (list Z).

(** [sortKeys]: sorts the array in place and reports an unsupported kind. *)
Definition sortKeys (array : list row) (k : kind) :
    result hash_error (list row * option hash_error) :=
  let sort_Sort less :=
    rmap (fun a => (a, None)) (go_sortM (fun r r' : row => less r.1.1 r'.1.1) array) in
  match k with
  | KString => sort_Sort byString_Less
  | KUint | KUint16 | KUint32 | KUint64 | KUint8
  | KInt | KInt16 | KInt32 | KInt64 | KInt8 => sort_Sort byInt_Less
  | KFloat32 | KFloat64 => sort_Sort byFloat_Less
  | KBool => sort_Sort byBool_Less
  | _ => Ok (array, Some (ErrSortKeysNotMapped k))
  end.

(** The loop of [mapToByteArray] over the sorted keys. *)
Fixpoint map_loop (keys : list row) (bytes : list Z) : result hash_error (list Z) :=
  match keys with
  | [] => Ok bytes
  | (_, kb, vb) :: keys =>
      let* keyBytes := kb in
      let* valBytes := vb in
      map_loop keys ((bytes ++ keyBytes) ++ valBytes)
  end.

(** [mapToByteArray]: the error of [sortKeys] is dropped, as in the source. *)
Definition mapToByteArray (keys : list row) : result hash_error (list Z) :=
  match keys with
  | [] => Ok []
  | k0 :: _ =>
      let* r := sortKeys keys (kind_of k0.1.1) in
      map_loop r.1 []
  end.

Fixpoint array_loop (items : list (result hash_error (list Z))) (bytes : list Z) :
    result hash_error (list Z) :=
  match items with
  | [] => Ok bytes
  | ib :: items =>
      let* indexBytes := ib in
      array_loop items (bytes ++ indexBytes)
  end.

Definition arrayToByteArray (items : list (result hash_error (list Z))) :
    result hash_error (list Z) := array_loop items [].

(** [getByteArray].  [v.MapIndex(k)] for a key [k] of the map is its own entry,
    unless [k != k] (a NaN inside), where it is the zero [reflect.Value]. *)
Fixpoint getByteArray (v : value) : result hash_error (list Z) :=
  match v with
  | VString s => Ok (stringToByteArray s)
  | VInt _ i => Ok (int64ToByteArray i)
  | VUint _ i => Ok (uint64ToByteArray i)
  | VFloat32 b => Ok (float64ToByteArray (f64_of_f32bits b))
  | VFloat64 f => Ok (float64ToByteArray f)
  | VBool b => Ok (boolToByteArray b)
  | VMap es => mapToByteArray (map (fun e : value * value => let '(k, x) := e in
      (k, getByteArray k,
       if go_eqb k k then getByteArray x else Err (ErrByteArrayNotMapped KInvalid))) es)
  | VArray l => arrayToByteArray (map getByteArray l)
  | VSlice l => arrayToByteArray (map getByteArray l)
  | VNamed _ v => getByteArray v
  | VIface _ | VOpaque _ _ | VInvalid => Err (ErrByteArrayNotMapped (kind_of v))
  end.

(** ** hashing.go *)

Definition Algorithm : Type := string.
Definition SHA256 : Algorithm := "sha256".
Definition SHA1 : Algorithm := "sha1".
Definition MD5 : Algorithm := "md5".
Definition CRC32 : Algorithm := "crc32".
Definition SHAKE128 : Algorithm := "shake128".
Definition SHAKE256 : Algorithm := "shake256".

Fixpoint generate_loop (parameters : list value) (acc : list Z) : result hash_error (list Z) :=
  match parameters with
  | [] => Ok acc
  | p :: parameters =>
      let* bytes := getByteArray p in
      generate_loop parameters (acc ++ bytes)
  end.

Definition GenerateByteArray (parameters : list value) : result hash_error (list Z) :=
  match parameters with
  | [] => Ok []
  | _ => generate_loop parameters []
  end.

(** A [hash.Hash]: what has been written so far, and the digest of it. *)
Record Hash : Type := mkHash { h_written : list Z; h_sum : list Z -> list Z }.

(** [Write] of a [hash.Hash] never returns an error. *)
Definition h_Write (h : Hash) (p : list Z) : Hash := mkHash (h_written h ++ p) (h_sum h).
Definition h_Sum (h : Hash) : list Z := h_sum h (h_written h).

(** A [sha3.ShakeHash]: an extendable-output function of what was written. *)
Record ShakeHash : Type := mkShake { s_written : list Z; s_squeeze : list Z -> nat -> list Z }.

Definition s_Write (h : ShakeHash) (p : list Z) : ShakeHash :=
  mkShake (s_written h ++ p) (s_squeeze h).
Definition s_Read (h : ShakeHash) (n : nat) : list Z := s_squeeze h (s_written h) n.

(** The digest functions, which live outside the repository. *)
Class Digests : Type := {
  sha256_digest : list Z -> list Z;
  sha1_digest : list Z -> list Z;
  md5_digest : list Z -> list Z;
  crc32_digest : list Z -> list Z;
  shake128_squeeze : list Z -> nat -> list Z;
  shake256_squeeze : list Z -> nat -> list Z;
}.

(** Their documented output sizes, and that they output bytes. *)
Class DigestLaws (D : Digests) : Prop := {
  sha256_size l : length (sha256_digest l) = 32%nat;
  sha1_size l : length (sha1_digest l) = 20%nat;
  md5_size l : length (md5_digest l) = 16%nat;
  crc32_size l : length (crc32_digest l) = 4%nat;
  shake128_size l n : length (shake128_squeeze l n) = n;
  shake256_size l n : length (shake256_squeeze l n) = n;
}.

Section hashing.
Context {D : Digests}.

Definition generateHash (h : Hash) (parameters : list value) : result hash_error (list Z) :=
  let* byteArray := GenerateByteArray parameters in
  Ok (h_Sum (h_Write h byteArray)).

(** [make([]byte, outputSize)] panics on a negative size. *)
Definition generateShakeHash (h : ShakeHash) (outputSize : Z) (parameters : list value) :
    result hash_error (list Z) :=
  let* byteArray := GenerateByteArray parameters in
  let h := s_Write h byteArray in
  if outputSize <? 0 then Panic else Ok (s_Read h (Z.to_nat outputSize)).

Definition GenerateSHA256 := generateHash (mkHash [] sha256_digest).
Definition GenerateCRC32 := generateHash (mkHash [] crc32_digest).
Definition GenerateMD5 := generateHash (mkHash [] md5_digest).
Definition GenerateSHA1 := generateHash (mkHash [] sha1_digest).
Definition GenerateSHAKE128 := generateShakeHash (mkShake [] shake128_squeeze).
Definition GenerateSHAKE256 := generateShakeHash (mkShake [] shake256_squeeze).

Definition Generate (algorithm : Algorithm) (parameters : list value) :
    result hash_error (list Z) :=
  if bool_decide (algorithm = SHA256) then GenerateSHA256 parameters
  else if bool_decide (algorithm = SHA1) then GenerateSHA1 parameters
  else if bool_decide (algorithm = MD5) then GenerateMD5 parameters
  else if bool_decide (algorithm = CRC32) then GenerateCRC32 parameters
  else Err (ErrNoAlgorithm algorithm).

Definition GenerateSHAKE (algorithm : Algorithm) (outputSize : Z) (parameters : list value) :
    result hash_error (list Z) :=
  if bool_decide (algorithm = SHAKE128) then GenerateSHAKE128 outputSize parameters
  else if bool_decide (algorithm = SHAKE256) then GenerateSHAKE256 outputSize parameters
  else Err (ErrNoAlgorithm algorithm).
End hashing.

(** The examples of [tests/hashing/byteconv_test.go]. *)
Example convert_map :
  GenerateByteArray [VMap [(VString "z", VInt I_int 10); (VString "d", VInt I_int 16);
                           (VString "a", VInt I_int 1001)]]
  = Ok [0x61; 0; 0; 0; 0; 0; 0; 0x03; 0xE9; 0x64; 0; 0; 0; 0; 0; 0; 0; 0x10;
        0x7a; 0; 0; 0; 0; 0; 0; 0; 0x0A].
Proof. vm_compute. reflexivity. Qed.

Example convert_float32 :
  GenerateByteArray [VSlice [VFloat32 0x40b16042; VFloat32 0xc0c33333]]
  = Ok [0x40; 0x16; 0x2c; 0x8; 0x40; 0x0; 0x0; 0x0; 0xc0; 0x18; 0x66; 0x66; 0x60; 0x0; 0x0; 0x0].
Proof. vm_compute. reflexivity. Qed.

(** ** The loops as maps followed by concatenation *)

Definition row_bytes (r : row) : result hash_error (list Z) :=
  let* kb := r.1.2 in let* vb := r.2 in Ok (kb ++ vb).

Lemma array_loop_spec items acc :
  array_loop items acc = rmap (fun bs => acc ++ concat bs) (rmapM id items).
Proof.
  revert acc. induction items as [|[b|e|] items IH]; intros acc; simpl; [|rewrite IH|done..].
  - unfold rmap. simpl. by rewrite app_nil_r.
  - destruct (rmapM id items); unfold rmap; simpl; [|done..]. by rewrite <- app_assoc.
Qed.

Lemma map_loop_spec rows acc :
  map_loop rows acc = rmap (fun bs => acc ++ concat bs) (rmapM row_bytes rows).
Proof.
  revert acc. induction rows as [|[[k [kb|e|]] [vb|e'|]] rows IH]; intros acc; simpl;
    [|rewrite IH|done..].
  - unfold rmap. simpl. by rewrite app_nil_r.
  - change (row_bytes (k, Ok kb, Ok vb)) with (@Ok hash_error _ (kb ++ vb)). simpl.
    destruct (rmapM row_bytes rows); unfold rmap; simpl; [|done..]. by rewrite <- !app_assoc.
Qed.

Lemma generate_loop_spec ps acc :
  generate_loop ps acc = rmap (fun bs => acc ++ concat bs) (rmapM getByteArray ps).
Proof.
  revert acc. induction ps as [|p ps IH]; intros acc; simpl.
  - unfold rmap. simpl. by rewrite app_nil_r.
  - destruct (getByteArray p); simpl; [rewrite IH|done..].
    destruct (rmapM getByteArray ps); unfold rmap; simpl; [|done..]. by rewrite <- app_assoc.
Qed.

Lemma GenerateByteArray_spec ps :
  GenerateByteArray ps = rmap (@concat Z) (rmapM getByteArray ps).
Proof.
  unfold GenerateByteArray. destruct ps as [|p ps]; [done|]. by rewrite generate_loop_spec.
Qed.

(** ** Big-endian encoding *)

(** [binary.BigEndian.Uint64] *)
Definition Uint64 (l : list Z) : Z := foldl (fun acc b => acc * 256 + b) 0 l.

Lemma PutUint64_length v : length (PutUint64 v) = 8%nat.
Proof. done. Qed.

Lemma PutUint64_bytes v : Forall is_byte (PutUint64 v).
Proof.
  unfold PutUint64. apply Forall_fmap, Forall_true. intros s. simpl. unfold is_byte.
  rewrite (Z.land_ones _ 8) by lia. apply Z.mod_pos_bound. lia.
Qed.

Lemma shiftr_split v s : 0 <= s -> Z.shiftr v s = Z.shiftr v (s + 8) * 256 + Z.land (Z.shiftr v s) 255.
Proof.
  intros Hs. rewrite (Z.land_ones _ 8), <- Z.shiftr_shiftr, (Z.shiftr_div_pow2 _ 8) by lia.
  pose proof (Z.div_mod (Z.shiftr v s) (2 ^ 8) ltac:(lia)). lia.
Qed.

Lemma Uint64_PutUint64 v : uint64_range v -> Uint64 (PutUint64 v) = v.
Proof.
  intros Hv. unfold Uint64, PutUint64. cbn [fmap list_fmap foldl].
  assert (H64 : Z.shiftr v (56 + 8) = 0).
  { rewrite Z.shiftr_div_pow2 by lia. apply Z.div_small. unfold uint64_range, two64 in Hv. lia. }
  rewrite <- H64 at 1.
  do 8 (match goal with |- context [Z.shiftr v (?s + 8) * 256 + Z.land (Z.shiftr v ?s) 255] =>
    rewrite <- (shiftr_split v s) by lia end;
    try match goal with |- context [Z.shiftr v ?s * 256 + Z.land (Z.shiftr v ?t) 255] =>
      change s with (t + 8) end).
  by rewrite Z.shiftr_0_r.
Qed.

Lemma PutUint64_inj v w :
  uint64_range v -> uint64_range w -> PutUint64 v = PutUint64 w -> v = w.
Proof.
  intros Hv Hw H. by rewrite <- (Uint64_PutUint64 v), <- (Uint64_PutUint64 w), H.
Qed.

(** ** Map keys

    Well-formed values: what Go's type system and maps guarantee (the keys of a
    map have one type and are pairwise different), together with the keys being
    scalars other than NaN. *)

Fixpoint type_names (v : value) : list string :=
  match v with VNamed n v => n :: type_names v | _ => [] end.

Definition key_type (v : value) : list string * kind := (type_names v, kind_of v).

Definition scalar (v : value) : bool :=
  match strip v with
  | VBool _ | VInt _ _ | VUint _ _ | VFloat32 _ | VFloat64 _ | VString _ => true
  | _ => false
  end.

Definition unsigned_kind (k : kind) : bool :=
  match k with KUint | KUint8 | KUint16 | KUint32 | KUint64 => true | _ => false end.

Fixpoint keys_distinct (ks : list value) : bool :=
  match ks with
  | [] => true
  | k :: ks => forallb (fun k' => negb (go_eqb k k')) ks && keys_distinct ks
  end.

Definition keys_ok (ks : list value) : bool :=
  match ks with
  | [] => true
  | k0 :: _ =>
      forallb (fun k => bool_decide (key_type k = key_type k0) && scalar k && go_eqb k k) ks
      && keys_distinct ks
  end.

Fixpoint wf_value (v : value) : bool :=
  match v with
  | VMap es =>
      keys_ok (map fst es) &&
      forallb (fun e : value * value => let '(k, x) := e in wf_value x) es
  | VSlice l | VArray l => forallb wf_value l
  | VNamed _ v | VIface v => wf_value v
  | _ => true
  end.

(** The order the [Less] methods implement on scalar keys. *)
Definition key_ltb (a b : value) : bool :=
  match strip a, strip b with
  | VString x, VString y => string_ltb x y
  | VInt _ x, VInt _ y => x <? y
  | VBool x, VBool y => negb x && y
  | VFloat32 x, VFloat32 y => f64_ltb (f64_of_f32bits x) (f64_of_f32bits y)
  | VFloat64 x, VFloat64 y => f64_ltb x y
  | _, _ => false
  end.

Lemma go_eqb_strip a b :
  type_names a = type_names b -> go_eqb a b = go_eqb (strip a) (strip b).
Proof.
  revert b. induction a; intros [] H; simpl in *; try done; simplify_eq.
  rewrite bool_decide_eq_true_2 by done. simpl. auto.
Qed.

(** Keys of one type: comparable, and equal as Go values when unordered. *)
Lemma key_ltb_total a b :
  key_type a = key_type b -> scalar a = true -> scalar b = true ->
  unsigned_kind (kind_of a) = false ->
  go_eqb a a = true -> go_eqb b b = true ->
  key_ltb a b = false -> key_ltb b a = false -> go_eqb a b = true.
Proof.
  unfold key_type, scalar, key_ltb. intros [= Hn Hk] Hs Hs' Hu Ha Hb.
  rewrite go_eqb_strip in Ha, Hb by done. rewrite (go_eqb_strip a b) by done.
  rewrite <- !(kind_of_strip a), <- ?(kind_of_strip b) in *.
  destruct (strip a) as [x|k x|k x|x|x|x| | | | | | |]; try done;
    destruct (strip b) as [y|k' y|k' y|y|y|y| | | | | |k' |]; simpl in *;
    repeat match goal with k : ikind |- _ => destruct k | k : ukind |- _ => destruct k end;
    try done.
  all: first
    [ by destruct x, y
    | rewrite !Z.ltb_ge; intros; rewrite bool_decide_eq_true_2 by done; apply Z.eqb_eq; lia
    | rewrite f64_eqb_refl in Ha, Hb; intros; apply f64_ltb_total;
      [by apply negb_true_iff|by apply negb_true_iff|done|done]
    | intros; by apply bool_decide_eq_true_2, string_ltb_total ].
Qed.

Lemma key_ltb_irrefl a : key_ltb a a = false.
Proof.
  unfold key_ltb. destruct (strip a);
    auto using f64_ltb_irrefl, string_ltb_irrefl, Z.ltb_irrefl. by destruct b.
Qed.

Lemma key_ltb_trans a b c :
  key_ltb a b = true -> key_ltb b c = true -> key_ltb a c = true.
Proof.
  unfold key_ltb. destruct (strip a) as [[]| | | | | | | | | | | |], (strip b) as [[]| | | | | | | | | | | |]; try done;
    destruct (strip c) as [[]| | | | | | | | | | | |]; try done; eauto using f64_ltb_trans, string_ltb_trans.
  rewrite !Z.ltb_lt. lia.
Qed.

(** What [keys_ok] gives for the members of a key list. *)
Lemma keys_ok_elem ks k k' :
  keys_ok ks = true -> k ∈ ks -> k' ∈ ks ->
  key_type k = key_type k' /\ scalar k = true /\ go_eqb k k = true.
Proof.
  unfold keys_ok. destruct ks as [|k0 ks]; [set_solver|].
  intros [Hall _]%andb_true_iff Hk Hk'. rewrite forallb_forall in Hall.
  apply list_elem_of_In in Hk, Hk'.
  pose proof (Hall k Hk) as H. pose proof (Hall k' Hk') as H'.
  rewrite !andb_true_iff, bool_decide_eq_true in H. rewrite !andb_true_iff, bool_decide_eq_true in H'.
  destruct H as [[-> ?] ?], H' as [[-> _] _]. done.
Qed.

Lemma go_eqb_sym_scalar a b :
  key_type a = key_type b -> scalar a = true -> go_eqb a b = true -> go_eqb b a = true.
Proof.
  unfold key_type, scalar. intros [= Hn Hk] Hs.
  rewrite (go_eqb_strip a b), (go_eqb_strip b a) by done.
  destruct (strip a); try done; destruct (strip b); simpl; try done;
    rewrite ?andb_true_iff, ?bool_decide_eq_true, ?Z.eqb_eq, ?eqb_true_iff, 1?f64_eqb_sym;
    intuition congruence.
Qed.

Lemma keys_ok_unique ks i j k k' :
  keys_ok ks = true -> ks !! i = Some k -> ks !! j = Some k' -> go_eqb k k' = true -> i = j.
Proof.
  intros Hok Hi Hj Heq.
  assert (Hd : keys_distinct ks = true).
  { unfold keys_ok in Hok. destruct ks; [done|]. by apply andb_true_iff in Hok as [_ ?]. }
  assert (Hsym : go_eqb k' k = true).
  { destruct (keys_ok_elem ks k k') as (? & ? & _); eauto using list_elem_of_lookup_2.
    by apply go_eqb_sym_scalar. }
  clear Hok. revert i j Hi Hj. induction ks as [|k0 ks IH]; intros i j Hi Hj; [done|].
  simpl in Hd. apply andb_true_iff in Hd as [Hall Hd]. rewrite forallb_forall in Hall.
  assert (Hno : forall x n, ks !! n = Some x -> go_eqb k0 x = true -> False).
  { intros x n Hx Hg. apply list_elem_of_lookup_2, list_elem_of_In, Hall in Hx. by rewrite Hg in Hx. }
  destruct i as [|i], j as [|j]; simplify_eq/=; [done| | |].
  - exfalso. eauto.
  - exfalso. eauto.
  - f_equal. by apply IH.
Qed.

(** The [Less] method chosen for a kind is [key_ltb], except on unsigned keys,
    where [reflect.Value.Int] panics. *)
Definition less_for (k : kind) : value -> value -> result hash_error bool :=
  match k with
  | KString => byString_Less
  | KFloat32 | KFloat64 => byFloat_Less
  | KBool => byBool_Less
  | _ => byInt_Less
  end.

Lemma sortKeys_scalar rows (k : value) :
  scalar k = true ->
  sortKeys rows (kind_of k) =
  rmap (fun a => (a, None))
    (go_sortM (fun r r' : row => less_for (kind_of k) r.1.1 r'.1.1) rows).
Proof.
  unfold scalar. rewrite <- kind_of_strip.
  destruct (strip k) as [| [] | [] | | | | | | | | | |]; done.
Qed.

Lemma less_for_key_ltb a b :
  scalar a = true -> scalar b = true -> kind_of a = kind_of b ->
  less_for (kind_of a) a b =
  if unsigned_kind (kind_of a) then Panic else Ok (key_ltb a b).
Proof.
  unfold scalar, key_ltb. intros Ha Hb. rewrite <- (kind_of_strip a), <- (kind_of_strip b).
  destruct (strip a) as [[]|[]|[]| | | | | | | | | |] eqn:Ea; try done;
    destruct (strip b) as [[]|[]|[]| | | | | | | | | |] eqn:Eb; try done; intros _;
    cbn [kind_of kind_of_ikind kind_of_ukind less_for unsigned_kind];
    unfold byString_Less, byFloat_Less, byBool_Less, byInt_Less,
      value_String, value_Float, value_Bool, value_Int; by rewrite Ea, ?Eb.
Qed.

Section sort_rows.
Context (rows : list row) (Hok : keys_ok ((fun r : row => r.1.1) <$> rows) = true).

Lemma row_key r : r ∈ rows -> r.1.1 ∈ ((fun r : row => r.1.1) <$> rows).
Proof. intros. by apply list_elem_of_fmap_2 with (f := fun r : row => r.1.1). Qed.

Lemma rows_less k0 x y :
  k0 ∈ rows -> x ∈ rows -> y ∈ rows ->
  less_for (kind_of k0.1.1) x.1.1 y.1.1 =
  if unsigned_kind (kind_of k0.1.1) then Panic else Ok (key_ltb x.1.1 y.1.1).
Proof.
  intros Hk Hx Hy.
  destruct (keys_ok_elem _ _ _ Hok (row_key x Hx) (row_key k0 Hk)) as (? & ? & _).
  destruct (keys_ok_elem _ _ _ Hok (row_key y Hy) (row_key k0 Hk)) as (? & ? & _).
  assert (kind_of k0.1.1 = kind_of x.1.1) as -> by (unfold key_type in *; congruence).
  apply less_for_key_ltb; [done..|]. unfold key_type in *; congruence.
Qed.

Lemma rows_order k0 :
  k0 ∈ rows -> unsigned_kind (kind_of k0.1.1) = false ->
  strict_order_on (fun r r' : row => key_ltb r.1.1 r'.1.1) (fun r => r ∈ rows).
Proof.
  intros Hk0 Hu. split.
  - intros. apply key_ltb_irrefl.
  - intros x y z _ _ _. apply key_ltb_trans.
  - intros x y Hx Hy Hxy Hyx.
    destruct (keys_ok_elem _ _ _ Hok (row_key x Hx) (row_key y Hy)) as (Ht & Hs & Hr).
    destruct (keys_ok_elem _ _ _ Hok (row_key y Hy) (row_key k0 Hk0)) as (Ht' & Hs' & Hr').
    assert (Heq : go_eqb x.1.1 y.1.1 = true).
    { apply key_ltb_total; try done. assert (kind_of x.1.1 = kind_of k0.1.1) as -> by
        (unfold key_type in *; congruence). done. }
    apply list_elem_of_lookup in Hx as [i Hi], Hy as [j Hj].
    assert (i = j) as ->; [|by simplify_eq].
    eapply keys_ok_unique; [exact Hok| | |exact Heq]; by rewrite list_lookup_fmap, ?Hi, ?Hj.
Qed.
End sort_rows.

(** The bytes of a map do not depend on the iteration order of its entries. *)
Lemma mapToByteArray_perm rows1 rows2 :
  keys_ok ((fun r : row => r.1.1) <$> rows1) = true -> rows1 ≡ₚ rows2 ->
  mapToByteArray rows1 = mapToByteArray rows2.
Proof.
  intros Hok Hp. destruct rows1 as [|r1 l1]; [by apply Permutation_nil_l in Hp as ->|].
  destruct rows2 as [|r2 l2]; [by apply Permutation_nil_r in Hp|].
  assert (Hr2 : r2 ∈ r1 :: l1) by (rewrite Hp; apply elem_of_cons; auto).
  assert (Hr1 : r1 ∈ r1 :: l1) by (apply elem_of_cons; auto).
  pose proof (fun x y Hx Hy => keys_ok_elem _ _ _ Hok (row_key _ x Hx) (row_key _ y Hy)) as Hel.
  destruct (Hel r1 r2 Hr1 Hr2) as (Ht & Hs & _). destruct (Hel r2 r1 Hr2 Hr1) as (_ & Hs2 & _).
  unfold mapToByteArray. rewrite !sortKeys_scalar by done.
  assert (kind_of r2.1.1 = kind_of r1.1.1) as -> by (unfold key_type in *; congruence).
  pose proof (fun x y => rows_less _ Hok r1 x y Hr1) as Hless.
  destruct (unsigned_kind (kind_of r1.1.1)) eqn:Hu.
  - destruct l1 as [|r1' l1].
    + by apply Permutation_singleton_l in Hp as ->.
    + rewrite !go_sortM_panic; [done| | |simpl; lia|done].
      * rewrite <- Hp. simpl; lia.
      * intros x y. rewrite <- Hp. apply Hless.
  - rewrite !(go_sortM_pure _ (fun r r' : row => key_ltb r.1.1 r'.1.1));
      [|intros x y; rewrite <- Hp; apply Hless|apply Hless].
    by rewrite (go_sort_proper _ _ (rows_order _ Hok r1 Hr1 Hu) _ _ (proj2 (Forall_forall _ _) (fun x H => H)) Hp).
Qed.

(** ** Values up to the iteration order of their maps

    [veq] relates two observations of the same Go value: iterating a map twice
    may yield its entries in two different orders, at any depth. *)
Inductive veq : value -> value -> Prop :=
| veq_same v : veq v v
| veq_slice l l' : Forall2 veq l l' -> veq (VSlice l) (VSlice l')
| veq_array l l' : Forall2 veq l l' -> veq (VArray l) (VArray l')
| veq_map es es1 es' :
    es ≡ₚ es1 -> Forall2 (fun e e' => e.1 = e'.1 /\ veq e.2 e'.2) es1 es' ->
    veq (VMap es) (VMap es')
| veq_named n v v' : veq v v' -> veq (VNamed n v) (VNamed n v').

Lemma map_Forall2_ext {A B} (f g : A -> B) (R : A -> A -> Prop) l l' :
  Forall2 R l l' -> (forall x y, x ∈ l -> R x y -> f x = g y) -> map f l = map g l'.
Proof.
  induction 1 as [|x y l l' Hxy _ IH]; intros H; simpl; [done|].
  f_equal; [apply (H x y); [apply elem_of_cons; auto|done]|].
  apply IH. intros. apply H; [apply elem_of_cons; auto|done].
Qed.

Lemma getByteArray_veq v v' :
  veq v v' -> wf_value v = true -> getByteArray v = getByteArray v'.
Proof.
  revert v'. induction v as [| | | | | |l IH|l IH|es IH| |n v IH| |] using value_ind';
    intros v' Hv Hwf; inversion Hv as [|? l' Hl|? l' Hl|? es1 es' Hp Hes|? ? v1 H1];
    subst; try done; simpl in *.
  - f_equal. eapply map_Forall2_ext; [exact Hl|]. intros x y Hx Hxy.
    rewrite Forall_forall in IH. rewrite forallb_forall in Hwf.
    apply IH; [done..|]. by apply Hwf, list_elem_of_In.
  - f_equal. eapply map_Forall2_ext; [exact Hl|]. intros x y Hx Hxy.
    rewrite Forall_forall in IH. rewrite forallb_forall in Hwf.
    apply IH; [done..|]. by apply Hwf, list_elem_of_In.
  - apply andb_true_iff in Hwf as [Hok Hwf].
    rewrite Forall_forall in IH. rewrite forallb_forall in Hwf.
    set (f := fun e : value * value => let '(k, x) := e in
      (k, getByteArray k,
       if go_eqb k k then getByteArray x else Err (ErrByteArrayNotMapped KInvalid))) in *.
    trans (mapToByteArray (map f es1)).
    + apply mapToByteArray_perm; [|by apply Permutation_map].
      replace (_ <$> map f es) with (map fst es); [done|].
      clear. induction es as [|[k x] es IH]; simpl; [done|]. by f_equal.
    + f_equal. eapply map_Forall2_ext; [exact Hes|]. intros [k x] [k' x'] Hx [Hk Hxx].
      simpl in *. subst k'. rewrite <- Hp in Hx. f_equal.
      destruct (go_eqb k k); [|done]. destruct (IH (k, x) Hx) as [_ IHx].
      apply IHx; [done|]. by apply (Hwf (k, x)), list_elem_of_In.
  - by apply IH.
Qed.

Lemma GenerateByteArray_veq ps ps' :
  Forall2 veq ps ps' -> forallb wf_value ps = true ->
  GenerateByteArray ps = GenerateByteArray ps'.
Proof.
  intros H Hwf. rewrite !GenerateByteArray_spec. f_equal.
  induction H as [|p p' ps ps' Hp _ IH]; simpl in *; [done|].
  apply andb_true_iff in Hwf as [Hw Hwf].
  by rewrite (getByteArray_veq p p' Hp Hw), (IH Hwf).
Qed.

(** ** Which values can be hashed *)

Fixpoint hashable (v : value) : bool :=
  match v with
  | VMap es =>
      (if (2 <=? Z.of_nat (length es)) then
         match es with (k0, _) :: _ => negb (unsigned_kind (kind_of k0)) | [] => true end
       else true) &&
      forallb (fun e : value * value => let '(k, x) := e in hashable x) es
  | VSlice l | VArray l => forallb hashable l
  | VNamed _ v => hashable v
  | VIface _ | VOpaque _ _ | VInvalid => false
  | _ => true
  end.

Lemma is_ok_rmapM {E A B} (f : A -> result E B) l :
  is_ok (rmapM f l) = forallb (fun x => is_ok (f x)) l.
Proof.
  induction l as [|x l IH]; simpl; [done|]. rewrite <- IH.
  by destruct (f x), (rmapM f l).
Qed.

Lemma is_ok_rmap {E A B} (f : A -> B) (m : result E A) : is_ok (rmap f m) = is_ok m.
Proof. by destruct m. Qed.

Lemma forallb_perm {A} (f : A -> bool) l l' : l ≡ₚ l' -> forallb f l = forallb f l'.
Proof.
  induction 1 as [| |x y l|]; simpl; try congruence. by destruct (f x), (f y).
Qed.

Lemma is_ok_map_rows rows :
  keys_ok ((fun r : row => r.1.1) <$> rows) = true ->
  is_ok (mapToByteArray rows) =
  (if (2 <=? Z.of_nat (length rows)) then
     match rows with r :: _ => negb (unsigned_kind (kind_of r.1.1)) | [] => true end
   else true) && forallb (fun r => is_ok (row_bytes r)) rows.
Proof.
  intros Hok. destruct rows as [|r1 l1]; [done|].
  pose proof (fun x y Hx Hy => keys_ok_elem _ _ _ Hok (row_key _ x Hx) (row_key _ y Hy)) as Hel.
  assert (Hr1 : r1 ∈ r1 :: l1) by (apply elem_of_cons; auto).
  destruct (Hel r1 r1 Hr1 Hr1) as (_ & Hs & _).
  pose proof (fun x y => rows_less _ Hok r1 x y Hr1) as Hless.
  unfold mapToByteArray. rewrite sortKeys_scalar by done.
  destruct (unsigned_kind (kind_of r1.1.1)) eqn:Hu.
  - destruct l1 as [|r2 l1].
    + cbn [length Z.of_nat]. simpl. rewrite andb_true_r.
      destruct r1 as [[k [kb|e|]] [vb|e'|]]; done.
    + rewrite go_sortM_panic; [|simpl; lia|done].
      rewrite (proj2 (Z.leb_le _ _)) by (simpl length; lia). done.
  - rewrite (go_sortM_pure _ (fun r r' : row => key_ltb r.1.1 r'.1.1)) by done.
    unfold rmap at 1. simpl rbind. rewrite map_loop_spec, is_ok_rmap, is_ok_rmapM.
    rewrite (forallb_perm _ _ _ (go_sort_perm _ _)). by destruct (2 <=? _).
Qed.

Lemma getByteArray_scalar k : scalar k = true -> is_ok (getByteArray k) = true.
Proof. unfold scalar. induction k; simpl; try done; auto. Qed.

Lemma getByteArray_hashable v : wf_value v = true -> is_ok (getByteArray v) = hashable v.
Proof.
  assert (Hlist : forall l, Forall (fun v => wf_value v = true -> is_ok (getByteArray v) = hashable v) l ->
    forallb wf_value l = true ->
    is_ok (arrayToByteArray (map getByteArray l)) = forallb hashable l).
  { intros l IH Hwf. unfold arrayToByteArray. rewrite array_loop_spec, is_ok_rmap, is_ok_rmapM.
    induction IH as [|w l Hw' _ IH]; simpl in *; [done|].
    apply andb_true_iff in Hwf as [Hw Hwf]. by rewrite Hw', IH. }
  induction v as [| | | | | |l IH|l IH|es IH| |n v IH| |] using value_ind';
    intros Hwf; simpl in *; auto.
  apply andb_true_iff in Hwf as [Hok Hwf].
  rewrite is_ok_map_rows.
  - rewrite length_map. f_equal; [by destruct es as [|[k x] es]|].
    assert (Hs : forall e, e ∈ es -> scalar e.1 = true /\ go_eqb e.1 e.1 = true).
    { intros e He. apply (keys_ok_elem (map fst es) e.1 e.1); [done| |];
        by apply list_elem_of_In, in_map, list_elem_of_In. }
    clear Hok. induction IH as [|[k x] es [_ Hx] _ IHes]; simpl in *; [done|].
    apply andb_true_iff in Hwf as [Hw Hwf]. rewrite IHes by (try done; set_solver).
    f_equal. destruct (Hs (k, x)) as [Hk Hr]; [set_solver|]. simpl in Hk, Hr. rewrite Hr.
    apply getByteArray_scalar in Hk. rewrite <- Hx by done. unfold row_bytes. simpl.
    by destruct (getByteArray k), (getByteArray x).
  - revert Hok. clear. intros Hok. replace (_ <$> _) with (map fst es); [done|].
    clear. induction es as [|[k x] es IH]; simpl; [done|]. by f_equal.
Qed.

(** ** Properties of the byte conversion *)

(** C1. On the values whose maps the package can sort, hashing is insensitive to
    the random iteration order of Go maps.  Let the keys of every map inside the
    parameters, at any depth, be scalars of one type and not NaN ([wf_value]):
    then two observations of the parameters that differ only in the order in
    which these maps were iterated have the same outcome of [Generate] and
    [GenerateSHAKE], for every algorithm name.  Outside this domain it fails:
    see [array_keys_unsorted]. *)
Theorem Generate_map_order `{Digests} alg ps ps' :
  Forall2 veq ps ps' -> forallb wf_value ps = true ->
  Generate alg ps = Generate alg ps' /\
  forall n, GenerateSHAKE alg n ps = GenerateSHAKE alg n ps'.
Proof.
  intros Hv Hwf. pose proof (GenerateByteArray_veq ps ps' Hv Hwf) as Heq.
  unfold Generate, GenerateSHAKE, GenerateSHA256, GenerateSHA1, GenerateMD5, GenerateCRC32,
    GenerateSHAKE128, GenerateSHAKE256, generateHash, generateShakeHash.
  by rewrite Heq.
Qed.

(** A concrete digest family, to run the front end: sizes as documented. *)
Definition toy_digest (n : nat) (l : list Z) : list Z :=
  replicate n (foldl (fun a b => (a * 31 + b) mod 256) 7 l).

Definition toy_digests : Digests :=
  {| sha256_digest := toy_digest 32; sha1_digest := toy_digest 20; md5_digest := toy_digest 16;
     crc32_digest := toy_digest 4;
     shake128_squeeze := fun l n => toy_digest n l; shake256_squeeze := fun l n => toy_digest n l |}.

#[export] Instance toy_digest_laws : DigestLaws toy_digests.
Proof. split; intros; apply length_replicate. Qed.

Lemma Generate_map_order_witness :
  let m1 := VMap [(VString "host", VString "a"); (VString "app", VMap [(VInt I_int 2, VBool true); (VInt I_int 1, VBool false)])] in
  let m2 := VMap [(VString "app", VMap [(VInt I_int 1, VBool false); (VInt I_int 2, VBool true)]); (VString "host", VString "a")] in
  @Generate toy_digests SHA256 [m1] = @Generate toy_digests SHA256 [m2].
Proof.
  apply (@Generate_map_order toy_digests); [|reflexivity].
  constructor; [|constructor].
  eapply veq_map; [apply Permutation_swap|].
  constructor; [|constructor; [|constructor]].
  - split; [reflexivity|]. eapply veq_map; [apply Permutation_swap|].
    constructor; [|constructor; [|constructor]]; split; try reflexivity; apply veq_same.
  - split; [reflexivity|]. apply veq_same.
Defined.

(** [sortKeys] knows no order on arrays, its error is dropped by
    [mapToByteArray], and array keys can be hashed: a map with array keys is
    encoded in the order in which it happens to be iterated. *)
Theorem array_keys_unsorted es :
  Forall (fun e : value * value => (exists l, e.1 = VArray l) /\ go_eqb e.1 e.1 = true) es ->
  getByteArray (VMap es) =
    rmap (@concat Z) (rmapM (fun e : value * value =>
      let* kb := getByteArray e.1 in let* vb := getByteArray e.2 in Ok (kb ++ vb)) es).
Proof.
  intros Hes. destruct es as [|[k0 x0] es0] eqn:E; [done|]. rewrite <- E in *.
  assert (exists l0, k0 = VArray l0) as [l0 ->].
  { rewrite E in Hes. apply Forall_cons in Hes as [[? _] _]. done. }
  cbn [getByteArray]. match goal with |- mapToByteArray ?r = _ => set (rows := r) end.
  assert (Hm : mapToByteArray rows = map_loop rows []) by (unfold rows; by rewrite E).
  rewrite Hm, map_loop_spec. unfold rows. clear Hm rows E. f_equal.
  induction Hes as [|[k x] es [_ Hk] _ IH]; [done|]. cbn [map rmapM row_bytes fst snd].
  cbn [fst] in Hk. by rewrite Hk, IH.
Qed.

(** So the same map can have two hashes. *)
Lemma array_keys_unsorted_witness :
  let e i := (VArray [VInt I_int i], VBool true) in
  GenerateByteArray [VMap [e 1; e 2]] <> GenerateByteArray [VMap [e 2; e 1]] /\
  getByteArray (VMap [e 1; e 2]) =
    rmap (@concat Z) (rmapM (fun e : value * value =>
      let* kb := getByteArray e.1 in let* vb := getByteArray e.2 in Ok (kb ++ vb)) [e 1; e 2]).
Proof.
  split; [vm_compute; discriminate|]. apply array_keys_unsorted. repeat constructor; by eexists.
Defined.

(** C35. The values the package can hash are exactly the hashable ones: on every
    well-formed value [getByteArray] returns bytes if and only if the value is
    built from scalars, slices, arrays and maps (no nil, interface-typed
    element, pointer, struct, channel or function inside), with at most one
    entry in a map whose keys are unsigned integers. *)
Theorem getByteArray_ok_iff v :
  wf_value v = true -> is_ok (getByteArray v) = hashable v.
Proof. apply getByteArray_hashable. Qed.

Lemma getByteArray_ok_iff_witness :
  let v := VSlice [VMap [(VString "a", VIface (VInt I_int 1))]] in
  is_ok (getByteArray v) = hashable v /\ hashable v = false.
Proof. split; [apply getByteArray_ok_iff; reflexivity|reflexivity]. Defined.

(** The 64-bit word a fixed-width parameter is encoded as. *)
Definition word_of (v : value) : option Z :=
  match strip v with
  | VInt _ i => Some (uint64_of_Z i)
  | VUint _ i => Some i
  | VFloat64 f => Some (Float64bits f)
  | _ => None
  end.

Definition is_word (v : value) : Prop := exists w, word_of v = Some w /\ uint64_range w.

Lemma getByteArray_strip v : getByteArray v = getByteArray (strip v).
Proof. induction v; simpl; auto. Qed.

Lemma getByteArray_word v w : word_of v = Some w -> getByteArray v = Ok (PutUint64 w).
Proof.
  unfold word_of. rewrite (getByteArray_strip v). destruct (strip v); intros; simplify_eq; done.
Qed.

Lemma rmapM_words ps :
  Forall is_word ps ->
  exists ws, word_of <$> ps = Some <$> ws /\ Forall uint64_range ws /\
    GenerateByteArray ps = Ok (concat (PutUint64 <$> ws)).
Proof.
  intros H. setoid_rewrite GenerateByteArray_spec.
  induction H as [|p ps (w & Hw & Hr) _ (ws & Hws & Hrs & Hg)].
  { exists []. done. }
  exists (w :: ws). split; [by simpl; f_equal|]. split; [by constructor|].
  simpl. rewrite (getByteArray_word p w Hw). unfold rmap in *. simpl.
  destruct (rmapM getByteArray ps); simpl in *; [|done..]. injection Hg as Hg. by rewrite Hg.
Qed.

Lemma concat_words_inj ws ws' :
  Forall uint64_range ws -> Forall uint64_range ws' ->
  concat (PutUint64 <$> ws) = concat (PutUint64 <$> ws') -> ws = ws'.
Proof.
  intros H. revert ws'. induction H as [|w ws Hw _ IH]; intros ws' H'; destruct H' as [|w' ws' Hw' H'];
    [done|done|done|].
  cbn [fmap list_fmap concat]. intros Heq. apply app_inj_1 in Heq as [Heq1 Heq2]; [|done].
  f_equal; [by apply PutUint64_inj|by apply IH].
Qed.

(** On fixed-width parameters (signed and unsigned integers and [float64]s,
    of named types or not) the byte array determines the parameters: their
    number, and the 64-bit pattern of each.  So two lists of numeric hash
    parameters are confused only by a collision of the digest. *)
Theorem GenerateByteArray_words_inj ps ps' :
  Forall is_word ps -> Forall is_word ps' ->
  GenerateByteArray ps = GenerateByteArray ps' -> word_of <$> ps = word_of <$> ps'.
Proof.
  intros (ws & -> & Hr & ->)%rmapM_words (ws' & -> & Hr' & ->)%rmapM_words [= Heq].
  f_equal. by apply concat_words_inj.
Qed.

Lemma GenerateByteArray_words_inj_witness :
  word_of <$> [VInt I_int8 (-1); VNamed "Op" (VUint U_uint8 3)] =
  word_of <$> [VUint U_uint64 (two64 - 1); VFloat64 (Float64frombits 3)].
Proof.
  apply GenerateByteArray_words_inj; [..|reflexivity];
    (repeat constructor); (eexists; split; [reflexivity|vm_compute; split; congruence]).
Defined.

(** A map with unsigned integer keys and at least two entries cannot be
    hashed: [sortKeys] sends unsigned keys to [byInt], whose [Less] calls
    [reflect.Value.Int], which panics on an unsigned kind. *)
Theorem unsigned_keys_panic k1 i1 k2 i2 x1 x2 es :
  Forall (fun e => exists k i, e.1 = VUint k i) es ->
  getByteArray (VMap ((VUint k1 i1, x1) :: (VUint k2 i2, x2) :: es)) = Panic.
Proof.
  intros Hes. cbn [getByteArray map]. match goal with |- mapToByteArray ?r = _ => set (rows := r) end.
  assert (Hp : forall r r' : row, r ∈ rows -> r' ∈ rows -> byInt_Less r.1.1 r'.1.1 = Panic).
  { intros r r' Hr _. assert (exists k i, r.1.1 = VUint k i) as (k & i & Hri).
    - apply elem_of_cons in Hr as [->|Hr]; [by eauto|].
      apply elem_of_cons in Hr as [->|Hr]; [by eauto|].
      apply list_elem_of_In, in_map_iff in Hr as ([k x] & <- & Hin%list_elem_of_In).
      rewrite Forall_forall in Hes. apply (Hes _ Hin).
    - unfold byInt_Less, value_Int. by rewrite Hri. }
  assert (Hs : forall u, sortKeys rows (kind_of_ukind u) = Panic).
  { intros u. change (kind_of_ukind u) with (kind_of (VUint u 0)).
    rewrite (sortKeys_scalar rows (VUint u 0) eq_refl).
    rewrite (go_sortM_panic (fun r r' : row => less_for (kind_of (VUint u 0)) r.1.1 r'.1.1));
      [done|unfold rows; simpl; lia|]. destruct u; exact Hp. }
  change (rbind (sortKeys rows (kind_of_ukind k1)) (fun r => map_loop r.1 []) = Panic).
  by rewrite Hs.
Qed.

Lemma unsigned_keys_panic_witness :
  getByteArray (VMap [(VUint U_uint 1, VBool true); (VUint U_uint 2, VBool true)]) = Panic.
Proof. apply unsigned_keys_panic. constructor. Defined.

Lemma stringToByteArray_bytes s : stringToByteArray s = bytes_of_string s.
Proof. unfold stringToByteArray. by destruct s. Qed.

(** The digest function and the digest size of each algorithm [Generate] knows. *)
Definition digest_of `{Digests} (alg : Algorithm) : option ((list Z -> list Z) * nat) :=
  if bool_decide (alg = SHA256) then Some (sha256_digest, 32%nat)
  else if bool_decide (alg = SHA1) then Some (sha1_digest, 20%nat)
  else if bool_decide (alg = MD5) then Some (md5_digest, 16%nat)
  else if bool_decide (alg = CRC32) then Some (crc32_digest, 4%nat)
  else None.

Lemma Generate_digest `{Digests} alg ps :
  Generate alg ps =
  match digest_of alg with
  | Some (d, _) => rmap (fun bs => d (concat bs)) (rmapM getByteArray ps)
  | None => Err (ErrNoAlgorithm alg)
  end.
Proof.
  unfold Generate, GenerateSHA256, GenerateSHA1, GenerateMD5, GenerateCRC32, generateHash, digest_of.
  rewrite GenerateByteArray_spec. unfold rmap.
  repeat case_bool_decide; [..|done]; by destruct (rmapM getByteArray ps).
Qed.

(** C34. The outcome of [Generate] on every branch: an unknown algorithm is an
    error whatever the parameters; otherwise the first parameter that fails (or
    panics) decides the outcome, and if none does the result is the digest of
    the concatenated encodings and has the digest's documented size. *)
Theorem Generate_outcome {D : Digests} {L : DigestLaws D} alg ps :
  Generate alg ps =
    match digest_of alg with
    | Some (d, _) => rmap (fun bs => d (concat bs)) (rmapM getByteArray ps)
    | None => Err (ErrNoAlgorithm alg)
    end /\
  (forall h, Generate alg ps = Ok h ->
    exists d, digest_of alg = Some (d, length h)).
Proof.
  split; [apply Generate_digest|]. intros h. rewrite Generate_digest.
  destruct (digest_of alg) as [[d n]|] eqn:Ed; [|done]. unfold rmap. intros Hh. inv_ok. subst h.
  exists d. do 2 f_equal. unfold digest_of in Ed.
  repeat case_bool_decide; simplify_eq; symmetry;
    auto using sha256_size, sha1_size, md5_size, crc32_size.
Qed.

Lemma Generate_outcome_witness :
  exists h, @Generate toy_digests MD5 [VString "cpu"; VBool true] = Ok h /\
    exists d, @digest_of toy_digests MD5 = Some (d, length h).
Proof.
  eexists. split; [vm_compute; reflexivity|].
  apply (@Generate_outcome toy_digests toy_digest_laws MD5 [VString "cpu"; VBool true]).
  vm_compute. reflexivity.
Defined.

(** Parameters are concatenated without separators or lengths: moving bytes
    between adjacent string parameters does not change the hash, so different
    parameter lists share a key under every algorithm. *)
Theorem string_boundaries_lost `{Digests} alg (s t u : string) pre post :
  Generate alg (pre ++ [VString (s +:+ t); VString u] ++ post) =
  Generate alg (pre ++ [VString s; VString (t +:+ u)] ++ post).
Proof.
  assert (Heq : GenerateByteArray (pre ++ [VString (s +:+ t); VString u] ++ post) =
    GenerateByteArray (pre ++ [VString s; VString (t +:+ u)] ++ post)).
  { rewrite !GenerateByteArray_spec, !rmapM_app. unfold rmap. simpl.
    destruct (rmapM getByteArray pre); simpl; [|done..].
    destruct (rmapM getByteArray post); simpl; [|done..].
    rewrite !concat_app. simpl.
    by rewrite !stringToByteArray_bytes, !bytes_of_string_app, <- !app_assoc. }
  unfold Generate, GenerateSHA256, GenerateSHA1, GenerateMD5, GenerateCRC32, generateHash.
  by rewrite Heq.
Qed.
