(* ===== verification/Chan.v ===== *)
(** * Buffered Go channels

    A channel made with [make(chan T, n)], as the components of the library use
    them: a bounded FIFO with a closed flag.  The outcomes say what the
    operation does at this instant; a goroutine for which the outcome is
    "blocks" simply has no step. *)

From stdpp Require Import base list.
From Stdlib Require Import Lia.
From S2P Require Import Prelude.

Record chan (A : Type) : Type := mkChan {
  ch_cap : nat;
  ch_buf : list A;
  ch_closed : bool;
}.
Arguments mkChan {A} _ _ _.
Arguments ch_cap {A} _.
Arguments ch_buf {A} _.
Arguments ch_closed {A} _.

Definition make_chan {A : Type} (n : nat) : chan A := mkChan n [] false.

Inductive send_outcome (A : Type) : Type :=
| SendOk (c : chan A)
| SendBlocks
| SendPanics.
Arguments SendOk {A} c.
Arguments SendBlocks {A}.
Arguments SendPanics {A}.

(** [c <- x]: panics on a closed channel, blocks on a full one. *)
Definition chan_send {A : Type} (c : chan A) (x : A) : send_outcome A :=
  if ch_closed c then SendPanics
  else if (length (ch_buf c) <? ch_cap c)%nat then SendOk (mkChan (ch_cap c) (ch_buf c ++ [x]) false)
  else SendBlocks.

Inductive recv_outcome (A : Type) : Type :=
| RecvOk (x : A) (c : chan A)
| RecvClosed
| RecvBlocks.
Arguments RecvOk {A} x c.
Arguments RecvClosed {A}.
Arguments RecvBlocks {A}.

(** [x, ok := <-c]: buffered elements are received even after [close]; then a
    closed channel yields [ok = false] forever. *)
Definition chan_recv {A : Type} (c : chan A) : recv_outcome A :=
  match ch_buf c with
  | x :: buf => RecvOk x (mkChan (ch_cap c) buf (ch_closed c))
  | [] => if ch_closed c then RecvClosed else RecvBlocks
  end.

(** [close(c)]: panics if the channel is already closed. *)
Definition chan_close {A : Type} (c : chan A) : option (chan A) :=
  if ch_closed c then None else Some (mkChan (ch_cap c) (ch_buf c) true).

Definition chan_wf {A : Type} (c : chan A) : Prop := (length (ch_buf c) <= ch_cap c)%nat.

Section chan.
Context {A : Type}.
Implicit Types c : chan A.

Lemma chan_send_ok c x c' :
  chan_send c x = SendOk c' ->
  ch_closed c = false /\ ch_closed c' = false /\ ch_buf c' = ch_buf c ++ [x] /\ ch_cap c' = ch_cap c.
Proof.
  unfold chan_send. destruct (ch_closed c); [done|]. destruct (_ <? _)%nat; [|done].
  intros [= <-]. done.
Qed.

Lemma chan_send_wf c x c' : chan_wf c -> chan_send c x = SendOk c' -> chan_wf c'.
Proof.
  unfold chan_wf, chan_send. destruct (ch_closed c); [done|].
  destruct (Nat.ltb_spec (length (ch_buf c)) (ch_cap c)); [|done].
  intros _ [= <-]. simpl. rewrite length_app. simpl. lia.
Qed.

Lemma chan_recv_ok c x c' :
  chan_recv c = RecvOk x c' ->
  ch_buf c = x :: ch_buf c' /\ ch_closed c' = ch_closed c /\ ch_cap c' = ch_cap c.
Proof.
  unfold chan_recv. destruct (ch_buf c) as [|y buf]; [by destruct (ch_closed c)|].
  intros [= -> <-]. done.
Qed.

Lemma chan_recv_closed c : chan_recv c = RecvClosed -> ch_buf c = [] /\ ch_closed c = true.
Proof. unfold chan_recv. destruct (ch_buf c), (ch_closed c); done. Qed.

Lemma chan_recv_blocks c : chan_recv c = RecvBlocks -> ch_buf c = [] /\ ch_closed c = false.
Proof. unfold chan_recv. destruct (ch_buf c), (ch_closed c); done. Qed.
End chan.
