(* ===== verification/Timeline.v ===== *)
(** * Package [timeline]: the shared data model

    The data exchanged by the manager, the flattener and the transports
    ([timeline/flattener.go], [timeline/transport.go], [timeline/manager.go]),
    and the [Transport] interface the first two are written against. *)

From stdpp Require Import base gmap strings list.
From Stdlib Require Import ZArith Lia.
From S2P Require Import Prelude Float64 GoValue Hashing.

Local Open Scope Z_scope.

(** ** Aggregations

    [FlatOperation] is a [uint8]: any byte can be passed, five are defined. *)
Definition FlatOperation : Type := Z.
Definition Avg : FlatOperation := 0.
Definition Sum : FlatOperation := 1.
Definition Count : FlatOperation := 2.
Definition Max : FlatOperation := 3.
Definition Min : FlatOperation := 4.

(** A [FlatOperation] passed as an [interface{}] hash parameter. *)
Definition op_value (op : FlatOperation) : value := VNamed "timeline.FlatOperation" (VUint U_uint8 op).

(** ** Data channel items

    The [ArrayItem] structs of the two serializers, and the dynamic types a
    data channel item (an [interface{}]) can have. *)
Record JsonArrayItem : Type := mkJson { Name : string; Parameters : list value }.
Record TsdbArrayItem : Type := mkTsdb {
  Metric : string;
  Tags : list value;
  Timestamp : Z;
  Value : float64;
}.

Inductive item : Type :=
| IJson (i : JsonArrayItem)
| IJsonPtr (i : JsonArrayItem)
| ITsdb (i : TsdbArrayItem)
| ITsdbPtr (i : TsdbArrayItem)
| IOther (v : value).

(** ** Flattener points *)

Record flattenerPointData : Type := mkPointData {
  operation : FlatOperation;
  timestamp : Z;
  dataChannelItem : item;
}.

Record FlattenerPoint : Type := mkPoint {
  point_data : flattenerPointData;
  hashParameters : list value;
  point_value : float64;
}.

(** ** Errors of the package *)
Inductive timeline_error : Type :=
| ErrOperationNotMapped (op : FlatOperation)
| ErrTransportRequired
| ErrFlattenerRequired
| ErrNoBackendConfiguration
| ErrNoBackend
| ErrNullConfiguration
| ErrInvalidBufferSize (n : Z)
| ErrInvalidSerializerBufferSize (n : Z)
| ErrInvalidBatchSendInterval (d : Z)
| ErrInvalidRequestTimeout (d : Z)
| ErrTimestampPropertyNotConfigured
| ErrValuePropertyNotConfigured
| ErrInvalidMaxReadTimeout (d : Z)
| ErrInvalidReconnectionTimeout (d : Z)
| ErrCastInstance
| ErrCastPointItem
| ErrCastArrayItem
| ErrExpectPropertyName (v : value)
| ErrExpectFloat64 (v : value)
| ErrExpectInt64 (v : value)
| ErrNotHTTP
| ErrNotOpenTSDB
| ErrHashing (e : hash_error)
| ErrSerializer (e : string)
| ErrRequest (e : string)
| ErrReadBody (e : string)
| ErrBody (body : string).

(** ** Transport types

    [typeOpenTSDB] repeats the constant expression of [typeHTTP] (there is no
    [iota]): an omitted expression in a Go const group is the previous one. *)
Definition transportType : Type := Z.
Definition typeHTTP : transportType := 0.
Definition typeOpenTSDB : transportType := typeHTTP.

Record Backend : Type := mkBackend { Host : string; Port : Z }.

(** ** The [Transport] interface

    The conversions the flattener and the manager use.  [now] is the result of
    [time.Now().Unix()] at the call. *)
Class Transport (T : Type) : Type := {
  MatchType : T -> transportType -> bool;
  DataChannelItemToFlattenedPoint :
    T -> forall (now : Z), FlatOperation -> item -> result timeline_error FlattenerPoint;
  FlattenedPointToDataChannelItem : T -> FlattenerPoint -> result timeline_error item;
}.

(** What a transport promises to the flattener: a point made from an item
    converts back to an item after flattening replaced its value, and the hash
    parameters identify the series, not the measured value. *)
Class TransportLaws (T : Type) `{Transport T} : Prop := {
  point_operation t now op i p :
    DataChannelItemToFlattenedPoint t now op i = Ok p -> operation (point_data p) = op;
  point_back t now op i p v hp :
    DataChannelItemToFlattenedPoint t now op i = Ok p ->
    exists i', FlattenedPointToDataChannelItem t (mkPoint (point_data p) hp v) = Ok i';
  point_back_no_panic t p : FlattenedPointToDataChannelItem t p <> Panic;
}.
