(* ===== verification/Flattener.v ===== *)
(** * The point flattener ([timeline/flattener.go])

    Points of one series that arrive within a cycle are collected under the
    hex digest of their hash parameters and flattened to one point by their
    aggregation.  This file has the operations on the point map as one
    goroutine runs them; [FlattenerConc.v] has the interleavings. *)

From stdpp Require Import base gmap strings list.
From Stdlib Require Import ZArith Lia.
From S2P Require Import Prelude Float64 GoValue Hashing Chan Timeline.

Local Open Scope Z_scope.
Local Open Scope go_scope.

(** ** [hex.EncodeToString] *)

Definition hextable : string := "0123456789abcdef".

Definition hex_char (n : Z) : Ascii.ascii :=
  default Ascii.zero (String.get (Z.to_nat n) hextable).

Fixpoint EncodeToString (bs : list Z) : string :=
  match bs with
  | [] => ""
  | b :: bs => String (hex_char (Z.shiftr b 4)) (String (hex_char (Z.land b 15)) (EncodeToString bs))
  end.

Lemma hex_char_inj a b : 0 <= a < 16 -> 0 <= b < 16 -> hex_char a = hex_char b -> a = b.
Proof.
  intros Ha Hb.
  assert (H : forall n, 0 <= n < 16 -> n ∈ [0; 1; 2; 3; 4; 5; 6; 7; 8; 9; 10; 11; 12; 13; 14; 15]).
  { intros n Hn. rewrite !elem_of_cons. lia. }
  apply H in Ha, Hb.
  repeat (apply elem_of_cons in Ha as [->|Ha]); try by apply elem_of_nil in Ha.
  all: repeat (apply elem_of_cons in Hb as [->|Hb]); try by apply elem_of_nil in Hb.
  all: done.
Qed.

Lemma EncodeToString_inj bs bs' :
  Forall is_byte bs -> Forall is_byte bs' -> EncodeToString bs = EncodeToString bs' -> bs = bs'.
Proof.
  assert (Hn : forall b, is_byte b -> 0 <= Z.shiftr b 4 < 16 /\ 0 <= Z.land b 15 < 16 /\
    b = Z.shiftr b 4 * 16 + Z.land b 15).
  { intros b Hb. unfold is_byte in Hb. rewrite (Z.land_ones _ 4), Z.shiftr_div_pow2 by lia.
    change (2 ^ 4) with 16. pose proof (Z.div_mod b 16 ltac:(lia)).
    pose proof (Z.mod_pos_bound b 16 ltac:(lia)). lia. }
  intros H. revert bs'. induction H as [|b bs Hb _ IH]; intros bs' H'; destruct H' as [|b' bs' Hb' H'];
    simpl; [done..|].
  destruct (Hn b Hb) as (? & ? & Eb), (Hn b' Hb') as (? & ? & Eb').
  intros [= E1 E2 E3]. apply hex_char_inj in E1; [|done..]. apply hex_char_inj in E2; [|done..].
  f_equal; [lia|by apply IH].
Qed.

(** ** State *)

Record FlattenerConfig : Type := mkFlattenerConfig {
  CycleDuration : Z;
  HashingAlgorithm : Algorithm;
}.

Record mapEntry : Type := mkEntry {
  me_data : flattenerPointData;
  me_values : list float64;
}.

(** [fl_terminateChan] has room for one message. *)
Record Flattener (T : Type) : Type := mkFlattener {
  configuration : FlattenerConfig;
  pointMap : gmap string mapEntry;
  transport : T;
  fl_terminateChan : chan unit;
}.
Arguments mkFlattener {T} _ _ _ _.
Arguments configuration {T} _.
Arguments pointMap {T} _.
Arguments transport {T} _.
Arguments fl_terminateChan {T} _.

(** [NewFlattener]: a nil transport is refused. *)
Definition NewFlattener {T : Type} (tr : option T) (cfg : FlattenerConfig) :
    result timeline_error (Flattener T) :=
  match tr with
  | None => Err ErrTransportRequired
  | Some tr => Ok (mkFlattener cfg ∅ tr (make_chan 1))
  end.

(** ** Operations *)

Definition lift_hash {A : Type} (m : result hash_error A) : result timeline_error A :=
  match m with Ok a => Ok a | Err e => Err (ErrHashing e) | Panic => Panic end.

Section operations.
Context `{D : Digests} {T : Type} `{TT : Transport T}.

(** The map key of a point. *)
Definition point_key (cfg : FlattenerConfig) (point : FlattenerPoint) : result timeline_error string :=
  let* hash := lift_hash (Generate (HashingAlgorithm cfg) (hashParameters point)) in
  Ok (EncodeToString hash).

Definition Add (f : Flattener T) (point : FlattenerPoint) : result timeline_error (Flattener T) :=
  let* key := point_key (configuration f) point in
  match pointMap f !! key with
  | Some entry =>
      let entry := mkEntry (me_data entry) (me_values entry ++ [point_value point]) in
      Ok (mkFlattener (configuration f) (<[key := entry]> (pointMap f)) (transport f) (fl_terminateChan f))
  | None =>
      let entry := mkEntry (point_data point) [point_value point] in
      Ok (mkFlattener (configuration f) (<[key := entry]> (pointMap f)) (transport f) (fl_terminateChan f))
  end.

Fixpoint add_all (f : Flattener T) (points : list FlattenerPoint) : result timeline_error (Flattener T) :=
  match points with
  | [] => Ok f
  | p :: points => let* f := Add f p in add_all f points
  end.
End operations.

Definition sum_values (values : list float64) : float64 := foldl f64_add f64_zero values.

Definition min_step (flatValue v : float64) : float64 := if f64_ltb v flatValue then v else flatValue.
Definition max_step (flatValue v : float64) : float64 := if f64_ltb flatValue v then v else flatValue.

(** [flatten]; indexing [entry.values[0]] of an empty slice panics. *)
Definition flatten (entry : mapEntry) : result timeline_error FlattenerPoint :=
  let values := me_values entry in
  let n := Z.of_nat (length values) in
  let mk flatValue := Ok (mkPoint (me_data entry) [] flatValue) in
  let op := operation (me_data entry) in
  if op =? Avg then mk (f64_div (sum_values values) (f64_of_Z n))
  else if op =? Sum then mk (sum_values values)
  else if op =? Count then mk (f64_of_Z n)
  else if op =? Min then
    match values with [] => Panic | v0 :: vs => mk (foldl min_step v0 vs) end
  else if op =? Max then
    match values with [] => Panic | v0 :: vs => mk (foldl max_step v0 vs) end
  else Err (ErrOperationNotMapped op).

Section cycle.
Context {T : Type} `{TT : Transport T}.

(** [processEntry]: the item to send on the data channel, if any; errors are
    logged and swallowed. *)
Definition processEntry (tr : T) (entry : mapEntry) : result timeline_error (option item) :=
  match flatten entry with
  | Panic => Panic
  | Err _ => Ok None
  | Ok newValue =>
      match FlattenedPointToDataChannelItem tr newValue with
      | Panic => Panic
      | Err _ => Ok None
      | Ok i => Ok (Some i)
      end
  end.

(** The body of [beginCycle] after the timer: the [Range] callback over the
    entries in the order the map yields them. *)
Fixpoint range_loop (tr : T) (order : list (string * mapEntry)) (m : gmap string mapEntry)
    (out : list item) (count : nat) :
    result timeline_error (gmap string mapEntry * list item * nat) :=
  match order with
  | [] => Ok (m, out, count)
  | (k, entry) :: order =>
      let* o := processEntry tr entry in
      range_loop tr order (delete k m) (out ++ option_list o) (S count)
  end.
End cycle.

(** ** Aggregation *)

Lemma flatten_total entry :
  me_values entry <> [] ->
  if (0 <=? operation (me_data entry)) && (operation (me_data entry) <=? 4)
  then exists v, flatten entry = Ok (mkPoint (me_data entry) [] v)
  else flatten entry = Err (ErrOperationNotMapped (operation (me_data entry))).
Proof.
  intros Hv. unfold flatten, Avg, Sum, Count, Min, Max.
  destruct (me_values entry) as [|v0 vs]; [done|]. set (op := operation (me_data entry)).
  destruct (Z.eqb_spec op 0) as [->|]; [by eexists|].
  destruct (Z.eqb_spec op 1) as [->|]; [by eexists|].
  destruct (Z.eqb_spec op 2) as [->|]; [by eexists|].
  destruct (Z.eqb_spec op 4) as [->|]; [by eexists|].
  destruct (Z.eqb_spec op 3) as [->|]; [by eexists|].
  destruct (Z.leb_spec 0 op); [|done]. destruct (Z.leb_spec op 4); [lia|done].
Qed.

Lemma flatten_sum entry :
  operation (me_data entry) = Sum ->
  flatten entry = Ok (mkPoint (me_data entry) [] (sum_values (me_values entry))).
Proof. unfold flatten. by intros ->. Qed.

(** C15. [Min] and [Max] flatten a series to one of its values that no other
    value is below (above), whatever the order of arrival, when none is NaN. *)
Theorem flatten_min_max entry p :
  Forall (fun v => f64_is_nan v = false) (me_values entry) ->
  flatten entry = Ok p ->
  (operation (me_data entry) = Min ->
    point_value p ∈ me_values entry /\
    forall v, v ∈ me_values entry -> f64_ltb v (point_value p) = false) /\
  (operation (me_data entry) = Max ->
    point_value p ∈ me_values entry /\
    forall v, v ∈ me_values entry -> f64_ltb (point_value p) v = false).
Proof.
  intros Hnan Hf. unfold flatten in Hf.
  split; intros Hop; rewrite Hop in Hf; cbn in Hf;
    destruct (me_values entry) as [|v0 vs]; try done; injection Hf as <-; cbn [point_value];
    apply Forall_cons in Hnan as [H0 Hvs].
  - split; [apply (foldl_extreme_mem (fun a b => f64_ltb a b))|].
    intros v Hv. apply (foldl_extreme_bound (fun a b => f64_ltb a b) (fun v => f64_is_nan v = false));
      auto using f64_ltb_irrefl, f64_ltb_asym. intros a b c Ha Hb Hc. by apply f64_ltb_false_trans.
  - split; [apply (foldl_extreme_mem (fun a b => f64_ltb b a))|].
    intros v Hv. apply (foldl_extreme_bound (fun a b => f64_ltb b a) (fun v => f64_is_nan v = false));
      auto using f64_ltb_irrefl, f64_ltb_asym. intros a b c Ha Hb Hc ??. by apply (f64_ltb_false_trans c b a).
Qed.

Definition entry_of (op : FlatOperation) (values : list float64) : mapEntry :=
  mkEntry (mkPointData op 0 (IOther VInvalid)) values.

Lemma flatten_min_max_witness :
  exists p, flatten (entry_of Min [f64_of_Z 5; f64_of_Z 2; f64_of_Z 7]) = Ok p /\
    point_value p ∈ [f64_of_Z 5; f64_of_Z 2; f64_of_Z 7].
Proof.
  eexists. split; [vm_compute; reflexivity|].
  refine (proj1 (proj1 (flatten_min_max (entry_of Min [f64_of_Z 5; f64_of_Z 2; f64_of_Z 7]) _ _ _) _));
    [|vm_compute; reflexivity|reflexivity].
  repeat constructor.
Defined.

(** C16. On non-negative integer measurements whose total stays below 2^53 the
    aggregations are exact: [Sum] is the total, [Count] the number of points and
    [Avg] the correctly rounded quotient of the two, for every number of points
    and every order of arrival. *)
Theorem flatten_exact entry ns :
  me_values entry = f64_of_Z <$> ns -> Forall (fun n => 0 <= n) ns ->
  foldr Z.add 0 ns < max_exact ->
  let total := foldr Z.add 0 ns in
  let count := Z.of_nat (length ns) in
  flatten entry =
    if operation (me_data entry) =? Avg
    then Ok (mkPoint (me_data entry) [] (f64_div (f64_of_Z total) (f64_of_Z count)))
    else if operation (me_data entry) =? Sum then Ok (mkPoint (me_data entry) [] (f64_of_Z total))
    else if operation (me_data entry) =? Count then Ok (mkPoint (me_data entry) [] (f64_of_Z count))
    else flatten entry.
Proof.
  intros Hv Hns Hb. cbv zeta. unfold flatten at 1. rewrite Hv, length_fmap.
  assert (Hs : sum_values (f64_of_Z <$> ns) = f64_of_Z (foldr Z.add 0 ns)).
  { unfold sum_values. rewrite <- f64_of_Z_0. by rewrite sum_values_int by (done || lia). }
  rewrite Hs. destruct (_ =? Avg) eqn:E1; [done|]. destruct (_ =? Sum) eqn:E2; [done|].
  destruct (_ =? Count) eqn:E3; [done|]. unfold flatten. rewrite E1, E2, E3, Hv. done.
Qed.

Lemma flatten_exact_witness :
  flatten (entry_of Sum (f64_of_Z <$> [10; 4; 28])) =
  Ok (mkPoint (mkPointData Sum 0 (IOther VInvalid)) [] (f64_of_Z 42)).
Proof.
  apply (flatten_exact (entry_of Sum (f64_of_Z <$> [10; 4; 28])) [10; 4; 28]);
    [reflexivity|repeat constructor; lia|reflexivity].
Defined.

(** ** Grouping points into series

    The specification of a cycle: the points are grouped by key; a group keeps
    the data (operation, timestamp, item) of its first point and the values of
    all its points in order of arrival. *)
Section grouping.
Context `{D : Digests} {T : Type} `{TT : Transport T}.
Implicit Types f : Flattener T.

Definition has_key (cfg : FlattenerConfig) (k : string) (p : FlattenerPoint) : bool :=
  match point_key cfg p with Ok k' => bool_decide (k = k') | _ => false end.

Definition series (cfg : FlattenerConfig) (ps : list FlattenerPoint) (k : string) :
    list FlattenerPoint := List.filter (has_key cfg k) ps.

Definition series_entry (l : list FlattenerPoint) : option mapEntry :=
  match l with
  | [] => None
  | p :: _ => Some (mkEntry (point_data p) (point_value <$> l))
  end.

Definition keys_of (cfg : FlattenerConfig) (ps : list FlattenerPoint) : list string :=
  omap (fun p => match point_key cfg p with Ok k => Some k | _ => None end) ps.

Definition hashes (cfg : FlattenerConfig) (ps : list FlattenerPoint) : Prop :=
  Forall (fun p => is_ok (point_key cfg p) = true) ps.

Definition merge_entry (old : option mapEntry) (l : list FlattenerPoint) : option mapEntry :=
  match old with
  | Some e => Some (mkEntry (me_data e) (me_values e ++ (point_value <$> l)))
  | None => series_entry l
  end.

Lemma Add_ok f p k :
  point_key (configuration f) p = Ok k ->
  exists f', Add f p = Ok f' /\ configuration f' = configuration f /\
    transport f' = transport f /\
    pointMap f' = <[k := default (mkEntry (point_data p) []) (merge_entry (pointMap f !! k) [p])]> (pointMap f).
Proof.
  intros Hk. unfold Add. rewrite Hk. cbn [rbind].
  destruct (pointMap f !! k) as [e|]; eexists; split; done.
Qed.

Lemma merge_entry_app old l1 l2 :
  merge_entry (merge_entry old l1) l2 = merge_entry old (l1 ++ l2).
Proof.
  destruct old as [e|]; simpl.
  - by rewrite fmap_app, app_assoc.
  - destruct l1 as [|p l1]; simpl; [done|]. by rewrite fmap_app.
Qed.

Lemma add_all_spec f ps :
  hashes (configuration f) ps ->
  exists f', add_all f ps = Ok f' /\ configuration f' = configuration f /\
    transport f' = transport f /\
    forall k, pointMap f' !! k = merge_entry (pointMap f !! k) (series (configuration f) ps k).
Proof.
  intros H. revert f H. induction ps as [|p ps IH]; intros f H.
  { exists f. split_and!; try done. intros k. simpl.
    destruct (pointMap f !! k) as [[d vs]|]; simpl; [|done]. by rewrite app_nil_r. }
  inversion H as [|? ? Hp Hps]; subst.
  destruct (point_key (configuration f) p) as [k0| |] eqn:Hk0; [|done..].
  destruct (Add_ok f p k0 Hk0) as (f1 & Ha & Hc & Ht & Hm).
  rewrite <- Hc in Hps. destruct (IH f1 Hps) as (f2 & Haa & Hc2 & Ht2 & Hm2).
  exists f2. simpl. rewrite Ha. split_and!; [done|congruence..|].
  intros k. rewrite Hm2, Hm, Hc, lookup_insert. unfold series. simpl. unfold has_key at 2. rewrite Hk0.
  case_decide as Hkk.
  - subst k. rewrite bool_decide_eq_true_2 by done.
    match goal with |- _ = merge_entry _ (p :: ?l) => change (p :: l) with ([p] ++ l) end.
    rewrite <- (merge_entry_app _ [p]). by destruct (pointMap f !! k0).
  - rewrite bool_decide_eq_false_2 by done. done.
Qed.

(** Points of one key make one entry. *)
Lemma add_all_single f ps k :
  pointMap f = ∅ -> Forall (fun p => point_key (configuration f) p = Ok k) ps ->
  forall p0 l, ps = p0 :: l ->
  exists f', add_all f ps = Ok f' /\
    pointMap f' = {[k := mkEntry (point_data p0) (point_value <$> ps)]}.
Proof.
  intros Hemp Hk p0 l Hps.
  destruct (add_all_spec f ps) as (f' & Ha & _ & _ & Hm).
  { eapply Forall_impl; [exact Hk|]. by intros p ->. }
  exists f'. split; [done|]. apply map_eq. intros k'. rewrite Hm, Hemp, lookup_empty, lookup_singleton.
  assert (Hs : series (configuration f) ps k' = if decide (k = k') then ps else []).
  { clear -Hk. induction Hk as [|p ps Hp _ IH]; simpl; [by destruct (decide (k = k'))|].
    unfold has_key at 1. rewrite Hp. fold (series (configuration f) ps k'). rewrite IH.
    destruct (decide (k = k')) as [->|]; [by rewrite bool_decide_eq_true_2|by rewrite bool_decide_eq_false_2]. }
  rewrite Hs. destruct (decide (k = k')); [by subst ps|done].
Qed.

(** What a cycle sends for an entry. *)
Definition emitted (tr : T) (e : mapEntry) : option item :=
  match processEntry tr e with Ok o => o | _ => None end.

Lemma processEntry_ok (HL : TransportLaws T) (tr : T) e :
  me_values e <> [] -> processEntry tr e = Ok (emitted tr e).
Proof.
  intros Hv. unfold emitted, processEntry. pose proof (flatten_total e Hv) as Hf.
  destruct (_ && _); [destruct Hf as [v ->]|by rewrite Hf].
  pose proof (point_back_no_panic tr (mkPoint (me_data e) [] v)).
  by destruct (FlattenedPointToDataChannelItem _ _).
Qed.

Lemma range_loop_spec (HL : TransportLaws T) (tr : T) order m out n :
  Forall (fun ke => me_values ke.2 <> []) order ->
  range_loop tr order m out n =
  Ok (foldl (fun m k => delete k m) m order.*1, out ++ omap (emitted tr) order.*2,
      (n + length order)%nat).
Proof.
  intros H. revert m out n. induction H as [|[k e] order He _ IH]; intros m out n; simpl.
  { by rewrite app_nil_r, Nat.add_0_r. }
  rewrite (processEntry_ok HL) by done. cbn [rbind]. rewrite IH, <- app_assoc.
  replace (S n + length order)%nat with (n + S (length order))%nat by lia.
  by destruct (emitted tr e).
Qed.

Lemma delete_all_keys (m : gmap string mapEntry) ks :
  (forall k e, m !! k = Some e -> k ∈ ks) -> foldl (fun m k => delete k m) m ks = ∅.
Proof.
  revert m. induction ks as [|k ks IH]; intros m H; simpl.
  - apply map_empty. intros k. destruct (m !! k) as [e|] eqn:E; [|done].
    by apply H, elem_of_nil in E.
  - apply IH. intros k' e [Hne Hk']%lookup_delete_Some. apply H in Hk'.
    apply elem_of_cons in Hk' as [->|]; done.
Qed.

Lemma keys_of_series cfg ps k : k ∈ keys_of cfg ps <-> series cfg ps k <> [].
Proof.
  unfold keys_of, series. rewrite list_elem_of_omap. split.
  - intros (p & Hp & Hk) Hn. destruct (point_key cfg p) as [k'| |] eqn:E; [|done..].
    simplify_eq. assert (Hin : In p (List.filter (has_key cfg k) ps)).
    { apply filter_In. split; [by apply list_elem_of_In|]. unfold has_key. rewrite E.
      by apply bool_decide_eq_true_2. }
    by rewrite Hn in Hin.
  - destruct (List.filter _ ps) as [|p l] eqn:E; [done|]. intros _.
    assert (Hin : In p (List.filter (has_key cfg k) ps)) by (rewrite E; by left).
    apply filter_In in Hin as [Hin Hk]. exists p. split; [by apply list_elem_of_In|].
    unfold has_key in Hk. destruct (point_key cfg p); [|done..].
    apply bool_decide_eq_true in Hk. by subst.
Qed.
End grouping.

Lemma omap_fst_snd {A B C} (g : A -> option C) (h : B -> option C) (l : list (A * B)) :
  (forall x y, (x, y) ∈ l -> g x = h y) -> omap h l.*2 = omap g l.*1.
Proof.
  induction l as [|[x y] l IH]; intros H; [done|].
  assert (IH' : omap h l.*2 = omap g l.*1).
  { apply IH. intros ?? ?. apply H. by apply elem_of_cons; right. }
  assert (Hxy : g x = h y) by (apply H; by apply elem_of_cons; left).
  simpl. rewrite Hxy. destruct (h y); [by f_equal|done].
Qed.

(** The [Range] of a cycle after adding any points whose parameters can be
    hashed: it empties the map, counts one entry per key, and processes the
    entries of the specification. *)
Lemma cycle_groups {D : Digests} {T} {TT : Transport T} {HL : TransportLaws T}
    (f : Flattener T) ps :
  pointMap f = ∅ -> hashes (configuration f) ps ->
  exists f', add_all f ps = Ok f' /\
    forall order, order ≡ₚ map_to_list (pointMap f') ->
    let keys := remove_dups (keys_of (configuration f) ps) in
    exists out,
      range_loop (transport f) order (pointMap f') [] 0 = Ok (∅, out, length keys) /\
      out ≡ₚ omap (fun k => series_entry (series (configuration f) ps k) ≫= emitted (transport f)) keys.
Proof.
  intros Hemp Hh. destruct (add_all_spec f ps Hh) as (f' & Ha & _ & _ & Hm).
  exists f'. split; [done|]. intros order Hp. cbv zeta.
  assert (Hlk : forall k, pointMap f' !! k = series_entry (series (configuration f) ps k)).
  { intros k. by rewrite Hm, Hemp, lookup_empty. }
  assert (Hin : forall k e, (k, e) ∈ order <-> series_entry (series (configuration f) ps k) = Some e).
  { intros k e. by rewrite Hp, elem_of_map_to_list, Hlk. }
  assert (Hkeys : order.*1 ≡ₚ remove_dups (keys_of (configuration f) ps)).
  { apply NoDup_Permutation; [rewrite Hp; apply NoDup_fst_map_to_list|apply NoDup_remove_dups|].
    intros k. rewrite elem_of_remove_dups, keys_of_series, list_elem_of_fmap. split.
    - intros ([k' e] & -> & He%Hin) Hn. simpl in *. by rewrite Hn in He.
    - intros Hn. destruct (series (configuration f) ps k) as [|p l] eqn:E; [done|].
      exists (k, mkEntry (point_data p) (point_value <$> p :: l)). split; [done|].
      apply Hin. by rewrite E. }
  eexists. split.
  - rewrite (range_loop_spec HL).
    + rewrite delete_all_keys; [|intros k e; rewrite Hlk; intros He%Hin; by apply (list_elem_of_fmap_2 fst) in He].
      rewrite <- Hkeys, length_fmap. done.
    + apply Forall_forall. intros [k e] He%Hin. simpl.
      destruct (series (configuration f) ps k); simplify_eq/=. done.
  - simpl. rewrite <- Hkeys. rewrite (omap_fst_snd
      (fun k => series_entry (series (configuration f) ps k) ≫= emitted (transport f))); [done|].
    intros k e He%Hin. by rewrite He.
Qed.

(** The value a series is flattened to, by operation. *)
Definition aggregate_values (op : FlatOperation) (vs : list float64) : option float64 :=
  match vs with
  | [] => None
  | v0 :: rest =>
      let total := foldl f64_add f64_zero vs in
      let n := f64_of_Z (Z.of_nat (length vs)) in
      if op =? Avg then Some (f64_div total n)
      else if op =? Sum then Some total
      else if op =? Count then Some n
      else if op =? Min then Some (foldl (fun m v => if f64_ltb v m then v else m) v0 rest)
      else if op =? Max then Some (foldl (fun m v => if f64_ltb m v then v else m) v0 rest)
      else None
  end.

Lemma flatten_aggregate e :
  flatten e = match aggregate_values (operation (me_data e)) (me_values e) with
              | Some v => Ok (mkPoint (me_data e) [] v)
              | None => flatten e
              end.
Proof.
  destruct (aggregate_values _ _) as [v|] eqn:E; [|done]. unfold aggregate_values, flatten in *.
  destruct (me_values e) as [|v0 vs]; [done|].
  do 5 (match goal with |- context [if ?b then Ok _ else _] => destruct b | |- context [if ?b then _ else _] => destruct b end;
    [by injection E as <-|]). done.
Qed.

Lemma aggregate_defined op v0 vs : 0 <= op <= 4 -> is_Some (aggregate_values op (v0 :: vs)).
Proof.
  intros Hop. unfold aggregate_values, Avg, Sum, Count, Min, Max.
  repeat (case_match; [by eexists|]). rewrite !Z.eqb_neq in *. lia.
Qed.

(** What a group of points is sent as: the data of its first point, converted by
    the transport with the flattened value of all of them. *)
Definition sent_as {T} `{Transport T} (tr : T) (group : list FlattenerPoint) (i : item) : Prop :=
  exists p v, head group = Some p /\
    aggregate_values (operation (point_data p)) (point_value <$> group) = Some v /\
    FlattenedPointToDataChannelItem tr (mkPoint (point_data p) [] v) = Ok i.

(** A point that [Flatten...] made, with an operation of the package. *)
Definition converted {T} `{Transport T} (tr : T) (p : FlattenerPoint) : Prop :=
  exists now op i, 0 <= op <= 4 /\ DataChannelItemToFlattenedPoint tr now op i = Ok p.

Lemma group_sent {D : Digests} {T} {TT : Transport T} {HL : TransportLaws T} (tr : T) cfg ps k :
  Forall (converted tr) ps -> k ∈ keys_of cfg ps ->
  exists i, series_entry (series cfg ps k) ≫= emitted tr = Some i /\ sent_as tr (series cfg ps k) i.
Proof.
  intros Hps Hk%keys_of_series. destruct (series cfg ps k) as [|p l] eqn:E; [done|].
  assert (Hp : In p ps).
  { apply (filter_In (has_key cfg k)). unfold series in E. rewrite E. by left. }
  rewrite Forall_forall in Hps. apply list_elem_of_In, Hps in Hp as (now & op & i & Hop & Hc).
  rewrite <- (point_operation _ _ _ _ _ Hc) in Hop.
  destruct (aggregate_defined _ (point_value p) (point_value <$> l) Hop) as [v Hv].
  destruct (point_back tr now op i p v [] Hc) as [i' Hi'].
  exists i'. split; [|by exists p, v].
  cbn [series_entry mbind option_bind]. unfold emitted, processEntry. rewrite flatten_aggregate.
  cbn [me_data me_values fmap list_fmap]. by rewrite Hv, Hi'.
Qed.

(** C2. A cycle refines the grouping specification.  Start from an empty
    flattener and add any points that the transport made with an operation of
    the package and whose parameters can be hashed.  Then the [Range] of a cycle,
    in whatever order the map yields its entries, does not panic, leaves the map
    empty, counts one point per distinct key, and sends exactly one item per
    distinct key: the first point of the key's group converted back with the
    sum, mean, number, minimum or maximum of the values of the whole group. *)
Theorem cycle_refines_grouping {D : Digests} {T} {TT : Transport T} {HL : TransportLaws T}
    (f : Flattener T) ps :
  pointMap f = ∅ -> hashes (configuration f) ps -> Forall (converted (transport f)) ps ->
  exists f', add_all f ps = Ok f' /\
    forall order, order ≡ₚ map_to_list (pointMap f') ->
    exists keys out, keys ≡ₚ remove_dups (keys_of (configuration f) ps) /\
      range_loop (transport f) order (pointMap f') [] 0 = Ok (∅, out, length keys) /\
      Forall2 (fun k i => sent_as (transport f) (series (configuration f) ps k) i) keys out.
Proof.
  intros Hemp Hh Hc. destruct (cycle_groups f ps Hemp Hh) as (f' & Ha & Hr).
  exists f'. split; [done|]. intros order Ho. destruct (Hr order Ho) as (out & Hl & Hout). clear Hr.
  set (cfg := configuration f) in *. set (tr := transport f) in *.
  assert (Hall : forall ks, Forall (fun k => k ∈ keys_of cfg ps) ks ->
    Forall2 (fun k i => sent_as tr (series cfg ps k) i) ks
      (omap (fun k => series_entry (series cfg ps k) ≫= emitted tr) ks)).
  { intros ks Hks. induction Hks as [|k ks Hk _ IH]; [by constructor|].
    destruct (group_sent tr cfg ps k Hc Hk) as (i & Hi & Hs). cbn [omap list_omap]. rewrite Hi. by constructor. }
  assert (Hkeys : Forall (fun k => k ∈ keys_of cfg ps) (remove_dups (keys_of cfg ps))).
  { apply Forall_forall. intros k. by rewrite elem_of_remove_dups. }
  symmetry in Hout. destruct (Permutation_Forall2 Hout (proj1 (Forall2_flip _ _ _) (Hall _ Hkeys))) as (keys & Hp & HF).
  exists keys, out. split_and!; [done| |by apply Forall2_flip]. by rewrite <- Hp.
Qed.
