(* ===== verification/TransportCore.v ===== *)
(** * The common transport core ([timeline/transport.go])

    The default configuration and its validation, and the transfer loop: a
    goroutine that, every batch interval, drains the point channel and hands
    the batch to the transport.  Producers (the manager and the flattener),
    [Close] and the loop interleave; the loop is a step relation. *)

From stdpp Require Import base strings list relations.
From Stdlib Require Import ZArith Lia.
From S2P Require Import Prelude Chan Timeline.

Local Open Scope Z_scope.

(** ** Configuration *)

Record DefaultTransportConfiguration : Type := mkDefaultConfig {
  TransportBufferSize : Z;
  BatchSendInterval : Z;
  RequestTimeout : Z;
  SerializerBufferSize : Z;
}.

(** [Validate].  [d.Seconds() <= 0] holds exactly when the [time.Duration]
    (a count of nanoseconds) is not positive. *)
Definition Validate (c : DefaultTransportConfiguration) : result timeline_error unit :=
  if TransportBufferSize c <=? 0 then Err (ErrInvalidBufferSize (TransportBufferSize c))
  else if SerializerBufferSize c <=? 0 then Err (ErrInvalidSerializerBufferSize (SerializerBufferSize c))
  else if BatchSendInterval c <=? 0 then Err (ErrInvalidBatchSendInterval (BatchSendInterval c))
  else if RequestTimeout c <=? 0 then Err (ErrInvalidRequestTimeout (RequestTimeout c))
  else Ok tt.

Definition config_ok (c : DefaultTransportConfiguration) : Prop :=
  0 < TransportBufferSize c /\ 0 < SerializerBufferSize c /\ 0 < BatchSendInterval c /\ 0 < RequestTimeout c.

Lemma Validate_ok_iff c : Validate c = Ok tt <-> config_ok c.
Proof.
  unfold Validate, config_ok.
  destruct (Z.leb_spec (TransportBufferSize c) 0); [split; [done|lia]|].
  destruct (Z.leb_spec (SerializerBufferSize c) 0); [split; [done|lia]|].
  destruct (Z.leb_spec (BatchSendInterval c) 0); [split; [done|lia]|].
  destruct (Z.leb_spec (RequestTimeout c) 0); [split; [done|lia]|]. split; [lia|done].
Qed.

(** ** The transfer loop *)

(** Where the loop's goroutine is: at [<-time.After(...)]; in the inner loop
    with the points read so far; about to call [TransferData]; returned. *)
Inductive loop_pc : Type :=
| Waiting
| Draining (points : list item)
| Transferring (points : list item)
| Finished.

Record core_state : Type := mkCore {
  pointChannel : chan item;
  pc : loop_pc;
  accepted : list item;          (* every item a producer's send put in the channel *)
  batches : list (list item);    (* arguments of the [TransferData] calls made *)
  dropped : list item;           (* points in hand when the loop broke out *)
}.

Definition core_init (n : nat) : core_state := mkCore (make_chan n) Waiting [] [] [].

Inductive core_step : core_state -> core_state -> Prop :=
| step_send s x c' :
    chan_send (pointChannel s) x = SendOk c' ->
    core_step s (mkCore c' (pc s) (accepted s ++ [x]) (batches s) (dropped s))
| step_close s c' :
    chan_close (pointChannel s) = Some c' ->
    core_step s (mkCore c' (pc s) (accepted s) (batches s) (dropped s))
| step_timer s :
    pc s = Waiting ->
    core_step s (mkCore (pointChannel s) (Draining []) (accepted s) (batches s) (dropped s))
| step_recv s points x c' :
    pc s = Draining points -> chan_recv (pointChannel s) = RecvOk x c' ->
    core_step s (mkCore c' (Draining (points ++ [x])) (accepted s) (batches s) (dropped s))
| step_recv_closed s points :
    pc s = Draining points -> chan_recv (pointChannel s) = RecvClosed ->
    core_step s (mkCore (pointChannel s) Finished (accepted s) (batches s) (dropped s ++ points))
| step_default_empty s :
    pc s = Draining [] -> chan_recv (pointChannel s) = RecvBlocks ->
    core_step s (mkCore (pointChannel s) Waiting (accepted s) (batches s) (dropped s))
| step_default s points :
    pc s = Draining points -> points <> [] -> chan_recv (pointChannel s) = RecvBlocks ->
    core_step s (mkCore (pointChannel s) (Transferring points) (accepted s) (batches s) (dropped s))
| step_transfer s points :
    pc s = Transferring points ->
    core_step s (mkCore (pointChannel s) Waiting (accepted s) (batches s ++ [points]) (dropped s)).

Definition reachable (n : nat) (s : core_state) : Prop := rtc core_step (core_init n) s.

(** The points the loop holds in its local slice. *)
Definition in_hand (p : loop_pc) : list item :=
  match p with Draining l | Transferring l => l | _ => [] end.

(** Conservation: what was accepted is, in order, what was transferred, then
    what the loop holds or dropped, then what is still in the channel. *)
Record core_inv (n : nat) (s : core_state) : Prop := {
  inv_cap : ch_cap (pointChannel s) = n;
  inv_wf : chan_wf (pointChannel s);
  inv_fifo : accepted s =
    concat (batches s) ++ dropped s ++ in_hand (pc s) ++ ch_buf (pointChannel s);
  inv_dropped : dropped s <> [] -> pc s = Finished;
  inv_finished : pc s = Finished -> ch_closed (pointChannel s) = true /\ ch_buf (pointChannel s) = [];
  inv_batches : Forall (fun b => b <> []) (batches s);
  inv_transferring : pc s <> Transferring [];
}.

Lemma core_inv_init n : core_inv n (core_init n).
Proof. split; try done. unfold chan_wf; simpl; lia. Qed.

Lemma core_inv_step n s s' : core_inv n s -> core_step s s' -> core_inv n s'.
Proof.
  intros [Hcap Hwf Hf Hd Hfin Hb Ht] Hs. destruct Hs as [s x c' E|s c' E|s E|s ps x c' E E'|s ps E E'|s E E'|s ps E En E'|s ps E].
  - pose proof (chan_send_wf _ _ _ Hwf E) as Hwf'.
    apply chan_send_ok in E as (Hc & Hc' & Hbuf & Hcap').
    split; simpl; try done; [congruence| |].
    + rewrite Hf, Hbuf, <- !app_assoc. done.
    + intros Hp. apply Hfin in Hp as [Hp _]. congruence.
  - unfold chan_close in E. destruct (ch_closed _) eqn:Ec; [done|]. injection E as <-.
    split; simpl; try done. intros Hp. apply Hfin in Hp as [Hp _]. congruence.
  - rewrite E in Hf, Hd. split; simpl; try done. intros Hn. by apply Hd in Hn.
  - rewrite E in Hf, Hd. unfold chan_wf in *. apply chan_recv_ok in E' as (Hbuf & Hcl & Hcap').
    split; simpl; try done; [congruence| | |].
    + unfold chan_wf. rewrite Hcap'. rewrite Hbuf in Hwf. simpl in Hwf. lia.
    + rewrite Hf, Hbuf. simpl. by rewrite <- !app_assoc.
    + intros Hn. by apply Hd in Hn.
  - rewrite E in Hf. apply chan_recv_closed in E' as [Hbuf Hcl].
    split; simpl; try done. rewrite Hf, Hbuf. simpl. by rewrite <- !app_assoc.
  - rewrite E in Hf, Hd. split; simpl; try done. intros Hn. by apply Hd in Hn.
  - rewrite E in Hf, Hd. split; simpl; try done; [intros Hn; by apply Hd in Hn|congruence].
  - rewrite E in Hf, Hd, Ht. assert (dropped s = []) as Hnil.
    { destruct (dropped s); [done|]. by discriminate Hd. }
    split; simpl; try done.
    + rewrite Hf, Hnil, concat_app. simpl. by rewrite app_nil_r, <- !app_assoc.
    + apply Forall_app. split; [done|]. repeat constructor. intros ->. done.
Qed.

Lemma reachable_inv n s : reachable n s -> core_inv n s.
Proof.
  intros H. apply (rtc_invariant core_step (core_inv n) (core_init n)); [|done|apply core_inv_init].
  intros a b. apply core_inv_step.
Qed.

(** C4. Exactly-once, in-order hand-over.  In every reachable state of the
    transport, for every interleaving of producers, timer and [Close], the
    items accepted so far are exactly the concatenation of the batches passed
    to [TransferData], followed by the points the loop dropped or holds and
    those still buffered; no batch is empty, and the buffer never exceeds its
    capacity. *)
Theorem transfer_fifo n s :
  reachable n s ->
  accepted s = concat (batches s) ++ dropped s ++ in_hand (pc s) ++ ch_buf (pointChannel s) /\
  Forall (fun b => b <> []) (batches s) /\
  (length (ch_buf (pointChannel s)) <= n)%nat.
Proof.
  intros [Hcap Hwf Hf _ _ Hb _]%reachable_inv. split_and!; [done..|].
  unfold chan_wf in Hwf. by rewrite <- Hcap.
Qed.

Definition demo_item (z : Z) : item := IOther (GoValue.VInt GoValue.I_int z).

(** A run: two sends, a drain, and the batch handed over. *)
Definition demo_run : core_state :=
  mkCore (make_chan 2) Waiting [demo_item 1; demo_item 2] [[demo_item 1; demo_item 2]] [].

Lemma demo_run_reachable : reachable 2 demo_run.
Proof.
  eapply rtc_l; [apply (step_send _ (demo_item 1)); reflexivity|].
  eapply rtc_l; [apply (step_send _ (demo_item 2)); reflexivity|].
  eapply rtc_l; [apply step_timer; reflexivity|].
  eapply rtc_l; [eapply step_recv; reflexivity|].
  eapply rtc_l; [eapply step_recv; reflexivity|].
  eapply rtc_l; [eapply step_default; [reflexivity|done|reflexivity]|].
  eapply rtc_l; [eapply step_transfer; reflexivity|].
  apply rtc_refl.
Qed.

Lemma transfer_fifo_witness :
  accepted demo_run = concat (batches demo_run) ++ [] ++ [] ++ [].
Proof. apply (transfer_fifo 2 demo_run demo_run_reachable). Defined.

Lemma drain_all s points :
  pc s = Draining points -> ch_closed (pointChannel s) = false ->
  exists s', rtc core_step s s' /\ pc s' = Draining (points ++ ch_buf (pointChannel s)) /\
    ch_buf (pointChannel s') = [] /\ ch_closed (pointChannel s') = false /\
    accepted s' = accepted s /\ batches s' = batches s /\ dropped s' = dropped s.
Proof.
  remember (ch_buf (pointChannel s)) as buf eqn:Hbuf. symmetry in Hbuf.
  revert s points Hbuf. induction buf as [|x buf IH]; intros s points Hbuf Hpc Hcl.
  { exists s. rewrite app_nil_r. split_and!; [apply rtc_refl|done..]. }
  set (c' := mkChan (ch_cap (pointChannel s)) buf (ch_closed (pointChannel s))).
  set (s1 := mkCore c' (Draining (points ++ [x])) (accepted s) (batches s) (dropped s)).
  destruct (IH s1 (points ++ [x])) as (s' & Hr & Hpc' & ?); [done..|].
  exists s'. rewrite <- app_assoc in Hpc'. split; [|done].
  eapply rtc_l; [|exact Hr]. apply (step_recv _ points x); [done|]. unfold chan_recv. by rewrite Hbuf.
Qed.

(** From the start of a drain on an open channel, the loop can hand over all it
    holds and all that is buffered. *)
Lemma drain_and_transfer n s points :
  core_inv n s -> pc s = Draining points -> ch_closed (pointChannel s) = false ->
  exists s', rtc core_step s s' /\ ch_closed (pointChannel s') = false /\
    accepted s' = accepted s /\ concat (batches s') = accepted s.
Proof.
  intros Hinv Hpc Hcl. destruct (drain_all s points Hpc Hcl) as (s1 & Hr & Hpc1 & Hb1 & Hc1 & Ha1 & Hba1 & Hd1).
  assert (Hinv1 : core_inv n s1).
  { eapply (rtc_invariant core_step (core_inv n)); [|exact Hr|done]. intros a b. apply core_inv_step. }
  pose proof (inv_fifo _ _ Hinv1) as Hf. pose proof (inv_dropped _ _ Hinv1) as Hd.
  assert (dropped s1 = []) as Hnil by (destruct (dropped s1); [done|]; by rewrite Hd in Hpc1).
  rewrite Hnil, Hb1, app_nil_r, Hpc1, Ha1 in Hf. simpl in Hf.
  assert (Hblk : chan_recv (pointChannel s1) = RecvBlocks) by (unfold chan_recv; by rewrite Hb1, Hc1).
  destruct (points ++ ch_buf (pointChannel s)) as [|x l] eqn:El.
  - eexists. split; [eapply rtc_r; [exact Hr|by apply step_default_empty]|].
    simpl. rewrite app_nil_r in Hf. done.
  - eexists. split.
    + eapply rtc_r; [eapply rtc_r; [exact Hr|]|].
      * apply (step_default _ (x :: l)); done.
      * by apply (step_transfer _ (x :: l)).
    + simpl. rewrite concat_app. simpl. rewrite app_nil_r. done.
Qed.

Lemma open_inv_can_deliver n s :
  core_inv n s -> ch_closed (pointChannel s) = false ->
  exists s', rtc core_step s s' /\ ch_closed (pointChannel s') = false /\
    accepted s' = accepted s /\ concat (batches s') = accepted s.
Proof.
  intros Hinv Hcl.
  assert (Hwait : forall s, core_inv n s -> pc s = Waiting -> ch_closed (pointChannel s) = false ->
    exists s', rtc core_step s s' /\ ch_closed (pointChannel s') = false /\
      accepted s' = accepted s /\ concat (batches s') = accepted s).
  { intros s0 Hi Hp Hc. pose proof (step_timer s0 Hp) as Hst.
    destruct (drain_and_transfer n _ [] (core_inv_step _ _ _ Hi Hst)) as (s' & Hr & ?); [done..|].
    exists s'. split; [by eapply rtc_l|done]. }
  destruct (pc s) as [|points|points|] eqn:Hpc.
  - by apply Hwait.
  - by eapply drain_and_transfer.
  - pose proof (step_transfer s points Hpc) as Hst.
    destruct (Hwait _ (core_inv_step _ _ _ Hinv Hst)) as (s' & Hr & ?); [done..|].
    exists s'. split; [by eapply rtc_l|done].
  - apply (inv_finished _ _ Hinv) in Hpc as [? _]. congruence.
Qed.

(** While the transport is open every accepted item can still be
    delivered: from every reachable state whose channel is not closed the loop
    has a continuation, without further sends and without a close, after which
    the batches passed to [TransferData] are exactly the accepted items. *)
Theorem open_can_deliver n s :
  reachable n s -> ch_closed (pointChannel s) = false ->
  exists s', rtc core_step s s' /\ ch_closed (pointChannel s') = false /\
    accepted s' = accepted s /\ concat (batches s') = accepted s.
Proof. intros Hinv%reachable_inv. by eapply open_inv_can_deliver. Qed.

Lemma open_can_deliver_witness :
  exists s', rtc core_step demo_run s' /\ ch_closed (pointChannel s') = false /\
    accepted s' = accepted demo_run /\ concat (batches s') = accepted demo_run.
Proof. apply (open_can_deliver 2 demo_run demo_run_reachable). reflexivity. Defined.

(** ** After [Close] *)

(** The batch inside [TransferData], and the points drained into the slice. *)
Definition in_transfer (p : loop_pc) : list (list item) := match p with Transferring l => [l] | _ => [] end.
Definition drained (p : loop_pc) : list item := match p with Draining l => l | _ => [] end.

(** Once the channel is closed the only batch that can still be transferred is
    the one inside [TransferData]. *)
Record closing (b : list (list item)) (a : list item) (s : core_state) : Prop := {
  cl_closed : ch_closed (pointChannel s) = true;
  cl_batches : batches s ++ in_transfer (pc s) = b;
  cl_accepted : accepted s = a;
}.

(** Steps the loop has left. *)
Definition remaining (s : core_state) : nat :=
  length (ch_buf (pointChannel s)) +
  match pc s with Transferring _ => 3 | Waiting => 2 | Draining _ => 1 | Finished => 0 end.

Lemma closing_step b a s s' :
  closing b a s -> core_step s s' -> closing b a s' /\ (remaining s' < remaining s)%nat.
Proof.
  intros [Hc Hb Ha] Hs.
  destruct Hs as [s x c' E|s c' E|s E|s ps x c' E E'|s ps E E'|s E E'|s ps E En E'|s ps E]; unfold remaining; simpl.
  - apply chan_send_ok in E as (? & _). congruence.
  - unfold chan_close in E. by rewrite Hc in E.
  - rewrite E in *. split; [by split|lia].
  - rewrite E in *. apply chan_recv_ok in E' as (Hbuf & Hcl & _). rewrite Hbuf. simpl in *.
    split; [split; simpl; congruence|lia].
  - rewrite E in *. split; [by split|lia].
  - apply chan_recv_blocks in E' as [_ ?]. congruence.
  - apply chan_recv_blocks in E' as [_ ?]. congruence.
  - rewrite E in *. split; [split; simpl; [done|by rewrite app_nil_r|done]|lia].
Qed.

Lemma closing_run b a k s s' :
  closing b a s -> nsteps core_step k s s' -> closing b a s' /\ (k + remaining s' <= remaining s)%nat.
Proof.
  intros Hc Hn. revert Hc. induction Hn as [s|k s s1 s' Hs _ IH]; intros Hc; [split; [done|lia]|].
  destruct (closing_step _ _ _ _ Hc Hs) as [Hc1 Hlt]. destruct (IH Hc1). split; [done|lia].
Qed.

(** The loop only stops by returning. *)
Lemma closing_stuck b a s : closing b a s -> (forall s', ~ core_step s s') -> pc s = Finished.
Proof.
  intros [Hc _ _] Hno. destruct (pc s) as [|ps|ps|] eqn:E; [| | |done]; exfalso.
  - by eapply Hno, step_timer.
  - destruct (ch_buf (pointChannel s)) as [|x l] eqn:Hb.
    + eapply Hno, step_recv_closed; [done|]. unfold chan_recv. by rewrite Hb, Hc.
    + eapply Hno, step_recv; [done|]. unfold chan_recv. by rewrite Hb.
  - by eapply Hno, step_transfer.
Qed.

(** C40. [Close] loses data.  From every reachable state in which the channel has
    been closed: the loop makes at most as many steps as there are buffered items
    and three more; at most the batch that is inside [TransferData] at that
    moment is still transferred; and when the loop can do nothing more it has
    returned, with that batch transferred and everything else that was accepted
    and not transferred before, the items already drained into the loop's slice
    and those in the channel, dropped. *)
Theorem close_drops_pending n s :
  reachable n s -> ch_closed (pointChannel s) = true ->
  (forall k s', nsteps core_step k s s' -> (k <= length (ch_buf (pointChannel s)) + 3)%nat) /\
  (forall s', rtc core_step s s' -> batches s' `prefix_of` batches s ++ in_transfer (pc s)) /\
  (forall s', rtc core_step s s' -> (forall s2, ~ core_step s' s2) ->
     pc s' = Finished /\ batches s' = batches s ++ in_transfer (pc s) /\
     dropped s' = dropped s ++ drained (pc s) ++ ch_buf (pointChannel s)).
Proof.
  intros Hr Hc. assert (Hcl : closing (batches s ++ in_transfer (pc s)) (accepted s) s) by by split.
  split_and!.
  - intros k s' [_ Hk]%(closing_run _ _ _ _ _ Hcl). unfold remaining in Hk at 2. destruct (pc s); lia.
  - intros s' [k [[_ <- _] _]%(closing_run _ _ _ _ _ Hcl)]%rtc_nsteps. by apply prefix_app_r.
  - intros s' Hss Hno. pose proof Hss as [k [Hcl' _]%(closing_run _ _ _ _ _ Hcl)]%rtc_nsteps.
    pose proof (closing_stuck _ _ _ Hcl' Hno) as Hfin. destruct Hcl' as [_ Hb Ha].
    rewrite Hfin in Hb. simpl in Hb. rewrite app_nil_r in Hb. split_and!; [done..|].
    assert (Hinv : core_inv n s') by (apply reachable_inv; unfold reachable in *; by etrans).
    pose proof (inv_fifo _ _ Hinv) as Hf'. pose proof (inv_fifo _ _ (reachable_inv _ _ Hr)) as Hf.
    destruct (inv_finished _ _ Hinv Hfin) as [_ Hbuf]. rewrite Hfin, Hbuf, Ha, Hb, Hf in Hf'. simpl in Hf'.
    rewrite app_nil_r, concat_app, <- app_assoc in Hf'. apply app_inv_head in Hf'.
    destruct (pc s) as [|ps|ps|] eqn:E; simpl in *; try done.
    assert (dropped s = []) as Hnil.
    { pose proof (inv_dropped _ _ (reachable_inv _ _ Hr)) as Hd. destruct (dropped s); [done|]. rewrite Hd in E by done. done. }
    rewrite Hnil in *. rewrite app_nil_r in Hf'. simpl in Hf'. by apply app_inv_head in Hf' as ->.
Qed.

(** Two accepted items, [Close], then the loop wakes up. *)
Definition lossy_start : core_state :=
  mkCore (mkChan 2 [demo_item 1; demo_item 2] true) Waiting [demo_item 1; demo_item 2] [] [].
Definition lossy_end : core_state :=
  mkCore (mkChan 2 [] true) Finished [demo_item 1; demo_item 2] [] [demo_item 1; demo_item 2].

Lemma lossy_start_reachable : reachable 2 lossy_start.
Proof.
  eapply rtc_l; [apply (step_send _ (demo_item 1)); reflexivity|].
  eapply rtc_l; [apply (step_send _ (demo_item 2)); reflexivity|].
  eapply rtc_l; [eapply step_close; reflexivity|]. apply rtc_refl.
Qed.

Lemma lossy_run : rtc core_step lossy_start lossy_end.
Proof.
  eapply rtc_l; [apply step_timer; reflexivity|].
  eapply rtc_l; [eapply step_recv; reflexivity|].
  eapply rtc_l; [eapply step_recv; reflexivity|].
  eapply rtc_l; [eapply step_recv_closed; reflexivity|]. apply rtc_refl.
Qed.

Lemma lossy_end_stuck s2 : ~ core_step lossy_end s2.
Proof. inversion 1; simplify_eq/=. Qed.

Lemma close_drops_pending_witness :
  batches lossy_end = [] /\ dropped lossy_end = [demo_item 1; demo_item 2].
Proof.
  destruct (close_drops_pending 2 lossy_start lossy_start_reachable eq_refl) as (_ & _ & H).
  destruct (H lossy_end lossy_run lossy_end_stuck) as (_ & H1 & H2). split; [exact H1|exact H2].
Defined.
