(* ===== verification/HttpTransport.v ===== *)
(** * The HTTP transport ([timeline/http.go])

    Configuration, the conversions between data channel items and flattener
    points, and the transfer of a batch.  The JSON serializer and the HTTP
    server are outside the repository: they are parameters of [TransferData]. *)

From stdpp Require Import base gmap strings list pretty.
From Stdlib Require Import ZArith Lia.
From S2P Require Import Prelude Float64 GoValue Hashing Chan Timeline TransportCore Flattener Util.

Local Open Scope Z_scope.
Local Open Scope go_scope.

Record HTTPTransportConfig : Type := mkHTTPConfig {
  http_default : DefaultTransportConfiguration;
  ServiceEndpoint : string;
  Method : string;
  ExpectedResponseStatus : Z;
  TimestampProperty : string;
  ValueProperty : string;
}.

Record HTTPTransport : Type := mkHTTPTransport {
  http_configuration : HTTPTransportConfig;
  httpClient : HttpClient;
  serviceURL : string;
  http_bufferSize : Z;
}.

(** [NewHTTPTransport]; [None] is the nil configuration. *)
Definition NewHTTPTransport (configuration : option HTTPTransportConfig) :
    result timeline_error HTTPTransport :=
  match configuration with
  | None => Err ErrNullConfiguration
  | Some c =>
      let* _ := Validate (http_default c) in
      if (String.length (TimestampProperty c) =? 0)%nat then Err ErrTimestampPropertyNotConfigured
      else if (String.length (ValueProperty c) =? 0)%nat then Err ErrValuePropertyNotConfigured
      else Ok (mkHTTPTransport c (CreateHTTPClient (RequestTimeout (http_default c)) true) "" (TransportBufferSize (http_default c)))
  end.

(** [ConfigureBackend] *)
Definition http_ConfigureBackend (t : HTTPTransport) (backend : option Backend) :
    result timeline_error HTTPTransport :=
  match backend with
  | None => Err ErrNoBackend
  | Some b =>
      Ok (mkHTTPTransport (http_configuration t) (httpClient t)
        ("http://" +:+ Host b +:+ ":" +:+ pretty (Port b) +:+ "/" +:+
         ServiceEndpoint (http_configuration t))
        (http_bufferSize t))
  end.

Definition http_MatchType (t : HTTPTransport) (tt : transportType) : bool := (tt =? typeHTTP).

(** [AddJSONMapping] and [Serialize] forward to the serializer, which is not part
    of the repository: [S] is its state. *)
Section serializer.
Context {S : Type}.
Context (serializer_Add : S -> string -> value -> list string -> result string S).
Context (SerializeGeneric : S -> item -> string + string).

Definition AddJSONMapping (s : S) (name : string) (p : value) (variables : list string) : result string S :=
  serializer_Add s name p variables.

Definition http_Serialize (s : S) (x : item) : string + string := SerializeGeneric s x.
End serializer.

(** ** [DataChannelItemToFlattenedPoint] *)

(** The variables of the loop. *)
Record conv_state : Type := mkConv {
  cv_hash : list value;
  cv_valueFound : bool;
  cv_timestampFound : bool;
  cv_value : float64;
  cv_timestamp : Z;
}.

(** The loop over [item.Parameters]: [even] is [i%2 == 0].  Reading
    [item.Parameters[i+1]] past the end panics. *)
Fixpoint conv_loop (c : HTTPTransportConfig) (even : bool) (ps : list value) (s : conv_state) :
    result timeline_error conv_state :=
  match ps with
  | [] => Ok s
  | p :: rest =>
      let skip := conv_loop c (negb even) rest
        (mkConv (cv_hash s ++ [p]) (cv_valueFound s) (cv_timestampFound s) (cv_value s) (cv_timestamp s)) in
      if even && (negb (cv_valueFound s) || negb (cv_timestampFound s)) then
        match p with
        | VString key =>
            if negb (cv_valueFound s) && bool_decide (key = ValueProperty c) then
              match rest with
              | [] => Panic
              | VFloat64 v :: rest =>
                  conv_loop c even rest (mkConv (cv_hash s) true (cv_timestampFound s) v (cv_timestamp s))
              | x :: _ => Err (ErrExpectFloat64 x)
              end
            else if negb (cv_timestampFound s) && bool_decide (key = TimestampProperty c) then
              match rest with
              | [] => Panic
              | VInt I_int64 ts :: rest =>
                  conv_loop c even rest (mkConv (cv_hash s) (cv_valueFound s) true (cv_value s) ts)
              | x :: _ => Err (ErrExpectInt64 x)
              end
            else skip
        | _ => Err (ErrExpectPropertyName p)
        end
      else skip
  end.

Definition conv_init (name : string) (op : FlatOperation) : conv_state :=
  mkConv [VString name; op_value op] false false f64_zero 0.

Definition http_DataChannelItemToFlattenedPoint (t : HTTPTransport) (now : Z)
    (op : FlatOperation) (instance : item) : result timeline_error FlattenerPoint :=
  match instance with
  | IJsonPtr it =>
      let* s := conv_loop (http_configuration t) true (Parameters it) (conv_init (Name it) op) in
      let ts := if cv_timestampFound s then cv_timestamp s else now in
      Ok (mkPoint (mkPointData op ts (IJson (mkJson (Name it) (drop 2 (cv_hash s)))))
            (cv_hash s) (cv_value s))
  | _ => Err ErrCastInstance
  end.

(** ** [FlattenedPointToDataChannelItem] *)
Definition http_FlattenedPointToDataChannelItem (t : HTTPTransport) (point : FlattenerPoint) :
    result timeline_error item :=
  match dataChannelItem (point_data point) with
  | IJson it =>
      let c := http_configuration t in
      Ok (IJson (mkJson (Name it)
        (Parameters it ++ [VString (TimestampProperty c); VInt I_int64 (timestamp (point_data point));
                           VString (ValueProperty c); VFloat64 (point_value point)])))
  | _ => Err ErrCastPointItem
  end.

#[export] Instance http_transport : Transport HTTPTransport := {|
  MatchType := http_MatchType;
  DataChannelItemToFlattenedPoint := http_DataChannelItemToFlattenedPoint;
  FlattenedPointToDataChannelItem := http_FlattenedPointToDataChannelItem;
|}.

(** ** [TransferData] *)

(** A request, and what the HTTP client makes of it. *)
Record http_request : Type := mkRequest { req_method : string; req_url : string; req_body : string }.

Inductive http_outcome : Type :=
| HttpFailed (e : string)                                (* [Do] failed *)
| HttpResponse (status : Z) (body : string + string).    (* [inl]: reading the body fails *)

Fixpoint cast_items (l : list item) : result timeline_error (list JsonArrayItem) :=
  match l with
  | [] => Ok []
  | IJson i :: l => let* is_ := cast_items l in Ok (i :: is_)
  | _ :: _ => Err ErrCastArrayItem
  end.

Section transfer.
Context (SerializeArray : list JsonArrayItem -> string + string).
Context (NewRequest : http_request -> option string).   (* the error, if any *)
Context (Do : http_request -> http_outcome).

(** The error returned, and the request sent, if any. *)
Definition http_TransferData (t : HTTPTransport) (dataList : list item) :
    result timeline_error unit * option http_request :=
  match cast_items dataList with
  | Err e => (Err e, None)
  | Panic => (Panic, None)
  | Ok points =>
      match SerializeArray points with
      | inl e => (Err (ErrSerializer e), None)
      | inr payload =>
          let req := mkRequest (Method (http_configuration t)) (serviceURL t) payload in
          match NewRequest req with
          | Some e => (Err (ErrRequest e), None)
          | None =>
              (match Do req with
               | HttpFailed e => Err (ErrRequest e)
               | HttpResponse status body =>
                   if negb (status =? ExpectedResponseStatus (http_configuration t)) then
                     match body with
                     | inl e => Err (ErrReadBody e)
                     | inr b => Err (ErrBody b)
                     end
                   else Ok tt
               end, Some req)
          end
      end
  end.
End transfer.

(** ** Property lists as pairs *)

Fixpoint flat_pairs (ps : list (string * value)) : list value :=
  match ps with
  | [] => []
  | (k, x) :: ps => VString k :: x :: flat_pairs ps
  end.

Fixpoint lookup_first (k : string) (ps : list (string * value)) : option value :=
  match ps with
  | [] => None
  | (k', x) :: ps => if bool_decide (k' = k) then Some x else lookup_first k ps
  end.

Fixpoint remove_first (k : string) (ps : list (string * value)) : list (string * value) :=
  match ps with
  | [] => []
  | (k', x) :: ps => if bool_decide (k' = k) then ps else (k', x) :: remove_first k ps
  end.

Lemma flat_pairs_app ps qs : flat_pairs (ps ++ qs) = flat_pairs ps ++ flat_pairs qs.
Proof. induction ps as [|[k x] ps IH]; simpl; [done|]. by rewrite IH. Qed.

Lemma remove_first_perm k x ps :
  lookup_first k ps = Some x -> ps ≡ₚ (k, x) :: remove_first k ps.
Proof.
  induction ps as [|[k' x'] ps IH]; simpl; [done|]. case_bool_decide as E; intros H.
  - by simplify_eq.
  - rewrite (IH H) at 1. apply Permutation_swap.
Qed.

(** The properties that identify the series: all but the first value pair and
    the first remaining timestamp pair. *)
Definition series_pairs (c : HTTPTransportConfig) (ps : list (string * value)) :
    list (string * value) :=
  remove_first (TimestampProperty c) (remove_first (ValueProperty c) ps).

(** The measurement a property list carries: its value and its timestamp. *)
Definition pairs_value (c : HTTPTransportConfig) (ps : list (string * value)) : option float64 :=
  match lookup_first (ValueProperty c) ps with
  | None => Some f64_zero
  | Some (VFloat64 v) => Some v
  | Some _ => None
  end.

Definition pairs_timestamp (c : HTTPTransportConfig) (now : Z) (ps : list (string * value)) : option Z :=
  match lookup_first (TimestampProperty c) (remove_first (ValueProperty c) ps) with
  | None => Some now
  | Some (VInt I_int64 ts) => Some ts
  | Some _ => None
  end.

Section conv.
Context (c : HTTPTransportConfig).

(** With the timestamp already found, only the value is looked for, and so on. *)
Lemma conv_loop_both ps h v ts :
  conv_loop c true (flat_pairs ps) (mkConv h true true v ts)
  = Ok (mkConv (h ++ flat_pairs ps) true true v ts).
Proof.
  revert h. induction ps as [|[k x] ps IH]; intros h; simpl; [by rewrite app_nil_r|].
  rewrite IH, <- !app_assoc. done.
Qed.

Lemma conv_loop_ts ps h v ts0 ts :
  match lookup_first (TimestampProperty c) ps with
  | None => ts = None
  | Some x => exists z, x = VInt I_int64 z /\ ts = Some z
  end ->
  conv_loop c true (flat_pairs ps) (mkConv h true false v ts0)
  = Ok (mkConv (h ++ flat_pairs (remove_first (TimestampProperty c) ps)) true
          (bool_decide (is_Some ts)) v (default ts0 ts)).
Proof.
  revert h. induction ps as [|[k x] ps IH]; intros h H; simpl in *.
  { subst ts. by rewrite app_nil_r. }
  case_bool_decide as E.
  - destruct H as (z & -> & ->). rewrite conv_loop_both. done.
  - simpl. rewrite IH, <- !app_assoc by done. done.
Qed.

Lemma conv_loop_value ps h v0 v ts :
  match lookup_first (ValueProperty c) ps with
  | None => v = None
  | Some x => exists f, x = VFloat64 f /\ v = Some f
  end ->
  conv_loop c true (flat_pairs ps) (mkConv h false true v0 ts)
  = Ok (mkConv (h ++ flat_pairs (remove_first (ValueProperty c) ps)) (bool_decide (is_Some v)) true
          (default v0 v) ts).
Proof.
  revert h. induction ps as [|[k x] ps IH]; intros h H; simpl in *.
  { subst v. by rewrite app_nil_r. }
  case_bool_decide as E.
  - destruct H as (z & -> & ->). rewrite conv_loop_both. done.
  - simpl. rewrite IH, <- !app_assoc by done. done.
Qed.

Lemma conv_loop_pairs ps h v ts :
  match lookup_first (ValueProperty c) ps with
  | None => v = None
  | Some x => exists f, x = VFloat64 f /\ v = Some f
  end ->
  match lookup_first (TimestampProperty c) (remove_first (ValueProperty c) ps) with
  | None => ts = None
  | Some x => exists z, x = VInt I_int64 z /\ ts = Some z
  end ->
  conv_loop c true (flat_pairs ps) (mkConv h false false f64_zero 0)
  = Ok (mkConv (h ++ flat_pairs (series_pairs c ps)) (bool_decide (is_Some v))
          (bool_decide (is_Some ts)) (default f64_zero v) (default 0 ts)).
Proof.
  unfold series_pairs. revert h. induction ps as [|[k x] ps IH]; intros h Hv Ht; simpl in *.
  { subst v ts. by rewrite app_nil_r. }
  destruct (bool_decide_reflect (k = ValueProperty c)) as [EV|EV].
  - destruct Hv as (f & -> & ->). rewrite (conv_loop_ts _ _ _ _ ts) by done. done.
  - simpl in *. destruct (bool_decide_reflect (k = TimestampProperty c)) as [ET|ET].
    + destruct Ht as (z & -> & ->). rewrite (conv_loop_value _ _ _ v) by done. done.
    + simpl. rewrite IH, <- !app_assoc by done. done.
Qed.
End conv.

(** The conversion of a list of properties, on the branches that succeed. *)
Lemma http_convert_pairs t now op name ps v ts :
  pairs_value (http_configuration t) ps = Some v ->
  pairs_timestamp (http_configuration t) now ps = Some ts ->
  http_DataChannelItemToFlattenedPoint t now op (IJsonPtr (mkJson name (flat_pairs ps)))
  = Ok (mkPoint
      (mkPointData op ts (IJson (mkJson name (flat_pairs (series_pairs (http_configuration t) ps)))))
      (VString name :: op_value op :: flat_pairs (series_pairs (http_configuration t) ps)) v).
Proof.
  unfold pairs_value, pairs_timestamp, http_DataChannelItemToFlattenedPoint, conv_init.
  set (c := http_configuration t). intros Hv Ht. cbn [Parameters Name].
  destruct (lookup_first (ValueProperty c) ps) as [x|] eqn:Ev;
    [destruct x as [| | | |f| | | | | | | |]; try done|];
    (destruct (lookup_first (TimestampProperty c) (remove_first (ValueProperty c) ps)) as [y|] eqn:Et;
     [destruct y as [|[] z| | | | | | | | | | |]; try done|]); simplify_eq;
    [rewrite (conv_loop_pairs c ps _ (Some v) (Some ts))
    |rewrite (conv_loop_pairs c ps _ (Some v) None)
    |rewrite (conv_loop_pairs c ps _ None (Some ts))
    |rewrite (conv_loop_pairs c ps _ None None)];
    by rewrite ?Ev, ?Et; eauto.
Qed.

#[export] Instance http_transport_laws : TransportLaws HTTPTransport.
Proof.
  split.
  - intros t now op i p. destruct i; try done. cbn. unfold http_DataChannelItemToFlattenedPoint.
    intros H. inv_ok. by subst.
  - intros t now op i p v hp. destruct i; try done. cbn. unfold http_DataChannelItemToFlattenedPoint.
    intros H. inv_ok. subst. eexists. reflexivity.
  - intros t p. cbn. unfold http_FlattenedPointToDataChannelItem.
    by destruct (dataChannelItem (point_data p)).
Qed.

(** C14. The two conversions are inverse up to order: a property list with a
    [float64] value and an [int64] timestamp becomes a point with that value and
    timestamp, and converting the point back gives an item of the same name
    whose properties are a permutation of the original ones. *)
Theorem http_point_roundtrip t now op name ps v ts :
  lookup_first (ValueProperty (http_configuration t)) ps = Some (VFloat64 v) ->
  lookup_first (TimestampProperty (http_configuration t))
    (remove_first (ValueProperty (http_configuration t)) ps) = Some (VInt I_int64 ts) ->
  exists p qs,
    DataChannelItemToFlattenedPoint t now op (IJsonPtr (mkJson name (flat_pairs ps))) = Ok p /\
    point_value p = v /\ timestamp (point_data p) = ts /\
    FlattenedPointToDataChannelItem t p = Ok (IJson (mkJson name (flat_pairs qs))) /\ qs ≡ₚ ps.
Proof.
  intros Hv Ht. set (c := http_configuration t) in *.
  exists (mkPoint
      (mkPointData op ts (IJson (mkJson name (flat_pairs (series_pairs c ps)))))
      (VString name :: op_value op :: flat_pairs (series_pairs c ps)) v).
  exists (series_pairs c ps ++ [(TimestampProperty c, VInt I_int64 ts); (ValueProperty c, VFloat64 v)]).
  split; [|split; [done|split; [done|split]]].
  - apply http_convert_pairs; unfold pairs_value, pairs_timestamp; fold c; by rewrite ?Hv, ?Ht.
  - cbn. unfold http_FlattenedPointToDataChannelItem. cbn. by rewrite flat_pairs_app.
  - rewrite Permutation_app_comm. simpl. symmetry. etrans; [apply (remove_first_perm _ _ _ Hv)|].
    etrans; [apply perm_skip, (remove_first_perm _ _ _ Ht)|]. apply Permutation_swap.
Qed.

Definition demo_http : HTTPTransport :=
  mkHTTPTransport (mkHTTPConfig (mkDefaultConfig 10 1 1 10) "api/put" "PUT" 204 "timestamp" "value") (CreateHTTPClient 1 true) "" 10.

Definition demo_pairs : list (string * value) :=
  [("metric", VString "cpu"); ("value", VFloat64 (f64_of_Z 3)); ("host", VString "a");
   ("timestamp", VInt I_int64 100)].

Lemma http_point_roundtrip_witness :
  exists p qs,
    DataChannelItemToFlattenedPoint demo_http 5 Sum (IJsonPtr (mkJson "n" (flat_pairs demo_pairs))) = Ok p /\
    point_value p = f64_of_Z 3 /\ timestamp (point_data p) = 100 /\
    FlattenedPointToDataChannelItem demo_http p = Ok (IJson (mkJson "n" (flat_pairs qs))) /\ qs ≡ₚ demo_pairs.
Proof. apply http_point_roundtrip; reflexivity. Defined.

(** The flattening key identifies the series, not the measurement: two
    items of the same name and operation whose properties agree apart from the
    value and timestamp properties (present or not, with any values, at any
    positions) get the same hash parameters, hence the same map key, under
    every hashing algorithm. *)
Theorem http_series_key {D : Digests} t cfg now now' op name ps ps' p p' :
  is_Some (pairs_value (http_configuration t) ps) ->
  is_Some (pairs_value (http_configuration t) ps') ->
  is_Some (pairs_timestamp (http_configuration t) now ps) ->
  is_Some (pairs_timestamp (http_configuration t) now' ps') ->
  series_pairs (http_configuration t) ps = series_pairs (http_configuration t) ps' ->
  DataChannelItemToFlattenedPoint t now op (IJsonPtr (mkJson name (flat_pairs ps))) = Ok p ->
  DataChannelItemToFlattenedPoint t now' op (IJsonPtr (mkJson name (flat_pairs ps'))) = Ok p' ->
  hashParameters p = hashParameters p' /\ point_key cfg p = point_key cfg p'.
Proof.
  intros [v Hv] [v' Hv'] [ts Ht] [ts' Ht'] Hs. cbn [DataChannelItemToFlattenedPoint http_transport].
  rewrite (http_convert_pairs t now op name ps v ts) by done.
  rewrite (http_convert_pairs t now' op name ps' v' ts') by done.
  intros [= <-] [= <-]. unfold point_key. cbn [hashParameters]. by rewrite Hs.
Qed.

Definition demo_pairs_later : list (string * value) :=
  [("timestamp", VInt I_int64 7); ("metric", VString "cpu"); ("host", VString "a");
   ("value", VFloat64 (f64_of_Z 9))].

Lemma http_series_key_witness :
  exists p p',
  DataChannelItemToFlattenedPoint demo_http 5 Sum (IJsonPtr (mkJson "n" (flat_pairs demo_pairs))) = Ok p /\
  DataChannelItemToFlattenedPoint demo_http 6 Sum (IJsonPtr (mkJson "n" (flat_pairs demo_pairs_later))) = Ok p' /\
  @point_key toy_digests (mkFlattenerConfig 1 SHA256) p = @point_key toy_digests (mkFlattenerConfig 1 SHA256) p'.
Proof.
  eexists _, _. split; [reflexivity|]. split; [reflexivity|].
  apply (@http_series_key toy_digests demo_http (mkFlattenerConfig 1 SHA256) 5 6 Sum "n" demo_pairs demo_pairs_later);
    [by eexists..|reflexivity|reflexivity|reflexivity].
Defined.

(** A property list that ends in the value (or timestamp) property's name
    with no value after it is not reported as an error: the conversion indexes
    past the end of the slice and panics in the caller's goroutine. *)
Theorem http_dangling_property_panics t now op name ps :
  lookup_first (ValueProperty (http_configuration t)) ps = None ->
  is_Some (pairs_timestamp (http_configuration t) now ps) ->
  DataChannelItemToFlattenedPoint t now op
    (IJsonPtr (mkJson name (flat_pairs ps ++ [VString (ValueProperty (http_configuration t))]))) = Panic.
Proof.
  set (c := http_configuration t). intros Hv [ts Ht]. cbn [DataChannelItemToFlattenedPoint http_transport].
  unfold http_DataChannelItemToFlattenedPoint. fold c. cbn [Parameters Name].
  assert (Hs : forall tf ts0 h,
    (tf = false -> is_Some (pairs_timestamp c now ps)) ->
    conv_loop c true (flat_pairs ps ++ [VString (ValueProperty c)]) (mkConv h false tf f64_zero ts0) = Panic).
  { clear Ht ts. unfold pairs_timestamp.
    induction ps as [|[k x] ps IH]; intros tf ts0 h Ht; simpl in *.
    - by rewrite bool_decide_eq_true_2.
    - destruct (bool_decide_reflect (k = ValueProperty c)) as [->|Hk]; [done|].
      simpl in *. destruct tf; simpl; [by apply IH|].
      destruct (bool_decide_reflect (k = TimestampProperty c)) as [->|Hk']; [|by apply IH].
      destruct (Ht eq_refl) as [z Hz]. destruct x as [|[]| | | | | | | | | | |]; try done. by apply IH. }
  unfold conv_init. by rewrite Hs.
Qed.

Lemma http_dangling_property_panics_witness :
  DataChannelItemToFlattenedPoint demo_http 5 Sum
    (IJsonPtr (mkJson "n" [VString "host"; VString "a"; VString "value"])) = Panic.
Proof.
  apply (http_dangling_property_panics demo_http 5 Sum "n" [("host", VString "a")]);
    [reflexivity|by eexists].
Defined.

(** C37. A batch is all or nothing: one item that is not a JSON array item makes
    [TransferData] fail before anything is sent, and otherwise exactly one
    request carries the serialization of the whole batch in order; the call
    succeeds only if the server answered with the expected status. *)
Theorem http_transfer_all_or_nothing ser nreq do_ t dataList r req :
  http_TransferData ser nreq do_ t dataList = (r, req) ->
  ((exists i, i ∈ dataList /\ forall j, i <> IJson j) -> r = Err ErrCastArrayItem /\ req = None) /\
  (r = Ok tt -> exists items payload body,
    dataList = IJson <$> items /\ ser items = inr payload /\
    req = Some (mkRequest (Method (http_configuration t)) (serviceURL t) payload) /\
    do_ (mkRequest (Method (http_configuration t)) (serviceURL t) payload)
      = HttpResponse (ExpectedResponseStatus (http_configuration t)) body).
Proof.
  unfold http_TransferData. intros H. split.
  - intros (i & Hi & Hj). assert (Hc : cast_items dataList = Err ErrCastArrayItem); [|rewrite Hc in H; by simplify_eq].
    clear H. induction dataList as [|x l IH]; [by apply elem_of_nil in Hi|].
    apply elem_of_cons in Hi as [->|Hi]; [destruct x; try done; by destruct (Hj i)|].
    destruct x; try done. simpl. by rewrite IH.
  - intros ->. destruct (cast_items dataList) as [items| |] eqn:Ec; [|done..].
    assert (Hl : dataList = IJson <$> items).
    { clear H. revert items Ec. induction dataList as [|x l IH]; intros items Ec; simpl in Ec; [by simplify_eq|].
      destruct x; try done. inv_ok. subst. simpl. f_equal. by apply IH. }
    destruct (ser items) as [e|payload] eqn:Es; [done|]. destruct (nreq _) eqn:En; [done|].
    destruct (do_ _) as [e|status body] eqn:Ed; [done|].
    destruct (Z.eqb_spec status (ExpectedResponseStatus (http_configuration t))) as [->|]; simpl in H.
    + simplify_eq. by exists items, payload, body.
    + destruct body; done.
Qed.

Lemma http_transfer_all_or_nothing_witness :
  exists items payload body, [IJson (mkJson "n" [])] = IJson <$> items /\
    (fun l : list JsonArrayItem => inr (A := string) "[]") items = inr payload /\
    Some (mkRequest "PUT" "" "[]") = Some (mkRequest "PUT" "" payload) /\
    (fun _ : http_request => HttpResponse 204 (inr "")) (mkRequest "PUT" "" payload) = HttpResponse 204 body.
Proof.
  apply (http_transfer_all_or_nothing (fun _ => inr "[]") (fun _ => None) (fun _ => HttpResponse 204 (inr ""))
    demo_http [IJson (mkJson "n" [])] (Ok tt) (Some (mkRequest "PUT" "" "[]"))); reflexivity.
Defined.

(** ** The flattener over this transport *)

Definition demo_point (name : string) (ps : list (string * value)) : FlattenerPoint :=
  match DataChannelItemToFlattenedPoint demo_http 5 Sum (IJsonPtr (mkJson name (flat_pairs ps))) with
  | Ok p => p
  | _ => mkPoint (mkPointData 0 0 (IOther VInvalid)) [] f64_zero
  end.

Definition demo_flattener : Flattener HTTPTransport :=
  mkFlattener (mkFlattenerConfig 1 SHA256) ∅ demo_http (make_chan 1).

Definition demo_points : list FlattenerPoint :=
  [demo_point "n" demo_pairs; demo_point "n" demo_pairs_later; demo_point "m" demo_pairs].

Lemma demo_points_hash : @hashes toy_digests (mkFlattenerConfig 1 SHA256) demo_points.
Proof. repeat constructor. Qed.

Lemma demo_points_converted : Forall (converted demo_http) demo_points.
Proof.
  unfold demo_points. repeat (apply Forall_cons; split); [..|apply Forall_nil; exact I].
  - exists 5, Sum, (IJsonPtr (mkJson "n" (flat_pairs demo_pairs))). split; [by split|reflexivity].
  - exists 5, Sum, (IJsonPtr (mkJson "n" (flat_pairs demo_pairs_later))). split; [by split|reflexivity].
  - exists 5, Sum, (IJsonPtr (mkJson "m" (flat_pairs demo_pairs))). split; [by split|reflexivity].
Qed.

(** Three points of two series: two items. *)
Lemma cycle_refines_grouping_witness :
  exists f', @add_all toy_digests HTTPTransport demo_flattener demo_points = Ok f' /\
    exists out, range_loop demo_http (map_to_list (pointMap f')) (pointMap f') [] 0 = Ok (∅, out, 2%nat) /\
      length out = 2%nat.
Proof.
  destruct (@cycle_refines_grouping toy_digests HTTPTransport _ _ demo_flattener demo_points)
    as (f' & Hf & Hr); [reflexivity|apply demo_points_hash|apply demo_points_converted|].
  exists f'. split; [exact Hf|]. destruct (Hr _ (reflexivity _)) as (keys & out & Hk & Hl & HF).
  assert (Hn : length keys = 2%nat) by (rewrite Hk; vm_compute; reflexivity).
  exists out. rewrite <- Hn at 1. split; [exact Hl|]. by rewrite <- (Forall2_length _ _ _ HF).
Defined.
