(* ===== verification/FlattenerConc.v ===== *)
(** * The flattener's goroutines ([timeline/flattener.go])

    [Add] is called by any number of goroutines while the cycle goroutine
    ranges over the same [sync.Map] and [Close] is called by another.  The map
    operations are atomic, the functions are not: this file models the steps
    between them.  A [*mapEntry] is a pointer into a store of entries, shared
    by the map, the [Add]s in flight and the cycle.  The append to an entry's
    slice is one step here; the data race of two appends on the slice header is
    outside the model. *)

From stdpp Require Import base gmap strings list relations.
From Stdlib Require Import ZArith Lia.
From S2P Require Import Prelude Float64 GoValue Hashing Chan Timeline Flattener HttpTransport.

(** An [Add] between its [Load] and its effect. *)
Inductive adder : Type :=
| AppendTo (l : nat) (v : float64)
| StoreNew (k : string) (p : FlattenerPoint).

Definition adder_value (a : adder) : float64 :=
  match a with AppendTo _ v => v | StoreNew _ p => point_value p end.

(** The cycle goroutine: waiting for the timer; in [Range], with the keys that
    were there when it began and those visited; inside the callback, before
    [flatten], before the channel send, and before [Delete]; returned. *)
Inductive cycle_pc : Type :=
| CWait
| CRange (start visited : gset string)
| CProcess (k : string) (l : nat) (start visited : gset string)
| CSend (k : string) (l : nat) (i : item) (start visited : gset string)
| CDelete (k : string) (l : nat) (start visited : gset string)
| CDone.

(** The caller of [Close]. *)
Inductive closer : Type := NotClosing | ClosedTransport | ClosedAll.

Record fstate : Type := mkF {
  entries : list mapEntry;
  pmap : gmap string nat;
  adders : list adder;
  cyc : cycle_pc;
  fchan : chan item;
  terminateChan : nat;
  clo : closer;
  panicked : bool;
  added : list float64;                     (* values of the [Add] calls begun *)
  flattened : list (nat * list float64);    (* entries read by [flatten], with the values seen *)
}.

Definition f_init (n : nat) : fstate := mkF [] ∅ [] CWait (make_chan n) 0 NotClosing false [] [].

Section steps.
Context `{D : Digests} {T : Type} `{TT : Transport T} (tr : T) (cfg : FlattenerConfig).

Definition with_cyc (s : fstate) (c : cycle_pc) : fstate :=
  mkF (entries s) (pmap s) (adders s) c (fchan s) (terminateChan s) (clo s) (panicked s)
    (added s) (flattened s).

Inductive f_step0 : fstate -> fstate -> Prop :=
(* [Add]: hash the parameters, then [pointMap.Load(key)] *)
| add_load s p k :
    point_key cfg p = Ok k ->
    f_step0 s (mkF (entries s) (pmap s)
      (adders s ++ [match pmap s !! k with
                    | Some l => AppendTo l (point_value p)
                    | None => StoreNew k p
                    end])
      (cyc s) (fchan s) (terminateChan s) (clo s) (panicked s)
      (added s ++ [point_value p]) (flattened s))
(* [entry.values = append(entry.values, point.value)] *)
| add_append s a1 a2 l v e :
    adders s = a1 ++ AppendTo l v :: a2 -> entries s !! l = Some e ->
    f_step0 s (mkF (<[l := mkEntry (me_data e) (me_values e ++ [v])]> (entries s)) (pmap s)
      (a1 ++ a2) (cyc s) (fchan s) (terminateChan s) (clo s) (panicked s) (added s) (flattened s))
(* [f.pointMap.Store(key, entry)] with a new entry *)
| add_store s a1 a2 k p :
    adders s = a1 ++ StoreNew k p :: a2 ->
    f_step0 s (mkF (entries s ++ [mkEntry (point_data p) [point_value p]])
      (<[k := length (entries s)]> (pmap s)) (a1 ++ a2) (cyc s) (fchan s) (terminateChan s)
      (clo s) (panicked s) (added s) (flattened s))
(* the timer fires: [select] on the terminate channel *)
| cycle_begin s :
    cyc s = CWait -> terminateChan s = 0 -> f_step0 s (with_cyc s (CRange (dom (pmap s)) ∅))
| cycle_stop s n :
    cyc s = CWait -> terminateChan s = S n ->
    f_step0 s (mkF (entries s) (pmap s) (adders s) CDone (fchan s) n (clo s) (panicked s)
      (added s) (flattened s))
(* [Range] visits a key at most once *)
| range_pick s start vis k l :
    cyc s = CRange start vis -> k ∉ vis -> pmap s !! k = Some l ->
    f_step0 s (with_cyc s (CProcess k l start vis))
(* ... and every key that was and still is in the map *)
| range_end s start vis :
    cyc s = CRange start vis -> start ∩ dom (pmap s) ⊆ vis ->
    f_step0 s (with_cyc s CWait)
(* [processEntry]: flatten and convert *)
| process_item s k l start vis e i :
    cyc s = CProcess k l start vis -> entries s !! l = Some e ->
    processEntry tr e = Ok (Some i) ->
    f_step0 s (mkF (entries s) (pmap s) (adders s) (CSend k l i start vis) (fchan s) (terminateChan s)
      (clo s) (panicked s) (added s) (flattened s ++ [(l, me_values e)]))
| process_error s k l start vis e :
    cyc s = CProcess k l start vis -> entries s !! l = Some e ->
    processEntry tr e = Ok None ->
    f_step0 s (mkF (entries s) (pmap s) (adders s) (CDelete k l start vis) (fchan s) (terminateChan s)
      (clo s) (panicked s) (added s) (flattened s ++ [(l, me_values e)]))
(* [f.transport.DataChannel() <- item] *)
| send_ok s k l i start vis c' :
    cyc s = CSend k l i start vis -> chan_send (fchan s) i = SendOk c' ->
    f_step0 s (mkF (entries s) (pmap s) (adders s) (CDelete k l start vis) c' (terminateChan s)
      (clo s) (panicked s) (added s) (flattened s))
| send_panics s k l i start vis :
    cyc s = CSend k l i start vis -> chan_send (fchan s) i = SendPanics ->
    f_step0 s (mkF (entries s) (pmap s) (adders s) (cyc s) (fchan s) (terminateChan s)
      (clo s) true (added s) (flattened s))
(* [f.pointMap.Delete(k)] *)
| range_delete s k l start vis :
    cyc s = CDelete k l start vis ->
    f_step0 s (mkF (entries s) (delete k (pmap s)) (adders s) (CRange start ({[k]} ∪ vis)) (fchan s)
      (terminateChan s) (clo s) (panicked s) (added s) (flattened s))
(* the transport's loop takes an item *)
| transport_recv s i c' :
    chan_recv (fchan s) = RecvOk i c' ->
    f_step0 s (mkF (entries s) (pmap s) (adders s) (cyc s) c' (terminateChan s) (clo s) (panicked s)
      (added s) (flattened s))
(* [Close]: first [transport.Close()], then the terminate message *)
| close_transport s c' :
    clo s = NotClosing -> chan_close (fchan s) = Some c' ->
    f_step0 s (mkF (entries s) (pmap s) (adders s) (cyc s) c' (terminateChan s) ClosedTransport
      (panicked s) (added s) (flattened s))
| close_terminate s :
    clo s = ClosedTransport -> terminateChan s = 0 ->
    f_step0 s (mkF (entries s) (pmap s) (adders s) (cyc s) (fchan s) 1 ClosedAll
      (panicked s) (added s) (flattened s)).

(** A panic in a goroutine ends the program. *)
Definition f_step (s s' : fstate) : Prop := panicked s = false /\ f_step0 s s'.

Definition f_reachable (n : nat) (s : fstate) : Prop := rtc f_step (f_init n) s.
End steps.

(** ** Values in the store *)

Lemma concat_insert_app {A} (vals : list (list A)) l x y :
  vals !! l = Some x -> concat (<[l := x ++ y]> vals) ≡ₚ concat vals ++ y.
Proof.
  revert l. induction vals as [|v vals IH]; intros [|l] H; simplify_eq/=.
  - rewrite <- !app_assoc. apply Permutation_app_head, Permutation_app_comm.
  - rewrite (IH l) by done. by rewrite app_assoc.
Qed.

Lemma concat_insert_nil {A} (vals : list (list A)) l x :
  vals !! l = Some x -> concat vals ≡ₚ x ++ concat (<[l := []]> vals).
Proof.
  revert l. induction vals as [|v vals IH]; intros [|l] H; simplify_eq/=; [done|].
  rewrite (IH l) at 1 by done. rewrite !app_assoc. apply Permutation_app_tail, Permutation_app_comm.
Qed.

Lemma concat_prefixes {A} (fl : list (nat * list A)) (vals : list (list A)) :
  NoDup fl.*1 ->
  (forall l vs, (l, vs) ∈ fl -> exists x, vals !! l = Some x /\ vs `prefix_of` x) ->
  concat fl.*2 ⊆+ concat vals.
Proof.
  revert vals. induction fl as [|[l vs] fl IH]; intros vals Hnd H; [apply submseteq_nil_l|].
  rewrite fmap_cons in Hnd. apply NoDup_cons in Hnd as [Hl Hnd].
  destruct (H l vs) as (x & Hx & [y ->]); [by apply elem_of_cons; left|].
  rewrite (concat_insert_nil vals l _ Hx), <- app_assoc, fmap_cons. cbn [concat snd].
  apply submseteq_app; [done|]. apply submseteq_inserts_l. apply IH; [done|].
  intros l' vs' Hin. destruct (H l' vs') as (x' & Hx' & Hp); [by apply elem_of_cons; right|].
  exists x'. split; [|done]. rewrite list_lookup_insert_ne; [done|].
  intros <-. apply Hl. by apply (list_elem_of_fmap_2 fst) in Hin.
Qed.

(** The entry whose processing is not finished. *)
Definition in_flight (c : cycle_pc) (k : string) (l : nat) : Prop :=
  match c with
  | CSend k' l' _ _ _ | CDelete k' l' _ _ => k = k' /\ l = l'
  | _ => False
  end.

(** The entry the callback has been given and not read yet. *)
Definition picked_ok (s : fstate) : Prop :=
  match cyc s with
  | CProcess k l _ _ => (l < length (entries s))%nat /\ l ∉ (flattened s).*1 /\
      forall k', pmap s !! k' = Some l -> k' = k
  | _ => True
  end.

Record f_inv (s : fstate) : Prop := {
  fi_bound k l : pmap s !! k = Some l -> (l < length (entries s))%nat;
  fi_inj k k' l : pmap s !! k = Some l -> pmap s !! k' = Some l -> k = k';
  fi_seen l vs : (l, vs) ∈ flattened s ->
    exists e, entries s !! l = Some e /\ vs `prefix_of` me_values e;
  fi_nodup : NoDup (flattened s).*1;
  fi_fresh k l : pmap s !! k = Some l -> l ∈ (flattened s).*1 -> in_flight (cyc s) k l;
  fi_picked : picked_ok s;
  fi_values : concat (me_values <$> entries s) ++ (adder_value <$> adders s) ≡ₚ added s;
}.

Lemma flattened_bound s l : f_inv s -> l ∈ (flattened s).*1 -> (l < length (entries s))%nat.
Proof.
  intros Hi ([l' vs] & -> & Hin)%list_elem_of_fmap.
  destruct (fi_seen s Hi l' vs Hin) as (e & He & _). by eapply lookup_lt_Some.
Qed.

(** Steps that change neither the store, the map nor what has been read, and
    leave the cycle at a point with nothing in flight or where it was. *)
Lemma f_inv_same s s' :
  f_inv s -> entries s' = entries s -> pmap s' = pmap s -> flattened s' = flattened s ->
  (concat (me_values <$> entries s') ++ (adder_value <$> adders s') ≡ₚ added s') ->
  (forall k l, in_flight (cyc s) k l -> in_flight (cyc s') k l) ->
  picked_ok s' -> f_inv s'.
Proof.
  intros Hi He Hp Hf Hv Hc Hpr. destruct Hi as [Hb Hinj Hse Hnd Hfr _ _].
  split; rewrite ?He, ?Hp, ?Hf in *; eauto.
Qed.

Lemma f_inv_add_append s a1 a2 l v e :
  f_inv s -> adders s = a1 ++ AppendTo l v :: a2 -> entries s !! l = Some e ->
  f_inv (mkF (<[l := mkEntry (me_data e) (me_values e ++ [v])]> (entries s)) (pmap s)
    (a1 ++ a2) (cyc s) (fchan s) (terminateChan s) (clo s) (panicked s) (added s) (flattened s)).
Proof.
  intros [Hb Hinj Hse Hnd Hfr Hpr Hv] Ha Hl. split; simpl; try done.
  - intros k l' Hk. rewrite length_insert. by eapply Hb.
  - intros l' vs Hin. destruct (Hse l' vs Hin) as (e' & He' & Hpre).
    destruct (decide (l = l')) as [<-|Hne].
    + simplify_eq. eexists. split; [by apply list_lookup_insert_eq, (lookup_lt_Some _ _ e)|].
      simpl. by apply prefix_app_r.
    + exists e'. by rewrite list_lookup_insert_ne.
  - unfold picked_ok in *. simpl. by rewrite length_insert.
  - rewrite <- Hv, Ha, list_fmap_insert. simpl. rewrite concat_insert_app by by rewrite list_lookup_fmap, Hl.
    rewrite !fmap_app, fmap_cons, <- app_assoc. apply Permutation_app_head. simpl.
    apply Permutation_middle.
Qed.

Lemma f_inv_add_store s a1 a2 k p :
  f_inv s -> adders s = a1 ++ StoreNew k p :: a2 ->
  f_inv (mkF (entries s ++ [mkEntry (point_data p) [point_value p]])
    (<[k := length (entries s)]> (pmap s)) (a1 ++ a2) (cyc s) (fchan s) (terminateChan s)
    (clo s) (panicked s) (added s) (flattened s)).
Proof.
  intros Hi Ha. pose proof (flattened_bound s) as Hfb.
  pose proof Hi as [Hb Hinj Hse Hnd Hfr Hpr Hv]. split; simpl; try done.
  - intros k' l [[-> <-]|[_ Hl]]%lookup_insert_Some; rewrite length_app; simpl; [lia|].
    apply Hb in Hl. lia.
  - intros k1 k2 l [[-> <-]|[Hn1 H1]]%lookup_insert_Some [[-> H2]|[Hn2 H2]]%lookup_insert_Some; try done.
    + apply Hb in H2. lia.
    + apply Hb in H1. lia.
    + by eapply Hinj.
  - intros l vs Hin. destruct (Hse l vs Hin) as (e & He & Hpre). exists e.
    split; [by apply lookup_app_l_Some|done].
  - intros k' l [[-> <-]|[_ Hl]]%lookup_insert_Some Hin; [|by eapply Hfr].
    apply Hfb in Hin; [lia|done].
  - unfold picked_ok in *. simpl. destruct (cyc s) as [| |k0 l start vis| | |]; try done.
    destruct Hpr as (Hlt & Hn & Hk). rewrite length_app. split_and!; [simpl; lia|done|].
    intros k' [[-> ?]|[_ Hl]]%lookup_insert_Some; [lia|by apply Hk].
  - rewrite <- Hv, Ha, !fmap_app, fmap_cons, concat_app. simpl.
    rewrite <- !app_assoc. apply Permutation_app_head. simpl. apply Permutation_middle.
Qed.

(** [flatten] reads the entry: what it saw is recorded. *)
Lemma f_inv_process s k l start vis e c' :
  f_inv s -> cyc s = CProcess k l start vis -> entries s !! l = Some e ->
  in_flight c' k l -> picked_ok (with_cyc s c') ->
  f_inv (mkF (entries s) (pmap s) (adders s) c' (fchan s) (terminateChan s)
    (clo s) (panicked s) (added s) (flattened s ++ [(l, me_values e)])).
Proof.
  intros [Hb Hinj Hse Hnd Hfr Hpr Hv] Hc He Hfl Hc'. unfold picked_ok in Hpr. rewrite Hc in Hpr, Hfr.
  destruct Hpr as (Hlt & Hn & Hk). split; simpl; try done.
  - intros l' vs [Hin|Heq%list_elem_of_singleton]%elem_of_app; [by apply Hse|].
    simplify_eq. by exists e.
  - rewrite fmap_app. apply NoDup_app. split_and!; [done| |apply NoDup_singleton].
    intros l' Hin Heq%list_elem_of_singleton. by subst.
  - intros k' l' Hk'. rewrite fmap_app.
    intros [Hin|Heq%list_elem_of_singleton]%elem_of_app; [by destruct (Hfr k' l' Hk' Hin)|].
    simpl in Heq. subst l'. by rewrite (Hk k' Hk').
  - by destruct c'.
Qed.

Lemma f_inv_delete s k l start vis :
  f_inv s -> cyc s = CDelete k l start vis ->
  f_inv (mkF (entries s) (delete k (pmap s)) (adders s) (CRange start ({[k]} ∪ vis)) (fchan s)
    (terminateChan s) (clo s) (panicked s) (added s) (flattened s)).
Proof.
  intros [Hb Hinj Hse Hnd Hfr Hpr Hv] Hc. rewrite Hc in Hfr. split; simpl; try done.
  - intros k' l' [_ H]%lookup_delete_Some. by eapply Hb.
  - intros k1 k2 l' [_ H1]%lookup_delete_Some [_ H2]%lookup_delete_Some. by eapply Hinj.
  - intros k' l' [Hne H]%lookup_delete_Some Hin. destruct (Hfr k' l' H Hin) as [-> _]. by destruct Hne.
Qed.

Section invariant.
Context `{D : Digests} {T : Type} `{TT : Transport T} (tr : T) (cfg : FlattenerConfig).

Lemma f_inv_init n : f_inv (f_init n).
Proof.
  split; simpl; try done.
  - by intros ?? ?%elem_of_nil.
  - constructor.
Qed.

Lemma f_inv_step s s' : f_inv s -> f_step0 tr cfg s s' -> f_inv s'.
Proof.
  intros Hi Hs. pose proof (fi_values s Hi) as Hv. pose proof (fi_picked s Hi) as Hp.
  destruct Hs as [s p k Hk|s a1 a2 l v e|s a1 a2 k p|s Hc|s n Hc|s start vis k l Hc Hn Hk
    |s start vis Hc|s k l start vis e i Hc|s k l start vis e Hc|s k l i start vis c' Hc
    |s k l i start vis Hc|s k l start vis Hc|s i c'|s c'|s];
    [|by apply f_inv_add_append|by apply f_inv_add_store| | | | |
     by eapply f_inv_process|by eapply f_inv_process| | |by eapply f_inv_delete| | |];
    try (eapply f_inv_same; [exact Hi|done..|simpl|simpl|]);
    try (rewrite Hc; naive_solver); try done.
  - rewrite fmap_app, app_assoc, Hv. by destruct (pmap s !! k).
  - unfold picked_ok. simpl. split_and!.
    + by eapply fi_bound.
    + intros Hin. pose proof (fi_fresh s Hi k l Hk Hin) as Hf. by rewrite Hc in Hf.
    + intros k' Hk'. by eapply fi_inj.
Qed.

Lemma f_reachable_inv n s : f_reachable tr cfg n s -> f_inv s.
Proof.
  intros Hr. eapply (rtc_invariant _ f_inv); [|exact Hr|apply f_inv_init].
  intros a b Ha [_ Hs]. by eapply f_inv_step.
Qed.
End invariant.

(** The goroutines never duplicate data.  In every reachable state, with any
    number of concurrent [Add]s, cycles and a [Close], no entry has been
    flattened twice, and the values that went into flattened points are, as a
    multiset, among the values passed to [Add]: each value contributes to at
    most one point, once. *)
Theorem flatten_at_most_once {D : Digests} {T} {TT : Transport T} (tr : T) cfg n s :
  f_reachable tr cfg n s ->
  NoDup (flattened s).*1 /\ concat (flattened s).*2 ⊆+ added s.
Proof.
  intros [Hb Hinj Hse Hnd Hfr Hpr Hv]%f_reachable_inv. split; [done|].
  rewrite <- Hv. apply submseteq_inserts_r, concat_prefixes; [done|].
  intros l vs (e & He & Hpre)%Hse. exists (me_values e). by rewrite list_lookup_fmap, He.
Qed.

(** ** Two races

    A run is a chain of steps; [frun s] takes the step [s]. *)
Tactic Notation "frun" open_constr(s) :=
  eapply rtc_l; [split; [reflexivity|eapply s; try done]|unfold with_cyc; cbn [entries pmap adders cyc fchan terminateChan
    clo panicked added flattened]].

Section races.
Context `{D : Digests} {T : Type} `{TT : Transport T} (tr : T) (cfg : FlattenerConfig).

Definition point_entry (p : FlattenerPoint) : mapEntry := mkEntry (point_data p) [point_value p].

(** Two [Add]s of one new key that both [Load] before either [Store]s. *)
Definition raced (n : nat) (k : string) (p1 p2 : FlattenerPoint) : fstate :=
  mkF [point_entry p1; point_entry p2] {[k := 1%nat]} [] CWait (make_chan n) 0 NotClosing false
    [point_value p1; point_value p2] [].

Lemma raced_reachable n k p1 p2 :
  point_key cfg p1 = Ok k -> point_key cfg p2 = Ok k -> f_reachable tr cfg n (raced n k p1 p2).
Proof.
  intros H1 H2. unfold f_reachable, f_init.
  frun (add_load tr cfg _ p1 k). frun (add_load tr cfg _ p2 k).
  rewrite lookup_empty. cbn [app].
  frun (add_store tr cfg _ [] [StoreNew k p2] k p1).
  frun (add_store tr cfg _ [] [] k p2). cbn [app length].
  rewrite insert_insert_eq. apply rtc_refl.
Qed.

(** One entry stored, picked up and flattened by a cycle. *)
Definition sending (n : nat) (k : string) (p : FlattenerPoint) (i : item) : fstate :=
  mkF [point_entry p] {[k := 0%nat]} [] (CSend k 0 i {[k]} ∅) (make_chan n) 0 NotClosing false
    [point_value p] [(0%nat, [point_value p])].

Lemma sending_reachable n k p i :
  point_key cfg p = Ok k -> processEntry tr (point_entry p) = Ok (Some i) ->
  f_reachable tr cfg n (sending n k p i).
Proof.
  intros H Hp. unfold f_reachable, f_init.
  frun (add_load tr cfg _ p k). rewrite lookup_empty. cbn [app].
  frun (add_store tr cfg _ [] [] k p). cbn [app length].
  frun cycle_begin. rewrite insert_empty, dom_singleton_L.
  frun (range_pick tr cfg _ {[k]} ∅ k 0); [by apply lookup_singleton_Some|].
  frun (process_item tr cfg _ k 0 {[k]} ∅ (point_entry p) i). apply rtc_refl.
Qed.
End races.

(** [Add] can lose a value that it reported as added.  [Load] and [Store]
    are two operations of the [sync.Map]: when two [Add]s of a new key overlap,
    the second [Store] replaces the entry of the first.  After the next cycle
    both calls have returned, nothing is left in the map, and one point was sent
    that carries the second value only. *)
Theorem add_race_loses_value {D : Digests} {T} {TT : Transport T} (tr : T) cfg n k p1 p2 i :
  (0 < n)%nat -> point_key cfg p1 = Ok k -> point_key cfg p2 = Ok k ->
  processEntry tr (point_entry p2) = Ok (Some i) ->
  exists s, f_reachable tr cfg n s /\ panicked s = false /\ adders s = [] /\ cyc s = CWait /\
    pmap s = ∅ /\ added s = [point_value p1; point_value p2] /\
    (flattened s).*2 = [[point_value p2]] /\ ch_buf (fchan s) = [i].
Proof.
  intros Hn H1 H2 Hp. eexists. split.
  - unfold f_reachable; etrans; [by apply (raced_reachable tr cfg n k p1 p2)|]. unfold raced.
    frun cycle_begin. rewrite dom_singleton_L.
    frun (range_pick tr cfg _ {[k]} ∅ k 1); [by apply lookup_singleton_Some|].
    frun (process_item tr cfg _ k 1 {[k]} ∅ (point_entry p2) i). cbn [app].
    frun (send_ok tr cfg _ k 1 i {[k]} ∅ (mkChan n [i] false)); [by destruct n; [lia|]|].
    frun (range_delete tr cfg _ k 1 {[k]} ∅). rewrite delete_singleton_eq.
    frun range_end; [set_solver|]. apply rtc_refl.
  - done.
Qed.

Lemma add_race_loses_value_witness :
  exists s, @f_reachable toy_digests HTTPTransport _ demo_http (mkFlattenerConfig 1 SHA256) 4 s /\
    length (added s) = 2%nat /\ length (concat (flattened s).*2) = 1%nat.
Proof.
  pose (p := demo_point "n" demo_pairs).
  destruct (@add_race_loses_value toy_digests HTTPTransport _ demo_http (mkFlattenerConfig 1 SHA256) 4
    (default "" (head (@keys_of toy_digests (mkFlattenerConfig 1 SHA256) [p]))) p p
    (default (IOther VInvalid) (emitted demo_http (point_entry p))))
    as (s & Hr & _ & _ & _ & _ & Ha & Hf & _); [lia|vm_compute; reflexivity..|].
  exists s. rewrite Ha, Hf. split; [exact Hr|split; reflexivity].
Defined.

Lemma flatten_at_most_once_witness :
  let s := sending 4 (default "" (head (@keys_of toy_digests (mkFlattenerConfig 1 SHA256) [demo_point "n" demo_pairs])))
    (demo_point "n" demo_pairs)
    (default (IOther VInvalid) (emitted demo_http (point_entry (demo_point "n" demo_pairs)))) in
  NoDup (flattened s).*1 /\ concat (flattened s).*2 ⊆+ added s.
Proof.
  intros s. apply (@flatten_at_most_once toy_digests HTTPTransport _ demo_http (mkFlattenerConfig 1 SHA256) 4 s).
  apply sending_reachable; vm_compute; reflexivity.
Defined.

(** [Close] can bring the program down.  It closes the data channel before
    it asks the cycle to stop, so a cycle that has flattened an entry and is
    about to send it sends on a closed channel: the panic is reachable from
    every configuration in which some point can be flattened at all. *)
Theorem close_panics_cycle {D : Digests} {T} {TT : Transport T} (tr : T) cfg n k p i :
  point_key cfg p = Ok k -> processEntry tr (point_entry p) = Ok (Some i) ->
  exists s, f_reachable tr cfg n s /\ panicked s = true /\ clo s = ClosedTransport /\ terminateChan s = 0%nat.
Proof.
  intros H Hp. eexists. split.
  - unfold f_reachable; etrans; [by apply (sending_reachable tr cfg n k p i)|]. unfold sending.
    frun (close_transport tr cfg _ (mkChan n [] true)).
    frun (send_panics tr cfg _ k 0 i {[k]} ∅). apply rtc_refl.
  - done.
Qed.

Lemma close_panics_cycle_witness :
  exists s, @f_reachable toy_digests HTTPTransport _ demo_http (mkFlattenerConfig 1 SHA256) 4 s /\ panicked s = true.
Proof.
  pose (p := demo_point "n" demo_pairs).
  destruct (@close_panics_cycle toy_digests HTTPTransport _ demo_http (mkFlattenerConfig 1 SHA256) 4
    (default "" (head (@keys_of toy_digests (mkFlattenerConfig 1 SHA256) [p]))) p
    (default (IOther VInvalid) (emitted demo_http (point_entry p))))
    as (s & Hr & Hs & _); [vm_compute; reflexivity..|].
  exists s. split; [exact Hr|exact Hs].
Defined.
