(* ===== verification/OpenTSDBTransport.v ===== *)
(** * The OpenTSDB transport ([timeline/opentsdb.go])

    The telnet transport: conversions, connection handling and the transfer
    loop that reconnects until a batch is written.  The network is a script:
    the outcomes of the connection calls in the order they happen. *)

From stdpp Require Import base gmap strings list.
From Stdlib Require Import ZArith Lia.
From S2P Require Import Prelude Float64 GoValue Hashing Timeline TransportCore Flattener.

Local Open Scope Z_scope.
Local Open Scope go_scope.

Record OpenTSDBTransportConfig : Type := mkTsdbConfig {
  tsdb_default : DefaultTransportConfiguration;
  MaxReadTimeout : Z;
  ReconnectionTimeout : Z;
}.

(** The state of [t.connection]: the nil interface, or a dialled connection. *)
Inductive connection : Type := NoConnection | Connected.

Record OpenTSDBTransport : Type := mkTsdbTransport {
  tsdb_configuration : OpenTSDBTransportConfig;
  tsdb_connection : connection;
  tsdb_bufferSize : Z;
}.

Definition NewOpenTSDBTransport (configuration : option OpenTSDBTransportConfig) :
    result timeline_error OpenTSDBTransport :=
  match configuration with
  | None => Err ErrNullConfiguration
  | Some c =>
      let* _ := Validate (tsdb_default c) in
      if MaxReadTimeout c <=? 0 then Err (ErrInvalidMaxReadTimeout (MaxReadTimeout c))
      else if ReconnectionTimeout c <=? 0 then Err (ErrInvalidReconnectionTimeout (ReconnectionTimeout c))
      else Ok (mkTsdbTransport c NoConnection (TransportBufferSize (tsdb_default c)))
  end.

Definition tsdb_MatchType (t : OpenTSDBTransport) (tt : transportType) : bool := (tt =? typeOpenTSDB).

(** ** Conversions *)

(** [DataChannelItemToFlattenedPoint] also stores the default timestamp in the
    item it was given a pointer to: the second component is that item. *)
Definition tsdb_convert (now : Z) (op : FlatOperation) (it : TsdbArrayItem) :
    FlattenerPoint * TsdbArrayItem :=
  let hashParameters := [op_value op; VString (Metric it)] ++ Tags it in
  let it := if Timestamp it <=? 0 then mkTsdb (Metric it) (Tags it) now (Value it) else it in
  (mkPoint (mkPointData op (Timestamp it) (ITsdb it)) hashParameters (Value it), it).

Definition tsdb_DataChannelItemToFlattenedPoint (t : OpenTSDBTransport) (now : Z)
    (op : FlatOperation) (instance : item) : result timeline_error FlattenerPoint :=
  match instance with
  | ITsdbPtr it => Ok (tsdb_convert now op it).1
  | _ => Err ErrCastInstance
  end.

Definition tsdb_FlattenedPointToDataChannelItem (t : OpenTSDBTransport) (point : FlattenerPoint) :
    result timeline_error item :=
  match dataChannelItem (point_data point) with
  | ITsdb it => Ok (ITsdb (mkTsdb (Metric it) (Tags it) (Timestamp it) (point_value point)))
  | _ => Err ErrCastPointItem
  end.

(** [Serialize] forwards to the serializer, with the state [S]. *)
Definition tsdb_Serialize {S : Type} (SerializeGeneric : S -> item -> string + string) (s : S) (x : item)
    : string + string := SerializeGeneric s x.

#[export] Instance tsdb_transport : Transport OpenTSDBTransport := {|
  MatchType := tsdb_MatchType;
  DataChannelItemToFlattenedPoint := tsdb_DataChannelItemToFlattenedPoint;
  FlattenedPointToDataChannelItem := tsdb_FlattenedPointToDataChannelItem;
|}.

#[export] Instance tsdb_transport_laws : TransportLaws OpenTSDBTransport.
Proof.
  split.
  - intros t now op i p. destruct i; try done. cbn. by intros [= <-].
  - intros t now op i p v hp. destruct i; try done. cbn. intros [= <-]. by eexists.
  - intros t p. cbn. unfold tsdb_FlattenedPointToDataChannelItem.
    by destruct (dataChannelItem (point_data p)).
Qed.

(** ** The network *)

(** The errors the code distinguishes: [io.EOF] is not a [net.Error]. *)
Inductive net_err : Type :=
| EOF
| NetError (isTimeout : bool)
| OtherError.

Inductive rwOp : Type := read | write.

Inductive log_line : Type :=
| LogDeadline (what : rwOp)
| LogEOF (op : rwOp)
| LogTimeout (op : rwOp)
| LogOperation (op : rwOp).

(** What the four calls of one [writePayload] return ([None]: no error). *)
Record attempt : Type := mkAttempt {
  at_setReadDeadline : option net_err;
  at_read : option net_err;
  at_setWriteDeadline : option net_err;
  at_write : option net_err;
}.

Definition logConnectionError (e : net_err) (op : rwOp) : log_line :=
  match e with
  | EOF => LogEOF op
  | NetError true => LogTimeout op
  | _ => LogOperation op
  end.

(** [writePayload]: whether it succeeded, and what it logged.  A call on a nil
    connection panics. *)
Definition writePayload (conn : connection) (a : attempt) :
    result timeline_error (bool * list log_line) :=
  match conn with
  | NoConnection => Panic
  | Connected =>
      match at_setReadDeadline a with
      | Some _ => Ok (false, [LogDeadline read])
      | None =>
          let read_failed :=
            match at_read a with Some (NetError false) => true | _ => false end in
          if read_failed then Ok (false, [logConnectionError (NetError false) read])
          else
            match at_setWriteDeadline a with
            | Some _ => Ok (false, [LogDeadline write])
            | None =>
                match at_write a with
                | Some e => Ok (false, [logConnectionError e read])
                | None => Ok (true, [])
                end
            end
      end
  end.

Arguments writePayload : simpl never.

(** One [connect]: dialling and clearing the deadline. *)
Inductive dial : Type := DialFails | DeadlineFails | DialOk.

Definition connect (d : dial) : bool := match d with DialOk => true | _ => false end.

(** [retryConnect]: consumes dials until one succeeds; [None] when the script
    ends first, that is while the loop is still waiting. *)
Fixpoint retryConnect (dials : list dial) : option (list dial) :=
  match dials with
  | [] => None
  | d :: dials => if connect d then Some dials else retryConnect dials
  end.

(** [closeConnection]: an error of [Close] is only logged. *)
Definition closeConnection (conn : connection) : connection := NoConnection.

(** [ConfigureBackend]; [resolves] is the outcome of [net.ResolveTCPAddr]. *)
Definition tsdb_ConfigureBackend (t : OpenTSDBTransport) (backend : option Backend)
    (resolves : option string) (dials : list dial) :
    option (result timeline_error OpenTSDBTransport) :=
  match backend with
  | None => Some (Err ErrNoBackend)
  | Some b =>
      match resolves with
      | Some e => Some (Err (ErrRequest e))
      | None =>
          match retryConnect dials with
          | None => None
          | Some _ => Some (Ok (mkTsdbTransport (tsdb_configuration t) Connected (tsdb_bufferSize t)))
          end
      end
  end.

(** ** [TransferData] *)

Fixpoint cast_tsdb (l : list item) : result timeline_error (list TsdbArrayItem) :=
  match l with
  | [] => Ok []
  | ITsdb i :: l => let* is_ := cast_tsdb l in Ok (i :: is_)
  | _ :: _ => Err ErrCastArrayItem
  end.

(** The state of the loop when it stops, or when the script ends. *)
Record transfer_result : Type := mkTransfer {
  tr_returned : option (result timeline_error unit);  (* [None]: still looping *)
  tr_written : list string;                           (* payloads written successfully *)
  tr_attempts : nat;                                  (* calls of [writePayload] *)
  tr_connection : connection;
}.

(** The loop, over the script of attempts and dials.  A panic is recovered by
    the deferred [t.recover()], and the function then returns a nil error. *)
Fixpoint transfer_loop (conn : connection) (payload : string) (attempts : list attempt)
    (dials : list dial) (n : nat) : transfer_result :=
  match attempts with
  | [] => mkTransfer None [] n conn
  | a :: attempts =>
      match writePayload conn a with
      | Ok (true, _) => mkTransfer (Some (Ok tt)) [payload] (S n) conn
      | Ok (false, _) =>
          let conn := closeConnection conn in
          match retryConnect dials with
          | Some dials => transfer_loop Connected payload attempts dials (S n)
          | None => mkTransfer None [] (S n) conn
          end
      | Err e => mkTransfer (Some (Err e)) [] (S n) conn
      | Panic => mkTransfer (Some (Ok tt)) [] (S n) conn
      end
  end.

Definition tsdb_TransferData (SerializeArray : list TsdbArrayItem -> string + string)
    (t : OpenTSDBTransport) (dataList : list item) (attempts : list attempt) (dials : list dial) :
    transfer_result :=
  match cast_tsdb dataList with
  | Err e => mkTransfer (Some (Err e)) [] 0 (tsdb_connection t)
  | Panic => mkTransfer (Some Panic) [] 0 (tsdb_connection t)
  | Ok points =>
      match SerializeArray points with
      | inl e => mkTransfer (Some (Err (ErrSerializer e))) [] 0 (tsdb_connection t)
      | inr payload => transfer_loop (tsdb_connection t) payload attempts dials 0
      end
  end.

(** ** Properties *)

Definition attempt_ok (a : attempt) : bool :=
  match writePayload Connected a with Ok (b, _) => b | _ => false end.

Definition dial_successes (dials : list dial) : nat := length (List.filter connect dials).

Lemma writePayload_connected a : exists l, writePayload Connected a = Ok (attempt_ok a, l).
Proof.
  unfold attempt_ok, writePayload. destruct a as [[?|] [[| []|]|] [?|] [?|]]; by eexists.
Qed.

Lemma retryConnect_some dials :
  (0 < dial_successes dials)%nat ->
  exists dials', retryConnect dials = Some dials' /\
    dial_successes dials = S (dial_successes dials').
Proof.
  unfold dial_successes. induction dials as [|d dials IH]; simpl; [lia|].
  destruct (connect d); simpl; [by eauto|]. done.
Qed.

Lemma transfer_loop_delivers payload fails a rest dials n :
  forallb (fun a => negb (attempt_ok a)) fails = true -> attempt_ok a = true ->
  (length fails <= dial_successes dials)%nat ->
  transfer_loop Connected payload (fails ++ a :: rest) dials n
  = mkTransfer (Some (Ok tt)) [payload] (n + S (length fails)) Connected.
Proof.
  revert dials n. induction fails as [|x fails IH]; intros dials n Hf Ha Hd; simpl in *.
  - destruct (writePayload_connected a) as [l ->]. rewrite Ha. f_equal. lia.
  - apply andb_true_iff in Hf as [Hx Hf]. apply negb_true_iff in Hx.
    destruct (writePayload_connected x) as [l ->]. rewrite Hx.
    destruct (retryConnect_some dials) as (dials' & -> & Hs); [lia|].
    rewrite IH by (done || lia). f_equal. lia.
Qed.

Lemma cast_tsdb_items l : cast_tsdb (ITsdb <$> l) = Ok l.
Proof.
  induction l as [|i l IH]; [done|]. rewrite fmap_cons. cbn [cast_tsdb]. by rewrite IH.
Qed.

(** C29. Persistence of the transfer: however many attempts fail first, and
    however many dials are refused in between, as soon as an attempt succeeds
    [TransferData] returns a nil error with the connection up, having written
    the serialized batch by exactly one successful write after exactly one
    [writePayload] per attempt. *)
Theorem tsdb_transfer_delivers ser t points payload fails a rest dials :
  tsdb_connection t = Connected -> ser points = inr payload ->
  forallb (fun a => negb (attempt_ok a)) fails = true -> attempt_ok a = true ->
  (length fails <= dial_successes dials)%nat ->
  tsdb_TransferData ser t (ITsdb <$> points) (fails ++ a :: rest) dials
  = mkTransfer (Some (Ok tt)) [payload] (S (length fails)) Connected.
Proof.
  intros Hc Hs Hf Ha Hd. unfold tsdb_TransferData. rewrite cast_tsdb_items, Hs, Hc.
  by apply (transfer_loop_delivers payload fails a rest dials 0).
Qed.

Definition demo_tsdb : OpenTSDBTransport :=
  mkTsdbTransport (mkTsdbConfig (mkDefaultConfig 10 1 1 10) 1 1) Connected 10.

Lemma tsdb_transfer_delivers_witness :
  tsdb_TransferData (fun _ => inr "put cpu 1 2 a=b") demo_tsdb
    (ITsdb <$> [mkTsdb "cpu" [] 1 (f64_of_Z 2)])
    ([mkAttempt None (Some (NetError false)) None None; mkAttempt None None None (Some OtherError)]
       ++ mkAttempt None (Some (NetError true)) None None :: [])
    [DialFails; DialOk; DeadlineFails; DialFails; DialOk]
  = mkTransfer (Some (Ok tt)) ["put cpu 1 2 a=b"] 3 Connected.
Proof. apply tsdb_transfer_delivers; vm_compute; auto. Defined.

(** A connection closed by the peer is not noticed by the read probe: an
    [io.EOF] from [Read] is not a [net.Error], so it is treated like a read
    without error, on every attempt; the payload is then written to the dead
    connection, and the end-of-file message of [logConnectionError] is logged
    only if [Write] itself fails with [io.EOF]. *)
Theorem tsdb_read_eof_ignored r1 r3 r4 :
  writePayload Connected (mkAttempt r1 (Some EOF) r3 r4) =
  writePayload Connected (mkAttempt r1 None r3 r4) /\
  (r4 <> Some EOF -> forall a b l op, at_write a = r4 ->
    writePayload Connected a = Ok (b, l) -> LogEOF op ∉ l).
Proof.
  split; [done|]. intros Hr [a1 a2 a3 a4] b l op. unfold writePayload. simpl. intros ->.
  destruct a1; [intros [= <- <-]; set_solver|].
  destruct (match a2 with Some (NetError false) => true | _ => false end);
    [intros [= <- <-]; set_solver|].
  destruct a3; [intros [= <- <-]; set_solver|].
  destruct r4 as [[|[]|]|]; intros [= <- <-]; set_solver.
Qed.

(** A transport whose backend was never configured reports success and
    sends nothing: the nil connection makes [writePayload] panic, the deferred
    [recover] swallows it, and the error result keeps its zero value. *)
Theorem tsdb_unconfigured_silent ser t points payload a rest dials :
  tsdb_connection t = NoConnection -> ser points = inr payload ->
  let r := tsdb_TransferData ser t (ITsdb <$> points) (a :: rest) dials in
  tr_returned r = Some (Ok tt) /\ tr_written r = [].
Proof.
  intros Hc Hs. unfold tsdb_TransferData. by rewrite cast_tsdb_items, Hs, Hc.
Qed.

Lemma tsdb_unconfigured_silent_witness :
  exists t, NewOpenTSDBTransport (Some (tsdb_configuration demo_tsdb)) = Ok t /\
  let r := tsdb_TransferData (fun _ => inr "put") t (ITsdb <$> [mkTsdb "cpu" [] 1 (f64_of_Z 2)])
    [mkAttempt None None None None] [] in
  tr_returned r = Some (Ok tt) /\ tr_written r = [].
Proof.
  eexists. split; [reflexivity|].
  apply (tsdb_unconfigured_silent (fun _ => inr "put") _ _ "put"); reflexivity.
Defined.
