(* ===== verification/TimelineManager.v ===== *)
(** * The timeline manager ([timeline/manager.go])

    The entry point of the package: it feeds a transport's data channel
    directly ([Send...]) or through the flattener ([Flatten...]).  Generic in
    the transport; the theorems at the end are about the two instances. *)

From stdpp Require Import base gmap strings list.
From Stdlib Require Import ZArith Lia.
From S2P Require Import Prelude Float64 GoValue Hashing Chan Timeline TransportCore Flattener.
From S2P Require Import HttpTransport OpenTSDBTransport.

Local Open Scope Z_scope.
Local Open Scope go_scope.

(** [dataChannel] is the transport's point channel. *)
Record Manager (T : Type) : Type := mkManager {
  mg_transport : T;
  mg_flattener : option (Flattener T);
  dataChannel : chan item;
}.
Arguments mkManager {T} _ _ _.
Arguments mg_transport {T} _.
Arguments mg_flattener {T} _.
Arguments dataChannel {T} _.

(** The goroutines [Start] launches. *)
Inductive goroutine : Type := BeginCycle | TransferDataLoop.

(** What a call that may block does. *)
Inductive call (A : Type) : Type :=
| Returns (r : result timeline_error A)
| Blocks.
Arguments Returns {A} r.
Arguments Blocks {A}.

Section manager.
Context `{D : Digests} {T : Type} `{TT : Transport T}.
Context (ConfigureBackend : T -> option Backend -> result timeline_error T).
Context (bufferSize : T -> nat).

Definition NewManager (transport : option T) (backend : option Backend) :
    result timeline_error (Manager T) :=
  match transport with
  | None => Err ErrTransportRequired
  | Some t =>
      match backend with
      | None => Err ErrNoBackendConfiguration
      | Some _ =>
          let* t := ConfigureBackend t backend in
          Ok (mkManager t None (make_chan (bufferSize t)))
      end
  end.

Definition NewManagerF (flattener : option (Flattener T)) (backend : option Backend) :
    result timeline_error (Manager T) :=
  match flattener with
  | None => Err ErrFlattenerRequired
  | Some f =>
      match backend with
      | None => Err ErrNoBackendConfiguration
      | Some _ =>
          let* t := ConfigureBackend (transport f) backend in
          Ok (mkManager t (Some (mkFlattener (configuration f) (pointMap f) t (fl_terminateChan f)))
                (make_chan (bufferSize t)))
      end
  end.

(** [m.transport.DataChannel() <- x] *)
Definition send_item (m : Manager T) (x : item) : call (Manager T) :=
  match chan_send (dataChannel m) x with
  | SendOk c => Returns (Ok (mkManager (mg_transport m) (mg_flattener m) c))
  | SendBlocks => Blocks
  | SendPanics => Returns Panic
  end.

Definition SendHTTP (m : Manager T) (schemaName : string) (parameters : list value) :
    call (Manager T) :=
  if negb (MatchType (mg_transport m) typeHTTP) then Returns (Err ErrNotHTTP)
  else send_item m (IJson (mkJson schemaName parameters)).

Definition SendOpenTSDB (m : Manager T) (now : Z) (v : float64) (ts : Z) (metric : string)
    (tags : list value) : call (Manager T) :=
  if negb (MatchType (mg_transport m) typeOpenTSDB) then Returns (Err ErrNotOpenTSDB)
  else
    let ts := if ts =? 0 then now else ts in
    send_item m (ITsdb (mkTsdb metric tags ts v)).

(** [m.flattener.Add(p)]; a nil flattener is dereferenced. *)
Definition flattener_add (m : Manager T) (p : FlattenerPoint) : result timeline_error (Manager T) :=
  match mg_flattener m with
  | None => Panic
  | Some f => let* f := Add f p in Ok (mkManager (mg_transport m) (Some f) (dataChannel m))
  end.

Definition FlattenHTTP (m : Manager T) (now : Z) (op : FlatOperation) (name : string)
    (parameters : list value) : result timeline_error (Manager T) :=
  let* p := DataChannelItemToFlattenedPoint (mg_transport m) now op
              (IJsonPtr (mkJson name parameters)) in
  flattener_add m p.

Definition FlattenOpenTSDB (m : Manager T) (now : Z) (op : FlatOperation) (v : float64) (ts : Z)
    (metric : string) (tags : list value) : result timeline_error (Manager T) :=
  let ts := if ts =? 0 then now else ts in
  let* p := DataChannelItemToFlattenedPoint (mg_transport m) now op
              (ITsdbPtr (mkTsdb metric tags ts v)) in
  flattener_add m p.

(** [Start] and [Shutdown]; [Flattener.Close] first closes the transport. *)
Definition Start (m : Manager T) : list goroutine :=
  match mg_flattener m with
  | Some _ => [BeginCycle; TransferDataLoop]
  | None => [TransferDataLoop]
  end.

Definition Shutdown (m : Manager T) : call (Manager T) :=
  match chan_close (dataChannel m) with
  | None => Returns Panic
  | Some c =>
      match mg_flattener m with
      | None => Returns (Ok (mkManager (mg_transport m) None c))
      | Some f =>
          match chan_send (fl_terminateChan f) tt with
          | SendOk tc => Returns (Ok (mkManager (mg_transport m)
              (Some (mkFlattener (configuration f) (pointMap f) (transport f) tc)) c))
          | SendBlocks => Blocks
          | SendPanics => Returns Panic
          end
      end
  end.

Definition GetTransport (m : Manager T) : T := mg_transport m.

(** [SerializeHTTP] and [SerializeOpenTSDB]; [Serialize] is the method of the
    transport. *)
Section serialize.
Context (Serialize : T -> item -> string + string).

Definition SerializeHTTP (m : Manager T) (schemaName : string) (parameters : list value) : string + string :=
  Serialize (mg_transport m) (IJson (mkJson schemaName parameters)).

Definition SerializeOpenTSDB (m : Manager T) (v : float64) (ts : Z) (metric : string) (tags : list value)
    : string + string :=
  Serialize (mg_transport m) (ITsdb (mkTsdb metric tags ts v)).
End serialize.

(** A series of [FlattenHTTP] calls. *)
Fixpoint flatten_http_all (m : Manager T) (op : FlatOperation) (name : string)
    (calls : list (Z * list value)) : result timeline_error (Manager T) :=
  match calls with
  | [] => Ok m
  | (now, ps) :: calls => let* m := FlattenHTTP m now op name ps in flatten_http_all m op name calls
  end.

Lemma flatten_http_all_add m op name calls f points :
  mg_flattener m = Some f ->
  rmapM (fun c => DataChannelItemToFlattenedPoint (mg_transport m) c.1 op
           (IJsonPtr (mkJson name c.2))) calls = Ok points ->
  flatten_http_all m op name calls =
  let* f := add_all f points in Ok (mkManager (mg_transport m) (Some f) (dataChannel m)).
Proof.
  revert m f points. induction calls as [|[now ps] calls IH]; intros m f points Hf Hp; simpl in *.
  - simplify_eq. simpl. destruct m; simpl in *; by subst.
  - unfold FlattenHTTP, flattener_add. inv_ok. subst. rewrite Hp0, Hf. simpl.
    destruct (Add f r) as [f1| |] eqn:Ea; simpl; [|done..].
    by rewrite (IH (mkManager (mg_transport m) (Some f1) (dataChannel m)) f1 r0).
Qed.
End manager.

(** The transport kinds are not told apart: the two [transportType]
    constants are equal, so a manager over the HTTP transport accepts OpenTSDB
    points (and vice versa), which are queued like any other; and the batch
    such a point ends up in is lost as a whole, since [TransferData] fails on
    it before sending anything. *)
Theorem send_type_confusion
    (m : Manager HTTPTransport) (m' : Manager OpenTSDBTransport) c c' now v ts metric tags name ps :
  chan_send (dataChannel m) (ITsdb (mkTsdb metric tags (if ts =? 0 then now else ts) v)) = SendOk c ->
  chan_send (dataChannel m') (IJson (mkJson name ps)) = SendOk c' ->
  SendOpenTSDB m now v ts metric tags = Returns (Ok (mkManager (mg_transport m) (mg_flattener m) c)) /\
  SendHTTP m' name ps = Returns (Ok (mkManager (mg_transport m') (mg_flattener m') c')) /\
  (forall ser nreq do_ batch i, ITsdb i ∈ batch ->
    http_TransferData ser nreq do_ (mg_transport m) batch = (Err ErrCastArrayItem, None)) /\
  (forall ser batch i attempts dials, IJson i ∈ batch ->
    tr_returned (tsdb_TransferData ser (mg_transport m') batch attempts dials) = Some (Err ErrCastArrayItem) /\
    tr_written (tsdb_TransferData ser (mg_transport m') batch attempts dials) = []).
Proof.
  intros H H'. split_and!.
  - unfold SendOpenTSDB, send_item. cbn. by rewrite H.
  - unfold SendHTTP, send_item. cbn. by rewrite H'.
  - intros ser nreq do_ batch i Hi. unfold http_TransferData.
    assert (Hc : cast_items batch = Err ErrCastArrayItem); [|by rewrite Hc].
    induction batch as [|x l IH]; [by apply elem_of_nil in Hi|].
    apply elem_of_cons in Hi as [<-|Hi]; [done|]. destruct x; try done. simpl. by rewrite IH.
  - intros ser batch i attempts dials Hi. unfold tsdb_TransferData.
    assert (Hc : cast_tsdb batch = Err ErrCastArrayItem); [|by rewrite Hc].
    induction batch as [|x l IH]; [by apply elem_of_nil in Hi|].
    apply elem_of_cons in Hi as [<-|Hi]; [done|]. destruct x; try done. simpl. by rewrite IH.
Qed.

Lemma send_type_confusion_witness :
  let m := mkManager demo_http None (make_chan 1) in
  SendOpenTSDB m 9 (f64_of_Z 1) 0 "cpu" [] =
  Returns (Ok (mkManager demo_http None (mkChan 1 [ITsdb (mkTsdb "cpu" [] 9 (f64_of_Z 1))] false))).
Proof.
  apply (send_type_confusion (mkManager demo_http None (make_chan 1))
    (mkManager demo_tsdb None (make_chan 1))
    (mkChan 1 [ITsdb (mkTsdb "cpu" [] 9 (f64_of_Z 1))] false) (mkChan 1 [IJson (mkJson "n" [])] false) 9 (f64_of_Z 1) 0 "cpu" [] "n" []); reflexivity.
Defined.

(** The points the HTTP conversion yields for calls of one series. *)
Lemma http_series_points t name sp ts calls ns :
  let c := http_configuration t in
  calls <> [] ->
  Forall2 (fun cl n => pairs_value c cl.2 = Some (f64_of_Z n)) calls ns ->
  Forall (fun cl => series_pairs c cl.2 = sp /\ is_Some (pairs_timestamp c cl.1 cl.2)) calls ->
  (cl ← head calls; pairs_timestamp c cl.1 cl.2) = Some ts ->
  exists pts,
    rmapM (fun c0 => DataChannelItemToFlattenedPoint t c0.1 Sum
             (IJsonPtr (mkJson name c0.2))) ((fun cl : Z * list (string * value) => (cl.1, flat_pairs cl.2)) <$> calls) = Ok pts /\
    Forall (fun p => hashParameters p = VString name :: op_value Sum :: flat_pairs sp) pts /\
    point_value <$> pts = f64_of_Z <$> ns /\
    point_data <$> head pts = Some (mkPointData Sum ts (IJson (mkJson name (flat_pairs sp)))).
Proof.
  intros c Hne Hvals Hser Hts.
  assert (Hgen : forall calls ns,
    Forall2 (fun cl n => pairs_value c cl.2 = Some (f64_of_Z n)) calls ns ->
    Forall (fun cl => series_pairs c cl.2 = sp /\ is_Some (pairs_timestamp c cl.1 cl.2)) calls ->
    exists pts,
    rmapM (fun c0 => DataChannelItemToFlattenedPoint t c0.1 Sum
             (IJsonPtr (mkJson name c0.2))) ((fun cl : Z * list (string * value) => (cl.1, flat_pairs cl.2)) <$> calls) = Ok pts /\
    Forall (fun p => hashParameters p = VString name :: op_value Sum :: flat_pairs sp) pts /\
    point_value <$> pts = f64_of_Z <$> ns).
  { clear. intros calls ns Hv. induction Hv as [|[now ps] n calls ns Hn _ IH]; intros Hs.
    { by exists []. }
    apply Forall_cons in Hs as [[Hsp [z Hz]] Hs]. destruct (IH Hs) as (pts & Hr & Hh & Hpv).
    eexists (_ :: pts). rewrite fmap_cons. cbn [rmapM fst snd].
    cbn [DataChannelItemToFlattenedPoint http_transport] in Hr |- *.
    simpl in Hn, Hz, Hsp. rewrite (http_convert_pairs t now Sum name ps _ _ Hn Hz). cbn [rbind].
    rewrite Hr. cbn [rbind]. split; [done|]. fold c. rewrite Hsp.
    split; [by constructor|]. rewrite !fmap_cons, Hpv. done. }
  destruct calls as [|[now ps] calls]; [done|]. destruct ns as [|n ns]; [by inversion Hvals|].
  destruct (Hgen _ _ Hvals Hser) as (pts & Hr & Hh & Hpv). exists pts. split_and!; [done..|].
  rewrite fmap_cons in Hr. cbn [rmapM fst snd DataChannelItemToFlattenedPoint http_transport] in Hr.
  apply Forall_cons in Hser as [[Hsp _] _]. apply Forall2_cons in Hvals as [Hn _]. simpl in Hn, Hts, Hsp.
  rewrite (http_convert_pairs t now Sum name ps _ _ Hn Hts) in Hr. cbn [rbind] in Hr. inv_ok.
  by subst.
Qed.

(** C17. End to end through the manager, the flattener and the HTTP
    conversions: any number of [FlattenHTTP(Sum, ...)] calls for one series
    (the same name and the same properties apart from value and timestamp),
    with non-negative integer measurements adding up to less than 2^53, leave
    one entry, and the next cycle sends exactly one item: the series'
    properties, the first call's timestamp, and the exact total. *)
Theorem flatten_http_sum {D : Digests} (m : Manager HTTPTransport) f name sp ts
    (calls : list (Z * list (string * value))) (ns : list Z) :
  let c := http_configuration (mg_transport m) in
  mg_flattener m = Some f -> transport f = mg_transport m -> pointMap f = ∅ ->
  calls <> [] -> Forall (fun n => 0 <= n) ns -> foldr Z.add 0 ns < max_exact ->
  Forall2 (fun cl n => pairs_value c cl.2 = Some (f64_of_Z n)) calls ns ->
  Forall (fun cl => series_pairs c cl.2 = sp /\ is_Some (pairs_timestamp c cl.1 cl.2)) calls ->
  (cl ← head calls; pairs_timestamp c cl.1 cl.2) = Some ts ->
  is_ok (Generate (HashingAlgorithm (configuration f))
    (VString name :: op_value Sum :: flat_pairs sp)) = true ->
  exists f' entry,
    flatten_http_all m Sum name ((fun cl => (cl.1, flat_pairs cl.2)) <$> calls)
      = Ok (mkManager (mg_transport m) (Some f') (dataChannel m)) /\
    map_to_list (pointMap f') = [entry] /\
    range_loop (mg_transport m) [entry] (pointMap f') [] 0 =
      Ok (∅, [IJson (mkJson name (flat_pairs (sp ++
        [(TimestampProperty c, VInt I_int64 ts); (ValueProperty c, VFloat64 (f64_of_Z (foldr Z.add 0 ns)))])))], 1%nat).
Proof.
  intros c Hf Htr Hemp Hne Hns Hb Hvals Hser Hts Hok.
  set (hp := VString name :: op_value Sum :: flat_pairs sp) in *.
  (* the points the conversions yield *)
  assert (Hpts : exists pts,
    rmapM (fun c0 => DataChannelItemToFlattenedPoint (mg_transport m) c0.1 Sum
             (IJsonPtr (mkJson name c0.2))) ((fun cl => (cl.1, flat_pairs cl.2)) <$> calls) = Ok pts /\
    Forall (fun p => hashParameters p = hp) pts /\ point_value <$> pts = f64_of_Z <$> ns /\
    point_data <$> head pts = Some (mkPointData Sum ts (IJson (mkJson name (flat_pairs sp))))).
  { apply (http_series_points (mg_transport m) name sp ts calls ns); done. }
  destruct Hpts as (pts & Hpts & Hhp & Hvs & Hhd).
  destruct (Generate _ hp) as [h| |] eqn:Hg; [|done..].
  set (k := EncodeToString h).
  assert (Hkey : Forall (fun p => point_key (configuration f) p = Ok k) pts).
  { eapply Forall_impl; [exact Hhp|]. intros p Hp. unfold point_key. simpl in Hp. by rewrite Hp, Hg. }
  destruct pts as [|p0 pts]; [done|]. simpl in Hhd. injection Hhd as Hhd.
  destruct (add_all_single f (p0 :: pts) k Hemp Hkey p0 pts eq_refl) as (f' & Ha & Hm).
  set (e := mkEntry (point_data p0) (point_value <$> p0 :: pts)) in *.
  exists f', (k, e). split_and!.
  - rewrite (flatten_http_all_add m Sum name _ f (p0 :: pts)) by done. by rewrite Ha.
  - by rewrite Hm, map_to_list_singleton.
  - cbn [range_loop]. unfold processEntry.
    assert (Hfl : flatten e = Ok (mkPoint (point_data p0) [] (f64_of_Z (foldr Z.add 0 ns)))).
    { rewrite flatten_sum by (unfold e; cbn [me_data]; by rewrite Hhd).
      assert (Hme : me_values e = f64_of_Z <$> ns) by exact Hvs.
      rewrite Hme. unfold sum_values. rewrite <- f64_of_Z_0. by rewrite sum_values_int by (done || lia). }
    rewrite Hfl, Hhd. cbn. rewrite Hm, delete_singleton_eq, flat_pairs_app. done.
Qed.

Lemma flatten_http_sum_witness :
  let m := mkManager demo_http (Some demo_flattener) (make_chan 5) in
  exists f' entry,
    @flatten_http_all toy_digests HTTPTransport _ m Sum "n"
      [(5, flat_pairs demo_pairs); (6, flat_pairs demo_pairs_later)]
      = Ok (mkManager demo_http (Some f') (make_chan 5)) /\
    map_to_list (pointMap f') = [entry] /\
    range_loop demo_http [entry] (pointMap f') [] 0 =
      Ok (∅, [IJson (mkJson "n" [VString "metric"; VString "cpu"; VString "host"; VString "a";
        VString "timestamp"; VInt I_int64 100; VString "value"; VFloat64 (f64_of_Z 12)])], 1%nat).
Proof.
  apply (@flatten_http_sum toy_digests (mkManager demo_http (Some demo_flattener) (make_chan 5))
    demo_flattener "n" [("metric", VString "cpu"); ("host", VString "a")] 100
    [(5, demo_pairs); (6, demo_pairs_later)] [3; 9]);
    try reflexivity; try discriminate.
  - repeat constructor; lia.
  - repeat constructor.
  - repeat constructor; by eexists.
Defined.

(** After [Shutdown] a send does not return an error: it panics, and so does a
    second [Shutdown]. *)
Lemma send_after_shutdown_panics (m m' : Manager HTTPTransport) name ps :
  Shutdown m = Returns (Ok m') -> SendHTTP m' name ps = Returns Panic /\ Shutdown m' = Returns Panic.
Proof.
  unfold Shutdown, chan_close. destruct (ch_closed (dataChannel m)); [done|].
  destruct (mg_flattener m) as [f|]; [|by intros [= <-]].
  destruct (chan_send _ _); [|done..]. by intros [= <-].
Qed.

(** [SerializeHTTP] renders the item [SendHTTP] sends.  [SerializeOpenTSDB] does
    not: with the timestamp zero the text has the zero, the item the time of the
    call. *)
Lemma serialize_is_sent {T} {TT : Transport T} (Serialize : T -> item -> string + string)
    (m m' : Manager T) name ps :
  SendHTTP m name ps = Returns (Ok m') ->
  exists x, ch_buf (dataChannel m') = ch_buf (dataChannel m) ++ [x] /\
    SerializeHTTP Serialize m name ps = Serialize (GetTransport m) x.
Proof.
  unfold SendHTTP, send_item. destruct (negb _); [done|]. destruct (chan_send _ _) as [c| |] eqn:E; [|done..].
  intros [= <-]. apply chan_send_ok in E as (_ & _ & E & _). eexists. split; [exact E|done].
Qed.

Lemma serialize_zero_timestamp {T} {TT : Transport T} (Serialize : T -> item -> string + string)
    (m m' : Manager T) now v metric tags :
  SendOpenTSDB m now v 0 metric tags = Returns (Ok m') ->
  ch_buf (dataChannel m') = ch_buf (dataChannel m) ++ [ITsdb (mkTsdb metric tags now v)] /\
  SerializeOpenTSDB Serialize m v 0 metric tags = Serialize (GetTransport m) (ITsdb (mkTsdb metric tags 0 v)).
Proof.
  unfold SendOpenTSDB, send_item. destruct (negb _); [done|]. simpl.
  destruct (chan_send _ _) as [c| |] eqn:E; [|done..].
  intros [= <-]. by apply chan_send_ok in E as (_ & _ & E & _).
Qed.
