(* ===== verification/TimelineSystem.v ===== *)
(** * The timeline pipeline ([timeline/flattener.go] with [timeline/transport.go])

    The flattener's goroutines ([FlattenerConc]) and the transfer loop of the
    transport ([TransportCore]) run side by side and share one channel, the
    [pointChannel] of the core.  This file composes the two step relations:
    what happens to the channel happens in both, everything else in one of them.
    The manager's [Send...] calls put items in the channel directly.  The
    theorems follow a value from [Add] to the batch that is transferred. *)

From stdpp Require Import base gmap strings list relations.
From Stdlib Require Import ZArith Lia.
From S2P Require Import Prelude Float64 GoValue Hashing Chan Timeline Flattener TransportCore.
From S2P Require Import HttpTransport FlattenerConc.

(** ** The composition *)

(** The two components and the items sent by [SendHTTP] and [SendOpenTSDB]. *)
Record pipeline : Type := mkPipe {
  pl_flat : fstate;
  pl_core : core_state;
  pl_direct : list item;
}.

Definition set_fchan (c : chan item) (f : fstate) : fstate :=
  mkF (entries f) (pmap f) (adders f) (cyc f) c (terminateChan f) (clo f) (panicked f) (added f) (flattened f).

Definition pl_init (n : nat) : pipeline := mkPipe (f_init n) (core_init n) [].

Section pipeline.
Context `{D : Digests} {T : Type} `{TT : Transport T} (tr : T) (cfg : FlattenerConfig).

Inductive pl_step0 : pipeline -> pipeline -> Prop :=
(* a step of the flattener or of its callers that leaves the channel alone *)
| pl_flattener f f' c d :
    f_step0 tr cfg f f' -> fchan f' = fchan f ->
    pl_step0 (mkPipe f c d) (mkPipe f' c d)
(* a step of the transfer loop that leaves the channel alone *)
| pl_transport f c c' d :
    core_step c c' -> pointChannel c' = pointChannel c ->
    pl_step0 (mkPipe f c d) (mkPipe f c' d)
(* a send of the cycle, a receive of the loop, or the close: both see it *)
| pl_shared f f' c c' d :
    f_step0 tr cfg f f' -> core_step c c' ->
    fchan f' = pointChannel c' -> fchan f' <> fchan f ->
    pl_step0 (mkPipe f c d) (mkPipe f' c' d)
(* [m.transport.DataChannel() <- item] by the manager *)
| pl_send f c d x ch :
    chan_send (pointChannel c) x = SendOk ch ->
    pl_step0 (mkPipe f c d)
      (mkPipe (set_fchan ch f) (mkCore ch (pc c) (accepted c ++ [x]) (batches c) (dropped c)) (d ++ [x])).

(** A panic of a goroutine ends the program. *)
Definition pl_step (s s' : pipeline) : Prop := panicked (pl_flat s) = false /\ pl_step0 s s'.

Definition pl_reachable (n : nat) (s : pipeline) : Prop := rtc pl_step (pl_init n) s.

(** ** The invariant *)

(** Where an item of the channel comes from: an entry of the flattener, with its
    location and contents when it was flattened, or a [Send...] call. *)
Definition origin : Type := option (nat * mapEntry).

Definition origin_ok (o : origin) (i : item) : Prop :=
  match o with Some (_, e) => processEntry tr e = Ok (Some i) | None => True end.

Definition direct_items (log : list origin) (is_ : list item) : list item :=
  omap (fun x => match x.1 with None => Some x.2 | Some _ => None end) (zip log is_).

(** The entry that is flattened and not yet in the channel. *)
Definition pending_ok (c : cycle_pc) (pend : list (nat * mapEntry)) : Prop :=
  match c with
  | CSend _ l i _ _ => exists e, pend = [(l, e)] /\ processEntry tr e = Ok (Some i)
  | _ => pend = []
  end.

Definition read_of (x : nat * mapEntry) : nat * list float64 := (x.1, me_values x.2).

Definition provenance (s : pipeline) : Prop :=
  exists (log : list origin) (pend : list (nat * mapEntry)),
    Forall2 origin_ok log (accepted (pl_core s)) /\
    direct_items log (accepted (pl_core s)) = pl_direct s /\
    pending_ok (cyc (pl_flat s)) pend /\
    read_of <$> (omap id log ++ pend) ⊆+ flattened (pl_flat s).

Record pl_inv (n : nat) (s : pipeline) : Prop := {
  pi_shared : fchan (pl_flat s) = pointChannel (pl_core s);
  pi_flat : f_inv (pl_flat s);
  pi_core : core_inv n (pl_core s);
  pi_prov : provenance s;
}.

Lemma f_inv_set_fchan c f : f_inv f -> f_inv (set_fchan c f).
Proof. intros [????? Hp ?]. split; simpl; try done. Qed.

Lemma zip_snoc {A B} (l : list A) (k : list B) x y :
  length l = length k -> zip (l ++ [x]) (k ++ [y]) = zip l k ++ [(x, y)].
Proof.
  revert k. induction l as [|a l IH]; intros [|b k] H; try done. simpl in *. f_equal. apply IH. lia.
Qed.

Lemma direct_items_snoc log is_ o i :
  length log = length is_ ->
  direct_items (log ++ [o]) (is_ ++ [i]) =
  direct_items log is_ ++ (match o with None => [i] | Some _ => [] end).
Proof. intros H. unfold direct_items. rewrite zip_snoc, omap_app by done. by destruct o. Qed.

(** Steps that neither flatten an entry nor put an item in the channel. *)
Lemma provenance_same s s' :
  provenance s -> accepted (pl_core s') = accepted (pl_core s) -> pl_direct s' = pl_direct s ->
  flattened (pl_flat s') = flattened (pl_flat s) ->
  (forall pend, pending_ok (cyc (pl_flat s)) pend -> pending_ok (cyc (pl_flat s')) pend) ->
  provenance s'.
Proof.
  intros (log & pend & H1 & H2 & H3 & H4) Ha Hd Hf Hp.
  exists log, pend. rewrite Ha, Hd, Hf. auto.
Qed.

Lemma provenance_private f f' c d :
  f_step0 tr cfg f f' -> fchan f' = fchan f ->
  provenance (mkPipe f c d) -> provenance (mkPipe f' c d).
Proof.
  intros Hs Hch Hp.
  destruct Hs as [f p k Hk|f a1 a2 l v e|f a1 a2 k p|f Hc|f n Hc|f start vis k l Hc Hn Hk
    |f start vis Hc|f k l start vis e i Hc He Hpe|f k l start vis e Hc He Hpe|f k l i start vis c' Hc Hsend
    |f k l i start vis Hc|f k l start vis Hc|f i c' Hr|f c' ? Hcl|f];
    try (eapply provenance_same; [exact Hp|done..|simpl; rewrite ?Hc; done]).
  - destruct Hp as (log & pend & H1 & H2 & H3 & H4). simpl in *. rewrite Hc in H3. simpl in H3. subst pend.
    exists log, [(l, e)]. simpl. split_and!; [done..|by exists e|].
    rewrite fmap_app. rewrite app_nil_r in H4. by apply submseteq_app.
  - destruct Hp as (log & pend & H1 & H2 & H3 & H4). simpl in *. rewrite Hc in H3.
    exists log, pend. simpl. split_and!; [done..|]. by apply submseteq_inserts_r.
  - simpl in Hch. apply chan_send_ok in Hsend as (_ & _ & Hb & _). rewrite Hch in Hb.
    apply (f_equal length) in Hb. rewrite length_app in Hb. simpl in Hb. lia.
Qed.

(** Which steps of the two components touch the channel. *)
Definition recv_or_close (c c' : chan item) : Prop :=
  (exists i, chan_recv c = RecvOk i c') \/ chan_close c = Some c'.

Lemma flat_channel_step f f' :
  f_step0 tr cfg f f' -> fchan f' <> fchan f ->
  (exists k l i start vis, cyc f = CSend k l i start vis /\ cyc f' = CDelete k l start vis /\
     chan_send (fchan f) i = SendOk (fchan f') /\ flattened f' = flattened f) \/
  (recv_or_close (fchan f) (fchan f') /\ cyc f' = cyc f /\ flattened f' = flattened f).
Proof.
  intros Hs Hne. destruct Hs; try done.
  - left. eauto 10.
  - right. unfold recv_or_close. eauto.
  - right. unfold recv_or_close. eauto.
Qed.

Lemma core_channel_step c c' :
  core_step c c' ->
  (exists x, chan_send (pointChannel c) x = SendOk (pointChannel c') /\ accepted c' = accepted c ++ [x]) \/
  (accepted c' = accepted c /\
   (pointChannel c' = pointChannel c \/ recv_or_close (pointChannel c) (pointChannel c'))).
Proof. intros Hs. unfold recv_or_close. destruct Hs; eauto 8. Qed.

Lemma send_not_recv_or_close (c c' : chan item) x : chan_send c x = SendOk c' -> recv_or_close c c' -> False.
Proof.
  intros (Hc & Hc' & Hb & _)%chan_send_ok [[i (Hb' & _)%chan_recv_ok]|Hcl].
  - rewrite Hb' in Hb. apply (f_equal length) in Hb. rewrite length_app in Hb. simpl in Hb. lia.
  - unfold chan_close in Hcl. rewrite Hc in Hcl. by injection Hcl as <-.
Qed.

Lemma send_inj (c c' : chan item) x y : chan_send c x = SendOk c' -> chan_send c y = SendOk c' -> x = y.
Proof.
  intros (_ & _ & Hb & _)%chan_send_ok (_ & _ & Hb' & _)%chan_send_ok.
  rewrite Hb in Hb'. by apply app_inj_tail in Hb' as [_ ?].
Qed.

Lemma provenance_shared f f' c c' d :
  fchan f = pointChannel c -> f_step0 tr cfg f f' -> core_step c c' ->
  fchan f' = pointChannel c' -> fchan f' <> fchan f ->
  provenance (mkPipe f c d) -> provenance (mkPipe f' c' d).
Proof.
  intros Hsh Hf Hcs Hsh' Hne Hp.
  destruct (flat_channel_step f f' Hf Hne) as [(k & l & i & start & vis & Hc & Hc' & Hsend & Hfl)|(Hrc & Hc & Hfl)];
    destruct (core_channel_step c c' Hcs) as [(x & Hsx & Ha)|[Ha Hch]].
  - rewrite <- Hsh, <- Hsh' in Hsx. assert (i = x) as <- by by eapply send_inj.
    destruct Hp as (log & pend & H1 & H2 & H3 & H4). simpl in *. rewrite Hc in H3. destruct H3 as (e & -> & He).
    exists (log ++ [Some (l, e)]), []. simpl. rewrite Ha, Hc', Hfl. split_and!; [|..|done|].
    + apply Forall2_app; [done|by repeat constructor].
    + rewrite direct_items_snoc by by eapply Forall2_length. by rewrite app_nil_r.
    + by rewrite app_nil_r, omap_app.
  - exfalso. rewrite <- Hsh, <- Hsh' in Hch. destruct Hch as [?|Hrc]; [done|]. by eapply send_not_recv_or_close.
  - exfalso. rewrite <- Hsh, <- Hsh' in Hsx. by eapply send_not_recv_or_close.
  - eapply provenance_same; [exact Hp|done..|]. simpl. by rewrite Hc.
Qed.

Lemma provenance_send f c d x ch :
  provenance (mkPipe f c d) ->
  provenance (mkPipe (set_fchan ch f) (mkCore ch (pc c) (accepted c ++ [x]) (batches c) (dropped c)) (d ++ [x])).
Proof.
  intros (log & pend & H1 & H2 & H3 & H4). exists (log ++ [None]), pend. simpl in *. split_and!; [..|done|].
  - apply Forall2_app; [done|by repeat constructor].
  - rewrite direct_items_snoc by by eapply Forall2_length. by rewrite H2.
  - rewrite omap_app. simpl. by rewrite app_nil_r.
Qed.

Lemma pl_inv_init n : pl_inv n (pl_init n).
Proof.
  split; [done|apply f_inv_init|apply core_inv_init|].
  exists [], []. simpl. split_and!; [constructor|done|done|done].
Qed.

Lemma pl_inv_step n s s' : pl_inv n s -> pl_step0 s s' -> pl_inv n s'.
Proof.
  intros [Hsh Hf Hc Hp] Hs. destruct Hs as [f f' c d Hst Hch|f c c' d Hst Hch|f f' c c' d Hst Hst' Hch Hne|f c d x ch Hsend];
    simpl in *.
  - split; simpl; [by rewrite Hch|by eapply f_inv_step|done|by eapply provenance_private].
  - split; simpl; [by rewrite Hch|done|by eapply core_inv_step|].
    destruct (core_channel_step _ _ Hst) as [(x & Hsx & _)|[Ha _]].
    + rewrite Hch in Hsx. apply chan_send_ok in Hsx as (_ & _ & Hb & _).
      apply (f_equal length) in Hb. rewrite length_app in Hb. simpl in Hb. lia.
    + by eapply provenance_same.
  - split; simpl; [done|by eapply f_inv_step|by eapply core_inv_step|exact (provenance_shared f f' c c' d Hsh Hst Hst' Hch Hne Hp)].
  - split; simpl; [done|by apply f_inv_set_fchan|by eapply core_inv_step; [|apply step_send]|by apply provenance_send].
Qed.

Lemma pl_reachable_inv n s : pl_reachable n s -> pl_inv n s.
Proof.
  intros Hr. eapply (rtc_invariant _ (pl_inv n)); [|exact Hr|apply pl_inv_init].
  intros a b Ha [_ Hb]. by eapply pl_inv_step.
Qed.
End pipeline.

Lemma reads_values (log : list (nat * mapEntry)) (fl : list (nat * list float64)) :
  read_of <$> log ⊆+ fl -> concat (me_values ∘ snd <$> log) ⊆+ concat fl.*2.
Proof.
  intros H. apply (fmap_submseteq snd) in H. rewrite <- list_fmap_compose in H.
  apply submseteq_Permutation in H as [k Hk]. rewrite Hk, concat_app.
  apply submseteq_inserts_r. done.
Qed.

Lemma submseteq_NoDup {A} (l k : list A) : l ⊆+ k -> NoDup k -> NoDup l.
Proof. intros [x Hx]%submseteq_Permutation Hk. rewrite Hx in Hk. by apply NoDup_app in Hk as [? _]. Qed.

Lemma direct_items_app l1 l2 is1 is2 :
  length l1 = length is1 -> direct_items (l1 ++ l2) (is1 ++ is2) = direct_items l1 is1 ++ direct_items l2 is2.
Proof.
  revert is1. induction l1 as [|o l1 IH]; intros [|i is1] H; try done. unfold direct_items in *. simpl in *.
  destruct o; simpl; rewrite IH by lia; done.
Qed.

Lemma flattened_values s : f_inv s -> concat (flattened s).*2 ⊆+ added s.
Proof.
  intros Hi. rewrite <- (fi_values s Hi). apply submseteq_inserts_r, concat_prefixes; [by apply fi_nodup|].
  intros l vs (e & He & Hpre)%(fi_seen s Hi). exists (me_values e). by rewrite list_lookup_fmap, He.
Qed.

(** C3. From [Add] to the backend nothing is counted twice.  In every reachable
    state of the pipeline, with any number of concurrent [Add]s and [Send...]
    calls, the cycle, the transfer loop and [Close], each item handed to
    [TransferData] so far is either the flattening of an entry as it was read,
    different items from different entries, or the item of a [Send...] call, in
    the order of these calls.  The values in the entries behind the transferred
    items are, as a multiset, among the values passed to [Add]. *)
Theorem pipeline_at_most_once {D : Digests} {T} {TT : Transport T} (tr : T) cfg n s :
  pl_reachable tr cfg n s ->
  exists log : list origin,
    Forall2 (origin_ok tr) log (concat (batches (pl_core s))) /\
    NoDup (omap id log).*1 /\
    concat (me_values ∘ snd <$> omap id log) ⊆+ added (pl_flat s) /\
    direct_items log (concat (batches (pl_core s))) `prefix_of` pl_direct s.
Proof.
  intros [Hsh Hf Hc (log & pend & H1 & H2 & _ & H4)]%pl_reachable_inv.
  rewrite (inv_fifo _ _ Hc) in H1, H2. apply Forall2_app_inv_r in H1 as (log1 & log2 & H1 & _ & ->).
  rewrite direct_items_app in H2 by by eapply Forall2_length.
  rewrite omap_app, <- app_assoc, fmap_app in H4.
  assert (H5 : read_of <$> omap id log1 ⊆+ flattened (pl_flat s)) by (etrans; [by apply submseteq_inserts_r|exact H4]).
  exists log1. split_and!; [done|..].
  - pose proof (fi_nodup _ Hf) as Hnd. apply (fmap_submseteq fst) in H5.
    rewrite <- list_fmap_compose in H5. by eapply submseteq_NoDup.
  - etrans; [by apply reads_values|]. by apply flattened_values.
  - rewrite <- H2. by apply prefix_app_r.
Qed.

(** ** Delivery *)

Section delivery.
Context `{D : Digests} {T : Type} `{TT : Transport T} {TL : TransportLaws T} (tr : T) (cfg : FlattenerConfig).
Context (n : nat) (Hn : (0 < n)%nat).

(** Entries hold at least the value they were created with. *)
Definition entries_filled (s : pipeline) : Prop := Forall (fun e => me_values e <> []) (entries (pl_flat s)).

(** Before [Close] the channel is open and the cycle runs. *)
Definition open_until_close (s : pipeline) : Prop :=
  clo (pl_flat s) = NotClosing ->
  ch_closed (fchan (pl_flat s)) = false /\ terminateChan (pl_flat s) = 0%nat /\ cyc (pl_flat s) <> CDone.

Lemma filled_f_step f f' :
  f_step0 tr cfg f f' -> Forall (fun e => me_values e <> []) (entries f) ->
  Forall (fun e => me_values e <> []) (entries f').
Proof.
  intros Hs Hf. destruct Hs; simpl; try done.
  - apply Forall_insert; [done|]. simpl. by destruct (me_values e).
  - apply Forall_app. split; [done|]. by repeat constructor.
Qed.

Lemma open_f_step f f' :
  f_step0 tr cfg f f' ->
  (clo f = NotClosing -> ch_closed (fchan f) = false /\ terminateChan f = 0%nat /\ cyc f <> CDone) ->
  (clo f' = NotClosing -> ch_closed (fchan f') = false /\ terminateChan f' = 0%nat /\ cyc f' <> CDone).
Proof.
  intros Hs Hf. destruct Hs as [| | |s Hc|s m Hc Hm|s start vis k l Hc Hv Hk|s start vis Hc|s k l start vis e i Hc
    |s k l start vis e Hc|s k l i start vis c' Hc Hsend|s k l i start vis Hc|s k l start vis Hc|s i c' Hr|s c' Hcl|s Hcl];
    simpl; try done; intros Hcl'; destruct (Hf Hcl') as (H1 & H2 & H3); try done; try by split_and!.
  - congruence.
  - apply chan_send_ok in Hsend as (_ & ? & _). by split_and!.
  - apply chan_recv_ok in Hr as (_ & ? & _). split_and!; [congruence|done..].
Qed.

Record pl_alive (s : pipeline) : Prop := {
  pa_inv : pl_inv tr n s;
  pa_filled : entries_filled s;
  pa_open : open_until_close s;
}.

Lemma pl_alive_step s s' : pl_alive s -> pl_step0 tr cfg s s' -> pl_alive s'.
Proof.
  intros [Hi Hf Ho] Hs. split; [by eapply pl_inv_step|..]; unfold entries_filled, open_until_close in *;
    destruct Hs as [f f' c d Hst Hch|f c c' d Hst Hch|f f' c c' d Hst Hst' Hch Hne|f c d x ch Hsend]; simpl in *;
    try done; try (by eapply filled_f_step); try (by eapply open_f_step).
  intros Hcl. destruct (Ho Hcl) as (H1 & H2 & H3). apply chan_send_ok in Hsend as (_ & ? & _). by split_and!.
Qed.

Lemma pl_reachable_alive s : pl_reachable tr cfg n s -> pl_alive s.
Proof.
  intros Hr. eapply (rtc_invariant _ pl_alive); [|exact Hr|].
  - intros a b Ha [_ Hb]. by eapply pl_alive_step.
  - split; [apply pl_inv_init|constructor|]. unfold open_until_close. simpl. intros _. by split_and!.
Qed.

Lemma processEntry_no_panic e : me_values e <> [] -> processEntry tr e <> Panic.
Proof.
  intros He. pose proof (flatten_total e He) as Hf. unfold processEntry.
  destruct (_ && _); [destruct Hf as [v ->]|by rewrite Hf].
  pose proof (point_back_no_panic tr (mkPoint (me_data e) [] v)). by destruct (FlattenedPointToDataChannelItem _ _).
Qed.

Lemma processEntry_no_err e err : processEntry tr e <> Err err.
Proof. unfold processEntry. destruct (flatten e); [|done..]. by destruct (FlattenedPointToDataChannelItem _ _). Qed.

(** A continuation of the open pipeline in which no [Add] and no [Send...] call
    takes a step. *)
Record progress (s s' : pipeline) : Prop := {
  pr_run : rtc (pl_step tr cfg) s s';
  pr_alive : pl_alive s';
  pr_entries : entries (pl_flat s') = entries (pl_flat s);
  pr_added : added (pl_flat s') = added (pl_flat s);
  pr_clo : clo (pl_flat s') = NotClosing;
  pr_panicked : panicked (pl_flat s') = false;
  pr_accepted : accepted (pl_core s) `prefix_of` accepted (pl_core s');
}.

Lemma progress_refl s :
  pl_alive s -> clo (pl_flat s) = NotClosing -> panicked (pl_flat s) = false -> progress s s.
Proof. intros. by split. Qed.

Lemma progress_trans s1 s2 s3 : progress s1 s2 -> progress s2 s3 -> progress s1 s3.
Proof.
  intros [] []. split; [by etrans|done|congruence..|done|done|by etrans].
Qed.

Lemma progress_step s1 s2 s3 :
  progress s1 s2 -> pl_step0 tr cfg s2 s3 ->
  entries (pl_flat s3) = entries (pl_flat s2) -> added (pl_flat s3) = added (pl_flat s2) ->
  clo (pl_flat s3) = NotClosing -> panicked (pl_flat s3) = false ->
  accepted (pl_core s2) `prefix_of` accepted (pl_core s3) -> progress s1 s3.
Proof.
  intros Hp Hs ?????. eapply progress_trans; [exact Hp|]. split; try done.
  - apply rtc_once. split; [apply Hp|done].
  - eapply pl_alive_step; [apply Hp|done].
Qed.

Lemma set_fchan_id f : set_fchan (fchan f) f = f.
Proof. by destruct f. Qed.

Lemma core_step_mono c c' :
  core_step c c' ->
  (length (accepted c) <= length (accepted c'))%nat /\
  (ch_closed (pointChannel c) = true -> ch_closed (pointChannel c') = true).
Proof.
  intros [(x & Hs & ->)|[-> Hch]]%core_channel_step.
  - rewrite length_app. split; [simpl; lia|]. apply chan_send_ok in Hs as (? & _). congruence.
  - split; [done|]. intros Ho. destruct Hch as [->|[[i (_ & ? & _)%chan_recv_ok]|Hc]]; [done|congruence|].
    unfold chan_close in Hc. by rewrite Ho in Hc.
Qed.

Lemma core_run_mono c c' :
  rtc core_step c c' ->
  (length (accepted c) <= length (accepted c'))%nat /\
  (ch_closed (pointChannel c) = true -> ch_closed (pointChannel c') = true).
Proof.
  induction 1 as [c|c c1 c' [??]%core_step_mono _ [??]]; [done|]. split; [lia|auto].
Qed.

(** A run of the transfer loop alone is a run of the pipeline. *)
Lemma lift_core f c c' d :
  rtc core_step c c' -> accepted c' = accepted c -> ch_closed (pointChannel c') = false ->
  fchan f = pointChannel c -> panicked f = false ->
  rtc (pl_step tr cfg) (mkPipe f c d) (mkPipe (set_fchan (pointChannel c') f) c' d).
Proof.
  intros Hr. revert f. induction Hr as [c|c c1 c' Hs Hr IH]; intros f Ha Hc Hf Hp.
  { rewrite <- Hf, set_fchan_id. apply rtc_refl. }
  pose proof (core_run_mono _ _ Hr) as [Hlen Hcl].
  destruct (core_channel_step _ _ Hs) as [(x & _ & Hx)|[Hx Hch]].
  { rewrite Ha, Hx, length_app in Hlen. simpl in Hlen. lia. }
  destruct Hch as [Hch|[[i Hi]|Hi]].
  - eapply rtc_l; [split; [done|by apply (pl_transport _ _ _ _ _ _ Hs)]|]. apply IH; congruence.
  - eapply rtc_l; [split; [done|]|]; [|apply (IH (set_fchan (pointChannel c1) f)); done || congruence].
    eapply (pl_shared _ _ f (set_fchan (pointChannel c1) f)); [|exact Hs|done|].
    + apply (transport_recv _ _ f i). by rewrite Hf.
    + simpl. rewrite Hf. intros Heq. rewrite Heq in Hi. apply chan_recv_ok in Hi as (Hb & _).
      apply (f_equal length) in Hb. simpl in Hb. lia.
  - unfold chan_close in Hi. destruct (ch_closed (pointChannel c)); [done|]. injection Hi as Hi.
    rewrite <- Hi in Hcl. rewrite Hcl in Hc by done. done.
Qed.

(** The loop can empty the channel, so there is room for the next item. *)
Lemma make_room s :
  pl_alive s -> clo (pl_flat s) = NotClosing -> panicked (pl_flat s) = false ->
  exists s', progress s s' /\ cyc (pl_flat s') = cyc (pl_flat s) /\ pmap (pl_flat s') = pmap (pl_flat s) /\
    accepted (pl_core s') = accepted (pl_core s) /\
    concat (batches (pl_core s')) = accepted (pl_core s') /\ ch_buf (pointChannel (pl_core s')) = [].
Proof.
  destruct s as [f c d]. intros Hal Hcl Hp. pose proof (pa_inv _ Hal) as [Hsh _ Hco _]. simpl in *.
  destruct (pa_open _ Hal Hcl) as (Ho & _). simpl in Ho. rewrite Hsh in Ho.
  destruct (open_inv_can_deliver n c Hco Ho) as (c' & Hr & Ho' & Ha & Hb).
  assert (Hrun := lift_core f c c' d Hr Ha Ho' Hsh Hp).
  assert (Hal' : pl_alive (mkPipe (set_fchan (pointChannel c') f) c' d)).
  { eapply (rtc_invariant _ pl_alive); [|exact Hrun|done]. intros a b Hx [_ Hb']. by eapply pl_alive_step. }
  eexists. split; [split; [exact Hrun|exact Hal'|done|done|done|done|simpl; by rewrite Ha]|]. simpl.
  split_and!; try done; [congruence|]. pose proof (inv_fifo _ _ (pi_core _ _ _ (pa_inv _ Hal'))) as Hf.
  simpl in Hf. rewrite Ha, Hb in Hf. rewrite <- (app_nil_r (accepted c)) in Hf at 1. apply app_inv_head in Hf.
  symmetry in Hf. by apply app_nil in Hf as [_ [_ ?]%app_nil].
Qed.

Lemma finish_delete s k l start vis :
  pl_alive s -> clo (pl_flat s) = NotClosing -> panicked (pl_flat s) = false ->
  cyc (pl_flat s) = CDelete k l start vis ->
  exists s', progress s s' /\ cyc (pl_flat s') = CRange start ({[k]} ∪ vis) /\
    pmap (pl_flat s') = delete k (pmap (pl_flat s)) /\ accepted (pl_core s') = accepted (pl_core s).
Proof.
  destruct s as [f c d]. intros Hal Hcl Hp Hc. eexists. split.
  - eapply progress_step; [by apply progress_refl|by apply pl_flattener; [by eapply range_delete|]|done..].
  - done.
Qed.

Lemma finish_send s k l i start vis :
  pl_alive s -> clo (pl_flat s) = NotClosing -> panicked (pl_flat s) = false ->
  cyc (pl_flat s) = CSend k l i start vis ->
  exists s', progress s s' /\ cyc (pl_flat s') = CRange start ({[k]} ∪ vis) /\
    pmap (pl_flat s') = delete k (pmap (pl_flat s)) /\ i ∈ accepted (pl_core s').
Proof.
  intros Hal Hcl Hp Hc. destruct (make_room s Hal Hcl Hp) as ([f c d] & Hpr & Hcy & Hpm & Ha & Hb & Hbuf).
  simpl in *. rewrite Hc in Hcy. pose proof (pi_shared _ _ _ (pa_inv _ (pr_alive _ _ Hpr))) as Hsh. simpl in Hsh.
  destruct (pa_open _ (pr_alive _ _ Hpr) (pr_clo _ _ Hpr)) as (Ho & _). simpl in Ho.
  pose proof (inv_cap _ _ (pi_core _ _ _ (pa_inv _ (pr_alive _ _ Hpr)))) as Hcap. simpl in Hcap.
  assert (Hsend : exists ch, chan_send (fchan f) i = SendOk ch).
  { unfold chan_send. rewrite Ho, Hsh, Hbuf, Hcap. simpl. destruct n; [lia|]. by eexists. }
  destruct Hsend as [ch Hsend].
  set (s1 := mkPipe (mkF (entries f) (pmap f) (adders f) (CDelete k l start vis) ch (terminateChan f)
      (clo f) (panicked f) (added f) (flattened f)) (mkCore ch (pc c) (accepted c ++ [i]) (batches c) (dropped c)) d).
  assert (Hpr1 : progress s s1).
  { eapply progress_step; [exact Hpr| |done|done|apply Hpr|apply Hpr|by apply prefix_app_r].
    eapply pl_shared; [by eapply send_ok|apply step_send; by rewrite <- Hsh|done|].
    simpl. intros ->. apply chan_send_ok in Hsend as (_ & _ & Hbad & _).
    apply (f_equal length) in Hbad. rewrite length_app in Hbad. simpl in Hbad. lia. }
  destruct (finish_delete s1 k l start vis) as (s' & Hpr' & H1 & H2 & H3); [apply Hpr1|apply Hpr1|apply Hpr1|done|].
  exists s'. split_and!; [by eapply progress_trans|done|by rewrite H2; simpl; rewrite Hpm|].
  rewrite H3. simpl. set_solver.
Qed.

(** The callback of [Range] on an entry runs to its end. *)
Lemma finish_process s k l start vis :
  pl_alive s -> clo (pl_flat s) = NotClosing -> panicked (pl_flat s) = false ->
  cyc (pl_flat s) = CProcess k l start vis ->
  exists s', progress s s' /\ cyc (pl_flat s') = CRange start ({[k]} ∪ vis) /\
    pmap (pl_flat s') = delete k (pmap (pl_flat s)) /\
    forall e i, entries (pl_flat s) !! l = Some e -> processEntry tr e = Ok (Some i) -> i ∈ accepted (pl_core s').
Proof.
  intros Hal Hcl Hp Hc. pose proof (fi_picked _ (pi_flat _ _ _ (pa_inv _ Hal))) as Hpk.
  unfold picked_ok in Hpk. rewrite Hc in Hpk. destruct Hpk as (Hl & _).
  apply lookup_lt_is_Some in Hl as [e He].
  pose proof (processEntry_no_panic e (Forall_lookup_1 _ _ _ _ (pa_filled _ Hal) He)) as Hnp.
  destruct s as [f c d]. simpl in *.
  destruct (processEntry tr e) as [[i|]|err|] eqn:Hpe; [..|done].
  - set (s1 := mkPipe (mkF (entries f) (pmap f) (adders f) (CSend k l i start vis) (fchan f) (terminateChan f)
      (clo f) (panicked f) (added f) (flattened f ++ [(l, me_values e)])) c d).
    assert (Hpr1 : progress (mkPipe f c d) s1).
    { eapply progress_step; [by apply progress_refl|apply pl_flattener; [by eapply process_item|done]|done..]. }
    destruct (finish_send s1 k l i start vis) as (s' & Hpr & H1 & H2 & H3); [apply Hpr1|exact Hcl|exact Hp|done|].
    exists s'. split_and!; [by eapply progress_trans|done..|]. intros e' i' He' Hi'. assert (i' = i) as -> by congruence. done.
  - set (s1 := mkPipe (mkF (entries f) (pmap f) (adders f) (CDelete k l start vis) (fchan f) (terminateChan f)
      (clo f) (panicked f) (added f) (flattened f ++ [(l, me_values e)])) c d).
    assert (Hpr1 : progress (mkPipe f c d) s1).
    { eapply progress_step; [by apply progress_refl|apply pl_flattener; [by eapply process_error|done]|done..]. }
    destruct (finish_delete s1 k l start vis) as (s' & Hpr & H1 & H2 & H3); [apply Hpr1|exact Hcl|exact Hp|done|].
    exists s'. split_and!; [by eapply progress_trans|done..|]. intros e' i' He' Hi'. congruence.
  - by destruct (processEntry_no_err e err).
Qed.

(** The entry of [k] has been handed to the channel. *)
Definition handed_over (s s' : pipeline) (k : string) : Prop :=
  forall l e i, pmap (pl_flat s) !! k = Some l -> entries (pl_flat s) !! l = Some e ->
    processEntry tr e = Ok (Some i) -> i ∈ accepted (pl_core s').

Lemma handed_over_later s s1 s2 k : progress s1 s2 -> handed_over s s1 k -> handed_over s s2 k.
Proof. intros Hp H l e i ???. eapply elem_of_prefix; [by eapply H|apply Hp]. Qed.

(** [Range] runs to its end: every key it has not visited is handed over. *)
Lemma finish_range s start vis :
  pl_alive s -> clo (pl_flat s) = NotClosing -> panicked (pl_flat s) = false ->
  cyc (pl_flat s) = CRange start vis ->
  exists s', progress s s' /\ cyc (pl_flat s') = CWait /\
    (forall k, k ∈ vis -> pmap (pl_flat s') !! k = pmap (pl_flat s) !! k) /\
    (forall k, k ∉ vis -> pmap (pl_flat s') !! k = None /\ handed_over s s' k).
Proof.
  remember (size (dom (pmap (pl_flat s)) ∖ vis)) as m eqn:Hm. revert s vis Hm.
  induction m as [m IH] using lt_wf_ind; intros s vis Hm Hal Hcl Hp Hc.
  destruct (decide (dom (pmap (pl_flat s)) ⊆ vis)) as [Hsub|Hsub].
  - destruct s as [f c d]. simpl in *. exists (mkPipe (with_cyc f CWait) c d). split_and!; simpl; [|done|done|].
    + eapply progress_step; [by apply progress_refl|apply pl_flattener; [eapply range_end; [exact Hc|set_solver]|done]|done..].
    + intros k Hk. assert (Hnone : pmap f !! k = None) by (apply not_elem_of_dom; set_solver).
      split; [done|]. intros l e i Hl. simpl in Hl. congruence.
  - destruct (set_choose_L (dom (pmap (pl_flat s)) ∖ vis)) as [k [Hk Hkv]%elem_of_difference].
    { intros Hnil. by apply Hsub, empty_difference_subseteq_L. } apply elem_of_dom in Hk as [l Hl].
    destruct s as [f c d]. simpl in *. set (s1 := mkPipe (with_cyc f (CProcess k l start vis)) c d).
    assert (Hpr1 : progress (mkPipe f c d) s1).
    { eapply progress_step; [by apply progress_refl|apply pl_flattener; [by eapply range_pick|done]|done..]. }
    destruct (finish_process s1 k l start vis) as (s2 & Hpr2 & Hc2 & Hm2 & Ho2); [apply Hpr1|done..|]. simpl in *.
    destruct (IH (size (dom (pmap (pl_flat s2)) ∖ ({[k]} ∪ vis)))) with (s := s2) (vis := {[k]} ∪ vis)
      as (s' & Hpr & Hc' & Hin & Hout); [|done|apply Hpr2|apply Hpr2|apply Hpr2|done|].
    { subst m. apply subset_size. rewrite Hm2, dom_delete_L. split; [set_solver|].
      intros Hbad. assert (Hkd : k ∈ dom (pmap f)) by by eapply elem_of_dom_2. set_solver. }
    pose proof (progress_trans _ _ _ Hpr1 Hpr2) as Hpr12.
    exists s'. split_and!; [by eapply progress_trans|done|..].
    + intros k' Hk'. rewrite Hin by set_solver. rewrite Hm2. apply lookup_delete_ne. set_solver.
    + intros k' Hk'. destruct (decide (k' = k)) as [->|Hne].
      * split; [rewrite Hin by set_solver; by rewrite Hm2, lookup_delete_eq|].
        apply (handed_over_later _ s2); [done|]. intros l' e i Hl' He Hi. simpl in *.
        assert (l' = l) as -> by congruence. by eapply Ho2.
      * destruct (Hout k') as [Hn1 Hh]; [set_solver|]. split; [done|].
        intros l' e i Hl' He Hi. eapply (Hh l' e i); [by rewrite Hm2, lookup_delete_ne|by rewrite (pr_entries _ _ Hpr12)|done].
Qed.

(** The entry at [l] of the key [k] is still to be read: the callback of [Range]
    is not on its way to delete the key without having read it there. *)
Definition unread (c : cycle_pc) (k : string) (l : nat) : Prop :=
  match c with
  | CProcess k' l' _ _ => k' = k -> l' = l
  | CSend k' _ _ _ _ | CDelete k' _ _ _ => k' <> k
  | _ => True
  end.

(** The item the callback is about to send. *)
Definition sending (c : cycle_pc) : option item :=
  match c with CSend _ _ i _ _ => Some i | _ => None end.

(** The cycle in progress runs to its end. *)
Lemma finish_cycle s :
  pl_alive s -> clo (pl_flat s) = NotClosing -> panicked (pl_flat s) = false ->
  exists s', progress s s' /\ cyc (pl_flat s') = CWait /\
    (forall i, sending (cyc (pl_flat s)) = Some i -> i ∈ accepted (pl_core s')) /\
    forall k l, pmap (pl_flat s) !! k = Some l -> unread (cyc (pl_flat s)) k l ->
      pmap (pl_flat s') !! k = pmap (pl_flat s) !! k \/ handed_over s s' k.
Proof.
  intros Hal Hcl Hp.
  assert (Hback : forall k start vis s1, progress s s1 -> cyc (pl_flat s1) = CRange start ({[k]} ∪ vis) ->
    pmap (pl_flat s1) = delete k (pmap (pl_flat s)) ->
    exists s', progress s1 s' /\ cyc (pl_flat s') = CWait /\ forall k', k <> k' ->
      pmap (pl_flat s') !! k' = pmap (pl_flat s) !! k' \/ handed_over s s' k').
  { intros k start vis s1 Hpr Hc1 Hm1.
    destruct (finish_range s1 start ({[k]} ∪ vis)) as (s' & Hpr' & Hc' & Hin & Hout); [apply Hpr|apply Hpr|apply Hpr|done|].
    exists s'. split_and!; [done..|]. intros k' Hk'.
    assert (Hd : pmap (pl_flat s1) !! k' = pmap (pl_flat s) !! k') by (rewrite Hm1; by apply lookup_delete_ne).
    destruct (decide (k' ∈ ({[k]} ∪ vis : gset string))) as [Hv|Hv]; [left; by rewrite Hin|right].
    intros l e i Hl He Hi. eapply (proj2 (Hout k' Hv) l e i); [congruence|by rewrite (pr_entries _ _ Hpr)|done]. }
  destruct (cyc (pl_flat s)) as [|start vis|k l start vis|k l i start vis|k l start vis|] eqn:Hc; simpl.
  - exists s. split_and!; [by apply progress_refl|done|done|by left].
  - destruct (finish_range s start vis Hal Hcl Hp Hc) as (s' & Hpr & Hc' & Hin & Hout).
    exists s'. split_and!; [done..|]. intros k l _ _. destruct (decide (k ∈ vis)); [left; by apply Hin|right; by apply Hout].
  - destruct (finish_process s k l start vis Hal Hcl Hp Hc) as (s1 & Hpr & Hc1 & Hm1 & Ho1).
    destruct (Hback k start vis s1 Hpr Hc1 Hm1) as (s' & Hpr' & Hc' & Hk). exists s'.
    split_and!; [by eapply progress_trans|done|done|]. intros k' l' Hl' Hu.
    destruct (decide (k = k')) as [->|Hne]; [right|by apply Hk].
    apply (handed_over_later _ s1); [done|]. intros l2 e i Hl2 He Hi.
    assert (l2 = l) as -> by (rewrite (Hu eq_refl); congruence). by eapply Ho1.
  - destruct (finish_send s k l i start vis Hal Hcl Hp Hc) as (s1 & Hpr & Hc1 & Hm1 & Hi).
    destruct (Hback k start vis s1 Hpr Hc1 Hm1) as (s' & Hpr' & Hc' & Hk). exists s'.
    split_and!; [by eapply progress_trans|done| |intros k' l' _; apply Hk].
    intros i' [= <-]. eapply elem_of_prefix; [exact Hi|apply Hpr'].
  - destruct (finish_delete s k l start vis Hal Hcl Hp Hc) as (s1 & Hpr & Hc1 & Hm1 & _).
    destruct (Hback k start vis s1 Hpr Hc1 Hm1) as (s' & Hpr' & Hc' & Hk). exists s'.
    split_and!; [by eapply progress_trans|done|done|intros k' l' _; apply Hk].
  - by destruct (pa_open _ Hal Hcl) as (_ & _ & ?).
Qed.

Lemma deliver_all s :
  pl_alive s -> clo (pl_flat s) = NotClosing -> panicked (pl_flat s) = false ->
  exists s', progress s s' /\ pmap (pl_flat s') = ∅ /\
    concat (batches (pl_core s')) = accepted (pl_core s') /\
    (forall i, sending (cyc (pl_flat s)) = Some i -> i ∈ accepted (pl_core s')) /\
    forall k l, pmap (pl_flat s) !! k = Some l -> unread (cyc (pl_flat s)) k l -> handed_over s s' k.
Proof.
  intros Hal Hcl Hp. destruct (finish_cycle s Hal Hcl Hp) as ([f c d] & Hpr1 & Hc1 & Hi1 & Hk1). simpl in *.
  destruct (pa_open _ (pr_alive _ _ Hpr1) (pr_clo _ _ Hpr1)) as (_ & Ht & _). simpl in Ht.
  set (s2 := mkPipe (with_cyc f (CRange (dom (pmap f)) ∅)) c d).
  assert (Hpr2 : progress s s2).
  { eapply progress_step; [exact Hpr1|apply pl_flattener; [by apply cycle_begin|done]|done|done|apply Hpr1|apply Hpr1|done]. }
  destruct (finish_range s2 (dom (pmap f)) ∅) as (s3 & Hpr3 & Hc3 & _ & Hout); [apply Hpr2|apply Hpr2|apply Hpr2|done|].
  destruct (make_room s3) as (s4 & Hpr4 & _ & Hm4 & Ha4 & Hb4 & _); [apply Hpr3|apply Hpr3|apply Hpr3|].
  assert (Hpr23 : progress s s3) by by eapply progress_trans.
  exists s4. split_and!; [by eapply progress_trans| |done|..].
  - rewrite Hm4. apply map_empty. intros k. by apply Hout.
  - intros i Hi. eapply elem_of_prefix; [by apply Hi1|]. etrans; [exact (pr_accepted _ _ Hpr3)|apply Hpr4].
  - intros k l0 Hl0 Hk. apply (handed_over_later _ s3); [done|].
    destruct (Hk1 k l0 Hl0 Hk) as [Heq|Hh].
    + intros l e i Hl He Hi. simpl in Heq.
      eapply (proj2 (Hout k ltac:(set_solver)) l e i); [simpl; congruence|simpl|done].
      pose proof (pr_entries _ _ Hpr1) as Hen. simpl in Hen. congruence.
    + eapply handed_over_later; [|exact Hh]. eapply progress_trans; [|exact Hpr3].
      eapply progress_step; [apply progress_refl|apply pl_flattener; [by apply cycle_begin|done]|done|done|..];
        try apply Hpr1; done.
Qed.
End delivery.

(** C9. While it is open the pipeline can always deliver what it holds.  From
    every reachable state in which nobody has called [Close] and nothing has
    panicked, whatever the goroutines are doing, there is a continuation without
    further calls after which the map is empty and everything that was accepted
    by the channel has been transferred, with the item the cycle was about to
    send.  Among the transferred items is, for every entry of the map that the
    cycle has not read yet, the transport's item for the aggregate of all the
    values it held, provided the operation is one of the package and the
    transport converts the point (the code logs and drops the others); the
    exception is the entry of a key that the cycle is about
    to delete after it has read an earlier state of it ([unread]). *)
Theorem pipeline_can_deliver {D : Digests} {T} {TT : Transport T} {TL : TransportLaws T} (tr : T) cfg n s :
  (0 < n)%nat -> pl_reachable tr cfg n s ->
  clo (pl_flat s) = NotClosing -> panicked (pl_flat s) = false ->
  exists s', rtc (pl_step tr cfg) s s' /\ added (pl_flat s') = added (pl_flat s) /\
    pmap (pl_flat s') = ∅ /\ accepted (pl_core s) `prefix_of` concat (batches (pl_core s')) /\
    (forall i, sending (cyc (pl_flat s)) = Some i -> i ∈ concat (batches (pl_core s'))) /\
    forall k l e v i, pmap (pl_flat s) !! k = Some l -> entries (pl_flat s) !! l = Some e ->
      unread (cyc (pl_flat s)) k l ->
      aggregate_values (operation (me_data e)) (me_values e) = Some v ->
      FlattenedPointToDataChannelItem tr (Timeline.mkPoint (me_data e) [] v) = Ok i ->
      i ∈ concat (batches (pl_core s')).
Proof.
  intros Hn Hr%pl_reachable_alive Hcl Hp.
  destruct (deliver_all tr cfg n Hn s Hr Hcl Hp) as (s' & Hpr & Hm & Hb & Hs & Hh).
  exists s'. rewrite Hb. split_and!; [apply Hpr..|done|apply Hpr|done|].
  intros k l e v i Hl He Hk Hv Hi. eapply Hh; try done.
  unfold processEntry. by rewrite flatten_aggregate, Hv, Hi.
Qed.

(** ** A run *)

Tactic Notation "prun" open_constr(s) := eapply rtc_l; [split; [reflexivity|eapply s]|].

Section demo.
Context `{D : Digests} {T : Type} `{TT : Transport T} (tr : T) (cfg : FlattenerConfig).
Context (k : string) (p : FlattenerPoint) (i : item).
Hypothesis Hk : point_key cfg p = Ok k.
Hypothesis Hi : processEntry tr (point_entry p) = Ok (Some i).

(** One [Add] has returned. *)
Definition stored (n : nat) : pipeline :=
  mkPipe (mkF [point_entry p] {[k := 0%nat]} [] CWait (make_chan n) 0 NotClosing false [point_value p] [])
    (core_init n) [].

Lemma stored_reachable n : pl_reachable tr cfg n (stored n).
Proof using Hk.
  unfold pl_reachable, pl_init, f_init.
  prun pl_flattener; [by apply (add_load tr cfg _ p k)|done|]. cbn. rewrite lookup_empty.
  prun pl_flattener; [by apply (add_store tr cfg _ [] [] k p)|done|]. cbn.
  rewrite insert_empty. apply rtc_refl.
Qed.

(** The entry and an item [x] of a [Send...] call, transferred in one batch. *)
Definition transferred (x : item) : pipeline :=
  mkPipe (mkF [point_entry p] ∅ [] CWait (make_chan 2) 0 NotClosing false [point_value p] [(0%nat, [point_value p])])
    (mkCore (make_chan 2) Waiting [i; x] [[i; x]] []) [x].

Lemma transferred_reachable x : pl_reachable tr cfg 2 (transferred x).
Proof using Hk Hi.
  unfold pl_reachable. etrans; [apply stored_reachable|]. unfold stored, core_init, make_chan.
  prun pl_flattener; [by apply cycle_begin|done|]. unfold with_cyc. cbn. rewrite dom_singleton_L.
  prun pl_flattener; [by eapply (range_pick tr cfg _ {[k]} ∅ k 0); [|set_solver|apply lookup_singleton_eq]|done|].
  prun pl_flattener; [by eapply (process_item tr cfg _ k 0 {[k]} ∅ (point_entry p) i)|done|]. cbn.
  prun pl_shared; [by eapply (send_ok tr cfg _ k 0 i {[k]} ∅)|by apply step_send|done|done|]. cbn.
  prun pl_flattener; [by eapply (range_delete tr cfg _ k 0 {[k]} ∅)|done|]. cbn. rewrite delete_singleton_eq.
  prun pl_flattener; [eapply (range_end tr cfg _ {[k]} ({[k]} ∪ ∅)); [done|set_solver]|done|]. unfold with_cyc. cbn.
  prun (pl_send _ _ _ _ _ x); [done|]. unfold set_fchan. cbn.
  prun pl_transport; [by apply step_timer|done|]. cbn.
  prun pl_shared; [by apply (transport_recv tr cfg _ i)|by eapply step_recv|done|done|]. cbn.
  prun pl_shared; [by apply (transport_recv tr cfg _ x)|by eapply step_recv|done|done|]. cbn.
  prun pl_transport; [by eapply (step_default _ [i; x])|done|]. cbn.
  prun pl_transport; [by eapply (step_transfer _ [i; x])|done|]. cbn. apply rtc_refl.
Qed.
End demo.

Definition demo_pipe_cfg : FlattenerConfig := mkFlattenerConfig 1 SHA256.
Definition demo_pipe_point : FlattenerPoint := demo_point "n" demo_pairs.
Definition demo_pipe_key : string := default "" (head (@keys_of toy_digests demo_pipe_cfg [demo_pipe_point])).
Definition demo_pipe_item : item := default (IOther VInvalid) (emitted demo_http (point_entry demo_pipe_point)).

Lemma pipeline_at_most_once_witness :
  exists log : list origin,
    Forall2 (origin_ok demo_http) log [demo_pipe_item; IJson (mkJson "m" [])] /\ NoDup (omap id log).*1 /\
    concat (me_values ∘ snd <$> omap id log) ⊆+ [point_value demo_pipe_point] /\
    direct_items log [demo_pipe_item; IJson (mkJson "m" [])] `prefix_of` [IJson (mkJson "m" [])].
Proof.
  apply (@pipeline_at_most_once toy_digests HTTPTransport _ demo_http demo_pipe_cfg 2
    (transferred demo_pipe_point demo_pipe_item (IJson (mkJson "m" [])))).
  apply (transferred_reachable demo_http demo_pipe_cfg demo_pipe_key); vm_compute; reflexivity.
Defined.

Lemma pipeline_can_deliver_witness :
  exists s', rtc (@pl_step toy_digests HTTPTransport _ demo_http demo_pipe_cfg)
      (stored demo_pipe_key demo_pipe_point 2) s' /\ demo_pipe_item ∈ concat (batches (pl_core s')).
Proof.
  destruct (@pipeline_can_deliver toy_digests HTTPTransport _ _ demo_http demo_pipe_cfg 2
    (stored demo_pipe_key demo_pipe_point 2)) as (s' & Hr & _ & _ & _ & _ & Hi);
    [lia|apply stored_reachable; vm_compute; reflexivity|reflexivity|reflexivity|].
  exists s'. split; [exact Hr|].
  eapply (Hi demo_pipe_key 0%nat (point_entry demo_pipe_point));
    [vm_compute; reflexivity|reflexivity|exact I|vm_compute; reflexivity|vm_compute; reflexivity].
Defined.
