(* ===== verification/Scheduler.v ===== *)
(** * Package [scheduler] ([scheduler/task.go], [scheduler/scheduler.go])

    Tasks are shared by pointer between the callers, the manager's map and the
    goroutine [Start] spawns: a task is a location of the store [tasks].  Here the
    operations of the manager are functions on the whole state, as a caller that
    is not interrupted sees them; [SchedulerConc] has their single steps, the
    goroutines and the passing of time. *)

From stdpp Require Import base gmap strings list relations.
From Stdlib Require Import ZArith Lia.
From S2P Require Import Prelude.

Local Open Scope Z_scope.

(** ** State *)

(** A [*Task]; [Job] names the job object. *)
Record Task : Type := mkTask { ID : string; Duration : Z; Job : nat; running : bool }.

Definition NewTask (id : string) (duration : Z) (job : nat) : Task := mkTask id duration job false.

(** Where a goroutine of [Start] is: before [time.After], waiting for it to fire at
    a time, before the test of [t.running], after it, inside [t.Job.Execute]. *)
Inductive loop_pc : Type :=
| Arming
| Sleeping (wake_at : Z)
| Testing
| Passed
| Executing.

Record loop : Type := mkLoop { loop_task : nat; loop_at : loop_pc }.

Record sched : Type := mkSched {
  tasks : list Task;
  taskMap : gmap string nat;
  loops : list loop;
  now : Z;
  executed : list nat;    (* the tasks whose [Job.Execute] was called, in order of the calls *)
}.

Definition set_tasks (s : sched) (ts : list Task) : sched :=
  mkSched ts (taskMap s) (loops s) (now s) (executed s).
Definition set_map (s : sched) (m : gmap string nat) : sched :=
  mkSched (tasks s) m (loops s) (now s) (executed s).

Definition New : sched := mkSched [] ∅ [] 0 [].

Definition set_running (b : bool) (t : Task) : Task := mkTask (ID t) (Duration t) (Job t) b.

(** [t.running], and the methods of [*Task] on the task at [l]. *)
Definition is_running (s : sched) (l : nat) : bool := from_option running false (tasks s !! l).

Definition set_flag (b : bool) (l : nat) (s : sched) : sched :=
  set_tasks s (alter (set_running b) l (tasks s)).

(** [go func() { ... }()] *)
Definition spawn_loop (l : nat) (s : sched) : sched :=
  mkSched (tasks s) (taskMap s) (loops s ++ [mkLoop l Arming]) (now s) (executed s).

(** The goroutine is spawned before the flag is set. *)
Definition Task_Start (s : sched) (l : nat) : sched :=
  if is_running s l then s else set_flag true l (spawn_loop l s).

Definition Task_Stop (s : sched) (l : nat) : sched := set_flag false l s.

(** ** The manager *)

Inductive sched_error : Type :=
| ErrTaskExists (id : string)
| ErrTaskAlreadyRunning (id : string)
| ErrNotRunningStop (id : string)
| ErrNoTaskStop (id : string)
| ErrRunningStart (id : string)
| ErrNoTaskStart (id : string).

Definition AddTask (s : sched) (l : nat) (autoStart : bool) : sched * option sched_error :=
  let id := from_option ID "" (tasks s !! l) in
  match taskMap s !! id with
  | Some _ => (s, Some (ErrTaskExists id))
  | None =>
      let s1 := set_map s (<[id := l]> (taskMap s)) in
      if autoStart then
        if is_running s1 l then (s1, Some (ErrTaskAlreadyRunning id))
        else (Task_Start s1 l, None)
      else (s1, None)
  end.

Definition Exists (s : sched) (id : string) : bool :=
  match taskMap s !! id with Some _ => true | None => false end.

Definition IsRunning (s : sched) (id : string) : bool :=
  match taskMap s !! id with Some l => is_running s l | None => false end.

Definition RemoveTask (s : sched) (id : string) : sched * bool :=
  match taskMap s !! id with
  | Some l => let s1 := Task_Stop s l in (set_map s1 (delete id (taskMap s1)), true)
  | None => (s, false)
  end.

(** [Range] calls back for each entry, in the order the map yields them. *)
Definition remove_entry (s : sched) (kv : string * nat) : sched :=
  let s1 := Task_Stop s kv.2 in set_map s1 (delete kv.1 (taskMap s1)).

Definition RemoveAllTasks (order : list (string * nat)) (s : sched) : sched :=
  foldl remove_entry s order.

Definition StopTask (s : sched) (id : string) : sched * option sched_error :=
  match taskMap s !! id with
  | Some l => if is_running s l then (Task_Stop s l, None) else (s, Some (ErrNotRunningStop id))
  | None => (s, Some (ErrNoTaskStop id))
  end.

Definition StartTask (s : sched) (id : string) : sched * option sched_error :=
  match taskMap s !! id with
  | Some l => if is_running s l then (s, Some (ErrRunningStart id)) else (Task_Start s l, None)
  | None => (s, Some (ErrNoTaskStart id))
  end.

Definition GetNumTasks (order : list (string * nat)) : Z :=
  foldl (fun length _ => length + 1) 0 order.

Definition GetTasksIDs (order : list (string * nat)) : list string :=
  foldl (fun acc kv => acc ++ [kv.1]) [] order.

Definition GetTasks (order : list (string * nat)) : list nat :=
  foldl (fun acc kv => acc ++ [kv.2]) [] order.

Definition GetTask (s : sched) (id : string) : option nat := taskMap s !! id.

(** ** Requests

    The manager's state-changing operations as data, to speak of sequences of
    them.  [ReqRemoveAll] carries the order in which [Range] yields the map. *)
Inductive request : Type :=
| ReqAdd (l : nat) (autoStart : bool)
| ReqRemove (id : string)
| ReqRemoveAll (order : list (string * nat))
| ReqStop (id : string)
| ReqStart (id : string).

Inductive reply : Type :=
| RError (e : option sched_error)
| RBool (b : bool)
| RDone.

Definition serve (s : sched) (r : request) : sched * reply :=
  match r with
  | ReqAdd l a => let '(s', e) := AddTask s l a in (s', RError e)
  | ReqRemove id => let '(s', b) := RemoveTask s id in (s', RBool b)
  | ReqRemoveAll order => (RemoveAllTasks order s, RDone)
  | ReqStop id => let '(s', e) := StopTask s id in (s', RError e)
  | ReqStart id => let '(s', e) := StartTask s id in (s', RError e)
  end.

(** The task passed to [AddTask] exists, and [Range] yields the map's entries. *)
Definition req_valid (s : sched) (r : request) : Prop :=
  match r with
  | ReqAdd l _ => (l < length (tasks s))%nat
  | ReqRemoveAll order => order ≡ₚ map_to_list (taskMap s)
  | _ => True
  end.

(** ** The abstract manager: task ids with a running flag *)

Inductive spec_request : Type :=
| SAdd (id : string) (started autoStart : bool)
| SRemove (id : string)
| SRemoveAll
| SStop (id : string)
| SStart (id : string).

Definition spec_serve (m : gmap string bool) (r : spec_request) : gmap string bool * reply :=
  match r with
  | SAdd id started auto =>
      match m !! id with
      | Some _ => (m, RError (Some (ErrTaskExists id)))
      | None => (<[id := started || auto]> m,
          RError (if started && auto then Some (ErrTaskAlreadyRunning id) else None))
      end
  | SRemove id => (delete id m, RBool (bool_decide (is_Some (m !! id))))
  | SRemoveAll => (∅, RDone)
  | SStop id =>
      match m !! id with
      | Some true => (<[id := false]> m, RError None)
      | Some false => (m, RError (Some (ErrNotRunningStop id)))
      | None => (m, RError (Some (ErrNoTaskStop id)))
      end
  | SStart id =>
      match m !! id with
      | Some false => (<[id := true]> m, RError None)
      | Some true => (m, RError (Some (ErrRunningStart id)))
      | None => (m, RError (Some (ErrNoTaskStart id)))
      end
  end.

Definition abs (s : sched) : gmap string bool := is_running s <$> taskMap s.

Definition abs_request (s : sched) (r : request) : spec_request :=
  match r with
  | ReqAdd l a => SAdd (from_option ID "" (tasks s !! l)) (is_running s l) a
  | ReqRemove id => SRemove id
  | ReqRemoveAll _ => SRemoveAll
  | ReqStop id => SStop id
  | ReqStart id => SStart id
  end.

(** Every map entry points to a task with that id, so to a task of its own. *)
Definition sched_wf (s : sched) : Prop :=
  forall id l, taskMap s !! id = Some l -> exists t, tasks s !! l = Some t /\ ID t = id.

Lemma sched_wf_inj s id id' l :
  sched_wf s -> taskMap s !! id = Some l -> taskMap s !! id' = Some l -> id = id'.
Proof. intros Hw (t & Ht & <-)%Hw (t' & Ht' & <-)%Hw. by simplify_eq. Qed.

Lemma alter_running_lookup b l (ts : list Task) l' t :
  alter (set_running b) l ts !! l' = Some t ->
  exists t', ts !! l' = Some t' /\ ID t = ID t' /\ Duration t = Duration t'.
Proof.
  destruct (decide (l = l')) as [<-|Hne].
  - rewrite list_lookup_alter_eq. destruct (ts !! l) as [t'|]; [|done].
    intros [= <-]. by exists t'.
  - rewrite list_lookup_alter_ne by done. eauto.
Qed.

Lemma sched_wf_alter b l s m :
  sched_wf s -> m ⊆ taskMap s ->
  forall lps n ex, sched_wf (mkSched (alter (set_running b) l (tasks s)) m lps n ex).
Proof.
  intros Hw Hm lps n ex id l' Hl'. simpl in *.
  destruct (Hw id l') as (t & Ht & Hid); [by eapply lookup_weaken|].
  destruct (decide (l = l')) as [<-|Hne].
  - rewrite list_lookup_alter_eq, Ht. eexists. split; [done|]. by simpl.
  - rewrite list_lookup_alter_ne by done. eauto.
Qed.

Lemma is_running_alter b l s m lps n ex l' :
  (l < length (tasks s))%nat ->
  is_running (mkSched (alter (set_running b) l (tasks s)) m lps n ex) l'
  = if decide (l' = l) then b else is_running s l'.
Proof.
  intros Hl. unfold is_running. simpl. destruct (decide (l' = l)) as [->|Hne].
  - rewrite list_lookup_alter_eq. by destruct (lookup_lt_is_Some_2 _ _ Hl) as [t ->].
  - by rewrite list_lookup_alter_ne by done.
Qed.

Lemma wf_lt s id l : sched_wf s -> taskMap s !! id = Some l -> (l < length (tasks s))%nat.
Proof. intros Hw (t & Ht & _)%Hw. by eapply lookup_lt_Some. Qed.

Lemma abs_alter b l id s lps n ex :
  sched_wf s -> taskMap s !! id = Some l ->
  abs (mkSched (alter (set_running b) l (tasks s)) (taskMap s) lps n ex) = <[id := b]> (abs s).
Proof.
  intros Hw Hid. unfold abs. apply map_eq. intros id'. simpl.
  rewrite lookup_insert, !lookup_fmap. case_decide as Heq.
  - subst. rewrite Hid. simpl. rewrite is_running_alter by by eapply wf_lt. by rewrite decide_True.
  - destruct (taskMap s !! id') as [l'|] eqn:Hl'; [|done]. simpl.
    rewrite is_running_alter by by eapply wf_lt. rewrite decide_False; [done|].
    intros ->. apply Heq. by eapply sched_wf_inj.
Qed.

Lemma remove_entry_wf s id l :
  sched_wf s -> taskMap s !! id = Some l ->
  sched_wf (remove_entry s (id, l)) /\ abs (remove_entry s (id, l)) = delete id (abs s) /\
  taskMap (remove_entry s (id, l)) = delete id (taskMap s).
Proof.
  intros Hw Hid. unfold remove_entry, Task_Stop, set_flag, set_tasks, set_map. simpl. split_and!; [|..|done].
  - by apply sched_wf_alter, delete_subseteq.
  - rewrite <- (delete_insert_eq (abs s) id false).
    rewrite <- (abs_alter false l id s (loops s) (now s) (executed s)) by done.
    unfold abs. simpl. by rewrite fmap_delete.
Qed.

Lemma RemoveAllTasks_wf order s :
  sched_wf s -> order ≡ₚ map_to_list (taskMap s) ->
  sched_wf (RemoveAllTasks order s) /\ taskMap (RemoveAllTasks order s) = ∅.
Proof.
  revert s. induction order as [|[id l] order IH]; intros s Hw Hp.
  - split; [done|]. apply Permutation_nil_l in Hp. by apply map_to_list_empty_iff.
  - assert (Hid : taskMap s !! id = Some l).
    { apply elem_of_map_to_list. rewrite <- Hp. apply elem_of_cons. by left. }
    destruct (remove_entry_wf s id l Hw Hid) as (Hw1 & _ & Hm1).
    simpl. apply IH; [done|]. rewrite Hm1.
    apply (Permutation_cons_inv (a := (id, l))). rewrite Hp.
    rewrite <- (insert_delete_id (taskMap s) id l) at 1 by done.
    by rewrite map_to_list_insert by apply lookup_delete_eq.
Qed.

Lemma abs_lookup s id : abs s !! id = is_running s <$> taskMap s !! id.
Proof. apply lookup_fmap. Qed.

Lemma abs_add s id l :
  sched_wf s -> tasks s !! l = Some id -> taskMap s !! ID id = None ->
  let s1 := set_map s (<[ID id := l]> (taskMap s)) in
  sched_wf s1 /\ abs s1 = <[ID id := is_running s l]> (abs s).
Proof.
  intros Hw Hl Hn. simpl. split.
  - intros id' l' Hl'. simpl in Hl'. apply lookup_insert_Some in Hl' as [[<- <-]|[_ H]]; [by exists id|by apply Hw].
  - unfold abs. simpl. by rewrite fmap_insert.
Qed.

Lemma AddTask_refines s l auto :
  sched_wf s -> (l < length (tasks s))%nat ->
  let '(s', r) := serve s (ReqAdd l auto) in
  sched_wf s' /\ spec_serve (abs s) (abs_request s (ReqAdd l auto)) = (abs s', r).
Proof.
  intros Hw Hl. simpl. unfold AddTask. destruct (lookup_lt_is_Some_2 _ _ Hl) as [t Ht].
  rewrite Ht. simpl. rewrite abs_lookup.
  destruct (taskMap s !! ID t) as [l0|] eqn:Hid; simpl; [done|].
  destruct (abs_add s t l Hw Ht Hid) as [Hw1 Ha1].
  change (is_running (set_map s (<[ID t:=l]> (taskMap s))) l) with (is_running s l).
  destruct auto; [|by rewrite Ha1, orb_false_r, andb_false_r].
  destruct (is_running s l) eqn:Hr; simpl; [by rewrite Ha1|].
  unfold Task_Start, set_flag, spawn_loop, set_tasks. change (is_running (set_map s (<[ID t:=l]> (taskMap s))) l) with (is_running s l).
  rewrite Hr. split; [by apply (sched_wf_alter true l _ _ Hw1)|].
  rewrite (abs_alter true l (ID t) _ _ _ _ Hw1) by apply lookup_insert_eq.
  by rewrite Ha1, insert_insert_eq.
Qed.

Lemma serve_refines s r :
  sched_wf s -> req_valid s r ->
  let '(s', out) := serve s r in
  sched_wf s' /\ spec_serve (abs s) (abs_request s r) = (abs s', out).
Proof.
  intros Hw Hv. destruct r as [l auto|id|order|id|id].
  - by apply AddTask_refines.
  - simpl. unfold RemoveTask. rewrite abs_lookup.
    destruct (taskMap s !! id) as [l|] eqn:Hid; simpl.
    + destruct (remove_entry_wf s id l Hw Hid) as (Hw1 & Ha1 & _). by rewrite <- Ha1.
    + split; [done|]. rewrite delete_id; [done|]. by rewrite abs_lookup, Hid.
  - simpl in *. destruct (RemoveAllTasks_wf order s Hw Hv) as [Hw1 Hm1]. split; [done|].
    unfold abs. by rewrite Hm1.
  - simpl. unfold StopTask, Task_Stop, set_flag, set_tasks. rewrite abs_lookup.
    destruct (taskMap s !! id) as [l|] eqn:Hid; simpl; [|done].
    destruct (is_running s l) eqn:Hr; [|done].
    split; [by apply sched_wf_alter|by rewrite (abs_alter false l id)].
  - simpl. unfold StartTask, Task_Start, set_flag, spawn_loop, set_tasks. rewrite abs_lookup.
    destruct (taskMap s !! id) as [l|] eqn:Hid; cbn; [|done].
    destruct (is_running s l) eqn:Hr; [done|].
    split; [by apply sched_wf_alter|by rewrite (abs_alter true l id)].
Qed.

(** C6. The manager implements the abstract one.  From a state whose map
    entries point to tasks with that id, every operation ([AddTask],
    [RemoveTask], [RemoveAllTasks] in any iteration order, [StopTask],
    [StartTask]) keeps that invariant and changes the ids and running flags, and
    answers, exactly as the specification says on every branch; in particular
    [AddTask] with [autoStart] of a task that is already running reports an
    error and still registers it. *)
Theorem manager_refines s r :
  sched_wf s -> req_valid s r ->
  let '(s', out) := serve s r in
  sched_wf s' /\ spec_serve (abs s) (abs_request s r) = (abs s', out).
Proof. exact (serve_refines s r). Qed.

Definition demo_sched : sched := set_tasks New [NewTask "a" 100 0; mkTask "b" 50 1 true].

Lemma manager_refines_witness :
  spec_serve (abs demo_sched) (abs_request demo_sched (ReqAdd 1 true))
  = ({["b" := true]}, RError (Some (ErrTaskAlreadyRunning "b"))).
Proof.
  pose proof (manager_refines demo_sched (ReqAdd 1 true)) as H.
  destruct H as [_ ->]; [by intros id l H|simpl; lia|reflexivity].
Defined.

(** ** Queries *)

Lemma GetNumTasks_length order : GetNumTasks order = Z.of_nat (length order).
Proof.
  unfold GetNumTasks. rewrite <- (Z.add_0_l (Z.of_nat _)). generalize 0.
  induction order as [|x order IH]; intros n; simpl; [lia|]. rewrite IH. lia.
Qed.

(** The queries agree with the abstract state: [IsRunning], [Exists] and
    [GetTask] look one id up, [GetTasksIDs] lists each id once, whatever order
    the map is ranged in, and [GetNumTasks] counts them. *)
Theorem queries_agree s order :
  order ≡ₚ map_to_list (taskMap s) ->
  (forall id, IsRunning s id = default false (abs s !! id)) /\
  (forall id, Exists s id = bool_decide (id ∈ dom (abs s))) /\
  (forall id l, GetTask s id = Some l -> l ∈ GetTasks order) /\
  NoDup (GetTasksIDs order) /\ (forall id, id ∈ GetTasksIDs order <-> Exists s id = true) /\
  GetNumTasks order = Z.of_nat (size (abs s)).
Proof.
  intros Hp. unfold GetTasksIDs, GetTasks. rewrite !foldl_snoc. simpl.
  assert (Hex : forall id, Exists s id = bool_decide (id ∈ dom (abs s))).
  { intros id. unfold Exists, abs. rewrite dom_fmap_L. symmetry.
    destruct (taskMap s !! id) as [l|] eqn:E.
    - apply bool_decide_eq_true_2, elem_of_dom. by exists l.
    - by apply bool_decide_eq_false_2, not_elem_of_dom. }
  split_and!; [|done|..].
  - intros id. unfold IsRunning. rewrite abs_lookup. by destruct (taskMap s !! id).
  - intros id l Hg. unfold GetTask in Hg. rewrite Hp.
    by apply elem_of_map_to_list, (list_elem_of_fmap_2 snd) in Hg.
  - rewrite Hp. apply NoDup_fst_map_to_list.
  - intros id. rewrite Hex, bool_decide_eq_true, Hp. unfold abs. rewrite dom_fmap, elem_of_dom, list_elem_of_fmap.
    split.
    + intros ([id' l] & -> & H%elem_of_map_to_list). by exists l.
    + intros [l H%elem_of_map_to_list]. by exists (id, l).
  - rewrite GetNumTasks_length, Hp. unfold abs. by rewrite map_size_fmap, length_map_to_list.
Qed.

Lemma queries_agree_witness :
  let s := fst (serve demo_sched (ReqAdd 0 true)) in
  IsRunning s "a" = true /\ GetNumTasks (map_to_list (taskMap s)) = 1.
Proof.
  intros s. destruct (queries_agree s (map_to_list (taskMap s))) as (Hr & _ & _ & _ & _ & Hn);
    [reflexivity|]. rewrite Hr, Hn. split; vm_compute; reflexivity.
Defined.
