(* ===== verification/SchedulerConc.v ===== *)
(** * Package [scheduler]: single steps and goroutines

    The callers of the manager and the goroutines that [Task.Start] spawns, step
    by step: a caller moves between the loads, stores and deletes of the
    [sync.Map] and the reads and writes of [Task.running]; a goroutine between
    its timer, its test of the flag and the beginning and end of the job, which
    takes any time.  The single steps of a caller that is alone are the
    operation of [Scheduler]. *)

From stdpp Require Import base gmap strings list relations.
From Stdlib Require Import ZArith Lia.
From S2P Require Import Prelude Scheduler.

Local Open Scope Z_scope.

#[export] Instance loop_pc_eq_dec : EqDecision loop_pc.
Proof. solve_decision. Defined.
#[export] Instance loop_eq_dec : EqDecision loop.
Proof. solve_decision. Defined.

(** ** The callers *)

(** Where a caller is, operation by operation: [AddTask], [RemoveTask],
    [RemoveAllTasks] (with the keys that were there when [Range] began and those
    visited), [StopTask], [StartTask], [Task.Start], which some of them call,
    and [Task.Stop]. *)
Inductive caller : Type :=
| AddLoad (l : nat) (autoStart : bool)
| AddStore (l : nat) (autoStart : bool)
| AddTest (l : nat)
| RemoveLoad (id : string)
| RemoveStop (id : string) (l : nat)
| RemoveDelete (id : string)
| RangeBegin
| RangeNext (start visited : gset string)
| RangeStop (id : string) (l : nat) (start visited : gset string)
| RangeDelete (id : string) (start visited : gset string)
| StopLoad (id : string)
| StopTest (id : string) (l : nat)
| StopClear (l : nat) (r : reply)
| BeginLoad (id : string)
| BeginTest (id : string) (l : nat)
| StartTest (l : nat) (r : reply)       (* if t.running { return } *)
| StartSpawn (l : nat) (r : reply)      (* go func() { ... }() *)
| StartSet (l : nat) (r : reply)        (* t.running = true *)
| Returned (r : reply).

(** One step; [choice] is the entry that [Range] goes to, or its end. *)
Definition caller_step (choice : option string) (c : caller) (s : sched) : option (sched * caller) :=
  let id_of l := from_option ID "" (tasks s !! l) in
  match c with
  | AddLoad l auto =>
      Some (s, match taskMap s !! id_of l with
               | Some _ => Returned (RError (Some (ErrTaskExists (id_of l))))
               | None => AddStore l auto
               end)
  | AddStore l auto =>
      Some (set_map s (<[id_of l := l]> (taskMap s)), if auto then AddTest l else Returned (RError None))
  | AddTest l =>
      Some (s, if is_running s l then Returned (RError (Some (ErrTaskAlreadyRunning (id_of l))))
               else StartTest l (RError None))
  | RemoveLoad id =>
      Some (s, match taskMap s !! id with Some l => RemoveStop id l | None => Returned (RBool false) end)
  | RemoveStop id l => Some (Task_Stop s l, RemoveDelete id)
  | RemoveDelete id => Some (set_map s (delete id (taskMap s)), Returned (RBool true))
  | RangeBegin => Some (s, RangeNext (dom (taskMap s)) ∅)
  | RangeNext start visited =>
      match choice with
      | Some id =>
          match taskMap s !! id with
          | Some l => if bool_decide (id ∈ visited) then None else Some (s, RangeStop id l start visited)
          | None => None
          end
      | None => if bool_decide (start ∩ dom (taskMap s) ⊆ visited) then Some (s, Returned RDone) else None
      end
  | RangeStop id l start visited => Some (Task_Stop s l, RangeDelete id start visited)
  | RangeDelete id start visited =>
      Some (set_map s (delete id (taskMap s)), RangeNext start ({[id]} ∪ visited))
  | StopLoad id =>
      Some (s, match taskMap s !! id with
               | Some l => StopTest id l
               | None => Returned (RError (Some (ErrNoTaskStop id)))
               end)
  | StopTest id l =>
      Some (s, if is_running s l then StopClear l (RError None) else Returned (RError (Some (ErrNotRunningStop id))))
  | StopClear l r => Some (Task_Stop s l, Returned r)
  | BeginLoad id =>
      Some (s, match taskMap s !! id with
               | Some l => BeginTest id l
               | None => Returned (RError (Some (ErrNoTaskStart id)))
               end)
  | BeginTest id l =>
      Some (s, if is_running s l then Returned (RError (Some (ErrRunningStart id))) else StartTest l (RError None))
  | StartTest l r => Some (s, if is_running s l then Returned r else StartSpawn l r)
  | StartSpawn l r => Some (spawn_loop l s, StartSet l r)
  | StartSet l r => Some (set_flag true l s, Returned r)
  | Returned _ => None
  end.

(** The calls from outside: the requests of the manager and the methods of a
    task. *)
Inductive operation : Type :=
| OpRequest (r : request)
| OpStart (l : nat)
| OpStop (l : nat).

Definition begin (o : operation) : caller :=
  match o with
  | OpRequest (ReqAdd l auto) => AddLoad l auto
  | OpRequest (ReqRemove id) => RemoveLoad id
  | OpRequest (ReqRemoveAll _) => RangeBegin
  | OpRequest (ReqStop id) => StopLoad id
  | OpRequest (ReqStart id) => BeginLoad id
  | OpStart l => StartTest l RDone
  | OpStop l => StopClear l RDone
  end.

(** ** The goroutines *)

Definition dur (s : sched) (l : nat) : Z := from_option Duration 0 (tasks s !! l).

Definition put_loop (i : nat) (lp : loop) (out : list nat) (s : sched) : sched :=
  mkSched (tasks s) (taskMap s) (<[i := lp]> (loops s)) (now s) (executed s ++ out).

(** A step of the loop at position [i]. *)
Definition loop_move (i : nat) (s : sched) : option sched :=
  match loops s !! i with
  | None => None
  | Some (mkLoop l Arming) => Some (put_loop i (mkLoop l (Sleeping (now s + dur s l))) [] s)
  | Some (mkLoop l (Sleeping w)) => if now s <? w then None else Some (put_loop i (mkLoop l Testing) [] s)
  | Some (mkLoop l Testing) =>
      Some (if is_running s l then put_loop i (mkLoop l Passed) [] s
            else mkSched (tasks s) (taskMap s) (delete i (loops s)) (now s) (executed s))
  | Some (mkLoop l Passed) => Some (put_loop i (mkLoop l Executing) [l] s)
  | Some (mkLoop l Executing) => Some (put_loop i (mkLoop l Arming) [] s)
  end.

Definition tick (s : sched) (d : Z) : sched :=
  mkSched (tasks s) (taskMap s) (loops s) (now s + d) (executed s).

(** ** The system *)

Record system : Type := mkSys { sy_sched : sched; sy_callers : list caller }.

Inductive action : Type :=
| ATick (d : Z)
| ANew (id : string) (d : Z) (j : nat)
| ACall (o : operation)
| ACaller (i : nat) (choice : option string)
| ALoop (i : nat).

Definition on_sched (f : sched -> option sched) (s : system) : option system :=
  (fun x => mkSys x (sy_callers s)) <$> f (sy_sched s).

Definition act (a : action) (s : system) : option system :=
  match a with
  | ATick d => if d <? 0 then None else on_sched (fun x => Some (tick x d)) s
  | ANew id d j => on_sched (fun x => Some (set_tasks x (tasks x ++ [NewTask id d j]))) s
  | ACall o => Some (mkSys (sy_sched s) (sy_callers s ++ [begin o]))
  | ACaller i choice =>
      c ← sy_callers s !! i;
      '(x, c') ← caller_step choice c (sy_sched s);
      Some (mkSys x (<[i := c']> (sy_callers s)))
  | ALoop i => on_sched (loop_move i) s
  end.

Definition sys_step (s s' : system) : Prop := exists a, act a s = Some s'.

Definition sys_init : system := mkSys New [].

Definition reachable (s : system) : Prop := rtc sys_step sys_init s.

(** Only time passes and goroutines move. *)
Definition is_env (a : action) : bool := match a with ATick _ | ALoop _ => true | _ => false end.
Definition env_step (s s' : system) : Prop := exists a, is_env a = true /\ act a s = Some s'.

Lemma env_sys s s' : env_step s s' -> sys_step s s'.
Proof. intros (a & _ & H). by exists a. Qed.

Lemma env_tick s d : 0 <= d -> env_step s (mkSys (tick (sy_sched s) d) (sy_callers s)).
Proof. intros Hd. exists (ATick d). split; [done|]. simpl. by destruct (Z.ltb_spec d 0); [lia|]. Qed.

Lemma env_loop s i x : loop_move i (sy_sched s) = Some x -> env_step s (mkSys x (sy_callers s)).
Proof. intros H. exists (ALoop i). split; [done|]. simpl. unfold on_sched. by rewrite H. Qed.

(** ** A caller alone: the operations of [Scheduler] *)

(** The actions of a caller alone, [n] steps or the [Range] over the entries. *)
Definition solo (i n : nat) : list action := replicate n (ACaller i None).

Definition range_moves (i : nat) (order : list (string * nat)) : list action :=
  concat ((fun kv => [ACaller i (Some kv.1); ACaller i None; ACaller i None]) <$> order) ++ [ACaller i None].

(** A script for each request. *)
Definition script (i : nat) (s : sched) (r : request) : list action :=
  match r with
  | ReqAdd l auto =>
      match taskMap s !! from_option ID "" (tasks s !! l) with
      | Some _ => solo i 1
      | None => if auto then (if is_running s l then solo i 3 else solo i 6) else solo i 2
      end
  | ReqRemove id => match taskMap s !! id with Some _ => solo i 3 | None => solo i 1 end
  | ReqRemoveAll order => ACaller i None :: range_moves i order
  | ReqStop id =>
      match taskMap s !! id with Some l => if is_running s l then solo i 3 else solo i 2 | None => solo i 1 end
  | ReqStart id =>
      match taskMap s !! id with Some l => if is_running s l then solo i 2 else solo i 5 | None => solo i 1 end
  end.

Lemma act_caller i choice c c' x x' cs :
  cs !! i = Some c -> caller_step choice c x = Some (x', c') ->
  act (ACaller i choice) (mkSys x cs) = Some (mkSys x' (<[i := c']> cs)).
Proof. intros Hc Hs. simpl. rewrite Hc. simpl. by rewrite Hs. Qed.

Lemma run_caller i choice c c' x x' cs l s' :
  cs !! i = Some c -> caller_step choice c x = Some (x', c') ->
  run_acts act l (mkSys x' (<[i := c']> cs)) = Some s' ->
  run_acts act (ACaller i choice :: l) (mkSys x cs) = Some s'.
Proof. intros Hc Hs Hr. cbn [run_acts]. rewrite (act_caller _ _ _ _ _ _ _ Hc Hs). exact Hr. Qed.

(** One step of the caller at [i] of a script. *)
Ltac caller :=
  eapply run_caller; [first [eassumption|apply list_lookup_insert_eq; rewrite ?length_insert; eassumption]
                     |cbn [caller_step]; reflexivity|rewrite ?list_insert_insert_eq].

Lemma range_solo i order x vis start cs :
  (i < length cs)%nat -> NoDup order.*1 -> (forall id l, (id, l) ∈ order -> taskMap x !! id = Some l /\ id ∉ vis) ->
  (forall id, id ∈ dom (taskMap x) -> id ∈ order.*1) -> 
  run_acts act (range_moves i order) (mkSys x (<[i := RangeNext start vis]> cs)) =
  Some (mkSys (RemoveAllTasks order x) (<[i := Returned RDone]> cs)).
Proof.
  intros Hi. revert x vis. induction order as [|[id l] order IH]; intros x vis Hnd Hin Hall.
  - eapply run_caller; [by apply list_lookup_insert_eq| |rewrite list_insert_insert_eq; reflexivity].
    cbn [caller_step]. rewrite bool_decide_true; [done|]. intros id [_ Hid%Hall]%elem_of_intersection.
    by apply elem_of_nil in Hid.
  - apply NoDup_cons in Hnd as [Hid Hnd]. destruct (Hin id l) as [Hl Hv]; [by apply elem_of_cons; left|].
    unfold range_moves. cbn [fmap list_fmap concat app fst].
    eapply run_caller; [by apply list_lookup_insert_eq|cbn [caller_step]; rewrite Hl, bool_decide_false by done; reflexivity|].
    rewrite list_insert_insert_eq. caller. caller. apply IH; [done| |].
    + intros id' l' Hin'. assert (Hne : id' <> id).
      { intros ->. apply Hid. by apply (list_elem_of_fmap_2 fst) in Hin'. }
      destruct (Hin id' l') as [Hl' Hv']; [by apply elem_of_cons; right|]. simpl.
      split; [by rewrite lookup_delete_ne|set_solver].
    + intros id' Hid'. simpl in Hid'. rewrite dom_delete_L in Hid'. apply elem_of_difference in Hid' as [Hd Hne].
      apply Hall, elem_of_cons in Hd as [->|?]; [set_solver|done].
Qed.

(** The single steps implement the operations: a caller of the manager that is
    not interrupted returns with the state and the answer of [serve]. *)
Theorem solo_serves i x cs r :
  (i < length cs)%nat -> sched_wf x -> req_valid x r ->
  run_acts act (script i x r) (mkSys x (<[i := begin (OpRequest r)]> cs)) =
  Some (mkSys (serve x r).1 (<[i := Returned (serve x r).2]> cs)).
Proof.
  intros Hi Hw Hv. destruct r as [l auto|id|order|id|id]; cbn [script begin serve].
  - unfold AddTask. destruct (taskMap x !! from_option ID "" (tasks x !! l)) as [l0|] eqn:Hm.
    { caller. by rewrite Hm. }
    unfold Task_Start. destruct auto; [|caller; rewrite Hm; by caller].
    change (is_running (set_map x _) l) with (is_running x l).
    destruct (is_running x l) eqn:Hr.
    + caller. rewrite Hm. caller. caller. change (is_running (set_map x _) l) with (is_running x l). by rewrite Hr.
    + caller. rewrite Hm. caller. caller. change (is_running (set_map x _) l) with (is_running x l). rewrite Hr.
      caller. change (is_running (set_map x _) l) with (is_running x l). rewrite Hr. caller. by caller.
  - unfold RemoveTask. destruct (taskMap x !! id) as [l|] eqn:Hm; caller; rewrite Hm; [|done]. caller. by caller.
  - caller. apply range_solo; [done|..].
    + rewrite Hv. apply NoDup_fst_map_to_list.
    + intros id l Hin. rewrite Hv in Hin. apply elem_of_map_to_list in Hin. split; [done|set_solver].
    + intros id [l Hl]%elem_of_dom. rewrite Hv. apply (list_elem_of_fmap_2 fst _ (id, l)). by apply elem_of_map_to_list.
  - unfold StopTask. destruct (taskMap x !! id) as [l|] eqn:Hm; [|caller; by rewrite Hm].
    destruct (is_running x l) eqn:Hr; caller; rewrite Hm; caller; rewrite Hr; [by caller|done].
  - unfold StartTask, Task_Start. destruct (taskMap x !! id) as [l|] eqn:Hm; [|caller; by rewrite Hm].
    destruct (is_running x l) eqn:Hr; caller; rewrite Hm; caller; rewrite Hr; [done|].
    caller. rewrite Hr. caller. by caller.
Qed.

(** ** What callers and goroutines keep *)

Definition is_loop (l : nat) (lp : loop) : Prop := loop_task lp = l.
#[export] Instance is_loop_dec l lp : Decision (is_loop l lp) := decide (loop_task lp = l).

(** A goroutine of task [l] that has found the flag set and is about to execute. *)
Definition past_test (l : nat) (lp : loop) : Prop := lp = mkLoop l Passed.
#[export] Instance past_test_dec l lp : Decision (past_test l lp).
Proof. unfold past_test. destruct lp as [l' pc]. destruct (decide (l' = l)), (decide (pc = Passed)); (left; congruence) || (right; congruence). Defined.

Definition has_loop (s : system) (l : nat) : Prop := exists lp, lp ∈ loops (sy_sched s) /\ is_loop l lp.

(** A caller is between [go] and the assignment of the flag. *)
Definition starting (s : system) (l : nat) : Prop := exists r, StartSet l r ∈ sy_callers s.

(** A goroutine is slow enough to see the flag that its [Start] sets. *)
Definition timely (a : action) (s : system) : Prop :=
  match a with
  | ALoop i => forall l, loops (sy_sched s) !! i = Some (mkLoop l Testing) -> ~ starting s l
  | _ => True
  end.

Definition timely_step (s s' : system) : Prop := exists a, timely a s /\ act a s = Some s'.

Record attended (s : system) : Prop := {
  att_running : forall l, is_running (sy_sched s) l = true -> has_loop s l;
  att_starting : forall l, starting s l -> has_loop s l;
  att_sleeping : forall l w, mkLoop l (Sleeping w) ∈ loops (sy_sched s) ->
    w <= now (sy_sched s) + Z.max 0 (dur (sy_sched s) l);
}.

(** What a caller's step does to the state the goroutines see. *)
Lemma caller_step_effect choice c s s' c' :
  caller_step choice c s = Some (s', c') ->
  now s' = now s /\ executed s' = executed s /\ (forall l, dur s' l = dur s l) /\
  ((loops s' = loops s /\ (forall l r, c' <> StartSet l r) /\
    (forall l, is_running s' l = true -> is_running s l = true \/ exists r, c = StartSet l r)) \/
   (exists l r, c' = StartSet l r /\ s' = spawn_loop l s)).
Proof.
  assert (Hd : forall b l0 l lps m, dur (mkSched (alter (set_running b) l0 (tasks s)) m lps (now s) (executed s)) l = dur s l).
  { intros b l0 l lps m. unfold dur. simpl. destruct (decide (l0 = l)) as [<-|Hne].
    - rewrite list_lookup_alter_eq. by destruct (tasks s !! l0).
    - by rewrite list_lookup_alter_ne. }
  assert (Hf : forall l0 l, is_running (Task_Stop s l0) l = true -> is_running s l = true).
  { intros l0 l. unfold is_running. simpl. destruct (decide (l0 = l)) as [<-|Hne].
    - rewrite list_lookup_alter_eq. by destruct (tasks s !! l0).
    - by rewrite list_lookup_alter_ne. }
  assert (Hg : forall l0 l, is_running (set_flag true l0 s) l = true -> is_running s l = true \/ l0 = l).
  { intros l0 l. unfold is_running. simpl. destruct (decide (l0 = l)) as [<-|Hne]; [by right|].
    rewrite list_lookup_alter_ne by done. by left. }
  intros H. destruct c; cbn [caller_step] in H; repeat case_match; simplify_eq; split_and!; try done;
    try (by intros; apply Hd); try (by right; eauto);
    (left; split; [done|split; [by intros ?? ?|]]; intros l1 Hl1; eauto).
  destruct (Hg _ _ Hl1) as [?| ->]; eauto.
Qed.

(** A step of a loop keeps the task, or ends the loop of a task that does not run. *)
Lemma loop_move_cases i s s' :
  loop_move i s = Some s' ->
  tasks s' = tasks s /\ taskMap s' = taskMap s /\ now s' = now s /\
  exists l pc, loops s !! i = Some (mkLoop l pc) /\
    ((exists pc', loops s' = <[i := mkLoop l pc']> (loops s) /\
        executed s' = executed s ++ (if decide (pc = Passed) then [l] else []) /\
        (pc' = Passed -> pc = Testing /\ is_running s l = true) /\
        (forall w, pc' = Sleeping w -> w = now s + dur s l)) \/
     (pc = Testing /\ is_running s l = false /\ loops s' = delete i (loops s) /\ executed s' = executed s)).
Proof.
  unfold loop_move. destruct (loops s !! i) as [[l pc]|] eqn:E; [|done].
  destruct pc; intros H; repeat case_match; simplify_eq; simpl; (split_and!; [done..|]); exists l; eexists;
    (split; [done|]); try (left; eexists; split_and!; [done|by rewrite ?app_nil_r|done|]; by intros ? [=]).
  by right.
Qed.

Lemma has_loop_change (s : system) x cs i lp pc' l :
  loops (sy_sched s) !! i = Some lp -> loops x = <[i := mkLoop (loop_task lp) pc']> (loops (sy_sched s)) ->
  has_loop s l -> has_loop (mkSys x cs) l.
Proof.
  intros Hi Hx (lp' & Hin & Hl). destruct (decide (lp' = lp)) as [->|Hne].
  - exists (mkLoop (loop_task lp) pc'). simpl. rewrite Hx. split; [|exact Hl].
    apply list_elem_of_insert; by eapply lookup_lt_Some.
  - exists lp'. simpl. rewrite Hx. split; [by eapply elem_insert_ne|done].
Qed.

Lemma loop_move_attended i s x :
  timely (ALoop i) s -> loop_move i (sy_sched s) = Some x -> attended s -> attended (mkSys x (sy_callers s)).
Proof.
  intros Ht (Htasks & _ & Hnow & l & pc & Hi & Hc)%loop_move_cases [Hr Hs Hw].
  assert (Hrun : forall k, is_running x k = is_running (sy_sched s) k) by (intros k; unfold is_running; by rewrite Htasks).
  assert (Hdur : forall k, dur x k = dur (sy_sched s) k) by (intros k; unfold dur; by rewrite Htasks).
  destruct Hc as [(pc' & Hx & _ & _ & Hpc)|(-> & Hf & Hx & _)].
  - split; simpl.
    + intros k Hk. rewrite Hrun in Hk. by eapply (has_loop_change _ _ _ _ _ _ k Hi Hx), Hr.
    + intros k Hk. by eapply (has_loop_change _ _ _ _ _ _ k Hi Hx), Hs.
    + intros k w Hin. rewrite Hx, Hnow, Hdur in *. apply elem_insert in Hin as [[= -> Heq]|Hin]; [|by apply Hw].
      rewrite (Hpc w) by done. lia.
  - assert (Hkeep : forall k, k <> l -> has_loop s k -> has_loop (mkSys x (sy_callers s)) k).
    { intros k Hk (lp & Hin & Hl). exists lp. simpl. rewrite Hx. split; [|done].
      eapply elem_delete; [done..|]. by intros ->. }
    split; simpl.
    + intros k Hk. rewrite Hrun in Hk. apply Hkeep; [congruence|by apply Hr].
    + intros k Hk. apply Hkeep; [|by apply Hs]. intros ->. by apply (Ht l).
    + intros k w Hin. rewrite Hx, Hnow, Hdur in *. apply list_elem_of_delete_inv in Hin. by apply Hw.
Qed.

Lemma caller_attended i choice c x c' s :
  sy_callers s !! i = Some c -> caller_step choice c (sy_sched s) = Some (x, c') ->
  attended s -> attended (mkSys x (<[i := c']> (sy_callers s))).
Proof.
  intros Hi Hst [Hr Hs Hw]. destruct (caller_step_effect _ _ _ _ _ Hst) as (Hnow & _ & Hdur & [(Hl & Hn & Hrun)|(l & r & -> & ->)]).
  - assert (Hkeep : forall k, has_loop s k -> has_loop (mkSys x (<[i := c']> (sy_callers s))) k).
    { intros k (lp & Hin & ?). exists lp. simpl. by rewrite Hl. }
    split; simpl.
    + intros k Hk. apply Hkeep. destruct (Hrun k Hk) as [?|[r ->]]; [by apply Hr|].
      apply Hs. exists r. by eapply list_elem_of_lookup_2.
    + intros k [r Hk]. apply Hkeep, Hs. exists r. apply elem_insert in Hk as [Hk|?]; [|done]. by destruct (Hn k r).
    + intros k w Hin. rewrite Hl in Hin. rewrite Hnow, Hdur. by apply Hw.
  - assert (Hkeep : forall k, has_loop s k -> has_loop (mkSys (spawn_loop l (sy_sched s)) (<[i := StartSet l r]> (sy_callers s))) k).
    { intros k (lp & Hin & ?). exists lp. simpl. split; [|done]. apply elem_of_app. by left. }
    split; simpl.
    + intros k Hk. by apply Hkeep, Hr.
    + intros k [r' Hk]. apply elem_insert in Hk as [[= -> ->]|Hk].
      * exists (mkLoop l Arming). simpl. split; [|done]. apply elem_of_app. right. by apply list_elem_of_singleton.
      * apply Hkeep, Hs. by exists r'.
    + intros k w [Hin|Hin%list_elem_of_singleton]%elem_of_app; [by apply Hw|done].
Qed.

Lemma timely_attended s s' : timely_step s s' -> attended s -> attended s'.
Proof.
  intros (a & Ht & Ha) Hat. destruct a as [d|id d j|o|i choice|i]; simpl in Ha.
  - destruct (Z.ltb_spec d 0); [done|]. injection Ha as <-. destruct Hat as [Hr Hs Hw]. split; [done..|].
    intros l w Hin. specialize (Hw l w Hin). simpl. unfold dur in *. simpl. lia.
  - injection Ha as <-. destruct Hat as [Hr Hs Hw]. split; simpl; [|done|].
    + intros l Hl. apply Hr. unfold is_running in *. simpl in Hl.
      destruct ((tasks (sy_sched s) ++ [NewTask id d j]) !! l) as [t|] eqn:E; [|done].
      apply lookup_app_Some in E as [->|[_ E]]; [done|]. apply list_lookup_singleton_Some in E as [_ <-]. done.
    + intros l w Hin. specialize (Hw l w Hin). unfold dur in *. simpl.
      destruct (tasks (sy_sched s) !! l) as [t|] eqn:E; [by rewrite (lookup_app_l_Some _ _ _ _ E)|simpl in Hw; lia].
  - injection Ha as <-. destruct Hat as [Hr Hs Hw]. split; simpl; [done| |done].
    intros l [r Hin]. apply Hs. exists r. apply elem_of_app in Hin as [?|Hin%list_elem_of_singleton]; [done|].
    by destruct o as [[]| |].
  - destruct (sy_callers s !! i) as [c|] eqn:Hc; [|done]. simpl in Ha.
    destruct (caller_step choice c (sy_sched s)) as [[x c']|] eqn:Hst; [|done]. injection Ha as <-.
    by eapply caller_attended.
  - unfold on_sched in Ha. destruct (loop_move i (sy_sched s)) as [x|] eqn:Hm; [|done]. injection Ha as <-.
    by apply (loop_move_attended i).
Qed.

Lemma timely_reachable s : rtc timely_step sys_init s -> attended s.
Proof.
  intros H. eapply (rtc_invariant timely_step attended); [|exact H|].
  - intros s1 s2 Hst H1. by eapply timely_attended.
  - split; [done| |by intros l w ?%elem_of_nil]. by intros l [r ?%elem_of_nil].
Qed.

(** ** A running task is executed *)

(** The loop at [i] can execute [l] once more by the time [T]. *)
Definition executes_by (l i : nat) (T : Z) (s : system) : Prop :=
  exists s', rtc env_step s s' /\ executed (sy_sched s') = executed (sy_sched s) ++ [l] /\
    now (sy_sched s') <= T /\ tasks (sy_sched s') = tasks (sy_sched s) /\
    loops (sy_sched s') !! i = Some (mkLoop l Executing).

Lemma executes_after l i T s s1 :
  env_step s s1 -> executed (sy_sched s1) = executed (sy_sched s) -> tasks (sy_sched s1) = tasks (sy_sched s) ->
  executes_by l i T s1 -> executes_by l i T s.
Proof.
  intros Hst He Ht (s' & Hr & He' & Hn & Ht' & Hl). exists s'. split_and!; [by eapply rtc_l|congruence|done|congruence|done].
Qed.

Lemma put_loop_at s i lp lp' : loops s !! i = Some lp -> loops (put_loop i lp' [] s) !! i = Some lp'.
Proof. intros H. simpl. apply list_lookup_insert_eq. by eapply lookup_lt_Some. Qed.

Lemma executes_from l i pc s :
  loops (sy_sched s) !! i = Some (mkLoop l pc) -> is_running (sy_sched s) l = true ->
  (forall w, pc = Sleeping w -> w <= now (sy_sched s) + Z.max 0 (dur (sy_sched s) l)) ->
  executes_by l i (now (sy_sched s) + Z.max 0 (dur (sy_sched s) l)) s.
Proof.
  assert (Hmove : forall pc pc' T x cs, loops x !! i = Some (mkLoop l pc) ->
      loop_move i x = Some (put_loop i (mkLoop l pc') [] x) ->
      executes_by l i T (mkSys (put_loop i (mkLoop l pc') [] x) cs) -> executes_by l i T (mkSys x cs)).
  { intros pc0 pc' T x cs _ Hm. apply executes_after; [exact (env_loop (mkSys x cs) i _ Hm)|simpl; by rewrite app_nil_r|done]. }
  assert (Hpassed : forall x cs T, loops x !! i = Some (mkLoop l Passed) -> now x <= T -> executes_by l i T (mkSys x cs)).
  { intros x cs T Hi HT. exists (mkSys (put_loop i (mkLoop l Executing) [l] x) cs). split_and!; [|done..|].
    - apply rtc_once, (env_loop (mkSys x cs) i). unfold loop_move. simpl. by rewrite Hi.
    - simpl. apply list_lookup_insert_eq. by eapply lookup_lt_Some. }
  assert (Htest : forall x cs T, loops x !! i = Some (mkLoop l Testing) -> is_running x l = true -> now x <= T ->
      executes_by l i T (mkSys x cs)).
  { intros x cs T Hi Hr HT. eapply (Hmove _ Passed); [done|unfold loop_move; by rewrite Hi, Hr|].
    apply Hpassed; [by eapply put_loop_at|done]. }
  assert (Hsleep : forall x cs w T, loops x !! i = Some (mkLoop l (Sleeping w)) -> is_running x l = true ->
      w <= T -> now x <= T -> executes_by l i T (mkSys x cs)).
  { intros x cs w T Hi Hr HT Hn.
    eapply executes_after; [apply (env_tick (mkSys x cs) (Z.max 0 (w - now x))); lia|done..|]. simpl.
    eapply (Hmove _ Testing); [exact Hi| |].
    - unfold loop_move. simpl. rewrite Hi. destruct (Z.ltb_spec (now x + Z.max 0 (w - now x)) w); [lia|done].
    - apply Htest; [by eapply put_loop_at|done|simpl; lia]. }
  assert (Harm : forall x cs, loops x !! i = Some (mkLoop l Arming) -> is_running x l = true ->
      executes_by l i (now x + Z.max 0 (dur x l)) (mkSys x cs)).
  { intros x cs Hi Hr. eapply (Hmove _ (Sleeping _)); [done|unfold loop_move; by rewrite Hi|].
    eapply Hsleep; [by eapply put_loop_at|done|lia|simpl; lia]. }
  destruct s as [x cs]. simpl. intros Hi Hr Hw. destruct pc as [|w| | |].
  - by apply Harm.
  - eapply Hsleep; [done..|by apply Hw|lia].
  - apply Htest; [done..|lia].
  - apply Hpassed; [done|lia].
  - eapply (Hmove _ Arming); [done|unfold loop_move; by rewrite Hi|]. exact (Harm (put_loop i (mkLoop l Arming) [] x) cs (put_loop_at _ _ _ _ Hi) Hr).
Qed.

Lemma executes_times l i n : forall pc s,
  loops (sy_sched s) !! i = Some (mkLoop l pc) -> is_running (sy_sched s) l = true ->
  (forall w, pc = Sleeping w -> w <= now (sy_sched s) + Z.max 0 (dur (sy_sched s) l)) ->
  exists s', rtc env_step s s' /\ executed (sy_sched s') = executed (sy_sched s) ++ replicate n l /\
    now (sy_sched s') <= now (sy_sched s) + Z.of_nat n * Z.max 0 (dur (sy_sched s) l).
Proof.
  induction n as [|n IH]; intros pc s Hi Hr Hw; [exists s; split_and!; [done|by rewrite app_nil_r|lia]|].
  destruct (executes_from l i pc s Hi Hr Hw) as (s1 & Hr1 & He1 & Hn1 & Ht1 & Hi1).
  assert (Hd : dur (sy_sched s1) l = dur (sy_sched s) l) by (unfold dur; by rewrite Ht1).
  destruct (IH Executing s1) as (s2 & Hr2 & He2 & Hn2); [done|unfold is_running; by rewrite Ht1|done|].
  exists s2. split_and!; [by etrans|by rewrite He2, He1, <- app_assoc|]. rewrite Hd in Hn2. lia.
Qed.

(** C28. In any interleaving of callers, goroutines and the passing of time in
    which no goroutine tests the flag while the [Start] that spawned one for its
    task has not set it yet, a task whose flag is set has a goroutine, and its job
    can be executed [n] times within [n] of its durations, by nothing but the
    passing of time and steps of that goroutine.  [start_race] shows that the
    condition on [Start] is needed. *)
Theorem running_task_executes s l n :
  rtc timely_step sys_init s -> is_running (sy_sched s) l = true ->
  exists s', rtc env_step s s' /\ executed (sy_sched s') = executed (sy_sched s) ++ replicate n l /\
    now (sy_sched s') <= now (sy_sched s) + Z.of_nat n * Z.max 0 (dur (sy_sched s) l).
Proof.
  intros [Hr _ Hw]%timely_reachable Hrun. destruct (Hr l Hrun) as ([l' pc] & Hin & Hl). unfold is_loop in Hl. simpl in Hl. subst l'.
  apply list_elem_of_lookup in Hin as [i Hi]. apply (executes_times l i n pc s Hi Hrun).
  intros w ->. apply Hw. by eapply list_elem_of_lookup_2.
Qed.

Definition no_loop_step (a : action) : bool := match a with ALoop _ => false | _ => true end.

Lemma run_timely acts s s' : forallb no_loop_step acts = true -> run_acts act acts s = Some s' -> rtc timely_step s s'.
Proof.
  revert s. induction acts as [|a acts IH]; intros s Ha Hr; simpl in *; [by simplify_eq|].
  apply andb_prop in Ha as [Ha Has]. destruct (act a s) as [s1|] eqn:E; [|done].
  eapply rtc_l; [|by eapply IH]. exists a. split; [by destruct a|done].
Qed.

Lemma run_steps acts s s' : run_acts act acts s = Some s' -> rtc sys_step s s'.
Proof. apply (run_acts_relation act (rtc sys_step)). intros a s1 s2 Ha. apply rtc_once. by exists a. Qed.

Definition started_acts : list action := ANew "a" 100 0 :: ACall (OpStart 0) :: solo 0 3.
Definition started : system := default sys_init (run_acts act started_acts sys_init).

Lemma running_task_executes_witness :
  exists s', rtc env_step started s' /\ executed (sy_sched s') = [0; 0; 0]%nat /\ now (sy_sched s') <= 300.
Proof.
  apply (running_task_executes started 0 3); [|vm_compute; reflexivity].
  apply (run_timely started_acts); vm_compute; reflexivity.
Defined.

(** The goroutine is spawned before the flag is set: when the duration passes in
    between, it finds the flag clear and returns, and the task is left running
    with nothing that will ever execute it. *)
Definition race_acts (d : Z) : list action :=
  [ANew "a" d 0; ACall (OpStart 0); ACaller 0 None; ACaller 0 None;
   ALoop 0; ATick d; ALoop 0; ALoop 0; ACaller 0 None].

Theorem start_race d :
  0 <= d ->
  exists s, reachable s /\ is_running (sy_sched s) 0 = true /\ sy_callers s = [Returned RDone] /\
    (forall s', rtc env_step s s' -> executed (sy_sched s') = [] /\ loops (sy_sched s') = []) /\
    Task_Start (sy_sched s) 0 = sy_sched s.
Proof.
  intros Hd.
  exists (mkSys (mkSched [mkTask "a" d 0 true] ∅ [] d []) [Returned RDone]). split_and!; [|done|done| |done].
  - apply (run_steps (race_acts d)). unfold race_acts. cbn -[Z.ltb Z.add].
    destruct (Z.ltb_spec d 0); [lia|]. cbn -[Z.ltb Z.add]. unfold dur. cbn -[Z.ltb Z.add].
    destruct (Z.ltb_spec (0 + d) (0 + d)); [lia|]. done.
  - intros s' Hr. eapply (rtc_invariant env_step (fun s' => executed (sy_sched s') = [] /\ loops (sy_sched s') = [])); [|exact Hr|done].
    intros s1 s2 [He Hl] (a & Ha & Hact). destruct a; try done; simpl in Hact.
    + case_match; [done|]. unfold on_sched in Hact. by simplify_eq/=.
    + unfold on_sched, loop_move in Hact. by rewrite Hl in Hact.
Qed.

Lemma start_race_witness :
  exists s, reachable s /\ is_running (sy_sched s) 0 = true /\
    forall s', rtc env_step s s' -> executed (sy_sched s') = [].
Proof.
  destruct (start_race 5) as (s & Hr & Hf & _ & Hq & _); [lia|]. exists s. split_and!; [done..|].
  intros s' Hs. by apply Hq.
Defined.

(** Stopped and started again before the goroutine wakes: two goroutines execute
    the job, twice in one duration. *)
Definition restart_acts : list action :=
  started_acts ++ [ACall (OpStop 0); ACaller 1 None; ACall (OpStart 0); ACaller 2 None; ACaller 2 None; ACaller 2 None;
    ALoop 0; ALoop 1; ATick 100; ALoop 0; ALoop 0; ALoop 0; ALoop 1; ALoop 1; ALoop 1].

Theorem restart_multiplies_loops :
  exists s, reachable s /\ now (sy_sched s) = 100 /\ executed (sy_sched s) = [0; 0]%nat /\
    loops (sy_sched s) = [mkLoop 0 Executing; mkLoop 0 Executing] /\
    tasks (sy_sched s) = [mkTask "a" 100 0 true].
Proof.
  exists (default sys_init (run_acts act restart_acts sys_init)). split_and!; [|vm_compute; reflexivity..].
  apply (run_steps restart_acts). vm_compute. reflexivity.
Qed.

(** ** A stopped task *)

Definition runs (s : system) (l : nat) : nat := length (filter (eq l) (executed (sy_sched s))).
Definition pending_runs (s : system) (l : nat) : nat := length (filter (past_test l) (loops (sy_sched s))).

(** Steps of every kind while the flag of [l] stays clear. *)
Definition quiet_step (l : nat) (s s' : system) : Prop := sys_step s s' /\ is_running (sy_sched s') l = false.

Lemma past_test_task l pc k : past_test k (mkLoop l pc) <-> l = k /\ pc = Passed.
Proof. unfold past_test. split; [by intros [= -> ->]|by intros [-> ->]]. Qed.

Lemma loop_move_quiet l i x x' cs cs' :
  loop_move i x = Some x' -> is_running x l = false ->
  (runs (mkSys x' cs') l + pending_runs (mkSys x' cs') l <= runs (mkSys x cs) l + pending_runs (mkSys x cs) l)%nat.
Proof.
  intros (_ & _ & _ & k & pc & Hi & Hc)%loop_move_cases Hf. unfold runs, pending_runs. simpl.
  destruct Hc as [(pc' & -> & -> & Hp & _)|(-> & _ & -> & ->)].
  - pose proof (filter_length_insert (past_test l) _ _ _ (mkLoop k pc') Hi) as Hc.
    rewrite filter_app, length_app.
    assert (Hp' : ~ past_test l (mkLoop k pc')).
    { rewrite past_test_task. intros [-> ->]. destruct Hp as [_ Hrun]; [done|congruence]. }
    rewrite (decide_False (P := past_test l (mkLoop k pc'))) in Hc by done.
    destruct (decide (past_test l (mkLoop k pc))) as [[-> ->]%past_test_task|Hn].
    + rewrite decide_True by done. rewrite filter_cons. destruct (decide (l = l)); simpl; lia.
    + destruct (decide (pc = Passed)) as [->|_]; [|simpl; lia]. rewrite filter_cons, decide_False; [simpl; lia|].
      intros ->. by apply Hn, past_test_task.
  - pose proof (filter_length_delete (past_test l) _ _ _ Hi) as Hc. lia.
Qed.

Lemma quiet_decreases l s s' :
  is_running (sy_sched s) l = false -> sys_step s s' -> (runs s' l + pending_runs s' l <= runs s l + pending_runs s l)%nat.
Proof.
  intros Hf [a Ha]. destruct a as [d|id d j|o|i choice|i]; simpl in Ha.
  - destruct (Z.ltb_spec d 0); [done|]. unfold on_sched in Ha. injection Ha as <-. done.
  - unfold on_sched in Ha. injection Ha as <-. done.
  - injection Ha as <-. done.
  - destruct (sy_callers s !! i) as [c|] eqn:Hc; [|done]. simpl in Ha.
    destruct (caller_step choice c (sy_sched s)) as [[x c']|] eqn:Hst; [|done]. injection Ha as <-.
    destruct (caller_step_effect _ _ _ _ _ Hst) as (_ & He & _ & [(Hl & _)|(k & r & _ & ->)]); unfold runs, pending_runs; simpl.
    + by rewrite He, Hl.
    + rewrite filter_app, (filter_cons (past_test l) (mkLoop k Arming)), decide_False, filter_nil, app_nil_r; [done|].
      rewrite past_test_task. by intros [_ ?].
  - unfold on_sched in Ha. destruct s as [x cs]. simpl in *. destruct (loop_move i x) as [x'|] eqn:Hm; [|done].
    injection Ha as <-. by apply (loop_move_quiet l i).
Qed.

(** The goroutines of a stopped task can all return. *)
Definition pc_rank (lp : loop) : nat :=
  match loop_at lp with Testing => 1 | Sleeping _ => 2 | Arming => 3 | Executing => 4 | Passed => 5 end.

Lemma delete_insert_same {A} i x (k : list A) : delete i (<[i := x]> k) = delete i k.
Proof. revert i. induction k as [|y k IH]; intros [|i]; simpl; [done..|]. f_equal. apply IH. Qed.

Lemma loop_leaves k : forall s l i pc,
  loops (sy_sched s) !! i = Some (mkLoop l pc) -> pc_rank (mkLoop l pc) = k ->
  is_running (sy_sched s) l = false ->
  exists s', rtc env_step s s' /\ tasks (sy_sched s') = tasks (sy_sched s) /\
    loops (sy_sched s') = delete i (loops (sy_sched s)).
Proof.
  induction k as [k IH] using (well_founded_induction lt_wf). intros s l i pc Hi Hk Hf.
  assert (Hgo : forall d pc' out, 0 <= d ->
      loop_move i (tick (sy_sched s) d) = Some (put_loop i (mkLoop l pc') out (tick (sy_sched s) d)) ->
      (pc_rank (mkLoop l pc') < k)%nat ->
      exists s', rtc env_step s s' /\ tasks (sy_sched s') = tasks (sy_sched s) /\
        loops (sy_sched s') = delete i (loops (sy_sched s))).
  { intros d pc' out Hd Hm Hlt.
    destruct (IH _ Hlt (mkSys (put_loop i (mkLoop l pc') out (tick (sy_sched s) d)) (sy_callers s)) l i pc') as (s' & Hr & Ht & Hl);
      [simpl; apply list_lookup_insert_eq; by eapply lookup_lt_Some|done|done|].
    exists s'. split_and!; [|done|].
    - eapply rtc_l; [by apply (env_tick s d)|]. eapply rtc_l; [|exact Hr]. by apply (env_loop (mkSys (tick (sy_sched s) d) (sy_callers s)) i).
    - rewrite Hl. simpl. apply delete_insert_same. }
  unfold loop_move in Hgo. simpl in Hgo. rewrite Hi in Hgo. destruct pc as [|w| | |]; unfold pc_rank in *; simpl in Hk, Hgo.
  - eapply (Hgo 0 (Sleeping _)); [lia|done|simpl; lia].
  - eapply (Hgo (Z.max 0 (w - now (sy_sched s))) Testing); [lia| |simpl; lia].
    destruct (Z.ltb_spec (now (sy_sched s) + Z.max 0 (w - now (sy_sched s))) w); [lia|done].
  - eexists (mkSys _ (sy_callers s)). split_and!.
    + apply rtc_once, (env_loop s i). unfold loop_move. rewrite Hi, Hf. reflexivity.
    + done.
    + done.
  - eapply (Hgo 0 Executing); [lia|done|simpl; lia].
  - eapply (Hgo 0 Arming); [lia|done|simpl; lia].
Qed.

Lemma loops_leave l n : forall s,
  length (filter (is_loop l) (loops (sy_sched s))) = n -> is_running (sy_sched s) l = false ->
  exists s', rtc env_step s s' /\ forall lp, lp ∈ loops (sy_sched s') -> ~ is_loop l lp.
Proof.
  induction n as [|n IH]; intros s Hn Hf.
  - exists s. split; [done|]. intros lp Hin Hl.
    assert (Hx : lp ∈ filter (is_loop l) (loops (sy_sched s))) by by apply list_elem_of_filter.
    apply length_zero_iff_nil in Hn. rewrite Hn in Hx. by apply elem_of_nil in Hx.
  - destruct (filter (is_loop l) (loops (sy_sched s))) as [|lp k] eqn:E; [done|].
    assert (Hin : lp ∈ filter (is_loop l) (loops (sy_sched s))) by (rewrite E; apply elem_of_cons; by left).
    apply list_elem_of_filter in Hin as [Hl [i Hi]%list_elem_of_lookup]. destruct lp as [l' pc]. unfold is_loop in Hl.
    simpl in Hl. subst l'.
    destruct (loop_leaves _ s l i pc Hi eq_refl Hf) as (s1 & Hr & Ht & Hd).
    pose proof (filter_length_delete (is_loop l) _ _ _ Hi) as Hc. rewrite <- Hd, decide_True in Hc by done.
    rewrite E in Hc. simpl in Hc, Hn.
    destruct (IH s1) as (s' & Hr' & Hno); [lia|unfold is_running; by rewrite Ht|]. exists s'. split; [by etrans|done].
Qed.

(** C38. After [Task.Stop] has cleared the flag of a task, and as long as nothing
    sets it again, whatever callers, clocks and goroutines do, the executions
    that are still to come are at most one for each goroutine of the task that had
    already found the flag set; and all the task's goroutines can return, by
    nothing but the passing of time and their own steps. *)
Theorem stopped_task_quiet s x l :
  sy_sched s = Task_Stop x l ->
  (forall s', rtc (quiet_step l) s s' -> (runs s' l <= runs s l + pending_runs s l)%nat) /\
  (exists s', rtc env_step s s' /\ forall lp, lp ∈ loops (sy_sched s') -> ~ is_loop l lp).
Proof.
  intros Hs. assert (Hf : is_running (sy_sched s) l = false).
  { rewrite Hs. unfold is_running. simpl. rewrite list_lookup_alter_eq. by destruct (tasks x !! l). }
  split; [|by eapply loops_leave]. intros s' Hr.
  enough (is_running (sy_sched s') l = false /\ (runs s' l + pending_runs s' l <= runs s l + pending_runs s l)%nat) by lia.
  eapply (rtc_invariant (quiet_step l)
    (fun s' => is_running (sy_sched s') l = false /\ (runs s' l + pending_runs s' l <= runs s l + pending_runs s l)%nat));
    [|exact Hr|done].
  intros s1 s2 [Hf1 H1] [Hst Hf2]. split; [done|]. pose proof (quiet_decreases l s1 s2 Hf1 Hst). lia.
Qed.

(** Stopped between the test of the flag and the job, with a caller of another
    task on its way. *)
Definition stopping_acts : list action :=
  started_acts ++ [ANew "b" 5 1; ACall (OpRequest (ReqAdd 1 true)); ALoop 0; ATick 100; ALoop 0; ALoop 0;
    ACall (OpStop 0); ACaller 2 None].
Definition stopping : system := default sys_init (run_acts act stopping_acts sys_init).

Lemma stopped_task_quiet_witness :
  reachable stopping /\ runs stopping 0 = 0%nat /\ pending_runs stopping 0 = 1%nat /\
  (forall s', rtc (quiet_step 0) stopping s' -> (runs s' 0 <= 1)%nat) /\
  (exists s', rtc env_step stopping s' /\ forall lp, lp ∈ loops (sy_sched s') -> ~ is_loop 0 lp).
Proof.
  split_and!; [apply (run_steps stopping_acts); vm_compute; reflexivity|vm_compute; reflexivity..| |].
  all: destruct (stopped_task_quiet stopping (sy_sched stopping) 0) as [H1 H2]; [vm_compute; reflexivity|]; done.
Defined.
