(* ===== verification/Snitch.v ===== *)
(** * Package [snitch] ([snitch/*.go])

    Statistics points.  A [*CustomPoint] is shared by the [points] map, the cron
    scheduler and the callers, so points live in a store and the map and the
    cron jobs hold locations.  The atomics of [custom_point.go] are single
    steps; here each exported call is one transition. *)

From stdpp Require Import base gmap strings list.
From Stdlib Require Import ZArith Lia.
From S2P Require Import Prelude Float64 GoValue.

Local Open Scope Z_scope.

(** ** Data *)

(** [message]: what a point sends. *)
Record message : Type := mkMessage {
  msg_metric : string;
  msg_tags : gmap string string;
  msg_value : float64;
  msg_timestamp : Z;
}.

(** The fields of [CustomPoint]; [pre], [post] and [sender] are the same for
    every point ([getPoint] is the only constructor). *)
Record CustomPoint : Type := mkPoint {
  metric : string;
  tags : gmap string string;
  value : float64;
  valNull : Z;
  timestamp : Z;
  count : Z;
  interval : string;
  aggregation : string;
  keepValue : bool;
  sendOnNull : bool;
}.

(** ** [custom_point.go] *)

Definition set_value_bits (v : float64) (n : Z) (p : CustomPoint) : CustomPoint :=
  mkPoint (metric p) (tags p) v n (timestamp p) (count p) (interval p) (aggregation p)
    (keepValue p) (sendOnNull p).

Definition SetCount (i : Z) (p : CustomPoint) : CustomPoint :=
  mkPoint (metric p) (tags p) (value p) (valNull p) (timestamp p) i (interval p) (aggregation p)
    (keepValue p) (sendOnNull p).

Definition SetTimestamp (t : Z) (p : CustomPoint) : CustomPoint :=
  mkPoint (metric p) (tags p) (value p) (valNull p) t (count p) (interval p) (aggregation p)
    (keepValue p) (sendOnNull p).

Definition GetValue (p : CustomPoint) : float64 := value p.
Definition GetCount (p : CustomPoint) : Z := count p.
Definition GetTimestamp (p : CustomPoint) : Z := timestamp p.
Definition SetValue (v : float64) (p : CustomPoint) : CustomPoint := set_value_bits v 0 p.
Definition SetValueNull (p : CustomPoint) : CustomPoint := set_value_bits f64_zero 1 p.
Definition IsValueNull (p : CustomPoint) : bool := negb (valNull p =? 0).

(** [CustomPoint.ValueAdd]: the compare-and-swap loop adds atomically; the
    counter is an [int64]. *)
Definition point_ValueAdd (v : float64) (p : CustomPoint) : CustomPoint :=
  let p1 := set_value_bits (f64_add (value p) v) (valNull p) p in
  let p2 := SetCount (int64_of_Z (count p1 + 1)) p1 in
  set_value_bits (value p2) 0 p2.

(** The closures [pre] and [post] of [getPoint]. *)
Definition pre (p : CustomPoint) : bool * CustomPoint :=
  if negb (sendOnNull p) && IsValueNull p then (false, p)
  else if (aggregation p =? "avg")%string then
    let y := GetValue p in
    let x := GetCount p in
    if negb (f64_eqb y f64_zero) && negb (x =? 0)
    then (true, SetValue (f64_div y (f64_of_Z x)) p)
    else (true, p)
  else (true, p).

Definition post (p : CustomPoint) : CustomPoint :=
  if negb (aggregation p =? "")%string || negb (keepValue p)
  then SetValueNull (SetCount 0 (SetValue f64_zero p))
  else p.

(** [Run] at the time [nano] ([time.Now().UnixNano()]). *)
Definition Run (nano : Z) (p : CustomPoint) : option message * CustomPoint :=
  let '(send, p1) := pre p in
  let ts := if GetTimestamp p1 =? 0 then Z.quot nano 1000000 else GetTimestamp p1 in
  (if send then Some (mkMessage (metric p1) (tags p1) (GetValue p1) ts) else None, post p1).

(** ** [snitch_dynamic.go] *)

(** [strings.Join] *)
Fixpoint join (sep : string) (l : list string) : string :=
  match l with
  | [] => ""
  | [s] => s
  | s :: l' => s +:+ sep +:+ join sep l'
  end.

(** [keyFromMetricID]; [order] is the order in which [range] yields the tags. *)
Definition merged_tag (kv : string * string) : string := kv.1 +:+ "=" +:+ kv.2.

Definition keyFromMetricID (m : string) (order : list (string * string)) : string :=
  let merged := go_sort string_ltb (merged_tag <$> order) in
  join ", " (merged ++ [m]).

Definition aggregationsContants : list string := ["avg"; "min"; "max"; "sum"].

Inductive snitch_error : Type :=
| ErrAddressRequired
| ErrPortRequired
| ErrProtocol
| ErrDuration (e : string)
| ErrKsid
| ErrHostname (e : string)
| ErrCron (e : string)
| ErrUnknownAggregation.

Record Stats : Type := mkStats {
  address : string;
  port : Z;
  st_tags : gmap string string;
  proto : string;
  timeout : Z;
  postInt : Z;
  store : list CustomPoint;
  points : gmap string nat;
  cron_jobs : list (string * nat);   (* interval and point of each cron entry *)
  hBuffer : list message;
  terminate : bool;
}.

Definition with_points (st : Stats) (s : list CustomPoint) (m : gmap string nat)
    (j : list (string * nat)) : Stats :=
  mkStats (address st) (port st) (st_tags st) (proto st) (timeout st) (postInt st) s m j
    (hBuffer st) (terminate st).

Definition on_point (st : Stats) (l : nat) (f : CustomPoint -> CustomPoint) : Stats :=
  with_points st (alter f l (store st)) (points st) (cron_jobs st).

(** A point as [getPoint] makes it: the instance's tags overridden by the
    caller's. *)
Definition new_point (st : Stats) (m : string) (tg : gmap string string) (agg itv : string)
    (keep nullable : bool) : CustomPoint :=
  mkPoint m (tg ∪ st_tags st) f64_zero 1 0 0 itv agg keep nullable.

Section cron.
(** [cron.Parse]: the error for an interval it refuses. *)
Context (cron_Parse : string -> option string).

(** [getPoint] returns the point's location. *)
Definition getPoint (st : Stats) (m : string) (tg : gmap string string) (agg itv : string)
    (keep nullable : bool) : result snitch_error (Stats * nat) :=
  let key := keyFromMetricID m (map_to_list tg) in
  match points st !! key with
  | Some l => Ok (st, l)
  | None =>
      match cron_Parse itv with
      | Some e => Err (ErrCron e)
      | None =>
          if bool_decide (agg ∈ aggregationsContants) then
            let l := length (store st) in
            Ok (with_points st (store st ++ [new_point st m tg agg itv keep nullable])
                  (<[key := l]> (points st)) (cron_jobs st ++ [(itv, l)]), l)
          else Err ErrUnknownAggregation
      end
  end.

(** *** [point_funcs.go] *)

Definition aggregate (v : float64) (p : CustomPoint) : CustomPoint :=
  if (aggregation p =? "avg")%string then point_ValueAdd v p
  else if (aggregation p =? "sum")%string then point_ValueAdd v p
  else if (aggregation p =? "max")%string then
    if f64_ltb (GetValue p) v then SetValue v p else p
  else if (aggregation p =? "min")%string then
    if IsValueNull p then SetValue v p
    else if f64_ltb v (GetValue p) then SetValue v p else p
  else point_ValueAdd v p.

Definition ValueAdd (st : Stats) (m : string) (tg : gmap string string) (agg itv : string)
    (keep nullable : bool) (v : float64) : result snitch_error Stats :=
  match getPoint st m tg agg itv keep nullable with
  | Ok (st', l) => Ok (on_point st' l (aggregate v))
  | Err e => Err e
  | Panic => Panic
  end.

Definition Increment (st : Stats) (m : string) (tg : gmap string string) (itv : string)
    (keep nullable : bool) : result snitch_error Stats :=
  ValueAdd st m tg "sum" itv keep nullable (f64_of_Z 1).

Definition Stats_SetValue (st : Stats) (m : string) (tg : gmap string string) (itv : string)
    (keep nullable : bool) (v : float64) : result snitch_error Stats :=
  match getPoint st m tg "sum" itv keep nullable with
  | Ok (st', l) => Ok (on_point st' l (SetValue v))
  | Err e => Err e
  | Panic => Panic
  end.

(** One iteration of [runtimeLoop] after its sleep. *)
Definition runtimeLoop_iter (st : Stats) (goroutines : Z) : option Stats :=
  if terminate st then None
  else match ValueAdd st "runtime.goroutines.count" (st_tags st) "max" "@every 1m" false true
               (f64_of_Z goroutines) with
       | Ok st' => Some st'
       | _ => Some st
       end.
End cron.

(** A cron entry fires. *)
Definition fire (nano : Z) (l : nat) (st : Stats) : Stats * option message :=
  match store st !! l with
  | Some p => let '(m, p') := Run nano p in
      (with_points st (<[l := p']> (store st)) (points st) (cron_jobs st), m)
  | None => (st, None)
  end.

(** ** [snitch.go] *)

Record Settings : Type := mkSettings {
  set_Address : string;
  set_Port : Z;
  set_Protocol : string;
  set_HTTPTimeout : string;
  set_HTTPPostInterval : string;
  set_Tags : gmap string string;
  set_Interval : string;                 (* not used by the package *)
  set_Runtime : bool;
  set_RaiseDebugVerbosity : bool;        (* only adds log messages *)
}.

(** [New]; [ParseDuration] is [time.ParseDuration] and [hostname] the outcome of
    [os.Hostname] (errors on the left). *)
Definition New (ParseDuration : string -> string + Z) (hostname : string + string)
    (s : Settings) : result snitch_error Stats :=
  if (set_Address s =? "")%string then Err ErrAddressRequired
  else if set_Port s =? 0 then Err ErrPortRequired
  else if negb (set_Protocol s =? "http")%string && negb (set_Protocol s =? "udp")%string
  then Err ErrProtocol
  else
    let build (dur post : Z) : result snitch_error Stats :=
      let tg := set_Tags s in
      if (default "" (tg !! "ksid") =? "")%string then Err ErrKsid
      else match hostname with
           | inl e => Err (ErrHostname e)
           | inr h => Ok (mkStats (set_Address s) (set_Port s) (<["host" := h]> tg) (set_Protocol s)
                            dur post [] ∅ [] [] false)
           end in
    if (set_Protocol s =? "http")%string then
      match ParseDuration (set_HTTPTimeout s) with
      | inl e => Err (ErrDuration e)
      | inr dur =>
          match ParseDuration (set_HTTPPostInterval s) with
          | inl e => Err (ErrDuration e)
          | inr post => build dur post
          end
      end
    else build 0 0.

Definition Terminate (st : Stats) : Stats :=
  mkStats (address st) (port st) (st_tags st) (proto st) (timeout st) (postInt st) (store st)
    (points st) (cron_jobs st) (hBuffer st) true.

(** The part of [start] that changes the state: a cron entry for every point
    that is in the map by the time the goroutine runs, in [Range]'s order. *)
Definition start_jobs (order : list nat) (st : Stats) : Stats :=
  with_points st (store st) (points st)
    (cron_jobs st ++ ((fun l => (from_option interval "" (store st !! l), l)) <$> order)).

(** *** The clients' loops *)

Definition set_hBuffer (st : Stats) (b : list message) : Stats :=
  mkStats (address st) (port st) (st_tags st) (proto st) (timeout st) (postInt st) (store st)
    (points st) (cron_jobs st) b (terminate st).

(** [json.Marshal] of messages: the encoder refuses NaN and the infinities. *)
Definition finite (v : float64) : bool := negb (f64_is_nan v) && negb (f64_is_inf v).
Definition marshals (ms : list message) : bool := forallb (fun m => finite (msg_value m)) ms.

(** What an iteration of [clientHTTP] selects: a message from the receiver, or
    a tick with the outcomes of [http.NewRequest] and [client.Do]. *)
Inductive http_event : Type :=
| GotMessage (m : message)
| Tick (request_ok : bool) (do_ : option Z).

(** The [select] of an iteration; the second component is the batch posted with
    the status of the response. *)
Definition select_HTTP (st : Stats) (ev : http_event) : Stats * list (list message * Z) :=
  match ev with
  | GotMessage m => (set_hBuffer st (hBuffer st ++ [m]), [])
  | Tick request_ok do_ =>
      if negb (marshals (hBuffer st)) then (st, [])
      else if negb request_ok then (st, [])
      else match do_ with
           | None => (st, [])
           | Some status => (set_hBuffer st [], [(hBuffer st, status)])
           end
  end.

(** One iteration: [None] is the return on [terminate]. *)
Definition clientHTTP_iter (st : Stats) (ev : http_event) : option (Stats * list (list message * Z)) :=
  if terminate st then None else Some (select_HTTP st ev).

Fixpoint clientHTTP (st : Stats) (evs : list http_event) : Stats * list (list message * Z) :=
  match evs with
  | [] => (st, [])
  | ev :: evs' =>
      match clientHTTP_iter st ev with
      | None => (st, [])
      | Some (st', out) => let '(st'', out') := clientHTTP st' evs' in (st'', out ++ out')
      end
  end.

(** What [clientUDP] does with a received message: a datagram (empty if the
    message does not marshal) when there is a connection, otherwise only an
    attempt to connect, whose outcome is [dial]. *)
Definition receive_UDP (connected : bool) (m : message) (dial : bool) : bool * option (option message) :=
  let payload := if finite (msg_value m) then Some m else None in
  if connected then (true, Some payload) else (dial, None).

(** An iteration of [clientUDP]. *)
Definition clientUDP_iter (terminated connected : bool) (m : message) (dial : bool)
    : option (bool * option (option message)) :=
  if terminated then None else Some (receive_UDP connected m dial).

(** ** What a series of updates leaves in a point *)

Section updates.
Context (cron_Parse : string -> option string).
Context (st : Stats) (m : string) (tg : gmap string string) (agg itv : string) (keep nullable : bool).

Definition point_key : string := keyFromMetricID m (map_to_list tg).

Fixpoint value_adds (st : Stats) (vs : list float64) : result snitch_error Stats :=
  match vs with
  | [] => Ok st
  | v :: vs' => rbind (ValueAdd cron_Parse st m tg agg itv keep nullable v) (fun st' => value_adds st' vs')
  end.

Definition updated (p : CustomPoint) (vs : list float64) : CustomPoint :=
  foldl (fun p v => aggregate v p) p vs.

Lemma on_point_id st0 l : on_point st0 l id = st0.
Proof.
  destruct st0. unfold on_point, with_points. simpl. f_equal. apply list_eq. intros i.
  destruct (decide (l = i)) as [->|]; [rewrite list_lookup_alter_eq; by destruct (_ !! _)|].
  by rewrite list_lookup_alter_ne.
Qed.

Lemma value_adds_known st0 l vs :
  points st0 !! point_key = Some l ->
  value_adds st0 vs = Ok (on_point st0 l (fun p => updated p vs)).
Proof.
  revert st0. induction vs as [|v vs IH]; intros st0 Hk; simpl.
  { by rewrite on_point_id. }
  unfold ValueAdd, getPoint. fold point_key. rewrite Hk. cbn [rbind]. rewrite IH by done.
  f_equal. unfold on_point, with_points. simpl. f_equal. apply list_alter_alter.
Qed.

Definition fresh_point : CustomPoint := new_point st m tg agg itv keep nullable.

(** The first update creates the point and its cron entry; the others find it. *)
Lemma value_adds_fresh vs :
  points st !! point_key = None -> cron_Parse itv = None -> agg ∈ aggregationsContants -> vs <> [] ->
  value_adds st vs = Ok (with_points st (store st ++ [updated fresh_point vs])
    (<[point_key := length (store st)]> (points st)) (cron_jobs st ++ [(itv, length (store st))])).
Proof.
  intros Hk Hc Ha Hv. destruct vs as [|v vs]; [done|]. simpl.
  unfold ValueAdd, getPoint. fold point_key. rewrite Hk, Hc, bool_decide_eq_true_2 by done.
  cbn [rbind]. rewrite (value_adds_known _ (length (store st))) by apply lookup_insert_eq.
  f_equal. unfold on_point, with_points. simpl. f_equal.
  rewrite <- (Nat.add_0_r (length (store st))). by rewrite !alter_app_r.
Qed.

(** Firing the cron entry of that point. *)
Lemma fire_fresh nano vs msg p' :
  Run nano (updated fresh_point vs) = (msg, p') ->
  forall st', st' = with_points st (store st ++ [updated fresh_point vs])
    (<[point_key := length (store st)]> (points st)) (cron_jobs st ++ [(itv, length (store st))]) ->
  exists st'', fire nano (length (store st)) st' = (st'', msg) /\ store st'' !! length (store st) = Some p'.
Proof.
  intros HR st' ->. unfold fire. cbn [store with_points].
  rewrite list_lookup_middle by done. rewrite HR. eexists. split; [done|].
  cbn [store with_points]. apply list_lookup_insert_eq. rewrite length_app. simpl. lia.
Qed.
End updates.

Lemma point_ValueAdd_fold p vs :
  (aggregation p =? "sum")%string || (aggregation p =? "avg")%string = true ->
  0 <= count p -> count p + Z.of_nat (length vs) < two63 ->
  updated p vs = mkPoint (metric p) (tags p) (foldl f64_add (value p) vs)
    (if vs is [] then valNull p else 0) (timestamp p) (count p + Z.of_nat (length vs))
    (interval p) (aggregation p) (keepValue p) (sendOnNull p).
Proof.
  intros Ha. revert p Ha. induction vs as [|v vs IH]; intros p Ha H0 Hn; simpl.
  { rewrite Z.add_0_r. by destruct p. }
  assert (Hs : aggregate v p = point_ValueAdd v p).
  { unfold aggregate. destruct (_ =? "avg")%string; [done|]. rewrite orb_false_r in Ha. by rewrite Ha. }
  rewrite Hs. simpl in Hn. assert (Hc : int64_of_Z (count p + 1) = count p + 1).
  { apply int64_of_Z_id. unfold int64_range, two63 in *. lia. }
  rewrite IH; simpl; rewrite ?Hc; [|done|lia|lia]. f_equal; [by destruct vs|lia].
Qed.

Lemma updated_fresh st m tg agg itv keep nullable vs :
  agg = "sum" \/ agg = "avg" -> vs <> [] -> Z.of_nat (length vs) < two63 ->
  updated (fresh_point st m tg agg itv keep nullable) vs
  = mkPoint m (tg ∪ st_tags st) (foldl f64_add f64_zero vs) 0 0 (Z.of_nat (length vs)) itv agg keep nullable.
Proof.
  intros Ha Hv Hn. rewrite point_ValueAdd_fold; [by destruct vs|by destruct Ha as [->| ->]|done|done].
Qed.

(** C25. Sums and averages are reported and reset.  The first update of a new
    metric creates one point with one cron entry; after any non-empty series of
    values added with ["sum"] or ["avg"], firing that entry sends one message
    with the metric, the merged tags and the floating-point total (divided by
    the number of values for a non-zero average), and leaves the point exactly
    as new, whatever [keep] says. *)
Theorem sum_avg_reported cron_Parse st m tg agg itv keep nullable vs nano :
  agg = "sum" \/ agg = "avg" ->
  points st !! point_key m tg = None -> cron_Parse itv = None ->
  vs <> [] -> Z.of_nat (length vs) < two63 ->
  let l := length (store st) in
  let total := foldl f64_add f64_zero vs in
  let reported := if (agg =? "avg")%string && negb (f64_eqb total f64_zero)
                  then f64_div total (f64_of_Z (Z.of_nat (length vs))) else total in
  exists st' st'', value_adds cron_Parse m tg agg itv keep nullable st vs = Ok st' /\
    points st' !! point_key m tg = Some l /\ cron_jobs st' = cron_jobs st ++ [(itv, l)] /\
    fire nano l st' = (st'', Some (mkMessage m (tg ∪ st_tags st) reported (Z.quot nano 1000000))) /\
    store st'' !! l = Some (fresh_point st m tg agg itv keep nullable).
Proof.
  intros Ha Hk Hc Hv Hn l total reported.
  assert (Hin : agg ∈ aggregationsContants) by (destruct Ha as [->| ->]; set_solver).
  pose proof (value_adds_fresh cron_Parse st m tg agg itv keep nullable vs Hk Hc Hin Hv) as Hadd.
  pose proof (updated_fresh st m tg agg itv keep nullable vs Ha Hv Hn) as Hp.
  assert (HR : Run nano (updated (fresh_point st m tg agg itv keep nullable) vs)
    = (Some (mkMessage m (tg ∪ st_tags st) reported (Z.quot nano 1000000)),
       fresh_point st m tg agg itv keep nullable)).
  { rewrite Hp. unfold Run, pre, IsValueNull. cbn [sendOnNull valNull]. rewrite andb_false_r.
    assert (Hlen : Z.of_nat (length vs) =? 0 = false) by (destruct vs; [done|]; apply Z.eqb_neq; simpl; lia).
    unfold reported. destruct Ha as [->| ->]; cbn; [done|]. fold total. rewrite Hlen, andb_true_r. by destruct (f64_eqb total f64_zero). }
  destruct (fire_fresh st m tg agg itv keep nullable nano vs _ _ HR _ eq_refl) as (st'' & Hf & Hs).
  eexists _, st''. split_and!; [exact Hadd|apply lookup_insert_eq|done|exact Hf|exact Hs].
Qed.

Definition demo_stats : Stats :=
  mkStats "db" 80 {["ksid" := "k"]} "http" 1 1 [] ∅ [] [] false.

Lemma sum_avg_reported_witness :
  exists st' st'',
    value_adds (fun _ => None) "m" ∅ "avg" "@every 1m" true false demo_stats [f64_of_Z 1; f64_of_Z 3] = Ok st' /\
    fire 5000000 0 st' = (st'', Some (mkMessage "m" (∅ ∪ {["ksid" := "k"]}) (f64_of_Z 2) 5)).
Proof.
  destruct (sum_avg_reported (fun _ => None) demo_stats "m" ∅ "avg" "@every 1m" true false
    [f64_of_Z 1; f64_of_Z 3] 5000000) as (st' & st'' & H1 & _ & _ & H2 & _);
    [right; reflexivity|vm_compute; reflexivity|reflexivity|discriminate|reflexivity|].
  exists st', st''. split; [exact H1|]. replace (f64_of_Z 2) with
    (f64_div (foldl f64_add f64_zero [f64_of_Z 1; f64_of_Z 3]) (f64_of_Z 2)) by (vm_compute; reflexivity).
  exact H2.
Defined.

(** Counters are exact: [n] calls of [Increment] on a new metric, for any
    [n] below 2^53, report exactly [n]. *)
Theorem increments_exact cron_Parse st m tg itv keep nullable n nano :
  points st !! point_key m tg = None -> cron_Parse itv = None ->
  (0 < n)%nat -> Z.of_nat n < max_exact ->
  exists st' msg,
    Nat.iter n (fun r => rbind r (fun st => Increment cron_Parse st m tg itv keep nullable)) (Ok st) = Ok st' /\
    snd (fire nano (length (store st)) st') = Some msg /\ msg_metric msg = m /\
    msg_value msg = f64_of_Z (Z.of_nat n).
Proof.
  intros Hk Hc Hn0 Hn.
  assert (Hiter : forall k st0, Nat.iter k (fun r => rbind r (fun st => Increment cron_Parse st m tg itv keep nullable)) st0
    = rbind st0 (fun st => value_adds cron_Parse m tg "sum" itv keep nullable st (replicate k (f64_of_Z 1)))).
  { intros k. induction k as [|k IH]; intros st0; [by destruct st0|].
    rewrite Nat.iter_succ_r, IH, rbind_assoc. done. }
  rewrite Hiter. cbn [rbind]. set (vs := replicate n (f64_of_Z 1)).
  assert (Hlen : length vs = n) by apply length_replicate.
  assert (Hvs : vs <> []) by (destruct n; [lia|done]).
  pose proof (value_adds_fresh cron_Parse st m tg "sum" itv keep nullable vs Hk Hc ltac:(set_solver) Hvs) as Hadd.
  rewrite Hadd. destruct (Run nano (updated (fresh_point st m tg "sum" itv keep nullable) vs)) as [msg p'] eqn:HR.
  destruct (fire_fresh st m tg "sum" itv keep nullable nano vs _ _ HR _ eq_refl) as (st'' & Hf & _).
  rewrite updated_fresh in HR; [|by left|done|rewrite Hlen; unfold max_exact, two63 in *; lia].
  unfold Run, pre, IsValueNull in HR. cbn in HR. rewrite andb_false_r in HR.
  injection HR as <- _. eexists _, _. rewrite Hf. split_and!; [done..|]. cbn [msg_value GetValue value]. unfold vs.
  rewrite <- f64_of_Z_0, <- (fmap_replicate f64_of_Z).
  assert (Hsum : foldr Z.add 0 (replicate n 1) = Z.of_nat n) by (clear; induction n; simpl in *; lia).
  rewrite sum_values_int, Hsum; [done|lia|apply Forall_replicate; lia|lia].
Qed.

Lemma increments_exact_witness :
  exists st' msg,
    Nat.iter 3 (fun r => rbind r (fun st => Increment (fun _ => None) st "m" ∅ "@every 1m" false false)) (Ok demo_stats) = Ok st' /\
    snd (fire 5000000 0 st') = Some msg /\ msg_metric msg = "m" /\ msg_value msg = f64_of_Z 3.
Proof.
  apply (increments_exact (fun _ => None) demo_stats "m" ∅ "@every 1m" false false 3 5000000);
    [reflexivity|reflexivity|lia|reflexivity].
Defined.

Definition min_of (acc v : float64) : float64 := if f64_ltb v acc then v else acc.

Lemma updated_min p vs :
  aggregation p = "min" -> valNull p = 0 ->
  updated p vs = set_value_bits (foldl min_of (value p) vs) 0 p.
Proof.
  revert p. induction vs as [|v vs IH]; intros p Ha Hn; simpl.
  { unfold set_value_bits. rewrite <- Hn. by destruct p. }
  assert (Hs : aggregate v p = set_value_bits (min_of (value p) v) 0 p).
  { unfold aggregate, IsValueNull, min_of. rewrite Ha, Hn. cbn [String.eqb Ascii.eqb Bool.eqb Z.eqb negb].
    unfold GetValue, SetValue. cbn. destruct (f64_ltb v (value p)); [done|].
    unfold set_value_bits. rewrite <- Hn. by destruct p. }
  rewrite Hs, IH by done. done.
Qed.

(** A ["min"] point reports the minimum: after any non-empty series of
    values without NaN on a new metric, the message carries one of the values
    and none is smaller; the first value replaces the initial zero. *)
Theorem min_reported cron_Parse st m tg itv keep nullable vs nano :
  points st !! point_key m tg = None -> cron_Parse itv = None ->
  vs <> [] -> Forall (fun v => f64_is_nan v = false) vs ->
  exists st' msg, value_adds cron_Parse m tg "min" itv keep nullable st vs = Ok st' /\
    snd (fire nano (length (store st)) st') = Some msg /\
    msg_value msg ∈ vs /\ forall v, v ∈ vs -> f64_ltb v (msg_value msg) = false.
Proof.
  intros Hk Hc Hv Hnan.
  rewrite (value_adds_fresh cron_Parse st m tg "min" itv keep nullable vs Hk Hc ltac:(set_solver) Hv).
  destruct (Run nano (updated (fresh_point st m tg "min" itv keep nullable) vs)) as [msg p'] eqn:HR.
  destruct (fire_fresh st m tg "min" itv keep nullable nano vs _ _ HR _ eq_refl) as (st'' & Hf & _).
  destruct vs as [|v0 vs]; [done|]. apply Forall_cons in Hnan as [Hv0 Hnan].
  change (updated ?p (v0 :: vs)) with (updated (SetValue v0 p) vs) in HR.
  rewrite updated_min in HR by done. unfold Run, pre, IsValueNull in HR. cbn in HR.
  rewrite andb_false_r in HR. injection HR as <- _.
  eexists _, _. rewrite Hf. split_and!; [done..|apply foldl_extreme_mem|].
  intros v Hin. apply foldl_extreme_bound with (ok := fun v => f64_is_nan v = false); eauto with go.
Qed.

Lemma min_reported_witness :
  exists st' msg,
    value_adds (fun _ => None) "m" ∅ "min" "@every 1m" false false demo_stats [f64_of_Z 5; f64_of_Z 3; f64_of_Z 4] = Ok st' /\
    snd (fire 0 0 st') = Some msg /\ msg_value msg ∈ [f64_of_Z 5; f64_of_Z 3; f64_of_Z 4].
Proof.
  destruct (min_reported (fun _ => None) demo_stats "m" ∅ "@every 1m" false false
    [f64_of_Z 5; f64_of_Z 3; f64_of_Z 4] 0) as (st' & msg & H1 & H2 & H3 & _);
    [vm_compute; reflexivity|reflexivity|discriminate|repeat constructor|].
  exists st', msg. split; [exact H1|split; [exact H2|exact H3]].
Defined.

(** A ["max"] point never sees values that are not positive.  The initial
    zero is compared even though the point is null: after any series of values
    none of which is above zero the point is exactly as new, so a non-nullable
    metric sends nothing and a nullable one sends a zero that was never added. *)
Theorem max_loses_nonpositive cron_Parse st m tg itv keep nullable vs nano :
  points st !! point_key m tg = None -> cron_Parse itv = None -> vs <> [] ->
  Forall (fun v => f64_ltb f64_zero v = false) vs ->
  exists st' st'', value_adds cron_Parse m tg "max" itv keep nullable st vs = Ok st' /\
    store st' = store st ++ [fresh_point st m tg "max" itv keep nullable] /\
    fire nano (length (store st)) st' = (st'',
      if nullable then Some (mkMessage m (tg ∪ st_tags st) f64_zero (Z.quot nano 1000000)) else None).
Proof.
  intros Hk Hc Hv Hpos.
  assert (Hp : updated (fresh_point st m tg "max" itv keep nullable) vs = fresh_point st m tg "max" itv keep nullable).
  { clear Hv. induction Hpos as [|v vs Hz _ IH]; [done|]. simpl. unfold updated in *. simpl. rewrite <- IH at 2. f_equal. unfold aggregate. cbn. by rewrite Hz. }
  pose proof (value_adds_fresh cron_Parse st m tg "max" itv keep nullable vs Hk Hc ltac:(set_solver) Hv) as Hadd.
  destruct (Run nano (updated (fresh_point st m tg "max" itv keep nullable) vs)) as [msg p'] eqn:HR.
  destruct (fire_fresh st m tg "max" itv keep nullable nano vs _ _ HR _ eq_refl) as (st'' & Hf & _).
  rewrite Hp in *. eexists _, st''. split_and!; [exact Hadd|done|].
  rewrite Hf. f_equal. by destruct nullable; injection HR as <- _.
Qed.

Definition f64_minus_five : float64 := Float64frombits 0xc014000000000000.

Lemma max_loses_nonpositive_witness :
  exists st' st'',
    value_adds (fun _ => None) "m" ∅ "max" "@every 1m" false false demo_stats [f64_minus_five] = Ok st' /\
    fire 0 0 st' = (st'', None).
Proof.
  destruct (max_loses_nonpositive (fun _ => None) demo_stats "m" ∅ "@every 1m" false false [f64_minus_five] 0)
    as (st' & st'' & H1 & _ & H2);
    [vm_compute; reflexivity|reflexivity|discriminate|repeat constructor|].
  exists st', st''. split; [exact H1|exact H2].
Defined.

(** ** Keys *)

Lemma key_perm m o1 o2 : o1 ≡ₚ o2 -> keyFromMetricID m o1 = keyFromMetricID m o2.
Proof.
  intros Hp. unfold keyFromMetricID. f_equal. f_equal.
  apply (go_sort_proper _ _ string_order); [by apply Forall_forall|by rewrite Hp].
Qed.

(** The key of a metric does not depend on the iteration order of its tags,
    so equal metric and tags always find the same point: a second [getPoint]
    changes nothing, whatever aggregation, interval and flags it asks for. *)
Theorem getPoint_stable cron_Parse st m tg agg itv keep nullable st' l order :
  order ≡ₚ map_to_list tg ->
  getPoint cron_Parse st m tg agg itv keep nullable = Ok (st', l) ->
  points st' !! keyFromMetricID m order = Some l /\
  forall agg' itv' keep' nullable', getPoint cron_Parse st' m tg agg' itv' keep' nullable' = Ok (st', l).
Proof.
  intros Hp Hg. rewrite (key_perm m _ _ Hp). unfold getPoint in *.
  assert (Hk : points st' !! keyFromMetricID m (map_to_list tg) = Some l).
  { destruct (points st !! _) as [l0|] eqn:E; [by simplify_eq|].
    destruct (cron_Parse itv); [done|]. case_bool_decide; [|done]. simplify_eq. apply lookup_insert_eq. }
  split; [done|]. intros. by rewrite Hk.
Qed.

Lemma getPoint_stable_witness :
  let tg : gmap string string := {["b" := "2"; "a" := "1"]} in
  exists st' l, getPoint (fun _ => None) demo_stats "m" tg "sum" "@every 1m" false false = Ok (st', l) /\
    points st' !! keyFromMetricID "m" [("b", "2"); ("a", "1")] = Some l.
Proof.
  intros tg. eexists _, _. split; [reflexivity|].
  eapply (getPoint_stable (fun _ => None) demo_stats "m" tg "sum" "@every 1m" false false);
    [|reflexivity].
  apply NoDup_Permutation; [repeat constructor; set_solver|apply NoDup_map_to_list|].
  intros [k v]. vm_compute. set_solver.
Defined.

(** Different metrics can share a point.  The key joins [k=v] pairs with
    [", "] without quoting, so a value that contains the separator is read as
    several tags: the two tag maps below are different, and once the first one's
    point exists, [getPoint] for the second returns it. *)
Theorem metric_keys_collide cron_Parse st m k v k' v' l agg itv keep nullable :
  k <> k' -> string_ltb (merged_tag (k, v)) (merged_tag (k', v')) = true ->
  let tg1 : gmap string string := {[k := v +:+ ", " +:+ merged_tag (k', v')]} in
  let tg2 : gmap string string := {[k := v; k' := v']} in
  tg1 <> tg2 /\
  (points st !! point_key m tg1 = Some l ->
   getPoint cron_Parse st m tg2 agg itv keep nullable = Ok (st, l)).
Proof.
  intros Hne Hlt tg1 tg2. split.
  - intros Heq. assert (H : tg1 !! k' = tg2 !! k') by by rewrite Heq.
    unfold tg1, tg2 in H. rewrite lookup_singleton_ne in H by done.
    by rewrite lookup_insert_ne, lookup_singleton_eq in H.
  - intros Hl. unfold getPoint. assert (Hk : keyFromMetricID m (map_to_list tg2) = point_key m tg1); [|by rewrite Hk, Hl].
    rewrite (key_perm m (map_to_list tg2) [(k, v); (k', v')]).
    + unfold point_key, tg1. rewrite map_to_list_singleton. unfold keyFromMetricID. cbn [fmap list_fmap].
      assert (Hge : string_ltb (merged_tag (k', v')) (merged_tag (k, v)) = false).
      { destruct (string_ltb (merged_tag (k', v')) _) eqn:E; [|done].
        rewrite <- (string_ltb_irrefl (merged_tag (k, v))). symmetry. by eapply string_ltb_trans. }
      unfold go_sort. rewrite !reverse_cons, !reverse_nil. cbn [app foldr insert_by]. rewrite Hge.
      cbn [app join]. unfold merged_tag. cbn [fst snd].
      by rewrite !string_append_assoc.
    + unfold tg2. rewrite map_to_list_insert, map_to_list_singleton; [done|by apply lookup_singleton_None].
Qed.

Definition demo_collision : Stats :=
  with_points demo_stats [] {[point_key "m" {["a" := "x, b=y"]} := 7%nat]} [].

Lemma metric_keys_collide_witness :
  getPoint (fun _ => None) demo_collision "m" {["a" := "x"; "b" := "y"]} "sum" "@every 1m" false false
  = Ok (demo_collision, 7%nat).
Proof.
  apply (metric_keys_collide (fun _ => None) demo_collision "m" "a" "x" "b" "y" 7 "sum" "@every 1m" false false);
    [discriminate|reflexivity|vm_compute; reflexivity].
Defined.

(** ** The HTTP client *)

Definition received (evs : list http_event) : list message :=
  omap (fun ev => match ev with GotMessage m => Some m | Tick _ _ => None end) evs.

Lemma clientHTTP_iter_ok st ev :
  terminate st = false ->
  exists st' out, clientHTTP_iter st ev = Some (st', out) /\ terminate st' = false /\
    concat out.*1 ++ hBuffer st' = hBuffer st ++ received [ev] /\
    (marshals (hBuffer st) = false -> out = [] /\ hBuffer st' = hBuffer st ++ received [ev]).
Proof.
  intros Ht. unfold clientHTTP_iter, select_HTTP. rewrite Ht.
  assert (Hn : forall b : list message, b = b ++ received [Tick true None]) by (intros; by rewrite app_nil_r).
  destruct ev as [m|ok do_]; [by eexists _, _; split_and!|].
  destruct (marshals (hBuffer st)); simpl; [destruct ok; simpl; [destruct do_ as [status|]|]|];
    eexists _, _; split_and!; try done; rewrite <- ?Hn; try done; by rewrite ?app_nil_r.
Qed.

Lemma marshals_app ms ms' : marshals ms = false -> marshals (ms ++ ms') = false.
Proof. unfold marshals. rewrite forallb_app. by intros ->. Qed.

(** The HTTP client keeps every message in order, and one message can stop
    it for good.  While it is not terminated, whatever the server and the timer
    do, the batches it got a response for followed by the buffer are the
    messages received, none lost, repeated or reordered.  But once the buffer
    holds a NaN or an infinity, which [json.Marshal] refuses, no tick sends
    anything any more and the buffer only grows. *)
Theorem http_client_conserves st evs st' out :
  terminate st = false -> clientHTTP st evs = (st', out) ->
  concat out.*1 ++ hBuffer st' = hBuffer st ++ received evs /\
  (marshals (hBuffer st) = false -> out = [] /\ hBuffer st' = hBuffer st ++ received evs).
Proof.
  revert st st' out. induction evs as [|ev evs IH]; intros st st' out Ht H; simpl in H.
  { simplify_eq. simpl. by rewrite app_nil_r. }
  destruct (clientHTTP_iter_ok st ev Ht) as (st1 & out1 & E & Ht1 & Hc & Hbad).
  rewrite E in H. destruct (clientHTTP st1 evs) as [st2 out2] eqn:E2. simplify_eq.
  destruct (IH st1 st' out2 Ht1 E2) as [Hc2 Hbad2].
  assert (Hr : received (ev :: evs) = received [ev] ++ received evs) by by destruct ev.
  rewrite Hr, app_assoc. split.
  - rewrite fmap_app, concat_app, <- app_assoc, Hc2, app_assoc. by rewrite Hc.
  - intros Hm. destruct (Hbad Hm) as [-> Hb]. rewrite <- Hb. simpl. apply Hbad2.
    rewrite Hb. by apply marshals_app.
Qed.

Lemma http_client_conserves_witness :
  let bad := mkMessage "m" ∅ (Float64frombits nan_bits) 5 in
  let good := mkMessage "m" ∅ (f64_of_Z 1) 5 in
  let r := clientHTTP (set_hBuffer demo_stats [bad]) [Tick true (Some 204); GotMessage good; Tick true (Some 204)] in
  r.2 = [] /\ hBuffer r.1 = [bad; good].
Proof.
  intros bad good r.
  apply (http_client_conserves (set_hBuffer demo_stats [bad])
    [Tick true (Some 204); GotMessage good; Tick true (Some 204)] r.1 r.2); reflexivity.
Defined.

(** A point that exists before [start] has run gets a second cron entry, and so
    is sent twice per interval. *)
Example start_duplicates_jobs :
  match getPoint (fun _ => None) demo_stats "m" ∅ "sum" "@every 1m" false false with
  | Ok (st, l) => cron_jobs (start_jobs [l] st) = [("@every 1m", l); ("@every 1m", l)]
  | _ => False
  end.
Proof. vm_compute. reflexivity. Qed.
