(* ===== verification/SnitchState.v ===== *)
(** * The state of package [snitch]: well-formedness and points by key

    The invariant of [Stats] under every exported call, every cron firing and
    the internal loops, and the effect of a call on the point of a key, which
    the clients of the package ([Rip]) use. *)

From stdpp Require Import base gmap strings list.
From Stdlib Require Import ZArith Lia.
From S2P Require Import Prelude Float64 GoValue Snitch.

Local Open Scope Z_scope.

(** ** Well-formed points and statistics *)

Record point_wf (p : CustomPoint) : Prop := {
  pw_aggregation : aggregation p ∈ aggregationsContants;
  pw_null : valNull p = 0 \/ valNull p = 1;
  pw_count : int64_range (count p);
}.

(** The map and the cron table only hold locations of the store, the map is a
    bijection with the store, and a cron entry runs at the interval of its
    point. *)
Record stats_wf (st : Stats) : Prop := {
  wf_store : Forall point_wf (store st);
  wf_bound k l : points st !! k = Some l -> (l < length (store st))%nat;
  wf_inj k k' l : points st !! k = Some l -> points st !! k' = Some l -> k = k';
  wf_onto l : (l < length (store st))%nat -> exists k, points st !! k = Some l;
  wf_jobs itv l : (itv, l) ∈ cron_jobs st -> interval <$> store st !! l = Some itv;
}.

(** The calls of the package that change the statistics, and what else touches
    them: cron firings, the collector of the runtime, the senders and the
    goroutine of [start]. *)
Inductive stats_step (cron_Parse : string -> option string) (st : Stats) : Stats -> Prop :=
| step_ValueAdd m tg agg itv keep nullable v st' :
    ValueAdd cron_Parse st m tg agg itv keep nullable v = Ok st' -> stats_step cron_Parse st st'
| step_SetValue m tg itv keep nullable v st' :
    Stats_SetValue cron_Parse st m tg itv keep nullable v = Ok st' -> stats_step cron_Parse st st'
| step_runtime n st' :
    runtimeLoop_iter cron_Parse st n = Some st' -> stats_step cron_Parse st st'
| step_fire nano itv l :
    (itv, l) ∈ cron_jobs st -> stats_step cron_Parse st (fire nano l st).1
| step_start order :
    order ≡ₚ (map_to_list (points st)).*2 -> stats_step cron_Parse st (start_jobs order st)
| step_client ev st' out :
    clientHTTP_iter st ev = Some (st', out) -> stats_step cron_Parse st st'
| step_Terminate : stats_step cron_Parse st (Terminate st).

(** ** Updates of one point keep the invariant *)

Lemma new_point_wf st m tg agg itv keep nullable :
  agg ∈ aggregationsContants -> point_wf (new_point st m tg agg itv keep nullable).
Proof. intros H. split; [done|by right|]. unfold new_point, int64_range, two63. simpl. lia. Qed.

(** What an update of a point may do. *)
Record point_update (f : CustomPoint -> CustomPoint) : Prop := {
  pu_wf p : point_wf p -> point_wf (f p);
  pu_interval p : interval (f p) = interval p;
}.

Lemma SetValue_update v : point_update (SetValue v).
Proof. split; [|done]. intros p [? ? ?]. split; simpl; auto. Qed.

Lemma point_ValueAdd_update v : point_update (point_ValueAdd v).
Proof. split; [|done]. intros p [? ? ?]. split; simpl; auto. apply int64_of_Z_range. Qed.

Lemma id_update : point_update id.
Proof. by split. Qed.

Lemma post_update : point_update post.
Proof.
  split; intros p; unfold post; destruct (_ || _); try done.
  intros [? ? ?]. split; simpl; auto. unfold int64_range, two63. lia.
Qed.

#[local] Hint Resolve SetValue_update point_ValueAdd_update id_update post_update : core.

Lemma update_cases (f : CustomPoint -> CustomPoint) :
  (forall p, exists g, point_update g /\ f p = g p) -> point_update f.
Proof.
  intros H. split; intros p; destruct (H p) as (g & [Hw Hi] & E); rewrite E; auto.
Qed.

Lemma aggregate_update v : point_update (aggregate v).
Proof. apply update_cases. intros p. unfold aggregate. repeat case_match; eauto; by exists id. Qed.

Lemma pre_update : point_update (fun p => (pre p).2).
Proof. apply update_cases. intros p. unfold pre. repeat case_match; simpl; eauto; by exists id. Qed.

Lemma Run_update nano : point_update (fun p => (Run nano p).2).
Proof.
  apply update_cases. intros p. exists (fun p => post (pre p).2). split.
  - destruct pre_update as [H1 H2], post_update as [H3 H4]. split; auto. intros q. by rewrite H4.
  - unfold Run. by destruct (pre p).
Qed.

(** ** The store *)

Lemma on_point_wf st l f : point_update f -> stats_wf st -> stats_wf (on_point st l f).
Proof.
  intros [Hw Hi] [H1 H2 H3 H4 H5]. split; simpl.
  - apply Forall_alter; auto.
  - intros k l'. rewrite length_alter. apply H2.
  - apply H3.
  - intros l'. rewrite length_alter. apply H4.
  - intros itv l' Hin. destruct (decide (l = l')) as [<-|Hne].
    + rewrite list_lookup_alter_eq, <- (H5 _ _ Hin). destruct (store st !! l); simpl; [by rewrite Hi|done].
    + rewrite list_lookup_alter_ne by done. by apply H5.
Qed.

Lemma wf_fresh st k : stats_wf st -> points st !! k <> Some (length (store st)).
Proof. intros Hst H%(wf_bound st Hst). lia. Qed.

Lemma getPoint_wf cron_Parse st m tg agg itv keep nullable st' l :
  getPoint cron_Parse st m tg agg itv keep nullable = Ok (st', l) -> stats_wf st ->
  stats_wf st' /\ points st' !! keyFromMetricID m (map_to_list tg) = Some l.
Proof.
  unfold getPoint. intros Hg Hst. destruct (points st !! _) as [l0|] eqn:Hk.
  { by simplify_eq. }
  destruct (cron_Parse itv); [done|]. case_bool_decide as Ha; [|done]. simplify_eq. simpl.
  split; [|by rewrite lookup_insert_eq]. pose proof Hst as [H1 H2 H3 H4 H5]. split; simpl.
  - apply Forall_app; split; [done|]. constructor; [by apply new_point_wf|done].
  - intros k l. rewrite lookup_insert_Some, length_app. simpl. intros [[_ <-]|[_ H%H2]]; lia.
  - intros k k' l. rewrite !lookup_insert_Some. intros [[<- <-]|[? Hl]] [[<- E]|[? Hl']]; try done.
    + by apply wf_fresh in Hl'.
    + subst. by apply wf_fresh in Hl.
    + by eapply H3.
  - intros l. rewrite length_app. simpl. intros Hl.
    destruct (decide (l = length (store st))) as [->|Hne].
    { eexists. apply lookup_insert_eq. }
    destruct (H4 l ltac:(lia)) as [k Hlk]. exists k. rewrite lookup_insert_ne; [done|]. by intros <-; simplify_eq.
  - intros i l. rewrite elem_of_app, list_elem_of_singleton. intros [Hin|[= -> ->]].
    + pose proof (H5 _ _ Hin) as Hi. destruct (store st !! l) eqn:El; [|done].
      by rewrite (lookup_app_l_Some _ _ _ _ El).
    + by rewrite lookup_app_r, Nat.sub_diag by done.
Qed.

Lemma ValueAdd_wf cron_Parse st m tg agg itv keep nullable v st' :
  ValueAdd cron_Parse st m tg agg itv keep nullable v = Ok st' -> stats_wf st -> stats_wf st'.
Proof.
  unfold ValueAdd. destruct (getPoint _ _ _ _ _ _ _ _) as [[s l]| |] eqn:Hg; [|done..]. intros [= <-] Hst.
  apply on_point_wf; [apply aggregate_update|]. by eapply getPoint_wf in Hg as [??].
Qed.

Lemma fire_wf nano l st : stats_wf st -> stats_wf (fire nano l st).1.
Proof.
  intros Hst. unfold fire. destruct (store st !! l) as [p|] eqn:Hl; [|done].
  destruct (Run nano p) as [msg p'] eqn:Hr. simpl.
  replace (<[l:=p']> (store st)) with (alter (fun p => (Run nano p).2) l (store st)).
  { apply (on_point_wf st l); [apply Run_update|done]. }
  rewrite list_insert_alter. apply list_alter_ext; [|done]. intros x Hx. simplify_eq. by rewrite Hr.
Qed.

Lemma start_jobs_wf order st :
  order ≡ₚ (map_to_list (points st)).*2 -> stats_wf st -> stats_wf (start_jobs order st).
Proof.
  intros Ho Hst. pose proof Hst as [H1 H2 H3 H4 H5]. split; try done. simpl. intros itv l.
  rewrite elem_of_app. intros [Hin|Hin]; [by apply H5|].
  apply list_elem_of_fmap in Hin as (l' & [= -> ->] & Hl).
  rewrite Ho in Hl. apply list_elem_of_fmap in Hl as ([k l] & -> & Hk). simpl in *.
  apply elem_of_map_to_list, H2 in Hk. destruct (lookup_lt_is_Some_2 _ _ Hk) as [p Hp]. by rewrite Hp.
Qed.

Lemma New_wf ParseDuration hostname s st : New ParseDuration hostname s = Ok st -> stats_wf st.
Proof.
  unfold New. intros H. repeat case_match; simplify_eq.
  all: split; simpl; [done|by intros ? ?; rewrite lookup_empty|by intros ? ? ?; rewrite lookup_empty|lia|].
  all: by intros ? ? ?%elem_of_nil.
Qed.

(** C12. The type invariant of the statistics: [New] establishes it and every call
    of the package, every cron firing and the internal loops preserve it: the
    points map and the cron table only hold points of the store, one key per
    point and every point reachable by a key, each cron entry at the interval of
    its point, every point with one of the four aggregations, a 0/1 null flag
    and a counter of 64 bits. *)
Theorem stats_invariant ParseDuration hostname s cron_Parse st0 st :
  New ParseDuration hostname s = Ok st0 -> rtc (stats_step cron_Parse) st0 st -> stats_wf st.
Proof.
  intros H0%New_wf Hr. revert H0.
  apply (rtc_ind_l (fun a => stats_wf a -> stats_wf st)) with (3 := Hr); [done|].
  clear. intros a b Hab _ IH Ha. apply IH. destruct Hab as
    [m tg agg itv keep nullable v b H|m tg itv keep nullable v b H|n b H|nano itv l H|order H|ev b out H|].
  - by eapply ValueAdd_wf.
  - unfold Stats_SetValue in H. destruct (getPoint _ _ _ _ _ _ _ _) as [[x l]| |] eqn:Hg; [|done..].
    simplify_eq. apply on_point_wf; [apply SetValue_update|]. by eapply getPoint_wf in Hg as [??].
  - unfold runtimeLoop_iter in H. repeat case_match; simplify_eq; try done. by eapply ValueAdd_wf.
  - by apply fire_wf.
  - by apply start_jobs_wf.
  - unfold clientHTTP_iter, select_HTTP in H. destruct Ha. repeat case_match; simplify_eq; by split.
  - destruct Ha. by split.
Qed.

Definition demo_settings : Settings :=
  mkSettings "localhost" 8080 "udp" "" "" {[ "ksid" := "stats" ]} "" false false.

Definition demo_new : Stats :=
  mkStats "localhost" 8080 (<["host" := "h"]> {[ "ksid" := "stats" ]}) "udp" 0 0 [] ∅ [] [] false.

Lemma stats_invariant_witness :
  exists st, Increment (fun _ => None) demo_new "m" ∅ "@every 1m" false true = Ok st /\
    New (fun _ => inr 0) (inr "h") demo_settings = Ok demo_new /\ stats_wf (Terminate st).
Proof.
  eexists. split; [reflexivity|]. split; [reflexivity|].
  eapply (stats_invariant (fun _ => inr 0) (inr "h") demo_settings (fun _ => None) demo_new); [reflexivity|].
  eapply rtc_l; [eapply (step_ValueAdd _ _ "m" ∅ "sum" "@every 1m" false true); reflexivity|].
  apply rtc_once, step_Terminate.
Defined.

(** ** The point of a key *)

Definition point_at (st : Stats) (k : string) : option CustomPoint :=
  points st !! k ≫= fun l => store st !! l.

Lemma point_at_is_Some st k : stats_wf st -> is_Some (points st !! k) -> is_Some (point_at st k).
Proof.
  intros Hst [l Hl]. unfold point_at. rewrite Hl. simpl. apply lookup_lt_is_Some_2. by eapply wf_bound.
Qed.

Lemma point_at_on_point st k k' l f :
  stats_wf st -> points st !! k = Some l ->
  point_at (on_point st l f) k' = if decide (k = k') then f <$> point_at st k' else point_at st k'.
Proof.
  intros Hst Hk. unfold point_at. simpl. destruct (decide (k = k')) as [<-|Hne].
  - rewrite Hk. simpl. by rewrite list_lookup_alter_eq.
  - destruct (points st !! k') as [l'|] eqn:Hk'; [|done]. simpl. rewrite list_lookup_alter_ne; [done|].
    intros ->. apply Hne. by eapply wf_inj.
Qed.

(** What a [ValueAdd] leaves at a key. *)
Lemma ValueAdd_point_at cron_Parse st m tg agg itv keep nullable v st' k :
  stats_wf st -> ValueAdd cron_Parse st m tg agg itv keep nullable v = Ok st' ->
  point_at st' k =
  if decide (keyFromMetricID m (map_to_list tg) = k)
  then Some (aggregate v (default (new_point st m tg agg itv keep nullable) (point_at st k)))
  else point_at st k.
Proof.
  intros Hst. unfold ValueAdd. destruct (getPoint _ _ _ _ _ _ _ _) as [[s l]| |] eqn:Hg; [|done..].
  intros [= <-]. destruct (getPoint_wf _ _ _ _ _ _ _ _ _ _ Hg Hst) as [Hs Hl].
  rewrite (point_at_on_point s (keyFromMetricID m (map_to_list tg))) by done.
  unfold getPoint in Hg. destruct (points st !! keyFromMetricID _ _) as [l0|] eqn:Hk.
  - simplify_eq. destruct (decide _) as [<-|]; [|done].
    destruct (point_at_is_Some s (keyFromMetricID m (map_to_list tg)) Hst ltac:(by rewrite Hk)) as [p Hp]. by rewrite Hp.
  - destruct (cron_Parse itv); [done|]. case_bool_decide; [|done]. simplify_eq. unfold point_at. simpl.
    destruct (decide _) as [<-|Hne].
    + rewrite lookup_insert_eq, Hk. simpl. by rewrite lookup_app_r, Nat.sub_diag by done.
    + rewrite lookup_insert_ne by done. destruct (points st !! k) as [l'|] eqn:Hk'; [|done]. simpl.
      apply lookup_app_l. by eapply wf_bound.
Qed.
