(* ===== verification/SnitchConc.v ===== *)
(** * Package [snitch], atomic step by atomic step

    The calls of [Snitch] are one transition each; here a goroutine in
    [Stats.ValueAdd] and a cron goroutine in [CustomPoint.Run] are programs
    whose steps are the single loads, stores and compare-and-swaps of
    [custom_point.go] and the map accesses of [getPoint], and a schedule (the
    list of the threads that move) interleaves any number of them. *)

From stdpp Require Import base gmap strings list.
From Stdlib Require Import ZArith Lia.
From S2P Require Import Prelude Float64 GoValue Snitch SnitchState.

Local Open Scope Z_scope.

(** ** A goroutine in [Stats.ValueAdd] *)

Record call : Type := mkCall {
  c_metric : string;
  c_tags : gmap string string;
  c_aggregation : string;
  c_interval : string;
  c_keep : bool;
  c_nullable : bool;
  c_value : float64;
}.

(** Where it stands: in [getPoint], in [CustomPoint.ValueAdd], in the cases
    ["max"] and ["min"], or in [SetValue]. *)
Inductive upc : Type :=
| GLoad                                 (* st.points.Load(key) *)
| GStore                                (* st.points.Store(key, metric) *)
| GAddJob (l : nat)                     (* st.cron.AddJob(interval, metric) *)
| UDispatch (l : nat)                   (* switch p.aggregation *)
| ALoad (l : nat)                       (* ob := atomic.LoadUint64(&p.value) *)
| ACas (l : nat) (ob : float64)         (* atomic.CompareAndSwapUint64(&p.value, ob, nb) *)
| ACount (l : nat)                      (* atomic.AddInt64(&p.count, 1) *)
| ANull (l : nat)                       (* atomic.StoreUint32(&p.valNull, 0) *)
| MaxGet (l : nat)                      (* if p.GetValue() < v *)
| MinNull (l : nat)                     (* if p.IsValueNull() *)
| MinGet (l : nat)                      (* else if p.GetValue() > v *)
| SValue (l : nat)                      (* atomic.StoreUint64(&p.value, v) *)
| UDone
| UErr (e : snitch_error).

(** The single stores. *)
Definition store_value (v : float64) (p : CustomPoint) : CustomPoint := set_value_bits v (valNull p) p.
Definition store_null (n : Z) (p : CustomPoint) : CustomPoint := set_value_bits (value p) n p.
Definition add_count (p : CustomPoint) : CustomPoint := SetCount (int64_of_Z (count p + 1)) p.

Section step.
Context (cron_Parse : string -> option string).

Definition call_key (c : call) : string := keyFromMetricID (c_metric c) (map_to_list (c_tags c)).

Definition call_point (st : Stats) (c : call) : CustomPoint :=
  new_point st (c_metric c) (c_tags c) (c_aggregation c) (c_interval c) (c_keep c) (c_nullable c).

(** One step; the [CustomPoint] at [l] always exists. *)
Definition ustep (c : call) (pc : upc) (st : Stats) : Stats * upc :=
  let at_point (l : nat) (k : CustomPoint -> Stats * upc) : Stats * upc :=
    match store st !! l with Some p => k p | None => (st, pc) end in
  match pc with
  | GLoad =>
      match points st !! call_key c with
      | Some l => (st, UDispatch l)
      | None =>
          match cron_Parse (c_interval c) with
          | Some e => (st, UErr (ErrCron e))
          | None => if bool_decide (c_aggregation c ∈ aggregationsContants)
                    then (st, GStore) else (st, UErr ErrUnknownAggregation)
          end
      end
  | GStore =>
      let l := length (store st) in
      (with_points st (store st ++ [call_point st c]) (<[call_key c := l]> (points st)) (cron_jobs st), GAddJob l)
  | GAddJob l =>
      (with_points st (store st) (points st) (cron_jobs st ++ [(c_interval c, l)]), UDispatch l)
  | UDispatch l => at_point l (fun p =>
      (st, if (aggregation p =? "avg")%string then ALoad l
           else if (aggregation p =? "sum")%string then ALoad l
           else if (aggregation p =? "max")%string then MaxGet l
           else if (aggregation p =? "min")%string then MinNull l
           else ALoad l))
  | ALoad l => at_point l (fun p => (st, ACas l (GetValue p)))
  | ACas l ob => at_point l (fun p =>
      if Float64bits (value p) =? Float64bits ob
      then (on_point st l (store_value (f64_add ob (c_value c))), ACount l)
      else (st, ALoad l))
  | ACount l => (on_point st l add_count, ANull l)
  | ANull l => (on_point st l (store_null 0), UDone)
  | MaxGet l => at_point l (fun p => (st, if f64_ltb (GetValue p) (c_value c) then SValue l else UDone))
  | MinNull l => at_point l (fun p => (st, if IsValueNull p then SValue l else MinGet l))
  | MinGet l => at_point l (fun p => (st, if f64_ltb (c_value c) (GetValue p) then SValue l else UDone))
  | SValue l => (on_point st l (store_value (c_value c)), ANull l)
  | UDone => (st, UDone)
  | UErr e => (st, UErr e)
  end.
End step.

(** ** A cron goroutine in [CustomPoint.Run] *)

Inductive rpc : Type :=
| RPre                                  (* if !p.sendOnNull && p.IsValueNull() *)
| RAvgValue                             (* y := p.GetValue() *)
| RAvgCount (y : float64)               (* x := p.GetCount() *)
| RAvgSet (z : float64)                 (* p.SetValue(y / float64(x)) *)
| RAvgNull
| RTimestamp (send : bool)              (* ts := p.GetTimestamp() *)
| RGetValue (ts : Z)                    (* Value: p.GetValue() *)
| RSend (ts : Z) (v : float64)          (* p.sender <- message{...} *)
| RPost                                 (* p.SetValue(0) *)
| RPostNull
| RPostCount                            (* p.SetCount(0) *)
| RPostValue                            (* p.SetValueNull() *)
| RPostSetNull
| RDone.

Definition rstep (nano : Z) (l : nat) (pc : rpc) (st : Stats) : Stats * rpc * option message :=
  match store st !! l with
  | None => (st, pc, None)
  | Some p =>
      match pc with
      | RPre =>
          (st, if negb (sendOnNull p) && IsValueNull p then RTimestamp false
               else if (aggregation p =? "avg")%string then RAvgValue else RTimestamp true, None)
      | RAvgValue => (st, RAvgCount (GetValue p), None)
      | RAvgCount y =>
          (st, if negb (f64_eqb y f64_zero) && negb (GetCount p =? 0)
               then RAvgSet (f64_div y (f64_of_Z (GetCount p))) else RTimestamp true, None)
      | RAvgSet z => (on_point st l (store_value z), RAvgNull, None)
      | RAvgNull => (on_point st l (store_null 0), RTimestamp true, None)
      | RTimestamp send =>
          let ts := if GetTimestamp p =? 0 then Z.quot nano 1000000 else GetTimestamp p in
          (st, if send then RGetValue ts else RPost, None)
      | RGetValue ts => (st, RSend ts (GetValue p), None)
      | RSend ts v => (st, RPost, Some (mkMessage (metric p) (tags p) v ts))
      | RPost =>
          if negb (aggregation p =? "")%string || negb (keepValue p)
          then (on_point st l (store_value f64_zero), RPostNull, None)
          else (st, RDone, None)
      | RPostNull => (on_point st l (store_null 0), RPostCount, None)
      | RPostCount => (on_point st l (SetCount 0), RPostValue, None)
      | RPostValue => (on_point st l (store_value f64_zero), RPostSetNull, None)
      | RPostSetNull => (on_point st l (store_null 1), RDone, None)
      | RDone => (st, RDone, None)
      end
  end.

(** ** Schedules *)

Inductive thread : Type :=
| TUpdate (c : call) (pc : upc)
| TRun (nano : Z) (l : nat) (pc : rpc).

Record conf : Type := mkConf {
  cf_stats : Stats;
  cf_threads : list thread;
  cf_sent : list message;
}.

Section schedules.
Context (cron_Parse : string -> option string).

Definition move (i : nat) (cf : conf) : conf :=
  match cf_threads cf !! i with
  | Some (TUpdate c pc) =>
      let '(st, pc') := ustep cron_Parse c pc (cf_stats cf) in
      mkConf st (<[i := TUpdate c pc']> (cf_threads cf)) (cf_sent cf)
  | Some (TRun nano l pc) =>
      let '(st, pc', m) := rstep nano l pc (cf_stats cf) in
      mkConf st (<[i := TRun nano l pc']> (cf_threads cf)) (cf_sent cf ++ option_list m)
  | None => cf
  end.

Definition run_schedule (s : list nat) (cf : conf) : conf := foldl (fun cf i => move i cf) cf s.
End schedules.

Definition finished (t : thread) : bool :=
  match t with
  | TUpdate _ UDone | TUpdate _ (UErr _) | TRun _ _ RDone => true
  | _ => false
  end.

(** ** One thread alone: the calls of [Snitch] *)

Fixpoint usolo (cron_Parse : string -> option string) (n : nat) (c : call) (pc : upc) (st : Stats) : Stats * upc :=
  match n with
  | O => (st, pc)
  | S n => let x := ustep cron_Parse c pc st in usolo cron_Parse n c x.2 x.1
  end.

Fixpoint rsolo (n : nat) (nano : Z) (l : nat) (pc : rpc) (st : Stats) (sent : list message)
    : Stats * rpc * list message :=
  match n with
  | O => (st, pc, sent)
  | S n => let x := rstep nano l pc st in rsolo n nano l x.1.2 x.1.1 (sent ++ option_list x.2)
  end.

Lemma on_point_on_point st l f g : on_point (on_point st l f) l g = on_point st l (g ∘ f).
Proof. unfold on_point, with_points. simpl. by rewrite list_alter_alter_eq. Qed.

Lemma on_point_ext st l f g :
  (forall p, store st !! l = Some p -> f p = g p) -> on_point st l f = on_point st l g.
Proof. intros H. unfold on_point, with_points. f_equal. by apply list_alter_ext. Qed.

Lemma on_point_same st l f p : store st !! l = Some p -> f p = p -> on_point st l f = st.
Proof.
  intros Hp Hf. rewrite <- (on_point_id st l) at 2. apply on_point_ext. intros q Hq. by simplify_eq.
Qed.

Lemma usolo_S cron_Parse n c pc st :
  usolo cron_Parse (S n) c pc st = usolo cron_Parse n c (ustep cron_Parse c pc st).2 (ustep cron_Parse c pc st).1.
Proof. done. Qed.

Lemma rsolo_S n nano l pc st sent st' pc' m :
  rstep nano l pc st = (st', pc', m) ->
  rsolo (S n) nano l pc st sent = rsolo n nano l pc' st' (sent ++ option_list m).
Proof. intros H. simpl. by rewrite H. Qed.

Lemma usolo_done cron_Parse n c st : usolo cron_Parse n c UDone st = (st, UDone).
Proof. by induction n. Qed.

Lemma usolo_err cron_Parse n c e st : usolo cron_Parse n c (UErr e) st = (st, UErr e).
Proof. by induction n. Qed.

(** A step of a thread alone that reads its point. *)
Ltac solo Hp := rewrite usolo_S; cbn [ustep]; rewrite ?Hp; cbn [fst snd].

Lemma usolo_add cron_Parse n c l p st :
  store st !! l = Some p ->
  usolo cron_Parse (S (S (S (S n)))) c (ALoad l) st = (on_point st l (point_ValueAdd (c_value c)), UDone).
Proof.
  intros Hp. solo Hp. solo Hp. unfold GetValue. rewrite Z.eqb_refl. cbn [fst snd]. solo Hp. solo Hp.
  rewrite !on_point_on_point, usolo_done.
  f_equal. apply on_point_ext. intros q Hq. by simplify_eq.
Qed.

Lemma usolo_set cron_Parse n c l st :
  usolo cron_Parse (S (S n)) c (SValue l) st = (on_point st l (SetValue (c_value c)), UDone).
Proof. rewrite !usolo_S. cbn [ustep fst snd]. by rewrite on_point_on_point, usolo_done. Qed.

(** The rest of the call once its point is known. *)
Lemma usolo_dispatch cron_Parse n c l p st :
  store st !! l = Some p ->
  usolo cron_Parse (S (S (S (S (S n))))) c (UDispatch l) st = (on_point st l (aggregate (c_value c)), UDone).
Proof.
  intros Hp. solo Hp.
  assert (Hu : forall f, f p = aggregate (c_value c) p -> on_point st l f = on_point st l (aggregate (c_value c))).
  { intros f E. apply on_point_ext. intros q Hq. by simplify_eq. }
  assert (Hst : aggregate (c_value c) p = p -> (st, UDone) = (on_point st l (aggregate (c_value c)), UDone)).
  { intros E. by rewrite (on_point_same _ _ _ _ Hp E). }
  assert (Hadd : aggregate (c_value c) p = point_ValueAdd (c_value c) p ->
    usolo cron_Parse (S (S (S (S n)))) c (ALoad l) st = (on_point st l (aggregate (c_value c)), UDone)).
  { intros E. by rewrite (usolo_add _ _ _ _ p), Hu. }
  assert (Hset : aggregate (c_value c) p = SetValue (c_value c) p -> forall k,
    usolo cron_Parse (S (S k)) c (SValue l) st = (on_point st l (aggregate (c_value c)), UDone)).
  { intros E k. by rewrite usolo_set, Hu. }
  unfold aggregate at 1 in Hadd. unfold aggregate at 1 in Hset. unfold aggregate at 1 in Hst.
  destruct (aggregation p =? "avg")%string; [by apply Hadd|].
  destruct (aggregation p =? "sum")%string; [by apply Hadd|].
  destruct (aggregation p =? "max")%string.
  { solo Hp. destruct (f64_ltb (GetValue p) (c_value c)); [by apply Hset|rewrite usolo_done; by apply Hst]. }
  destruct (aggregation p =? "min")%string; [|by apply Hadd].
  solo Hp. destruct (IsValueNull p); [by apply Hset|].
  solo Hp. destruct (f64_ltb (c_value c) (GetValue p)); [by apply Hset|rewrite usolo_done; by apply Hst].
Qed.

Lemma fire_on_point nano l st p :
  store st !! l = Some p ->
  fire nano l st = (on_point st l (fun p => (Run nano p).2), (Run nano p).1).
Proof.
  intros Hp. unfold fire. rewrite Hp. destruct (Run nano p) as [m p'] eqn:HR. f_equal.
  unfold on_point, with_points. f_equal. rewrite list_insert_alter. apply list_alter_ext; [|done].
  intros q Hq. simplify_eq. by rewrite HR.
Qed.

Lemma rsolo_done n nano l st sent : rsolo n nano l RDone st sent = (st, RDone, sent).
Proof.
  revert sent. induction n as [|n IH]; intros sent; [done|]. simpl. unfold rstep.
  destruct (store st !! l); cbn [fst snd option_list]; by rewrite IH, app_nil_r.
Qed.

(** A step of [Run] alone. *)
Ltac rsolo_step Hp :=
  erewrite rsolo_S;
  [|unfold rstep; rewrite ?on_point_on_point; cbn [store on_point with_points];
    rewrite ?list_lookup_alter_eq, ?Hp; cbn [fmap option_fmap option_map]; reflexivity];
  cbn [option_list]; rewrite ?app_nil_r, ?on_point_on_point.

Lemma rsolo_post n nano l p st sent :
  store st !! l = Some p -> rsolo (S (S (S (S (S n))))) nano l RPost st sent = (on_point st l post, RDone, sent).
Proof.
  intros Hp. destruct (negb (aggregation p =? "")%string || negb (keepValue p)) eqn:Hb.
  - erewrite rsolo_S; [|unfold rstep; rewrite Hp, Hb; reflexivity]. do 4 rsolo_step Hp.
    rewrite rsolo_done. do 2 f_equal.
    apply on_point_ext. intros q Hq. simplify_eq. unfold post. by rewrite Hb.
  - erewrite rsolo_S; [|unfold rstep; rewrite Hp, Hb; reflexivity].
    rewrite rsolo_done, app_nil_r. do 2 f_equal. symmetry. apply (on_point_same _ _ _ p); [done|].
    unfold post. by rewrite Hb.
Qed.

(** From the timestamp on. *)
Lemma rsolo_tail n nano l p st (send : bool) f :
  store st !! l = Some p ->
  rsolo (S (S (S (S (S (S (S (S n)))))))) nano l (RTimestamp send) (on_point st l f) [] =
  (on_point st l (post ∘ f), RDone,
   if send then [mkMessage (metric (f p)) (tags (f p)) (GetValue (f p))
                   (if GetTimestamp (f p) =? 0 then Z.quot nano 1000000 else GetTimestamp (f p))] else []).
Proof.
  intros Hp. assert (Hf : store (on_point st l f) !! l = Some (f p)) by (simpl; by rewrite list_lookup_alter_eq, Hp).
  rewrite <- on_point_on_point. destruct send.
  - do 3 (erewrite rsolo_S; [|unfold rstep; rewrite Hf; reflexivity]).
    rewrite (rsolo_post _ _ _ _ _ _ Hf). done.
  - erewrite rsolo_S; [|unfold rstep; rewrite Hf; reflexivity].
    by rewrite (rsolo_post _ _ _ _ _ _ Hf).
Qed.

Lemma rsolo_fire nano l p st :
  store st !! l = Some p ->
  rsolo 13 nano l RPre st [] = ((fire nano l st).1, RDone, option_list (fire nano l st).2).
Proof.
  intros Hp. rewrite (fire_on_point nano l st p Hp). cbn [fst snd].
  assert (H : forall (send : bool) f, pre p = (send, f p) ->
    (on_point st l (post ∘ f), RDone,
     if send then [mkMessage (metric (f p)) (tags (f p)) (GetValue (f p))
                     (if GetTimestamp (f p) =? 0 then Z.quot nano 1000000 else GetTimestamp (f p))] else []) =
    (on_point st l (fun p => (Run nano p).2), RDone, option_list (Run nano p).1)).
  { intros send f E. f_equal; [f_equal; apply on_point_ext; intros q Hq; simplify_eq|];
      unfold Run; rewrite E; [done|by destruct send]. }
  assert (Hid : forall n (send : bool), pre p = (send, p) ->
    rsolo (S (S (S (S (S (S (S (S n)))))))) nano l (RTimestamp send) st [] =
    (on_point st l (fun p => (Run nano p).2), RDone, option_list (Run nano p).1)).
  { intros n send E. rewrite <- (on_point_id st l) at 1. rewrite (rsolo_tail n nano l p st send id Hp). by apply H. }
  erewrite rsolo_S; [|unfold rstep; rewrite Hp; reflexivity]. unfold pre in H, Hid.
  destruct (negb (sendOnNull p) && IsValueNull p); [by apply Hid|].
  destruct (aggregation p =? "avg")%string; [|by apply Hid].
  do 2 (erewrite rsolo_S; [|unfold rstep; rewrite Hp; reflexivity]).
  destruct (negb (f64_eqb (GetValue p) f64_zero) && negb (GetCount p =? 0)); [|by apply Hid].
  do 2 rsolo_step Hp. rewrite (rsolo_tail _ nano l p st true _ Hp). by apply (H true).
Qed.

Lemma usolo_call cron_Parse c st n :
  stats_wf st ->
  usolo cron_Parse (S (S (S (S (S (S (S (S n)))))))) c GLoad st =
    match ValueAdd cron_Parse st (c_metric c) (c_tags c) (c_aggregation c) (c_interval c) (c_keep c) (c_nullable c)
            (c_value c) with
    | Ok st' => (st', UDone)
    | Err e => (st, UErr e)
    | Panic => (st, GLoad)
    end.
Proof.
  intros Hst. unfold ValueAdd. destruct (getPoint _ _ _ _ _ _ _ _) as [[st' l']| |] eqn:Hg.
  - destruct (getPoint_wf _ _ _ _ _ _ _ _ _ _ Hg Hst) as [Hs' Hk'].
    destruct (lookup_lt_is_Some_2 _ _ (wf_bound _ Hs' _ _ Hk')) as [p Hp].
    unfold getPoint in Hg. fold (call_key c) in Hg, Hk'.
    rewrite usolo_S. cbn [ustep]. destruct (points st !! call_key c) as [l0|].
    { simplify_eq. cbn [fst snd]. by rewrite (usolo_dispatch _ _ _ _ p). }
    destruct (cron_Parse (c_interval c)); [done|]. destruct (bool_decide _); [|done]. simplify_eq.
    cbn [fst snd]. do 2 (rewrite usolo_S; cbn [ustep fst snd]). by rewrite (usolo_dispatch _ _ _ _ p).
  - unfold getPoint in Hg. fold (call_key c) in Hg. rewrite usolo_S. cbn [ustep].
    destruct (points st !! call_key c); [done|].
    destruct (cron_Parse (c_interval c)); [|destruct (bool_decide _); [done|]]; simplify_eq; apply usolo_err.
  - unfold getPoint in Hg. by repeat case_match.
Qed.

(** C22. The atomic steps implement the calls: a goroutine in [ValueAdd] that is
    not interrupted ends within 8 steps with the state, or the error, of the
    call as one transition, and a cron goroutine within 13 steps with the state
    and the message of [fire]. *)
Theorem solo_refines cron_Parse c st nano l :
  stats_wf st -> (l < length (store st))%nat ->
  usolo cron_Parse 8 c GLoad st =
    match ValueAdd cron_Parse st (c_metric c) (c_tags c) (c_aggregation c) (c_interval c) (c_keep c) (c_nullable c)
            (c_value c) with
    | Ok st' => (st', UDone)
    | Err e => (st, UErr e)
    | Panic => (st, GLoad)
    end /\
  rsolo 13 nano l RPre st [] = ((fire nano l st).1, RDone, option_list (fire nano l st).2).
Proof.
  intros Hst Hl. split; [by apply usolo_call|].
  destruct (lookup_lt_is_Some_2 _ _ Hl) as [p Hp]. by apply rsolo_fire with p.
Qed.

Definition demo_sum_point : CustomPoint := mkPoint "m" ∅ (f64_of_Z 4) 0 0 2 "@every 1m" "sum" false true.

Definition demo_one_point : Stats :=
  mkStats "db" 80 ∅ "http" 1 1 [demo_sum_point] {[ "m" := 0%nat ]} [("@every 1m", 0%nat)] [] false.

Lemma demo_one_point_wf : stats_wf demo_one_point.
Proof.
  split; simpl.
  - constructor; [|constructor]. split; simpl; [set_solver|by left|unfold int64_range, two63; lia].
  - intros k l [<- <-]%lookup_singleton_Some. lia.
  - by intros k k' l [<- <-]%lookup_singleton_Some [<- _]%lookup_singleton_Some.
  - intros l Hl. exists "m". replace l with 0%nat by lia. apply lookup_singleton_eq.
  - by intros itv l [= -> ->]%list_elem_of_singleton.
Qed.

Lemma solo_refines_witness :
  usolo (fun _ => None) 8 (mkCall "m" ∅ "sum" "@every 1m" false true (f64_of_Z 3)) GLoad demo_one_point =
    (on_point demo_one_point 0 (aggregate (f64_of_Z 3)), UDone) /\
  (rsolo 13 7000000 0 RPre demo_one_point []).2 = [mkMessage "m" ∅ (f64_of_Z 4) 7].
Proof.
  destruct (solo_refines (fun _ => None) (mkCall "m" ∅ "sum" "@every 1m" false true (f64_of_Z 3)) demo_one_point
    7000000 0 demo_one_point_wf) as [H1 H2]; [simpl; lia|].
  split; [exact H1|]. rewrite H2. reflexivity.
Defined.

(** *** Threads that run alone inside a schedule *)

Lemma run_schedule_app cron_Parse s1 s2 cf :
  run_schedule cron_Parse (s1 ++ s2) cf = run_schedule cron_Parse s2 (run_schedule cron_Parse s1 cf).
Proof. apply foldl_app. Qed.

Lemma sched_usolo cron_Parse n i c pc cf :
  cf_threads cf !! i = Some (TUpdate c pc) ->
  run_schedule cron_Parse (replicate n i) cf =
  let x := usolo cron_Parse n c pc (cf_stats cf) in
  mkConf x.1 (<[i := TUpdate c x.2]> (cf_threads cf)) (cf_sent cf).
Proof.
  revert cf pc. induction n as [|n IH]; intros cf pc Ht; [by simpl; rewrite list_insert_id by done; destruct cf|].
  simpl. unfold run_schedule in *. simpl. unfold move at 2. rewrite Ht.
  destruct (ustep cron_Parse c pc (cf_stats cf)) as [st' pc']. rewrite (IH _ pc').
  - simpl. by rewrite list_insert_insert_eq.
  - simpl. apply list_lookup_insert_eq. by eapply lookup_lt_Some.
Qed.

Lemma sched_rsolo cron_Parse n i nano l pc cf :
  cf_threads cf !! i = Some (TRun nano l pc) ->
  run_schedule cron_Parse (replicate n i) cf =
  let x := rsolo n nano l pc (cf_stats cf) (cf_sent cf) in
  mkConf x.1.1 (<[i := TRun nano l x.1.2]> (cf_threads cf)) x.2.
Proof.
  revert cf pc. induction n as [|n IH]; intros cf pc Ht; [by simpl; rewrite list_insert_id by done; destruct cf|].
  simpl. unfold run_schedule in *. simpl. unfold move at 2. rewrite Ht.
  destruct (rstep nano l pc (cf_stats cf)) as [[st' pc'] o]. rewrite (IH _ pc').
  - simpl. by rewrite list_insert_insert_eq.
  - simpl. apply list_lookup_insert_eq. by eapply lookup_lt_Some.
Qed.

(** An update that falls between the message of [Run] and its reset is lost:
    for every point with a pending sum and every call, some interleaving ends
    both goroutines with one message that carries the old sum and a point that
    is null. *)
Theorem update_during_run_lost cron_Parse st c nano l p :
  points st !! call_key c = Some l -> store st !! l = Some p -> aggregation p = "sum" -> IsValueNull p = false ->
  exists s,
    let cf := run_schedule cron_Parse s (mkConf st [TUpdate c GLoad; TRun nano l RPre] []) in
    forallb finished (cf_threads cf) = true /\
    msg_value <$> cf_sent cf = [value p] /\
    exists p', store (cf_stats cf) !! l = Some p' /\ IsValueNull p' = true /\ value p' = f64_zero /\ count p' = 0.
Proof.
  intros Hk Hp Ha Hn. exists (replicate 4 1%nat ++ replicate 6 0%nat ++ replicate 5 1%nat).
  rewrite !run_schedule_app, (sched_rsolo _ 4 1 nano l RPre) by done. cbn [cf_stats cf_sent].
  do 4 (erewrite rsolo_S; [|unfold rstep; rewrite Hp, ?Hn, ?Ha, ?andb_false_r; reflexivity]).
  cbn [rsolo option_list app]. cbv zeta. cbn [fst snd cf_threads].
  rewrite (sched_usolo _ 6 0 c GLoad) by done. cbn [cf_stats cf_sent]. rewrite usolo_S. cbn [ustep]. rewrite Hk.
  cbn [fst snd]. rewrite (usolo_dispatch _ _ _ _ p) by done. cbv zeta. cbn [fst snd cf_threads].
  rewrite (sched_rsolo _ 5 1 nano l RPost) by done. cbn [cf_stats cf_sent].
  rewrite (rsolo_post _ _ _ (aggregate (c_value c) p)) by (simpl; by rewrite list_lookup_alter_eq, Hp).
  cbv zeta. cbn [fst snd cf_threads cf_stats cf_sent]. split_and!; [done..|].
  eexists. split; [simpl; by rewrite !list_lookup_alter_eq, Hp|].
  unfold post. replace (aggregation (aggregate (c_value c) p)) with "sum"; [done|].
  unfold aggregate. by rewrite Ha.
Qed.

Lemma update_during_run_lost_witness :
  exists s, let cf := run_schedule (fun _ => None) s (mkConf demo_one_point
      [TUpdate (mkCall "m" ∅ "sum" "@every 1m" false true (f64_of_Z 3)) GLoad; TRun 7000000 0 RPre] []) in
    forallb finished (cf_threads cf) = true /\ msg_value <$> cf_sent cf = [f64_of_Z 4] /\
    exists p', store (cf_stats cf) !! 0%nat = Some p' /\ IsValueNull p' = true /\ value p' = f64_zero /\ count p' = 0.
Proof.
  apply (update_during_run_lost (fun _ => None) demo_one_point _ 7000000 0 demo_sum_point); reflexivity.
Defined.

Lemma alter_snoc {A} (f : A -> A) (k : list A) x : alter f (length k) (k ++ [x]) = k ++ [f x].
Proof. by rewrite alter_app_r_alt, Nat.sub_diag by done. Qed.

(** The first calls of two goroutines on a new metric race in [getPoint]: some
    interleaving leaves two points with a cron entry each, and only one of them
    in the map, so the metric is sent twice per interval from then on and one of
    the two values is outside the point that later calls update. *)
Theorem first_calls_race cron_Parse st c1 c2 :
  stats_wf st -> points st !! call_key c1 = None -> call_key c2 = call_key c1 ->
  cron_Parse (c_interval c1) = None -> cron_Parse (c_interval c2) = None ->
  c_aggregation c1 ∈ aggregationsContants -> c_aggregation c2 ∈ aggregationsContants ->
  exists s,
    let cf := run_schedule cron_Parse s (mkConf st [TUpdate c1 GLoad; TUpdate c2 GLoad] []) in
    let n := length (store st) in
    forallb finished (cf_threads cf) = true /\
    store (cf_stats cf) = store st ++ [aggregate (c_value c2) (call_point st c2); aggregate (c_value c1) (call_point st c1)] /\
    cron_jobs (cf_stats cf) = cron_jobs st ++ [(c_interval c2, n); (c_interval c1, S n)] /\
    points (cf_stats cf) = <[call_key c1 := S n]> (points st).
Proof.
  intros Hst Hk1 Hk2 Hc1 Hc2 Ha1 Ha2. exists (replicate 1 0%nat ++ replicate 8 1%nat ++ replicate 7 0%nat).
  rewrite !run_schedule_app, (sched_usolo _ 1 0 c1 GLoad) by done. cbn [cf_stats cf_sent usolo ustep].
  rewrite Hk1, Hc1, bool_decide_true by done. cbv zeta. cbn [fst snd cf_threads].
  rewrite (sched_usolo _ 8 1 c2 GLoad) by done. cbn [cf_stats cf_sent]. rewrite usolo_call by done.
  unfold ValueAdd, getPoint. fold (call_key c2). rewrite Hk2, Hk1, Hc2, bool_decide_true by done.
  cbv zeta. cbn [fst snd cf_threads]. rewrite (sched_usolo _ 7 0 c1 GStore) by done. cbn [cf_stats cf_sent].
  do 2 (rewrite usolo_S; cbn [ustep fst snd]).
  rewrite (usolo_dispatch _ _ _ _ (call_point st c1)).
  - cbv zeta. cbn [fst snd cf_threads cf_stats]. split; [done|].
    cbn [store cron_jobs points on_point with_points]. rewrite !alter_snoc, !length_app, !Nat.add_1_r.
    split_and!; [by rewrite <- app_assoc..|by rewrite insert_insert_eq].
  - cbn [store on_point with_points]. by rewrite lookup_app_r, Nat.sub_diag by done.
Qed.

Lemma first_calls_race_witness :
  exists s,
    let c := mkCall "m" ∅ "sum" "@every 1m" false true (f64_of_Z 1) in
    let cf := run_schedule (fun _ => None) s (mkConf demo_new [TUpdate c GLoad; TUpdate c GLoad] []) in
    length (store (cf_stats cf)) = 2%nat /\ points (cf_stats cf) = {[ "m" := 1%nat ]}.
Proof.
  destruct (first_calls_race (fun _ => None) demo_new (mkCall "m" ∅ "sum" "@every 1m" false true (f64_of_Z 1))
    (mkCall "m" ∅ "sum" "@every 1m" false true (f64_of_Z 1))) as (s & _ & H1 & _ & H2).
  - apply (New_wf (fun _ => inr 0) (inr "h") demo_settings). reflexivity.
  - reflexivity.
  - reflexivity.
  - reflexivity.
  - reflexivity.
  - cbn. set_solver.
  - cbn. set_solver.
  - exists s. split; [exact (f_equal length H1)|exact H2].
Defined.

(** ** Any number of goroutines adding to one point *)

Lemma int64_of_Z_add a b : int64_of_Z (int64_of_Z a + b) = int64_of_Z (a + b).
Proof.
  unfold int64_of_Z. f_equal. replace (a + b + two63) with (a + two63 + b) by lia.
  rewrite <- (Zplus_mod_idemp_l (a + two63)). f_equal. lia.
Qed.

Definition sum_list (ns : list Z) : Z := foldr Z.add 0 ns.

(** A quantity summed over the threads. *)
Definition total {A} (f : Z -> A -> Z) (ns : list Z) (pcs : list A) : Z := sum_list (zip_with f ns pcs).

Lemma total_insert {A} (f : Z -> A -> Z) ns pcs i n pc pc' :
  ns !! i = Some n -> pcs !! i = Some pc ->
  total f ns (<[i := pc']> pcs) = total f ns pcs - f n pc + f n pc'.
Proof.
  unfold total. revert pcs i. induction ns as [|a ns IH]; intros [|b pcs] [|i] Hn Hp; simplify_eq/=; try lia.
  rewrite IH by done. lia.
Qed.

Lemma total_mono {A} (f g : Z -> A -> Z) ns pcs :
  length pcs = length ns -> (forall n pc, n ∈ ns -> f n pc <= g n pc) -> total f ns pcs <= total g ns pcs.
Proof.
  unfold total. revert pcs. induction ns as [|a ns IH]; intros [|b pcs] Hl Hf; simplify_eq/=; try lia.
  assert (f a b <= g a b) by (apply Hf; set_solver).
  assert (sum_list (zip_with f ns pcs) <= sum_list (zip_with g ns pcs)) by (apply IH; [lia|]; set_solver). lia.
Qed.

Lemma total_const {A} c ns (pcs : list A) :
  length pcs = length ns -> total (fun _ _ => c) ns pcs = c * Z.of_nat (length ns).
Proof.
  unfold total. revert pcs. induction ns as [|a ns IH]; intros [|b pcs] Hl; simplify_eq/=; try lia.
  rewrite IH by lia. lia.
Qed.

Lemma total_fst {A} ns (pcs : list A) : length pcs = length ns -> total (fun n _ => n) ns pcs = sum_list ns.
Proof.
  unfold total. revert pcs. induction ns as [|a ns IH]; intros [|b pcs] Hl; simplify_eq/=; try lia.
  by rewrite IH by lia.
Qed.

Lemma total_plus {A} (f g : Z -> A -> Z) ns pcs :
  total (fun n pc => f n pc + g n pc) ns pcs = total f ns pcs + total g ns pcs.
Proof.
  unfold total. revert pcs. induction ns as [|a ns IH]; intros [|b pcs]; simpl; try lia. rewrite IH. lia.
Qed.

(** A schedule in which only unfinished threads move. *)
Fixpoint busy (cron_Parse : string -> option string) (s : list nat) (cf : conf) : bool :=
  match s with
  | [] => true
  | i :: s' =>
      from_option (fun t => negb (finished t)) false (cf_threads cf !! i) && busy cron_Parse s' (move cron_Parse i cf)
  end.

Section adds.
Context (cron_Parse : string -> option string) (st0 : Stats) (m : string) (tg : gmap string string).
Context (agg itv : string) (keep nullable : bool) (l : nat) (p0 : CustomPoint) (v0 : Z) (ns : list Z).
Context (Hkey : points st0 !! keyFromMetricID m (map_to_list tg) = Some l).
Context (Hp0 : store st0 !! l = Some p0).
Context (Hagg : aggregation p0 = "sum" \/ aggregation p0 = "avg").
Context (Hv0 : value p0 = f64_of_Z v0) (Hv0' : 0 <= v0).
Context (Hns : Forall (fun n => 0 <= n) ns) (Hmax : v0 + sum_list ns < max_exact).
Context (Hcount : int64_range (count p0)).

Definition adder (n : Z) : call := mkCall m tg agg itv keep nullable (f64_of_Z n).
Definition adders (pcs : list upc) : list thread := zip_with (fun n pc => TUpdate (adder n) pc) ns pcs.

Definition pc_ok (pc : upc) : Prop :=
  match pc with
  | GLoad | UDone => True
  | UDispatch l' | ALoad l' | ACas l' _ | ACount l' | ANull l' => l' = l
  | _ => False
  end.

(** How far a thread has come. *)
Definition added (pc : upc) : bool := match pc with ACount _ | ANull _ | UDone => true | _ => false end.
Definition counted (pc : upc) : bool := match pc with ANull _ | UDone => true | _ => false end.
Definition ended (pc : upc) : bool := match pc with UDone => true | _ => false end.

Definition sum_added : list upc -> Z := total (fun n pc => if added pc then n else 0) ns.
Definition num_counted : list upc -> Z := total (fun _ pc => if counted pc then 1 else 0) ns.
Definition num_ended : list upc -> Z := total (fun _ pc => if ended pc then 1 else 0) ns.

Definition acc (v c n : Z) (p : CustomPoint) : CustomPoint :=
  mkPoint (metric p) (tags p) (f64_of_Z v) n (timestamp p) (int64_of_Z c) (interval p) (aggregation p)
    (keepValue p) (sendOnNull p).

Record adds_inv (pcs : list upc) (st : Stats) : Prop := {
  ai_length : length pcs = length ns;
  ai_ok : Forall pc_ok pcs;
  ai_state : exists n, (0 < num_ended pcs -> n = 0) /\
    st = on_point st0 l (acc (v0 + sum_added pcs) (count p0 + num_counted pcs) n);
}.

Lemma sum_added_range pcs : length pcs = length ns -> 0 <= sum_added pcs <= sum_list ns.
Proof.
  intros Hl. rewrite Forall_forall in Hns. split.
  - transitivity (total (fun _ _ : Z => 0) ns ns); [by rewrite total_const by done|].
    rewrite total_const by done. rewrite <- (total_const 0 ns pcs) by done.
    apply total_mono; [done|]. intros n pc Hn%Hns. case_match; lia.
  - rewrite <- (total_fst ns pcs) by done. apply total_mono; [done|]. intros n pc Hn%Hns. case_match; lia.
Qed.

Lemma adds_start : adds_inv (replicate (length ns) GLoad) st0.
Proof.
  assert (Hz : forall f : Z -> upc -> Z, (forall n, f n GLoad = 0) -> total f ns (replicate (length ns) GLoad) = 0).
  { intros f Hf. clear - Hf. unfold total. induction ns as [|a k IH]; simpl; [done|]. by rewrite Hf, IH. }
  split; [by rewrite length_replicate|by apply Forall_replicate|].
  exists (valNull p0). unfold num_ended, sum_added, num_counted. rewrite !Hz by done. split; [done|].
  rewrite !Z.add_0_r. symmetry. apply (on_point_same _ _ _ p0); [done|].
  unfold acc. rewrite <- Hv0, int64_of_Z_id by done. by destruct p0.
Qed.

(** The point a thread reads. *)
Lemma adds_lookup v c n : store (on_point st0 l (acc v c n)) !! l = Some (acc v c n p0).
Proof. simpl. by rewrite list_lookup_alter_eq, Hp0. Qed.

Lemma adds_insert pcs i n pc pc' v c z z' :
  length pcs = length ns -> Forall pc_ok pcs -> ns !! i = Some n -> pcs !! i = Some pc -> pc_ok pc' ->
  v = v0 + sum_added pcs - (if added pc then n else 0) + (if added pc' then n else 0) ->
  c = count p0 + num_counted pcs - (if counted pc then 1 else 0) + (if counted pc' then 1 else 0) ->
  (0 < num_ended pcs -> z = 0) -> ended pc = false -> z' = (if ended pc' then 0 else z) ->
  adds_inv (<[i := pc']> pcs) (on_point st0 l (acc v c z')).
Proof.
  intros Hl Hok Hn Hpc Hpc' -> -> Hz He ->. split.
  - by rewrite length_insert.
  - by apply Forall_insert.
  - exists (if ended pc' then 0 else z). unfold num_ended, sum_added, num_counted in *.
    rewrite !(total_insert _ _ _ _ _ _ _ Hn Hpc), He. split.
    + destruct (ended pc'); [done|]. intros H. apply Hz. lia.
    + f_equal. f_equal; lia.
Qed.

(** Closes a case of [adds_step] in which the thread moves on. *)
Ltac advance := eapply adds_insert; try eassumption; simpl; solve [reflexivity|lia|by intros].

Lemma adds_step pcs st i n pc :
  adds_inv pcs st -> ns !! i = Some n -> pcs !! i = Some pc ->
  let x := ustep cron_Parse (adder n) pc st in adds_inv (<[i := x.2]> pcs) x.1.
Proof.
  intros [Hl Hok (z & Hz & ->)] Hn Hpc.
  pose proof (Forall_lookup_1 _ _ _ _ Hok Hpc) as Hpcok.
  assert (Hpos : 0 <= n) by by apply (Forall_lookup_1 _ _ _ _ Hns Hn).
  pose proof (sum_added_range pcs Hl) as Hr.
  assert (Hfit : added pc = false -> v0 + sum_added pcs + n < max_exact).
  { intros Ha. enough (sum_added pcs + n <= sum_list ns) by lia.
    pose proof (sum_added_range (<[i := UDone]> pcs) ltac:(by rewrite length_insert)) as H.
    unfold sum_added in H. rewrite (total_insert _ _ _ _ _ _ _ Hn Hpc), Ha in H. fold (sum_added pcs) in H.
    simpl in H. lia. }
  destruct pc as [| | |l'|l'|l' ob|l'|l'| | | | | |]; simpl in Hpcok; try done; subst; cbv zeta; cbn [ustep].
  - change (call_key (adder n)) with (keyFromMetricID m (map_to_list tg)). cbn [points on_point with_points].
    rewrite Hkey. advance.
  - rewrite adds_lookup. cbn [fst snd].
    replace (aggregation _) with (aggregation p0) by done.
    destruct Hagg as [->| ->]; simpl; advance.
  - rewrite adds_lookup. advance.
  - rewrite adds_lookup. destruct (_ =? _) eqn:Hcas.
    + cbn [fst snd]. apply Z.eqb_eq in Hcas.
      assert (ob = f64_of_Z (v0 + sum_added pcs)) as ->.
      { destruct ob as [b]. simpl in Hcas. subst. by destruct (f64_of_Z _). }
      rewrite on_point_on_point. cbn [c_value adder]. specialize (Hfit eq_refl).
      rewrite f64_add_of_Z by lia.
      rewrite (on_point_ext _ _ _ (acc (v0 + sum_added pcs + n) (count p0 + num_counted pcs) z)) by done.
      advance.
    + advance.
  - cbn [fst snd]. rewrite on_point_on_point.
    rewrite (on_point_ext _ _ _ (acc (v0 + sum_added pcs) (count p0 + num_counted pcs + 1) z)).
    + advance.
    + intros p _. unfold acc, add_count, SetCount. simpl. f_equal. apply int64_of_Z_add.
  - cbn [fst snd]. rewrite on_point_on_point.
    rewrite (on_point_ext _ _ _ (acc (v0 + sum_added pcs) (count p0 + num_counted pcs) 0)) by done.
    advance.
  - cbn [fst snd]. rewrite list_insert_id by done. split; eauto.
Qed.

(** *** Every schedule *)

Definition adds_conf (pcs : list upc) (st : Stats) : conf := mkConf st (adders pcs) [].

Lemma adders_lookup pcs i :
  length pcs = length ns ->
  adders pcs !! i = (fun x => TUpdate (adder x.1) x.2) <$> (ns !! i ≫= fun n => pair n <$> pcs !! i).
Proof.
  intros Hl. unfold adders. rewrite lookup_zip_with. destruct (ns !! i); [|done]. simpl. by destruct (pcs !! i).
Qed.

Lemma adds_move_eq pcs st i n pc :
  length pcs = length ns -> ns !! i = Some n -> pcs !! i = Some pc ->
  move cron_Parse i (adds_conf pcs st) =
  let x := ustep cron_Parse (adder n) pc st in adds_conf (<[i := x.2]> pcs) x.1.
Proof.
  intros Hl Hn Hpc. unfold move. cbn [cf_threads adds_conf cf_stats cf_sent].
  rewrite adders_lookup, Hn, Hpc by done. simpl. destruct (ustep _ _ _ _) as [st' pc'].
  unfold adds_conf. f_equal. unfold adders.
  pose proof (insert_zip_with (fun n pc => TUpdate (adder n) pc) ns pcs i n pc') as E.
  by rewrite (list_insert_id ns i n) in E.
Qed.

Lemma adds_move pcs st i :
  adds_inv pcs st -> exists pcs' st', move cron_Parse i (adds_conf pcs st) = adds_conf pcs' st' /\ adds_inv pcs' st'.
Proof.
  intros Hinv. pose proof (ai_length _ _ Hinv) as Hl.
  destruct (pcs !! i) as [pc|] eqn:Hpc.
  - destruct (lookup_lt_is_Some_2 ns i) as [n Hn]; [apply lookup_lt_Some in Hpc; lia|].
    rewrite (adds_move_eq pcs st i n pc) by done. eexists _, _. split; [done|]. by apply adds_step.
  - exists pcs, st. split; [|done]. unfold move. cbn [cf_threads adds_conf].
    rewrite adders_lookup, Hpc by done. by destruct (ns !! i).
Qed.

Lemma adds_run s pcs st :
  adds_inv pcs st -> exists pcs' st', run_schedule cron_Parse s (adds_conf pcs st) = adds_conf pcs' st' /\ adds_inv pcs' st'.
Proof.
  revert pcs st. induction s as [|i s IH]; intros pcs st H; [by exists pcs, st|].
  destruct (adds_move pcs st i H) as (pcs' & st' & E & H'). simpl. unfold run_schedule in *. simpl. rewrite E. by apply IH.
Qed.

Lemma adds_finished pcs :
  length pcs = length ns -> Forall pc_ok pcs -> forallb finished (adders pcs) = true ->
  pcs = replicate (length ns) UDone.
Proof.
  intros Hl Hok. unfold adders. revert Hl. clear - Hok. revert pcs Hok.
  induction ns as [|n k IH]; intros [|pc pcs] Hok Hl Hf; simplify_eq/=; [done|].
  apply Forall_cons in Hok as [Hpc Hok]. apply andb_prop in Hf as [H1 H2].
  destruct pc; simpl in *; try done. f_equal. by apply IH.
Qed.

(** *** A bound on the number of steps: a compare-and-swap only fails because
    another one succeeded. *)

Definition size : Z := Z.of_nat (length ns).

Definition rank (bits : Z) (pc : upc) : Z :=
  match pc with
  | GLoad => 2 * size + 7
  | UDispatch _ => 2 * size + 6
  | ALoad _ => 2 * size + 4
  | ACas _ ob => 2 * size + 3 + (if bits =? Float64bits ob then 0 else 2)
  | ACount _ => 2
  | ANull _ => 1
  | _ => 0
  end.

Definition potential (bits : Z) (pcs : list upc) : Z := total (fun _ pc => rank bits pc) ns pcs.

Definition point_bits (st : Stats) : Z := from_option (fun p => Float64bits (value p)) 0 (store st !! l).

Lemma potential_shift b b' pcs : length pcs = length ns -> potential b' pcs <= potential b pcs + 2 * size.
Proof.
  intros Hl. unfold potential, size. rewrite <- (total_const 2 ns pcs) by done. rewrite <- total_plus.
  apply total_mono; [done|]. intros n pc _. unfold rank. destruct pc; repeat case_match; lia.
Qed.

Lemma potential_nonneg b pcs : length pcs = length ns -> 0 <= potential b pcs.
Proof.
  intros Hl. transitivity (total (fun _ _ => 0) ns pcs); [by rewrite total_const|].
  apply total_mono; [done|]. intros n pc _. unfold rank, size. destruct pc; repeat case_match; lia.
Qed.

Lemma adds_decrease pcs st i n pc :
  adds_inv pcs st -> ns !! i = Some n -> pcs !! i = Some pc -> finished (TUpdate (adder n) pc) = false ->
  let x := ustep cron_Parse (adder n) pc st in
  potential (point_bits x.1) (<[i := x.2]> pcs) < potential (point_bits st) pcs.
Proof.
  intros [Hl Hok (z & Hz & ->)] Hn Hpc Hf. pose proof (Forall_lookup_1 _ _ _ _ Hok Hpc) as Hpcok.
  assert (Hi : forall b pc', potential b (<[i := pc']> pcs) = potential b pcs - rank b pc + rank b pc').
  { intros b pc'. unfold potential. by rewrite (total_insert _ _ _ _ _ _ _ Hn Hpc). }
  pose proof (fun b b' => potential_shift b b' pcs Hl) as Hs.
  destruct pc as [| | |l'|l'|l' ob|l'|l'| | | | | |]; simpl in Hpcok, Hf; try done; subst; cbv zeta; cbn [ustep].
  - change (call_key (adder n)) with (keyFromMetricID m (map_to_list tg)). cbn [points on_point with_points].
    rewrite Hkey, Hi. simpl. lia.
  - rewrite adds_lookup. cbn [fst snd]. rewrite Hi. replace (aggregation _) with (aggregation p0) by done.
    destruct Hagg as [->| ->]; simpl; lia.
  - rewrite adds_lookup. cbn [fst snd]. rewrite Hi. unfold point_bits. rewrite adds_lookup. simpl.
    rewrite Z.eqb_refl. lia.
  - rewrite adds_lookup. destruct (_ =? _) eqn:Hcas; cbn [fst snd]; rewrite Hi.
    + set (b' := point_bits (on_point (on_point _ _ _) _ _)). set (b := point_bits _).
      pose proof (Hs b b'). simpl. case_match; lia.
    + unfold point_bits. rewrite adds_lookup. simpl in *. rewrite Hcas. lia.
  - cbn [fst snd]. rewrite on_point_on_point, Hi. unfold point_bits. simpl.
    rewrite !list_lookup_alter_eq, Hp0. simpl. lia.
  - cbn [fst snd]. rewrite on_point_on_point, Hi. unfold point_bits. simpl.
    rewrite !list_lookup_alter_eq, Hp0. simpl. lia.
Qed.

Lemma adds_busy s pcs st :
  adds_inv pcs st -> busy cron_Parse s (adds_conf pcs st) = true -> Z.of_nat (length s) <= potential (point_bits st) pcs.
Proof.
  revert pcs st. induction s as [|i s IH]; intros pcs st Hinv Hb.
  { pose proof (potential_nonneg (point_bits st) pcs (ai_length _ _ Hinv)). done. }
  apply andb_prop in Hb as [Hf Hb]. pose proof (ai_length _ _ Hinv) as Hl.
  cbn [cf_threads adds_conf] in Hf. rewrite adders_lookup in Hf by done.
  destruct (ns !! i) as [n|] eqn:Hn; [|done]. destruct (pcs !! i) as [pc|] eqn:Hpc; [|done].
  cbn [mbind option_bind fmap option_fmap option_map from_option fst snd] in Hf. apply negb_true_iff in Hf.
  pose proof (adds_decrease pcs st i n pc Hinv Hn Hpc Hf) as Hd.
  rewrite (adds_move_eq pcs st i n pc Hl Hn Hpc) in Hb.
  apply IH in Hb; [|by apply adds_step]. cbv zeta in Hd. cbn [length]. lia.
Qed.
End adds.

Lemma adders_start m tg agg itv keep nullable ns :
  adders m tg agg itv keep nullable ns (replicate (length ns) GLoad) =
  ((fun n => TUpdate (mkCall m tg agg itv keep nullable (f64_of_Z n)) GLoad) <$> ns).
Proof. unfold adders. by apply zip_with_replicate_r. Qed.

(** C8. Concurrent additions are exact: any number of goroutines calling
    [ValueAdd] (or [Increment]) on a metric that exists, with integer values and
    in any interleaving of their loads and compare-and-swaps, leave its point
    with the sum of all the values and the number of the calls, and touch nothing
    else. *)
Theorem concurrent_adds_exact cron_Parse st0 m tg agg itv keep nullable l p0 v0 ns s :
  points st0 !! keyFromMetricID m (map_to_list tg) = Some l -> store st0 !! l = Some p0 ->
  aggregation p0 = "sum" \/ aggregation p0 = "avg" ->
  value p0 = f64_of_Z v0 -> 0 <= v0 -> Forall (fun n => 0 <= n) ns -> v0 + sum_list ns < max_exact ->
  int64_range (count p0) -> ns <> [] ->
  let threads := (fun n => TUpdate (mkCall m tg agg itv keep nullable (f64_of_Z n)) GLoad) <$> ns in
  let cf := run_schedule cron_Parse s (mkConf st0 threads []) in
  forallb finished (cf_threads cf) = true ->
  cf_stats cf = on_point st0 l (acc (v0 + sum_list ns) (count p0 + Z.of_nat (length ns)) 0).
Proof.
  intros Hk Hp Ha Hv Hv' Hns Hm Hc Hne threads cf Hf.
  assert (Hth : threads = adders m tg agg itv keep nullable ns (replicate (length ns) GLoad)).
  { symmetry. apply adders_start. }
  assert (H0 : adds_inv st0 l p0 v0 ns (replicate (length ns) GLoad) st0) by by eapply adds_start.
  eapply (adds_run cron_Parse st0 m tg agg itv keep nullable l p0 v0 ns) with (s := s) in H0
    as (pcs & st & E & [Hl Hok (z & Hz & Hst)]); try done.
  unfold cf in *. rewrite Hth in *. unfold adds_conf in E. rewrite E in *. simpl in *.
  apply (adds_finished m tg agg itv keep nullable l ns pcs) in Hf as ->; [|done..].
  assert (Hd : forall f : Z -> upc -> Z, total f ns (replicate (length ns) UDone) = sum_list ((fun n => f n UDone) <$> ns)).
  { intros f. unfold total. f_equal. apply zip_with_replicate_r. done. }
  assert (Hlen : sum_list ((fun _ => 1) <$> ns) = Z.of_nat (length ns)).
  { clear. induction ns as [|n ns IH]; [done|]. rewrite fmap_cons.
    change (1 + sum_list ((fun _ : Z => 1) <$> ns) = Z.of_nat (S (length ns))). lia. }
  unfold num_ended, sum_added, num_counted in *. rewrite !Hd in *. simpl in *. rewrite Hlen in *.
  rewrite Hz in Hst by (destruct ns; [done|simpl; lia]). rewrite Hst. by rewrite list_fmap_id.
Qed.

(** C21. Lock freedom: [n] concurrent additions take at most [n * (2n + 7)] steps
    in all, whatever the schedule, so every loop of [ValueAdd] ends. *)
Theorem concurrent_adds_terminate cron_Parse st0 m tg agg itv keep nullable l p0 v0 ns s :
  points st0 !! keyFromMetricID m (map_to_list tg) = Some l -> store st0 !! l = Some p0 ->
  aggregation p0 = "sum" \/ aggregation p0 = "avg" ->
  value p0 = f64_of_Z v0 -> 0 <= v0 -> Forall (fun n => 0 <= n) ns -> v0 + sum_list ns < max_exact ->
  int64_range (count p0) ->
  busy cron_Parse s
    (mkConf st0 ((fun n => TUpdate (mkCall m tg agg itv keep nullable (f64_of_Z n)) GLoad) <$> ns) []) = true ->
  (length s <= length ns * (2 * length ns + 7))%nat.
Proof.
  intros Hk Hp Ha Hv Hv' Hns Hm Hc Hb.
  assert (H0 : adds_inv st0 l p0 v0 ns (replicate (length ns) GLoad) st0) by by eapply adds_start.
  eapply (adds_busy cron_Parse st0 m tg agg itv keep nullable l p0 v0 ns) with (s := s) in H0; try done.
  - revert H0. unfold potential. set (b := point_bits l st0). clearbody b.
    assert (Hd : total (fun _ pc => rank ns b pc) ns (replicate (length ns) GLoad) =
      (2 * size ns + 7) * Z.of_nat (length ns)).
    { rewrite <- (total_const _ ns (replicate (length ns) GLoad)) by apply length_replicate.
      unfold total. f_equal. rewrite !zip_with_replicate_r by done. done. }
    rewrite Hd. unfold size. nia.
  - revert Hb. unfold adds_conf, adders. replace (zip_with _ _ _) with
      ((fun n => TUpdate (adder m tg agg itv keep nullable n) GLoad) <$> ns); [done|].
    symmetry. apply adders_start.
Qed.

(** Three goroutines; the compare-and-swap of the first fails twice. *)
Definition demo_schedule : list nat :=
  [0;0;0; 1;1;1;1; 0;0; 2;2;2;2; 0;0;0;0;0; 1;1; 2;2]%nat.

Definition demo_adders : list thread :=
  (fun n => TUpdate (mkCall "m" ∅ "sum" "@every 1m" false true (f64_of_Z n)) GLoad) <$> [5; 6; 7].

Lemma concurrent_adds_exact_witness :
  cf_stats (run_schedule (fun _ => None) demo_schedule (mkConf demo_one_point demo_adders [])) =
  on_point demo_one_point 0 (acc 22 5 0).
Proof.
  apply (concurrent_adds_exact (fun _ => None) demo_one_point "m" ∅ "sum" "@every 1m" false true 0 demo_sum_point 4
    [5; 6; 7] demo_schedule); try (vm_compute; reflexivity); try discriminate.
  - left. reflexivity.
  - repeat constructor; discriminate.
  - split; discriminate || reflexivity.
Defined.

Lemma concurrent_adds_terminate_witness :
  (length demo_schedule <= 39)%nat.
Proof.
  apply (concurrent_adds_terminate (fun _ => None) demo_one_point "m" ∅ "sum" "@every 1m" false true 0 demo_sum_point 4
    [5; 6; 7] demo_schedule); try (vm_compute; reflexivity); try discriminate.
  - left. reflexivity.
  - repeat constructor; discriminate.
  - split; discriminate || reflexivity.
Defined.
