(* ===== verification/SnitchSystem.v ===== *)
(** * Package [snitch]: the goroutines of an instance ([snitch/snitch.go])

    [New] starts a goroutine for [start], which schedules the points there are,
    starts the client (UDP or HTTP), the cron and the runtime collector.  The
    cron runs [CustomPoint.Run] in a goroutine per firing, and each of these
    hands its message to the client over the unbuffered channel [receiver].
    This file is the whole instance as a transition function on these goroutines,
    the callers of the package and the outcomes of the network.  A call of the
    package is a thread with the single steps of [SnitchConc], so the stages of
    [getPoint] interleave with everything else; a firing of the cron is split at
    the send. *)

From stdpp Require Import base gmap strings list.
From Stdlib Require Import ZArith Lia.
From S2P Require Import Prelude Float64 GoValue Snitch SnitchState SnitchConc.

Local Open Scope Z_scope.

(** ** Goroutines *)

(** A goroutine in [Run]: its message is computed and it waits at
    [p.sender <- message], or it has [p.post(p)] left to do. *)
Inductive run_pc : Type :=
| Sending (l : nat) (m : message)
| Posting (l : nat).

(** What [start] does next. *)
Inductive start_pc : Type := SRange | SClient | SCron | SRuntime | SDone.

(** The client: before its loop, at the test of [terminate], waiting in [select]
    or for a message, or returned.  The UDP client has a connection or not. *)
Inductive client_pc : Type :=
| NotRunning
| HttpInit | HttpHead | HttpSelect
| UdpInit | UdpHead (conn : bool) | UdpRecv (conn : bool)
| Returned.

(** The runtime collector, which may be in its [ValueAdd], the caller at [i]. *)
Inductive loop_pc : Type := NoLoop | Sleeping | InCall (i : nat) | LoopReturned.

(** A goroutine in a call of the package: [ca_set] tells [SetValue] from
    [ValueAdd] and [Increment]. *)
Record caller : Type := mkCaller { ca_set : bool; ca_call : SnitchConc.call; ca_pc : upc }.

Record system : Type := mkSys {
  sy_stats : Stats;
  sy_runtime : bool;                             (* [settings.Runtime] *)
  sy_starter : start_pc;
  sy_client : client_pc;
  sy_cron : bool;                                (* the cron is started *)
  sy_loop : loop_pc;                             (* [runtimeLoop] *)
  sy_runs : list run_pc;
  sy_crashed : bool;
  sy_emitted : list message;                     (* messages computed by [Run] *)
  sy_received : list message;                    (* messages taken by the client *)
  sy_posted : list (list message * Z);           (* batches with the status of the response *)
  sy_datagrams : list (option message);          (* UDP: the datagrams written *)
  sy_dials : list bool;                          (* UDP: the outcomes of [net.Dial] *)
  sy_callers : list caller;
}.

(** [New] returns and [go stats.start(settings.Runtime)] is running. *)
Definition launch (st : Stats) (runtime : bool) : system :=
  mkSys st runtime SRange NotRunning false NoLoop [] false [] [] [] [] [] [].

Definition set_stats (st : Stats) (s : system) : system :=
  mkSys st (sy_runtime s) (sy_starter s) (sy_client s) (sy_cron s) (sy_loop s) (sy_runs s) (sy_crashed s)
    (sy_emitted s) (sy_received s) (sy_posted s) (sy_datagrams s) (sy_dials s) (sy_callers s).
Definition set_client (c : client_pc) (s : system) : system :=
  mkSys (sy_stats s) (sy_runtime s) (sy_starter s) c (sy_cron s) (sy_loop s) (sy_runs s) (sy_crashed s)
    (sy_emitted s) (sy_received s) (sy_posted s) (sy_datagrams s) (sy_dials s) (sy_callers s).
Definition set_runs (r : list run_pc) (s : system) : system :=
  mkSys (sy_stats s) (sy_runtime s) (sy_starter s) (sy_client s) (sy_cron s) (sy_loop s) r (sy_crashed s)
    (sy_emitted s) (sy_received s) (sy_posted s) (sy_datagrams s) (sy_dials s) (sy_callers s).

(** ** Calls of the package *)

Inductive call : Type :=
| CValueAdd (m : string) (tg : gmap string string) (agg itv : string) (keep nullable : bool) (v : float64)
| CIncrement (m : string) (tg : gmap string string) (itv : string) (keep nullable : bool)
| CSetValue (m : string) (tg : gmap string string) (itv : string) (keep nullable : bool) (v : float64)
| CTerminate.

(** The call of the package that a goroutine starts: [Increment] is [ValueAdd] of 1
    to a sum, [SetValue] gets the point of a sum. *)
Definition begin_call (c : call) : option caller :=
  match c with
  | CValueAdd m tg agg itv keep nullable v => Some (mkCaller false (mkCall m tg agg itv keep nullable v) GLoad)
  | CIncrement m tg itv keep nullable => Some (mkCaller false (mkCall m tg "sum" itv keep nullable (f64_of_Z 1)) GLoad)
  | CSetValue m tg itv keep nullable v => Some (mkCaller true (mkCall m tg "sum" itv keep nullable v) GLoad)
  | CTerminate => None
  end.

Definition set_callers (cs : list caller) (s : system) : system :=
  mkSys (sy_stats s) (sy_runtime s) (sy_starter s) (sy_client s) (sy_cron s) (sy_loop s) (sy_runs s) (sy_crashed s)
    (sy_emitted s) (sy_received s) (sy_posted s) (sy_datagrams s) (sy_dials s) cs.
Definition set_loop (lp : loop_pc) (s : system) : system :=
  mkSys (sy_stats s) (sy_runtime s) (sy_starter s) (sy_client s) (sy_cron s) lp (sy_runs s) (sy_crashed s)
    (sy_emitted s) (sy_received s) (sy_posted s) (sy_datagrams s) (sy_dials s) (sy_callers s).

Definition call_step (c : call) (s : system) : system :=
  match begin_call c with
  | Some cal => set_callers (sy_callers s ++ [cal]) s
  | None => set_stats (Terminate (sy_stats s)) s
  end.

Definition returned (cal : caller) : bool := match ca_pc cal with UDone | UErr _ => true | _ => false end.

Section system.
Context (cron_Parse : string -> option string).

(** A step of a call: that of [ValueAdd], except that [SetValue] goes straight to
    the store of the value. *)
Definition caller_step (cal : caller) (st : Stats) : Stats * caller :=
  let '(st', pc) :=
    match ca_pc cal with
    | UDispatch l => if ca_set cal then (st, SValue l) else ustep cron_Parse (ca_call cal) (UDispatch l) st
    | pc => ustep cron_Parse (ca_call cal) pc st
    end in
  (st', mkCaller (ca_set cal) (ca_call cal) pc).

Definition move_step (i : nat) (s : system) : option system :=
  match sy_callers s !! i with
  | Some cal =>
      if returned cal then None
      else let '(st, cal') := caller_step cal (sy_stats s) in
           Some (set_callers (<[i := cal']> (sy_callers s)) (set_stats st s))
  | None => None
  end.

(** [Run] up to the send: [pre], the timestamp and the message. *)
Definition run_begin (nano : Z) (p : CustomPoint) : option message * CustomPoint :=
  let '(send, p1) := pre p in
  let ts := if GetTimestamp p1 =? 0 then Z.quot nano 1000000 else GetTimestamp p1 in
  (if send then Some (mkMessage (metric p1) (tags p1) (GetValue p1) ts) else None, p1).

(** ** Moves *)

Inductive client_move : Type :=
| MStep                                          (* nothing but the state *)
| MDial (ok : bool)                              (* [net.Dial] before the loop *)
| MReceive (r : nat) (dial : bool)               (* a message of a waiting goroutine *)
| MTick (request_ok : bool) (do_ : option Z).    (* the ticker, with the outcome of the request *)

Inductive action : Type :=
| ACall (c : call)
| AMove (i : nat)                                (* a step of the call [i] *)
| AStart (order : list nat)                      (* [order]: of [points.Range] *)
| AFire (j : nat) (nano : Z)                     (* the cron runs its [j]-th entry *)
| APost (r : nat)
| AClient (mv : client_move)
| ARuntime (goroutines : Z).

(** The rendezvous on [receiver]: the message of the goroutine [r]. *)
Definition take_message (r : nat) (s : system) : option (message * system) :=
  match sy_runs s !! r with
  | Some (Sending l m) =>
      Some (m, mkSys (sy_stats s) (sy_runtime s) (sy_starter s) (sy_client s) (sy_cron s) (sy_loop s)
        (<[r := Posting l]> (sy_runs s)) (sy_crashed s) (sy_emitted s) (sy_received s ++ [m])
        (sy_posted s) (sy_datagrams s) (sy_dials s) (sy_callers s))
  | _ => None
  end.

(** The HTTP client handles an event of its [select]. *)
Definition http_select (ev : http_event) (s : system) : system :=
  let '(st, out) := select_HTTP (sy_stats s) ev in
  mkSys st (sy_runtime s) (sy_starter s) HttpHead (sy_cron s) (sy_loop s) (sy_runs s) (sy_crashed s)
    (sy_emitted s) (sy_received s) (sy_posted s ++ out) (sy_datagrams s) (sy_dials s) (sy_callers s).

(** The connection that [clientUDP] opens before its loop. *)
Definition udp_dial (ok : bool) (s : system) : system :=
  mkSys (sy_stats s) (sy_runtime s) (sy_starter s) (UdpHead ok) (sy_cron s) (sy_loop s) (sy_runs s)
    (sy_crashed s) (sy_emitted s) (sy_received s) (sy_posted s) (sy_datagrams s) (sy_dials s ++ [ok]) (sy_callers s).

(** A message the UDP client took: written if there is a connection, otherwise
    dropped after another attempt to connect. *)
Definition udp_receive (conn : bool) (m : message) (dial : bool) (s : system) : system :=
  let '(conn', out) := receive_UDP conn m dial in
  let dials := if conn then [] else [dial] in
  mkSys (sy_stats s) (sy_runtime s) (sy_starter s) (UdpHead conn') (sy_cron s) (sy_loop s) (sy_runs s)
    (sy_crashed s) (sy_emitted s) (sy_received s) (sy_posted s) (sy_datagrams s ++ option_list out)
    (sy_dials s ++ dials) (sy_callers s).

(** [time.NewTicker] panics on an interval that is not positive. *)
Definition client_step (mv : client_move) (s : system) : option system :=
  let terminated := terminate (sy_stats s) in
  match sy_client s, mv with
  | HttpInit, MStep =>
      Some (if postInt (sy_stats s) <=? 0
            then mkSys (sy_stats s) (sy_runtime s) (sy_starter s) HttpInit (sy_cron s) (sy_loop s) (sy_runs s) true
                   (sy_emitted s) (sy_received s) (sy_posted s) (sy_datagrams s) (sy_dials s) (sy_callers s)
            else set_client HttpHead s)
  | HttpHead, MStep => Some (set_client (if terminated then Returned else HttpSelect) s)
  | HttpSelect, MReceive r _ => (fun '(m, s) => http_select (GotMessage m) s) <$> take_message r s
  | HttpSelect, MTick request_ok do_ => Some (http_select (Tick request_ok do_) s)
  | UdpInit, MDial ok => Some (udp_dial ok s)
  | UdpHead conn, MStep => Some (set_client (if terminated then Returned else UdpRecv conn) s)
  | UdpRecv conn, MReceive r dial => (fun '(m, s) => udp_receive conn m dial s) <$> take_message r s
  | _, _ => None
  end.

(** The goroutine of [start]. *)
Definition start_step (order : list nat) (s : system) : option system :=
  let upd st starter client cron loop :=
    mkSys st (sy_runtime s) starter client cron loop (sy_runs s) (sy_crashed s)
      (sy_emitted s) (sy_received s) (sy_posted s) (sy_datagrams s) (sy_dials s) (sy_callers s) in
  match sy_starter s with
  | SRange =>
      if bool_decide (order ≡ₚ (map_to_list (points (sy_stats s))).*2)
      then Some (upd (start_jobs order (sy_stats s)) SClient (sy_client s) (sy_cron s) (sy_loop s))
      else None
  | SClient => Some (upd (sy_stats s) SCron (if (proto (sy_stats s) =? "udp")%string then UdpInit else HttpInit)
                 (sy_cron s) (sy_loop s))
  | SCron => Some (upd (sy_stats s) SRuntime (sy_client s) true (sy_loop s))
  | SRuntime => Some (upd (sy_stats s) SDone (sy_client s) (sy_cron s) (if sy_runtime s then Sleeping else NoLoop))
  | SDone => None
  end.

Definition fire_step (j : nat) (nano : Z) (s : system) : option system :=
  if negb (sy_cron s) then None
  else match cron_jobs (sy_stats s) !! j with
       | None => None
       | Some (_, l) =>
           match store (sy_stats s) !! l with
           | None => None
           | Some p =>
               let '(msg, p') := run_begin nano p in
               let st := on_point (sy_stats s) l (fun _ => p') in
               Some (mkSys st (sy_runtime s) (sy_starter s) (sy_client s) (sy_cron s) (sy_loop s)
                 (sy_runs s ++ [match msg with Some m => Sending l m | None => Posting l end])
                 (sy_crashed s) (sy_emitted s ++ option_list msg) (sy_received s) (sy_posted s) (sy_datagrams s) (sy_dials s) (sy_callers s))
           end
       end.

Definition post_step (r : nat) (s : system) : option system :=
  match sy_runs s !! r with
  | Some (Posting l) => Some (set_runs (delete r (sy_runs s)) (set_stats (on_point (sy_stats s) l post) s))
  | _ => None
  end.

(** The collector of the runtime wakes up, and ends its [ValueAdd]. *)
Definition runtime_step (goroutines : Z) (s : system) : option system :=
  match sy_loop s with
  | Sleeping =>
      if terminate (sy_stats s) then Some (set_loop LoopReturned s)
      else Some (set_loop (InCall (length (sy_callers s)))
             (call_step (CValueAdd "runtime.goroutines.count" (st_tags (sy_stats s)) "max" "@every 1m" false true
                           (f64_of_Z goroutines)) s))
  | InCall i =>
      match sy_callers s !! i with
      | Some cal => if returned cal then Some (set_loop Sleeping s) else None
      | None => None
      end
  | _ => None
  end.

Definition act (a : action) (s : system) : option system :=
  if sy_crashed s then None
  else match a with
       | ACall c => Some (call_step c s)
       | AMove i => move_step i s
       | AStart order => start_step order s
       | AFire j nano => fire_step j nano s
       | APost r => post_step r s
       | AClient mv => client_step mv s
       | ARuntime goroutines => runtime_step goroutines s
       end.

Definition run : list action -> system -> option system := run_acts act.
End system.

(** The messages of the goroutines that wait for the client. *)
Definition waiting (s : system) : list message :=
  omap (fun r => match r with Sending _ m => Some m | Posting _ => None end) (sy_runs s).

(** ** A firing is the call [Run], split at the send *)

Lemma run_split nano p : Run nano p = ((run_begin nano p).1, post (run_begin nano p).2).
Proof. unfold Run, run_begin. by destruct (pre p). Qed.

(** What a call of the package leaves alone. *)
Record same_plumbing (st st' : Stats) : Prop := {
  sp_buffer : hBuffer st' = hBuffer st;
  sp_proto : proto st' = proto st;
  sp_postInt : postInt st' = postInt st;
}.

Lemma same_plumbing_refl st : same_plumbing st st.
Proof. by split. Qed.

Section plumbing.
Context (cron_Parse : string -> option string).

Lemma ustep_plumbing c pc st :
  same_plumbing st (ustep cron_Parse c pc st).1 /\ terminate (ustep cron_Parse c pc st).1 = terminate st.
Proof. destruct pc; simpl; repeat case_match; by split. Qed.

Lemma caller_step_plumbing cal st st' cal' :
  caller_step cron_Parse cal st = (st', cal') -> same_plumbing st st' /\ terminate st' = terminate st.
Proof.
  unfold caller_step. pose proof (ustep_plumbing (ca_call cal) (ca_pc cal) st) as H. intros Hs.
  destruct (ca_pc cal); try (destruct (ustep _ _ _ _); by simplify_eq/=).
  destruct (ca_set cal); [by simplify_eq/=|]. destruct (ustep _ _ _ _). by simplify_eq/=.
Qed.

Lemma call_step_plumbing c s : same_plumbing (sy_stats s) (sy_stats (call_step c s)).
Proof. by destruct c. Qed.
End plumbing.

(** ** Conservation of messages *)

Definition message_of (r : run_pc) : option message :=
  match r with Sending _ m => Some m | Posting _ => None end.

Lemma waiting_omap s : waiting s = omap message_of (sy_runs s).
Proof. done. Qed.

Lemma omap_delete_none {A B} (f : A -> option B) (l : list A) i x :
  l !! i = Some x -> f x = None -> omap f (delete i l) = omap f l.
Proof.
  revert i. induction l as [|y l IH]; intros [|i] Hl Hx; simplify_eq/=; [by rewrite Hx|].
  destruct (f y); [f_equal|]; by apply IH.
Qed.

Lemma omap_insert_none {A B} (f : A -> option B) (l : list A) i x y m :
  l !! i = Some x -> f x = Some m -> f y = None -> omap f l ≡ₚ m :: omap f (<[i := y]> l).
Proof.
  revert i. induction l as [|z l IH]; intros [|i] Hl Hx Hy; simplify_eq/=; [by rewrite Hx, Hy|].
  destruct (f z); [|by apply IH]. rewrite (IH i) by done. apply Permutation_swap.
Qed.

(** ** The client's life *)

(** The client runs once [start] has started it; only its initialisation panics. *)
Record phases_ok (s : system) : Prop := {
  ph_client : sy_starter s = SRange \/ sy_starter s = SClient -> sy_client s = NotRunning;
  ph_crash : sy_crashed s = true -> sy_client s = HttpInit;
}.

(** What a step can do to the client and to the messages of the goroutines. *)
Lemma act_effect cron_Parse a s s' :
  act cron_Parse a s = Some s' ->
  (sy_client s' = sy_client s /\ sy_crashed s' = sy_crashed s /\ waiting s `prefix_of` waiting s' /\
     sy_received s' = sy_received s /\ sy_posted s' = sy_posted s /\ sy_datagrams s' = sy_datagrams s /\
     (sy_starter s' = sy_starter s \/ (sy_starter s = SRange /\ sy_starter s' = SClient) \/
      (sy_starter s' <> SRange /\ sy_starter s' <> SClient))) \/
  (sy_starter s = SClient /\ sy_starter s' = SCron /\ sy_crashed s' = sy_crashed s) \/
  (exists mv, client_step mv s = Some s').
Proof.
  unfold act. destruct (sy_crashed s) eqn:Hx; [done|]. intros Hs. destruct a as [c|i|order|j nano|r|mv|n].
  - left. simplify_eq. unfold call_step. destruct (begin_call c); split_and!; try done; auto.
  - left. unfold move_step in Hs. destruct (sy_callers s !! i) as [cal|]; [|done]. destruct (returned cal); [done|].
    destruct (caller_step _ _ _). simplify_eq. split_and!; try done; auto.
  - unfold start_step in Hs. destruct (sy_starter s) eqn:E; [|by simplify_eq; auto| | |done].
    + left. case_bool_decide; [|done]. simplify_eq. split_and!; try done; auto.
    + left. simplify_eq. split_and!; simpl; try done; auto.
    + left. simplify_eq. split_and!; simpl; try done; auto.
  - left. unfold fire_step in Hs. destruct (negb _); [done|].
    destruct (cron_jobs _ !! j) as [[itv l]|]; [|done]. destruct (store _ !! l) as [p|]; [|done].
    destruct (run_begin nano p) as [msg p']. simplify_eq. split_and!; simpl; try done; auto.
    rewrite !waiting_omap. simpl. rewrite omap_app. by apply prefix_app_r.
  - left. unfold post_step in Hs. destruct (sy_runs s !! r) as [[|l]|] eqn:Hr; try done. simplify_eq.
    split_and!; simpl; try done; auto. rewrite !waiting_omap. simpl. by rewrite (omap_delete_none message_of _ _ _ Hr).
  - right. right. by exists mv.
  - left. unfold runtime_step in Hs. destruct (sy_loop s); try done.
    + destruct (terminate _); simplify_eq; split_and!; simpl; try done; auto.
    + destruct (sy_callers s !! i) as [cal|]; [|done]. destruct (returned cal); [|done]. simplify_eq.
      split_and!; simpl; try done; auto.
Qed.

Lemma client_step_phases mv s s' :
  client_step mv s = Some s' -> sy_starter s' = sy_starter s /\ sy_client s <> NotRunning /\
    (sy_crashed s' = true -> sy_crashed s = true \/ sy_client s' = HttpInit).
Proof.
  intros Hs. unfold client_step in Hs.
  destruct (sy_client s) eqn:Ec; destruct mv; try done; simplify_eq.
  - destruct (_ <=? _); simpl; auto.
  - simpl. auto.
  - destruct (take_message r s) as [[m s1]|] eqn:Ht; [|done]. simplify_eq/=. unfold take_message in Ht.
    destruct (sy_runs s !! r) as [[]|]; try done. simplify_eq/=. auto.
  - unfold http_select. destruct (select_HTTP _ _). simpl. auto.
  - simpl. auto.
  - simpl. auto.
  - destruct (take_message r s) as [[m s1]|] eqn:Ht; [|done]. simplify_eq/=. unfold take_message in Ht.
    destruct (sy_runs s !! r) as [[]|]; try done. simplify_eq/=. unfold udp_receive. destruct (receive_UDP _ _ _). auto.
Qed.

Lemma act_phases cron_Parse a s s' : act cron_Parse a s = Some s' -> phases_ok s -> phases_ok s'.
Proof.
  intros Ha [H1 H2]. assert (Hcr : sy_crashed s = false) by (unfold act in Ha; by destruct (sy_crashed s)).
  destruct (act_effect _ _ _ _ Ha) as [(Hc & Hx & _ & _ & _ & _ & Hst)|[(Hst & Hst' & Hx)|[mv Hm]]].
  - split; [|congruence]. intros Hs. rewrite Hc. apply H1.
    destruct Hst as [Hst|[[Hst _]|[? ?]]]; [by rewrite <- Hst|by left|by destruct Hs].
  - split; [|congruence]. rewrite Hst'. by intros [|].
  - apply client_step_phases in Hm as (Hst & Hc & Hx). split.
    + rewrite Hst. by intros ?%H1.
    + intros ?%Hx. destruct_or!; [congruence|done].
Qed.

(** ** Where the messages are *)

(** The datagram of a message, empty if it does not marshal. *)
Definition payload (m : message) : option message := if finite (msg_value m) then Some m else None.

Definition failed_dials (s : system) : nat := length (filter (fun ok => ok = false) (sy_dials s)).

(** What the UDP client has done with the messages it took, with or without a
    connection. *)
Definition udp_ok (s : system) : Prop :=
  sy_datagrams s = payload <$> drop (failed_dials s) (sy_received s) /\
  match sy_client s with
  | UdpHead true | UdpRecv true => (failed_dials s <= length (sy_received s))%nat
  | UdpHead false | UdpRecv false => failed_dials s = S (length (sy_received s))
  | UdpInit | NotRunning => failed_dials s = 0%nat /\ sy_received s = []
  | _ => (failed_dials s <= S (length (sy_received s)))%nat
  end.

(** The client of the protocol, and where the messages it took are. *)
Definition client_ok (s : system) : Prop :=
  match sy_client s with
  | NotRunning => sy_received s = [] /\ sy_posted s = [] /\ hBuffer (sy_stats s) = [] /\ sy_datagrams s = [] /\ sy_dials s = []
  | HttpInit | HttpHead | HttpSelect => proto (sy_stats s) <> "udp"
  | UdpInit | UdpHead _ | UdpRecv _ => proto (sy_stats s) = "udp"
  | Returned => True
  end /\
  (if (proto (sy_stats s) =? "udp")%string
   then sy_posted s = [] /\ hBuffer (sy_stats s) = [] /\ udp_ok s
   else sy_datagrams s = [] /\ sy_received s = concat (sy_posted s).*1 ++ hBuffer (sy_stats s)).

Record conserved (s : system) : Prop := {
  cs_emitted : sy_emitted s ≡ₚ waiting s ++ sy_received s;
  cs_client : client_ok s;
}.

(** Steps that only change the statistics, not the messages. *)
Lemma conserved_stats st s :
  same_plumbing (sy_stats s) st -> conserved s -> conserved (set_stats st s).
Proof.
  intros [Hb Hp Hi] [He Hc]. split; [done|]. unfold client_ok in *. simpl. by rewrite Hb, Hp.
Qed.

Lemma select_HTTP_conserves st ev :
  let '(st', out) := select_HTTP st ev in
  concat out.*1 ++ hBuffer st' = hBuffer st ++ received [ev] /\ proto st' = proto st.
Proof.
  unfold select_HTTP. destruct ev as [m|ok do_]; [done|].
  destruct (marshals _); simpl; [|by rewrite app_nil_r].
  destruct ok; simpl; [|by rewrite app_nil_r]. destruct do_; simpl; by rewrite ?app_nil_r.
Qed.

Lemma start_step_conserved order s s' : start_step order s = Some s' -> phases_ok s -> conserved s -> conserved s'.
Proof.
  intros Hs [Hn _] [He [Hc Hk]]. unfold start_step in Hs.
  destruct (sy_starter s) eqn:E; [| | | |done].
  - case_bool_decide; [|done]. simplify_eq. split; [done|]. by split.
  - simplify_eq. split; [done|]. unfold client_ok. simpl. pose proof (Hn ltac:(by right)) as Hnr. rewrite Hnr in Hc.
    destruct Hc as (H1 & H2 & H3 & H4 & H5).
    destruct (String.eqb_spec (proto (sy_stats s)) "udp"); (split; [done|]); [|done]. split_and!; try done.
    unfold udp_ok, failed_dials. simpl. rewrite H1, H4, H5. by rewrite filter_nil, drop_nil.
  - simplify_eq. split; [done|]. by split.
  - simplify_eq. split; [done|]. by split.
Qed.

Lemma fire_step_conserved j nano s s' : fire_step j nano s = Some s' -> conserved s -> conserved s'.
Proof.
  intros Hs [He Hc]. unfold fire_step in Hs. destruct (negb _); [done|].
  destruct (cron_jobs _ !! j) as [[itv l]|]; [|done]. destruct (store _ !! l) as [p|]; [|done].
  destruct (run_begin nano p) as [msg p']. simplify_eq. split; [|exact Hc].
  unfold waiting. simpl. rewrite omap_app, He. destruct msg as [m|]; simpl; [|by rewrite !app_nil_r].
  rewrite <- !app_assoc. apply Permutation_app_head, Permutation_app_comm.
Qed.

Lemma post_step_conserved r s s' : post_step r s = Some s' -> conserved s -> conserved s'.
Proof.
  intros Hs [He Hc]. unfold post_step in Hs. destruct (sy_runs s !! r) as [[|l]|] eqn:Hr; try done. simplify_eq.
  split; [|exact Hc]. rewrite waiting_omap. simpl. by rewrite (omap_delete_none message_of _ _ _ Hr).
Qed.

Lemma take_message_conserved r s m s1 :
  take_message r s = Some (m, s1) -> sy_emitted s ≡ₚ waiting s ++ sy_received s ->
  sy_emitted s1 ≡ₚ waiting s1 ++ sy_received s1.
Proof.
  unfold take_message. destruct (sy_runs s !! r) as [[l m'|]|] eqn:Hr; try done. intros [= <- <-] He.
  rewrite waiting_omap in *. simpl. rewrite He.
  rewrite (omap_insert_none message_of _ _ _ (Posting l) m' Hr) by done. simpl.
  rewrite app_assoc. apply Permutation_cons_append.
Qed.

Lemma client_step_conserved mv s s' : client_step mv s = Some s' -> conserved s -> conserved s'.
Proof.
  intros Hs [He [Hc Hk]]. unfold client_step in Hs.
  destruct (sy_client s) eqn:Ec; destruct mv as [|ok|r dial|rok do_]; try done.
  - destruct (_ <=? _); simplify_eq; apply String.eqb_neq in Hc as Hu; rewrite Hu in Hk; (split; [done|]);
      unfold client_ok; simpl; rewrite ?Ec, Hu; done.
  - simplify_eq. apply String.eqb_neq in Hc as Hu. rewrite Hu in Hk. split; [done|]. unfold client_ok. simpl.
    rewrite Hu. by destruct (terminate _).
  - destruct (take_message r s) as [[m s1]|] eqn:Ht; [|done]. simplify_eq/=.
    pose proof (take_message_conserved _ _ _ _ Ht He) as He1.
    unfold take_message in Ht. destruct (sy_runs s !! r) as [[l m'|]|]; try done. simplify_eq/=.
    split; [done|]. unfold client_ok. simpl.
    apply String.eqb_neq in Hc as Hu. rewrite Hu in Hk |- *. destruct Hk as [Hd Hr]. split; [done|].
    split; [done|]. by rewrite Hr, app_nil_r, app_assoc.
  - simplify_eq/=. unfold http_select. pose proof (select_HTTP_conserves (sy_stats s) (Tick rok do_)) as Hsel.
    destruct (select_HTTP _ _) as [st out]. destruct Hsel as [Hb Hp]. split; [done|].
    unfold client_ok. simpl. apply String.eqb_neq in Hc as Hu. rewrite Hp, Hu in *. destruct Hk as [Hd Hr].
    split_and!; [done..|]. rewrite Hr, fmap_app, concat_app, <- app_assoc, Hb. by rewrite app_nil_r.
  - simplify_eq. split; [done|]. unfold client_ok. simpl. rewrite Hc in Hk |- *. simpl in *.
    destruct Hk as (H1 & H2 & H3 & H4). unfold udp_ok in *. rewrite Ec in H4. destruct H4 as [H4 H5].
    rewrite H5, drop_nil in H3. split_and!; try done; unfold failed_dials in *; simpl; rewrite filter_app, length_app, H5.
    + by rewrite drop_nil.
    + destruct ok; rewrite filter_cons; simpl; lia.
  - simplify_eq. split; [done|]. unfold client_ok. simpl. split; [by destruct (terminate _)|].
    rewrite Hc in Hk |- *. destruct Hk as (H1 & H2 & H3 & H4). split_and!; try done. split; [done|].
    rewrite Ec in H4. simpl. unfold failed_dials in *. simpl. destruct (terminate _), conn; simpl; lia.
  - destruct (take_message r s) as [[m s1]|] eqn:Ht; [|done]. simplify_eq/=.
    pose proof (take_message_conserved _ _ _ _ Ht He) as He1.
    unfold take_message in Ht. destruct (sy_runs s !! r) as [[l m'|]|]; try done. simplify_eq/=.
    rewrite Hc in Hk. destruct Hk as (H1 & H2 & H3 & H4). rewrite Ec in H4. unfold failed_dials in *.
    unfold udp_receive, receive_UDP. destruct conn; (split; [done|]); unfold client_ok, udp_ok, failed_dials; simpl;
      rewrite Hc; simpl; (split; [done|]); (split; [done|]); (split; [done|]).
    + rewrite app_nil_r, H3, drop_app_le, fmap_app by done. rewrite length_app. split; [done|lia].
    + rewrite app_nil_r, filter_app, !length_app, H3, filter_cons. simpl. rewrite !drop_ge; [|rewrite length_app; simpl; lia|lia].
      split; [done|]. destruct dial; simpl; lia.
Qed.

Lemma act_conserved cron_Parse a s s' : act cron_Parse a s = Some s' -> phases_ok s -> conserved s -> conserved s'.
Proof.
  unfold act. destruct (sy_crashed s); [done|]. intros Hs Hph Hc. destruct a as [c|i|order|j nano|r|mv|n].
  - simplify_eq. unfold call_step. destruct (begin_call c); [by destruct Hc; split|].
    apply conserved_stats; [by split|done].
  - unfold move_step in Hs. destruct (sy_callers s !! i) as [cal|]; [|done]. destruct (returned cal); [done|].
    destruct (caller_step _ _ _) as [st cal'] eqn:Hst. simplify_eq.
    apply caller_step_plumbing in Hst as [Hp _]. destruct (conserved_stats _ _ Hp Hc). by split.
  - by eapply start_step_conserved.
  - by eapply fire_step_conserved.
  - by eapply post_step_conserved.
  - by eapply client_step_conserved.
  - unfold runtime_step in Hs. destruct (sy_loop s); try done.
    + destruct (terminate _); simplify_eq; destruct Hc; by split.
    + destruct (sy_callers s !! i) as [cal|]; [|done]. destruct (returned cal); [|done]. simplify_eq. destruct Hc; by split.
Qed.

Lemma launch_conserved st runtime : hBuffer st = [] -> conserved (launch st runtime).
Proof. intros H. split; [done|]. unfold client_ok. simpl. rewrite H. by destruct (_ =? _)%string. Qed.

Lemma New_proto ParseDuration hostname settings st :
  New ParseDuration hostname settings = Ok st -> proto st = set_Protocol settings /\ hBuffer st = [] /\ store st = [].
Proof. unfold New. intros H. repeat case_match; by simplify_eq. Qed.

Lemma run_conserved cron_Parse ParseDuration hostname settings st l s :
  New ParseDuration hostname settings = Ok st ->
  run cron_Parse l (launch st (set_Runtime settings)) = Some s -> conserved s /\ phases_ok s.
Proof.
  intros (_ & Hb & _)%New_proto Hr.
  eapply (run_acts_invariant (act cron_Parse) (fun s => conserved s /\ phases_ok s)); [|exact Hr|].
  - intros a s1 s2 Ha [Hc Hp]. split; [by eapply act_conserved|by eapply act_phases].
  - split; [by apply launch_conserved|by split].
Qed.

(** C7. Where the messages of [Run] go.  In every state of an instance, under
    every interleaving of the single steps of the callers, the goroutine of
    [start], the cron's goroutines, the runtime collector and the client, and for
    all outcomes of the network, the messages computed by [Run] are exactly those
    of the goroutines still waiting to send and those the client has taken.  The
    ones the HTTP client has taken are, in order, the batches it got a response
    for and its buffer.  The UDP client writes, in order, one datagram for every
    message it has taken but the first ones, of which it drops one for each
    attempt to connect that has failed (for the last failure, the next message). *)
Theorem messages_conserved cron_Parse ParseDuration hostname settings st l s :
  New ParseDuration hostname settings = Ok st ->
  run cron_Parse l (launch st (set_Runtime settings)) = Some s ->
  sy_emitted s ≡ₚ waiting s ++ sy_received s /\
  (if (proto (sy_stats s) =? "udp")%string
   then sy_datagrams s = payload <$> drop (failed_dials s) (sy_received s) /\
     (failed_dials s <= S (length (sy_received s)))%nat
   else sy_received s = concat (sy_posted s).*1 ++ hBuffer (sy_stats s)).
Proof.
  intros Hnew Hr. destruct (run_conserved _ _ _ _ _ _ _ Hnew Hr) as [[He [_ Hk]] _].
  split; [done|]. destruct (_ =? _)%string; destruct_and!; [|done]. match goal with H : udp_ok s |- _ => destruct H as [Hd Hc] end.
  split; [done|]. destruct (sy_client s) as [| | | | |[]|[]|]; try lia; destruct Hc as [-> _]; lia.
Qed.

(** A demonstration instance: HTTP, one metric with a value, its job fired. *)
Definition demo_http_settings : Settings :=
  mkSettings "localhost" 8080 "http" "1s" "1s" {[ "ksid" := "stats" ]} "" false false.
Definition demo_parse (d : string) : string + Z := inr 1000000000.
Definition demo_http_stats : Stats :=
  mkStats "localhost" 8080 (<["host" := "h"]> {[ "ksid" := "stats" ]}) "http" 1000000000 1000000000 [] ∅ [] [] false.
Definition demo_started : list action := [AStart []; AStart []; AStart []; AStart []; AClient MStep].
Definition demo_added : list action :=
  demo_started ++ ACall (CValueAdd "m" ∅ "sum" "@every 1m" false false (f64_of_Z 5)) :: replicate 8 (AMove 0).

Definition demo_posted : list action :=
  demo_added ++ [AFire 0 7000000; AClient MStep; AClient (MReceive 0 false); AClient MStep; AClient (MTick true (Some 204))].
Definition after (l : list action) : system :=
  default (launch demo_http_stats false) (run (fun _ => None) l (launch demo_http_stats false)).

Lemma messages_conserved_witness :
  length (sy_posted (after demo_posted)) = 1%nat /\
  sy_received (after demo_posted) = concat (sy_posted (after demo_posted)).*1 ++ hBuffer (sy_stats (after demo_posted)).
Proof.
  split; [vm_compute; reflexivity|].
  exact (proj2 (messages_conserved (fun _ => None) demo_parse (inr "h") demo_http_settings demo_http_stats
    demo_posted (after demo_posted) ltac:(reflexivity) ltac:(vm_compute; reflexivity))).
Defined.

(** ** After [Terminate] *)

(** A point that is due: [Run] sends its message. *)
Definition due (p : CustomPoint) : Prop := (pre p).1 = true.

Lemma due_iff p : due p <-> negb (sendOnNull p) && IsValueNull p = false.
Proof. unfold due, pre. destruct (negb _ && _); [done|]. by repeat case_match. Qed.

Lemma due_again nano p : due p -> due (run_begin nano p).2.
Proof.
  intros Hp. pose proof Hp as Hn. rewrite due_iff in Hn. unfold run_begin, pre. rewrite Hn.
  repeat case_match; simplify_eq/=; try done; apply due_iff; try done; apply andb_false_r.
Qed.

Lemma fire_due cron_Parse s j nano itv lc p :
  sy_crashed s = false -> sy_cron s = true -> cron_jobs (sy_stats s) !! j = Some (itv, lc) ->
  store (sy_stats s) !! lc = Some p -> due p ->
  exists s' m, act cron_Parse (AFire j nano) s = Some s' /\ waiting s' = waiting s ++ [m] /\
    (run_begin nano p).1 = Some m /\ sy_crashed s' = false /\ sy_cron s' = true /\
    cron_jobs (sy_stats s') = cron_jobs (sy_stats s) /\
    store (sy_stats s') !! lc = Some (run_begin nano p).2.
Proof.
  intros Hx Hcr Hj Hp Hd. unfold act. rewrite Hx. unfold fire_step. rewrite Hcr, Hj, Hp. simpl.
  assert (Hm : exists m, (run_begin nano p).1 = Some m).
  { unfold run_begin. unfold due in Hd. destruct (pre p) as [b p1]. simpl in *. subst b. by eexists. }
  destruct Hm as [m Hm]. destruct (run_begin nano p) as [msg p'] eqn:E. simpl in *. subst msg.
  eexists _, m. split_and!; [reflexivity| |done..|].
  - rewrite !waiting_omap. simpl. by rewrite omap_app.
  - simpl. by rewrite list_lookup_alter_eq, Hp.
Qed.

(** C24. [Terminate] leaves the cron running with nobody to talk to.  Once the
    client has returned, no later step of the instance takes a message, posts a
    batch or sends a datagram: a goroutine of the cron that waits to send waits
    for good, without the reset of its point.  And the cron goes on: every firing
    of an entry whose point is due leaves one more goroutine waiting. *)
Theorem terminated_strands cron_Parse st runtime l s :
  run cron_Parse l (launch st runtime) = Some s -> sy_client s = Returned ->
  (forall l' s', run cron_Parse l' s = Some s' ->
     sy_client s' = Returned /\ sy_received s' = sy_received s /\ sy_posted s' = sy_posted s /\
     sy_datagrams s' = sy_datagrams s /\ waiting s `prefix_of` waiting s') /\
  (forall j nano itv lc p n, sy_cron s = true -> cron_jobs (sy_stats s) !! j = Some (itv, lc) ->
     store (sy_stats s) !! lc = Some p -> due p ->
     exists s', run cron_Parse (replicate n (AFire j nano)) s = Some s' /\
       length (waiting s') = (length (waiting s) + n)%nat).
Proof.
  intros Hr Hc.
  assert (Hph : phases_ok s).
  { eapply (run_acts_invariant (act cron_Parse) phases_ok); [apply act_phases|exact Hr|]. by split. }
  split.
  - intros l' s' Hr'. revert Hr'.
    intros Hr'. eapply (run_acts_invariant (act cron_Parse) (fun s' => phases_ok s' /\ sy_client s' = Returned /\
      sy_received s' = sy_received s /\ sy_posted s' = sy_posted s /\ sy_datagrams s' = sy_datagrams s /\
      waiting s `prefix_of` waiting s')); [|exact Hr'|by split_and!].
    intros a s1 s2 Ha (Hp1 & Hc1 & H1 & H2 & H3 & H4). split; [by eapply act_phases|].
    destruct (act_effect _ _ _ _ Ha) as [(E1 & _ & E2 & E3 & E4 & E5 & _)|[(Hst & _)|[mv Hm]]].
    + rewrite E1, E3, E4, E5. split_and!; try done. by etrans.
    + assert (sy_client s1 = NotRunning) by (apply (ph_client _ Hp1); auto). congruence.
    + unfold client_step in Hm. rewrite Hc1 in Hm. by destruct mv.
  - intros j nano itv lc p n. assert (Hx : sy_crashed s = false).
    { destruct (sy_crashed s) eqn:E; [|done]. apply (ph_crash _ Hph) in E. congruence. }
    clear Hr Hc Hph. revert s p Hx. induction n as [|n IH]; intros s p Hx Hcr Hj Hp Hd.
    { exists s. split; [done|lia]. }
    destruct (fire_due cron_Parse s j nano itv lc p Hx Hcr Hj Hp Hd) as (s1 & m & Ha & Hw & _ & Hx1 & Hcr1 & Hj1 & Hp1).
    rewrite <- Hj1 in Hj.
    destruct (IH s1 (run_begin nano p).2 Hx1 Hcr1 Hj Hp1 (due_again _ _ Hd)) as (s' & Hr' & Hl).
    exists s'. split; [by simpl; rewrite Ha|]. rewrite Hl, Hw, length_app. simpl. lia.
Qed.

Definition demo_terminated : list action := demo_added ++ [ACall CTerminate; AClient MStep].

Definition demo_due (s : system) : CustomPoint :=
  default (new_point demo_http_stats "m" ∅ "sum" "@every 1m" false false) (store (sy_stats s) !! 0%nat).

Lemma terminated_strands_witness :
  exists s', run (fun _ => None) (replicate 3 (AFire 0 7000000)) (after demo_terminated) = Some s' /\
    length (waiting s') = (length (waiting (after demo_terminated)) + 3)%nat.
Proof.
  assert (H := proj2 (terminated_strands (fun _ => None) demo_http_stats false demo_terminated (after demo_terminated)
    ltac:(vm_compute; reflexivity) ltac:(vm_compute; reflexivity)) 0%nat 7000000 "@every 1m" 0%nat
    (demo_due (after demo_terminated)) 3%nat).
  apply H; vm_compute; reflexivity.
Defined.

(** ** A client that is slow to receive *)

Lemma run_begin_value nano p m :
  (run_begin nano p).1 = Some m ->
  msg_value m = value (run_begin nano p).2 /\ aggregation (run_begin nano p).2 = aggregation p /\
  count (run_begin nano p).2 = count p /\
  value (run_begin nano p).2 =
    (if (aggregation p =? "avg")%string && negb (f64_eqb (value p) f64_zero) && negb (count p =? 0)
     then f64_div (value p) (f64_of_Z (count p)) else value p).
Proof.
  unfold run_begin, pre, GetValue, GetCount. intros H.
  destruct (negb _ && _); [done|]. destruct (aggregation p =? "avg")%string; simpl in *; [|by simplify_eq/=].
  destruct (f64_eqb _ _); simpl in *; [by simplify_eq/=|]. destruct (count p =? 0); by simplify_eq/=.
Qed.

(** The reset of a point comes after the send, so a point that fires again
    while its first message still waits for the client is reported twice: a sum,
    a minimum or a maximum with the same value, although no value was added in
    between, and an average divided a second time by the count. *)
Theorem slow_client_repeats cron_Parse s j n1 n2 itv lc p :
  sy_crashed s = false -> sy_cron s = true -> cron_jobs (sy_stats s) !! j = Some (itv, lc) ->
  store (sy_stats s) !! lc = Some p -> due p ->
  exists s' m1 m2, run cron_Parse [AFire j n1; AFire j n2] s = Some s' /\ waiting s' = waiting s ++ [m1; m2] /\
    (aggregation p <> "avg" -> msg_value m1 = value p /\ msg_value m2 = value p) /\
    (aggregation p = "avg" -> count p <> 0 -> f64_eqb (value p) f64_zero = false ->
     f64_eqb (f64_div (value p) (f64_of_Z (count p))) f64_zero = false ->
     msg_value m1 = f64_div (value p) (f64_of_Z (count p)) /\
     msg_value m2 = f64_div (f64_div (value p) (f64_of_Z (count p))) (f64_of_Z (count p))).
Proof.
  intros Hx Hcr Hj Hp Hd.
  destruct (fire_due cron_Parse s j n1 itv lc p Hx Hcr Hj Hp Hd) as (s1 & m1 & Ha1 & Hw1 & Hm1 & Hx1 & Hcr1 & Hj1 & Hp1).
  rewrite <- Hj1 in Hj.
  destruct (fire_due cron_Parse s1 j n2 itv lc _ Hx1 Hcr1 Hj Hp1 (due_again n1 p Hd)) as (s2 & m2 & Ha2 & Hw2 & Hm2 & _).
  exists s2, m1, m2. split; [unfold run; cbn [run_acts]; rewrite Ha1; cbn; by rewrite Ha2|].
  split; [by rewrite Hw2, Hw1, <- app_assoc|].
  apply run_begin_value in Hm1 as (V1 & A1 & C1 & E1), Hm2 as (V2 & A2 & C2 & E2).
  rewrite V1, V2, E2, A1, C1, E1. split.
  - intros Hn%String.eqb_neq. by rewrite Hn.
  - intros -> Hc Hy Hz. apply Z.eqb_neq in Hc. rewrite Hc, Hy. simpl. by rewrite Hz.
Qed.

Lemma slow_client_repeats_witness :
  exists s' m1 m2, run (fun _ => None) [AFire 0 7000000; AFire 0 8000000] (after demo_added) = Some s' /\
    waiting s' = waiting (after demo_added) ++ [m1; m2] /\
    (aggregation (demo_due (after demo_added)) <> "avg" ->
     msg_value m1 = value (demo_due (after demo_added)) /\ msg_value m2 = value (demo_due (after demo_added))).
Proof.
  destruct (slow_client_repeats (fun _ => None) (after demo_added) 0 7000000 8000000 "@every 1m" 0
    (demo_due (after demo_added))) as (s' & m1 & m2 & H1 & H2 & H3 & _); [vm_compute; reflexivity..|].
  exists s', m1, m2. split; [exact H1|split; [exact H2|exact H3]].
Defined.

(** ** Delivery over HTTP *)

Lemma omap_cons_inv {A B} (f : A -> option B) (l : list A) y k :
  omap f l = y :: k -> exists i x, l !! i = Some x /\ f x = Some y.
Proof.
  induction l as [|x l IH]; simpl; [done|]. destruct (f x) eqn:E.
  - intros [= -> _]. by exists 0%nat, x.
  - intros (i & z & Hi & Hz)%IH. by exists (S i), z.
Qed.

Section delivery.
Context (cron_Parse : string -> option string).

Lemma act_proto a s s' : act cron_Parse a s = Some s' -> proto (sy_stats s') = proto (sy_stats s).
Proof.
  unfold act. destruct (sy_crashed s); [done|]. intros Hs. destruct a as [c|i|order|j nano|r|mv|n].
  - simplify_eq. by destruct (call_step_plumbing c s).
  - unfold move_step in Hs. destruct (sy_callers s !! i) as [cal|]; [|done]. destruct (returned cal); [done|].
    destruct (caller_step _ _ _) as [st cal'] eqn:Hst. simplify_eq. by apply caller_step_plumbing in Hst as [[] _].
  - unfold start_step in Hs. by repeat case_match; simplify_eq.
  - unfold fire_step in Hs. by repeat case_match; simplify_eq.
  - unfold post_step in Hs. by repeat case_match; simplify_eq.
  - unfold client_step, take_message, http_select, select_HTTP, udp_receive in Hs. by repeat (case_match; simplify_eq/=).
  - unfold runtime_step in Hs. destruct (sy_loop s); try done.
    + by destruct (terminate _); simplify_eq.
    + destruct (sy_callers s !! i) as [cal|]; [|done]. by destruct (returned cal); simplify_eq.
Qed.

(** The HTTP client is in its loop and may go on. *)
Definition listening (s : system) : Prop :=
  sy_client s = HttpSelect /\ sy_crashed s = false /\ terminate (sy_stats s) = false.

Lemma receive_one s :
  listening s -> waiting s <> [] ->
  exists r m s1, run cron_Parse [AClient (MReceive r false); AClient MStep] s = Some s1 /\ listening s1 /\
    hBuffer (sy_stats s1) = hBuffer (sy_stats s) ++ [m] /\ waiting s ≡ₚ m :: waiting s1 /\
    sy_emitted s1 = sy_emitted s.
Proof.
  intros (Hc & Hx & Ht) Hw. rewrite waiting_omap in *. destruct (omap message_of (sy_runs s)) as [|m0 k] eqn:E; [done|]. rewrite <- E.
  apply omap_cons_inv in E as (r & x & Hr & Hm). destruct x as [l m|]; [|done].
  exists r, m. eexists. split.
  - unfold run. simpl. unfold act. rewrite Hx. unfold client_step, take_message. rewrite Hc, Hr. simpl.
    rewrite Hx. simpl. rewrite Ht. reflexivity.
  - split_and!; simpl; try done. rewrite waiting_omap. simpl.
    by apply (omap_insert_none message_of) with (x := Sending l m).
Qed.

Lemma receive_all s :
  listening s -> exists l s1, run cron_Parse l s = Some s1 /\ listening s1 /\ waiting s1 = [] /\
    hBuffer (sy_stats s1) ≡ₚ hBuffer (sy_stats s) ++ waiting s /\ sy_emitted s1 = sy_emitted s.
Proof.
  remember (length (waiting s)) as n eqn:Hn. revert s Hn. induction n as [|n IH]; intros s Hn Hl.
  - exists [], s. apply symmetry, length_zero_iff_nil in Hn. rewrite Hn, app_nil_r. done.
  - destruct (receive_one s Hl) as (r & m & s1 & Hr & Hl1 & Hb & Hw & He); [by destruct (waiting s)|].
    destruct (IH s1) as (l & s2 & Hr2 & Hl2 & Hw2 & Hb2 & He2); [rewrite Hw in Hn; simpl in Hn; lia|done|].
    exists ([AClient (MReceive r false); AClient MStep] ++ l), s2.
    split; [by eapply run_acts_trans|]. split_and!; try done; [|congruence].
    rewrite Hb2, Hb, Hw, <- app_assoc. done.
Qed.

Lemma marshals_Forall ms : marshals ms = true <-> Forall (fun m => finite (msg_value m) = true) ms.
Proof. unfold marshals. rewrite forallb_forall, Forall_forall. setoid_rewrite list_elem_of_In. done. Qed.

(** C23. The HTTP client delivers everything while it runs: from every state of a
    running instance that has not been terminated, with any number of goroutines
    waiting and any buffer, if the values can be encoded there is a continuation
    without new firings after which nobody waits, the buffer is empty and the
    batches that were posted contain every message computed so far exactly once. *)
Theorem http_can_deliver ParseDuration hostname settings st l s :
  New ParseDuration hostname settings = Ok st -> set_Protocol settings <> "udp" ->
  run cron_Parse l (launch st (set_Runtime settings)) = Some s ->
  sy_client s = HttpHead \/ sy_client s = HttpSelect -> terminate (sy_stats s) = false ->
  Forall (fun m => finite (msg_value m) = true) (waiting s ++ hBuffer (sy_stats s)) ->
  exists l' s', run cron_Parse l' s = Some s' /\ sy_emitted s' = sy_emitted s /\ waiting s' = [] /\
    hBuffer (sy_stats s') = [] /\ concat (sy_posted s').*1 ≡ₚ sy_emitted s.
Proof.
  intros Hnew Hp Hr Hc Ht Hf. pose proof (fun l s => run_conserved cron_Parse _ _ _ _ l s Hnew) as Hinv.
  apply New_proto in Hnew as (Hpr & _).
  destruct (Hinv l s Hr) as [_ Hph].
  assert (Hx : sy_crashed s = false).
  { destruct (sy_crashed s) eqn:E; [|done]. apply (ph_crash _ Hph) in E. destruct Hc; congruence. }
  assert (Hstart : exists l0 s0, run cron_Parse l0 s = Some s0 /\ listening s0 /\ sy_emitted s0 = sy_emitted s /\
    waiting s0 = waiting s /\ hBuffer (sy_stats s0) = hBuffer (sy_stats s)).
  { destruct Hc as [Hc|Hc]; [|by exists [], s].
    exists [AClient MStep]. eexists. split; [unfold run; simpl; unfold act; rewrite Hx; unfold client_step; rewrite Hc, Ht; reflexivity|done]. }
  destruct Hstart as (l0 & s0 & Hr0 & Hl0 & He0 & Hw0 & Hb0).
  destruct (receive_all s0 Hl0) as (l1 & s1 & Hr1 & (Hc1 & Hx1 & Ht1) & Hw1 & Hb1 & He1).
  assert (Hm : marshals (hBuffer (sy_stats s1)) = true).
  { apply marshals_Forall. rewrite Hb1, Hw0, Hb0. by rewrite Permutation_app_comm. }
  set (s2 := http_select (Tick true (Some 204)) s1).
  assert (Hr2 : run cron_Parse [AClient (MTick true (Some 204))] s1 = Some s2).
  { unfold run. simpl. unfold act. rewrite Hx1. unfold client_step. rewrite Hc1. done. }
  assert (Hall : run cron_Parse (l0 ++ l1 ++ [AClient (MTick true (Some 204))]) s = Some s2)
    by (eapply run_acts_trans; [exact Hr0|]; by eapply run_acts_trans).
  assert (Hs2 : sy_emitted s2 = sy_emitted s1 /\ waiting s2 = [] /\ hBuffer (sy_stats s2) = []).
  { unfold s2, http_select, select_HTTP. rewrite Hm. simpl. split_and!; try done. }
  destruct Hs2 as (He2 & Hw2 & Hb2).
  exists (l0 ++ l1 ++ [AClient (MTick true (Some 204))]), s2. split_and!; [exact Hall|congruence|done..|].
  destruct (Hinv _ s2 (run_acts_trans _ _ _ _ _ _ Hr Hall)) as [[Hem [_ Hk]] _].
  assert (Hudp : (proto (sy_stats s2) =? "udp")%string = false).
  { apply String.eqb_neq. eapply (run_acts_invariant (act cron_Parse) (fun s => proto (sy_stats s) <> "udp"));
      [|exact (run_acts_trans _ _ _ _ _ _ Hr Hall)|by simpl; rewrite Hpr]. by intros a s3 s4 ->%act_proto. }
  rewrite Hudp in Hk. destruct Hk as [_ Hk]. rewrite Hb2, app_nil_r in Hk.
  rewrite Hw2, Hk in Hem. simpl in Hem. by rewrite <- Hem, He2, He1, He0.
Qed.
End delivery.

Lemma http_can_deliver_witness :
  let s := after (demo_added ++ [AFire 0 7000000; AFire 0 8000000]) in
  exists l' s', run (fun _ => None) l' s = Some s' /\ waiting s' = [] /\ concat (sy_posted s').*1 ≡ₚ sy_emitted s.
Proof.
  intros s. destruct (http_can_deliver (fun _ => None) demo_parse (inr "h") demo_http_settings demo_http_stats
    (demo_added ++ [AFire 0 7000000; AFire 0 8000000]) s) as (l' & s' & H1 & _ & H2 & _ & H3);
    [reflexivity|discriminate|vm_compute; reflexivity|left; vm_compute; reflexivity|vm_compute; reflexivity| |].
  - apply marshals_Forall. vm_compute. reflexivity.
  - exists l', s'. split; [exact H1|split; [exact H2|exact H3]].
Defined.

(** An HTTP instance whose post interval is not positive, which [New] accepts,
    brings the program down as soon as its client starts. *)
Lemma ticker_panics cron_Parse st runtime order :
  proto st = "http" -> postInt st <= 0 -> order ≡ₚ (map_to_list (points st)).*2 ->
  exists s, run cron_Parse [AStart order; AStart []; AClient MStep] (launch st runtime) = Some s /\
    sy_crashed s = true /\ forall a, act cron_Parse a s = None.
Proof.
  intros Hp Hi Ho. apply Z.leb_le in Hi.
  assert (H1 : act cron_Parse (AStart order) (launch st runtime) = Some
    (mkSys (start_jobs order st) runtime SClient NotRunning false NoLoop [] false [] [] [] [] [] [])).
  { unfold act, start_step. cbn. by rewrite bool_decide_eq_true_2. }
  eexists. split.
  - unfold run. cbn [run_acts]. rewrite H1. cbn [mbind option_bind]. unfold act. cbn. rewrite Hp. cbn. rewrite Hi. reflexivity.
  - done.
Qed.

(** ** Cron entries *)

Lemma run_begin_pre nano p : (run_begin nano p).2 = (pre p).2.
Proof. unfold run_begin. by destruct (pre p). Qed.

(** The number of cron entries of a point, and of the calls that have stored it and
    are about to add its entry. *)
Definition entries_of (st : Stats) (l : nat) : nat := length (filter (fun j => j.2 = l) (cron_jobs st)).

Definition adds_job (l : nat) (cal : caller) : Prop := ca_pc cal = GAddJob l.
#[export] Instance adds_job_dec l cal : Decision (adds_job l cal).
Proof. unfold adds_job. destruct (ca_pc cal) as [| |l'| | | | | | | | | | |]; try by right. destruct (decide (l' = l)); [left|right]; congruence. Defined.

Definition adding (s : system) (l : nat) : nat := length (filter (adds_job l) (sy_callers s)).

(** What the cron sees of the statistics. *)
Definition same_cron (st st' : Stats) : Prop :=
  points st' = points st /\ cron_jobs st' = cron_jobs st /\ interval <$> store st' = interval <$> store st.

Lemma same_cron_on_point st l f :
  (forall p, store st !! l = Some p -> interval (f p) = interval p) -> same_cron st (on_point st l f).
Proof.
  intros Hf. split_and!; try done. apply list_eq. intros i. simpl. rewrite !list_lookup_fmap.
  destruct (decide (i = l)) as [->|Hne]; [|by rewrite list_lookup_alter_ne].
  rewrite list_lookup_alter_eq. destruct (store st !! l) as [p|] eqn:E; [|done]. simpl. by rewrite Hf.
Qed.

Lemma same_cron_interval st st' l : same_cron st st' -> interval <$> store st' !! l = interval <$> store st !! l.
Proof. intros (_ & _ & H). by rewrite <- !list_lookup_fmap, H. Qed.

Lemma same_cron_length st st' : same_cron st st' -> length (store st') = length (store st).
Proof. intros (_ & _ & H). by rewrite <- (length_fmap interval (store st')), H, length_fmap. Qed.

Lemma pre_interval p : interval (pre p).2 = interval p.
Proof. unfold pre. by repeat case_match. Qed.

(** A step of a call: it stores a point, adds its entry or does neither. *)
Lemma caller_step_cases cron_Parse cal st st' cal' :
  caller_step cron_Parse cal st = (st', cal') ->
  ca_call cal' = ca_call cal /\
  ((same_cron st st' /\ (forall l, ~ adds_job l cal) /\ (forall l, ~ adds_job l cal')) \/
   ((forall l, ~ adds_job l cal) /\ adds_job (length (store st)) cal' /\
    st' = with_points st (store st ++ [call_point st (ca_call cal)])
            (<[call_key (ca_call cal) := length (store st)]> (points st)) (cron_jobs st)) \/
   (exists l, adds_job l cal /\ (forall l, ~ adds_job l cal') /\
    st' = with_points st (store st) (points st) (cron_jobs st ++ [(c_interval (ca_call cal), l)]))).
Proof.
  assert (Hon : forall l f, (forall p, interval (f p) = interval p) -> same_cron st (on_point st l f)).
  { intros l f Hf. by apply same_cron_on_point. }
  unfold caller_step, adds_job. destruct cal as [b c pc]. simpl. intros Hs.
  destruct pc; simpl in Hs; repeat case_match; simplify_eq/=; (split; [done|]);
    first [by left|by right; left|by right; right; eauto|left; split; [by apply Hon|by split]].
Qed.

Definition max_entries (p : start_pc) : nat := match p with SRange => 1 | _ => 2 end.

Record cron_ok (s : system) : Prop := {
  co_bound : forall k l, points (sy_stats s) !! k = Some l -> (l < length (store (sy_stats s)))%nat;
  co_inj : forall k k' l, points (sy_stats s) !! k = Some l -> points (sy_stats s) !! k' = Some l -> k = k';
  co_jobs : forall itv l, (itv, l) ∈ cron_jobs (sy_stats s) -> interval <$> store (sy_stats s) !! l = Some itv;
  co_adding : forall cal l, cal ∈ sy_callers s -> adds_job l cal ->
    interval <$> store (sy_stats s) !! l = Some (c_interval (ca_call cal));
  co_entries : forall l, (l < length (store (sy_stats s)))%nat ->
    (1 <= entries_of (sy_stats s) l + adding s l <= max_entries (sy_starter s))%nat;
}.

(** Steps that neither the cron nor the calls in [getPoint] notice. *)
Lemma cron_ok_same s s' :
  same_cron (sy_stats s) (sy_stats s') ->
  (forall l cal, cal ∈ sy_callers s' -> adds_job l cal ->
     exists cal0, cal0 ∈ sy_callers s /\ adds_job l cal0 /\ ca_call cal0 = ca_call cal) ->
  (forall l, adding s' l = adding s l) -> (max_entries (sy_starter s) <= max_entries (sy_starter s'))%nat ->
  cron_ok s -> cron_ok s'.
Proof.
  intros Hsame Hcal Hadd Hmax [Hb Hi Hj Ha He]. pose proof Hsame as (Hp & Hjobs & _).
  pose proof (same_cron_length _ _ Hsame) as Hlen. split.
  - intros k l. rewrite Hp, Hlen. apply Hb.
  - intros k k' l. rewrite Hp. apply Hi.
  - intros itv l. rewrite Hjobs, (same_cron_interval _ _ _ Hsame). apply Hj.
  - intros cal l Hin (cal0 & Hin0 & H0 & <-)%Hcal; [|done]. rewrite (same_cron_interval _ _ _ Hsame). by apply Ha.
  - intros l. rewrite Hlen, Hadd. unfold entries_of. rewrite Hjobs. intros Hl. specialize (He l Hl).
    unfold entries_of in He. lia.
Qed.

Lemma cron_ok_stats s s' :
  same_cron (sy_stats s) (sy_stats s') -> sy_callers s' = sy_callers s -> sy_starter s' = sy_starter s ->
  cron_ok s -> cron_ok s'.
Proof.
  intros Hsame Hc Hst. apply cron_ok_same; [done|rewrite Hc; eauto|intros l; unfold adding; by rewrite Hc|by rewrite Hst].
Qed.

Lemma same_cron_refl st : same_cron st st.
Proof. by split. Qed.

Lemma call_step_cron_ok c s : cron_ok s -> cron_ok (call_step c s).
Proof.
  unfold call_step. destruct (begin_call c) as [cal|] eqn:E; [|by apply cron_ok_stats].
  assert (Hn : forall l, ~ adds_job l cal) by (intros l; destruct c; simplify_eq/=; by intros [=]).
  apply cron_ok_same; [done| | |done].
  - intros l cal1 [Hin| ->%list_elem_of_singleton]%elem_of_app Hl; [by exists cal1|by destruct (Hn l)].
  - intros l. unfold adding. simpl. by rewrite filter_app, length_app, filter_cons, decide_False by apply Hn.
Qed.

Lemma adding_insert s l i cal cal' cs :
  sy_callers s !! i = Some cal -> sy_callers cs = <[i := cal']> (sy_callers s) ->
  (adding cs l + (if decide (adds_job l cal) then 1 else 0) = adding s l + (if decide (adds_job l cal') then 1 else 0))%nat.
Proof. intros Hi Hc. unfold adding. rewrite Hc. by apply filter_length_insert. Qed.

(** A step of a call at its own position: the other calls adding an entry remain. *)
Lemma move_step_cron_ok cron_Parse i s s' : move_step cron_Parse i s = Some s' -> cron_ok s -> cron_ok s'.
Proof.
  unfold move_step. intros Hs Hok. destruct (sy_callers s !! i) as [cal|] eqn:Hi; [|done].
  destruct (returned cal); [done|]. destruct (caller_step _ _ _) as [st cal'] eqn:Hst. simplify_eq.
  pose proof (fun l => adding_insert s l i cal cal' (set_callers (<[i := cal']> (sy_callers s)) (set_stats st s)) Hi eq_refl) as Hadd.
  apply caller_step_cases in Hst as [Hcall [(Hsame & Hn & Hn')|[(Hn & Hy & ->)|(l0 & Hy & Hn' & ->)]]].
  - apply cron_ok_same with s; try done.
    + intros l cal1 [->|Hin]%elem_insert Hl; [by destruct (Hn' l)|by exists cal1].
    + intros l. specialize (Hadd l). rewrite !decide_False in Hadd by done. lia.
  - destruct Hok as [Hb Hinj Hj Ha He].
    assert (Hfresh : store (sy_stats s) !! length (store (sy_stats s)) = None) by by apply lookup_ge_None.
    split; simpl.
    + intros k l [[<- <-]|[_ Hl]]%lookup_insert_Some; rewrite length_app; simpl; [lia|]. apply Hb in Hl. lia.
    + intros k k' l Hk Hk'. apply lookup_insert_Some in Hk as [[<- <-]|[_ Hk]], Hk' as [[<- Hk']|[_ Hk']]; try done.
      * apply Hb in Hk'. lia.
      * subst. apply Hb in Hk. lia.
      * by eapply Hinj.
    + intros itv l Hin. apply Hj in Hin. destruct (store (sy_stats s) !! l) as [p|] eqn:E; [|done].
      by rewrite (lookup_app_l_Some _ _ _ _ E).
    + intros cal1 l [->|Hin]%elem_insert Hl.
      * assert (l = length (store (sy_stats s))) as -> by (unfold adds_job in *; congruence).
        by rewrite list_lookup_middle, Hcall.
      * pose proof (Ha _ _ Hin Hl) as Hp. destruct (store (sy_stats s) !! l) as [p|] eqn:E; [|done].
        by rewrite (lookup_app_l_Some _ _ _ _ E).
    + intros l. rewrite length_app. simpl. intros Hl. specialize (Hadd l). rewrite (decide_False (P := adds_job l cal)) in Hadd by done.
      change (entries_of _ l) with (entries_of (sy_stats s) l).
      destruct (decide (adds_job l cal')) as [Hl'|Hl'].
      * assert (l = length (store (sy_stats s))) as -> by (unfold adds_job in *; congruence).
        assert (E0 : entries_of (sy_stats s) (length (store (sy_stats s))) = 0%nat).
        { unfold entries_of. apply length_zero_iff_nil, elem_of_nil_inv. intros [itv l] [Hx Hin%Hj]%list_elem_of_filter.
          simpl in Hx. subst l. by rewrite Hfresh in Hin. }
        assert (A0 : adding s (length (store (sy_stats s))) = 0%nat).
        { unfold adding. apply length_zero_iff_nil, elem_of_nil_inv. intros c [Hx Hin]%list_elem_of_filter.
          pose proof (Ha _ _ Hin Hx) as Hp. by rewrite Hfresh in Hp. }
        destruct (sy_starter s); simpl; lia.
      * assert (l <> length (store (sy_stats s))) by (intros ->; done). specialize (He l ltac:(lia)). lia.
  - destruct Hok as [Hb Hinj Hj Ha He].
    pose proof (Ha cal l0 (list_elem_of_lookup_2 _ _ _ Hi) Hy) as Hitv. split; simpl; try done.
    + intros itv l [Hin|[= -> ->]%list_elem_of_singleton]%elem_of_app; [by apply Hj|done].
    + intros cal1 l [->|Hin]%elem_insert Hl; [by destruct (Hn' l)|by apply Ha].
    + intros l Hl. specialize (He l Hl). specialize (Hadd l). rewrite (decide_False (P := adds_job l cal')) in Hadd by done.
      unfold entries_of. simpl. rewrite filter_app, length_app, filter_cons. simpl. fold (entries_of (sy_stats s) l).
      destruct (decide (adds_job l cal)) as [Hl'|Hl'].
      * assert (l = l0) as -> by (unfold adds_job in *; congruence). rewrite decide_True by done. simpl. lia.
      * rewrite decide_False by (intros ->; done). simpl. lia.
Qed.

Lemma filter_singleton_occurrence (order : list nat) l (f : nat -> string) :
  NoDup order -> (length (filter (fun j : string * nat => j.2 = l) ((fun x => (f x, x)) <$> order)) <= 1)%nat.
Proof.
  induction 1 as [|x order Hx Hnd IH]; simpl; [lia|]. rewrite filter_cons. simpl.
  destruct (decide (x = l)) as [->|]; [|done]. simpl.
  destruct (filter _ _) as [|[itv l'] k] eqn:E; [simpl; lia|].
  assert (Hin : (itv, l') ∈ filter (fun j : string * nat => j.2 = l) ((fun x => (f x, x)) <$> order)) by (rewrite E; set_solver).
  apply list_elem_of_filter in Hin as [Heq Hin]. simpl in Heq. subst l'.
  apply list_elem_of_fmap in Hin as (y & [= _ <-] & ?). done.
Qed.

Lemma range_jobs_cron_ok order s s' :
  order ≡ₚ (map_to_list (points (sy_stats s))).*2 -> sy_starter s = SRange ->
  sy_stats s' = start_jobs order (sy_stats s) -> sy_callers s' = sy_callers s -> sy_starter s' = SClient ->
  cron_ok s -> cron_ok s'.
Proof.
  intros Ho Hst Hs Hc Hst' [Hb Hinj Hj Ha He]. split; rewrite ?Hs, ?Hc, ?Hst'; simpl; try done.
  - intros itv l [Hin|Hin]%elem_of_app; [by apply Hj|]. apply list_elem_of_fmap in Hin as (l' & [= -> ->] & Hin).
    rewrite Ho in Hin. apply list_elem_of_fmap in Hin as ([k l''] & -> & Hk%elem_of_map_to_list). apply Hb in Hk. simpl.
    by destruct (lookup_lt_is_Some_2 _ _ Hk) as [p ->].
  - intros l Hl. specialize (He l Hl). rewrite Hst in He. change (max_entries SRange) with 1%nat in He.
    assert (Hadd : adding s' l = adding s l) by (unfold adding; by rewrite Hc).
    assert (Hnd : NoDup order).
    { rewrite Ho. apply NoDup_fmap_2_strong; [|apply NoDup_map_to_list].
      intros [k x] [k' x'] H1%elem_of_map_to_list H2%elem_of_map_to_list Heq. simpl in *. subst x'. by rewrite (Hinj k k' x). }
    pose proof (filter_singleton_occurrence order l (fun l => from_option interval "" (store (sy_stats s) !! l)) Hnd) as Hocc.
    set (n := length _) in Hocc.
    assert (Hsum : entries_of (start_jobs order (sy_stats s)) l = (entries_of (sy_stats s) l + n)%nat).
    { unfold entries_of. cbn [start_jobs cron_jobs with_points]. by rewrite filter_app, length_app. }
    rewrite Hsum, Hadd. lia.
Qed.

Lemma client_step_cron_ok mv s s' : client_step mv s = Some s' -> cron_ok s -> cron_ok s'.
Proof.
  intros Hs. apply cron_ok_stats;
    unfold client_step, take_message, http_select, select_HTTP, udp_receive in Hs;
    repeat (case_match; simplify_eq/=); done.
Qed.

Lemma start_step_cron_ok order s s' : start_step order s = Some s' -> cron_ok s -> cron_ok s'.
Proof.
  unfold start_step. intros Hs. destruct (sy_starter s) eqn:E; [| | | |done].
  - case_bool_decide as Ho; [|done]. simplify_eq. by eapply range_jobs_cron_ok.
  - simplify_eq. apply cron_ok_same; [by split|eauto|done|rewrite E; simpl; lia].
  - simplify_eq. apply cron_ok_same; [by split|eauto|done|rewrite E; simpl; lia].
  - simplify_eq. apply cron_ok_same; [by split|eauto|done|rewrite E; simpl; lia].
Qed.

Lemma fire_step_cron_ok j nano s s' : fire_step j nano s = Some s' -> cron_ok s -> cron_ok s'.
Proof.
  unfold fire_step. intros Hs. destruct (negb _); [done|]. destruct (cron_jobs _ !! j) as [[itv l]|]; [|done].
  destruct (store _ !! l) as [p|] eqn:Hp; [|done]. destruct (run_begin nano p) as [msg p'] eqn:Hb. simplify_eq.
  apply cron_ok_stats; [|done..]. apply same_cron_on_point. intros q Hq.
  assert (q = p) as -> by congruence. by rewrite <- (pre_interval p), <- (run_begin_pre nano), Hb.
Qed.

Lemma act_cron_ok cron_Parse a s s' : act cron_Parse a s = Some s' -> cron_ok s -> cron_ok s'.
Proof.
  unfold act. destruct (sy_crashed s); [done|]. intros Hs Hok. destruct a as [c|i|order|j nano|r|mv|n].
  - simplify_eq. by apply call_step_cron_ok.
  - by eapply move_step_cron_ok.
  - by eapply start_step_cron_ok.
  - by eapply fire_step_cron_ok.
  - unfold post_step in Hs. destruct (sy_runs s !! r) as [[|l]|]; try done. simplify_eq. revert Hok.
    apply cron_ok_stats; [|done..]. apply same_cron_on_point. intros p _. unfold post. by destruct (_ || _).
  - by eapply client_step_cron_ok.
  - unfold runtime_step in Hs. destruct (sy_loop s); try done.
    + destruct (terminate _); simplify_eq; [by apply (cron_ok_stats s)|].
      apply (cron_ok_stats (call_step (CValueAdd "runtime.goroutines.count" (st_tags (sy_stats s)) "max" "@every 1m"
               false true (f64_of_Z n)) s)); [done..|]. by apply call_step_cron_ok.
    + destruct (sy_callers s !! i) as [cal|]; [|done]. destruct (returned cal); [|done]. simplify_eq.
      by apply (cron_ok_stats s).
Qed.

Lemma New_empty ParseDuration hostname settings st :
  New ParseDuration hostname settings = Ok st -> store st = [] /\ points st = ∅ /\ cron_jobs st = [].
Proof. unfold New. intros H. repeat case_match; by simplify_eq. Qed.

(** C30. Every metric is reported, and by at most two cron entries.  In every state
    of an instance, under every interleaving of the single steps of the calls and
    of the other goroutines, each point of the map has a cron entry or a call is
    about to add it, having just stored the point; it has at most one entry while
    [start] has not looked at the map, and afterwards at most two, the second
    because [start] schedules again the points stored before it ran; and all of
    them are at the point's own interval. *)
Theorem cron_entries_bounded cron_Parse ParseDuration hostname settings st l s k lc :
  New ParseDuration hostname settings = Ok st ->
  run cron_Parse l (launch st (set_Runtime settings)) = Some s ->
  points (sy_stats s) !! k = Some lc ->
  (1 <= entries_of (sy_stats s) lc \/ exists cal, cal ∈ sy_callers s /\ ca_pc cal = GAddJob lc)%nat /\
  (entries_of (sy_stats s) lc <= 2)%nat /\
  (sy_starter s = SRange -> entries_of (sy_stats s) lc <= 1)%nat /\
  (forall itv, (itv, lc) ∈ cron_jobs (sy_stats s) -> interval <$> store (sy_stats s) !! lc = Some itv).
Proof.
  intros (Hstore & Hpoints & Hjobs)%New_empty Hr Hk. assert (Hok : cron_ok s).
  { eapply (run_acts_invariant (act cron_Parse) cron_ok); [apply act_cron_ok|exact Hr|].
    split; simpl; rewrite ?Hstore, ?Hpoints, ?Hjobs; simpl.
    - by intros ? ? [=].
    - by intros ? ? ? [=].
    - by intros ? ? ?%elem_of_nil.
    - by intros ? ? ?%elem_of_nil.
    - intros ? ?. lia. }
  destruct Hok as [Hb _ Hj _ He]. specialize (He lc (Hb _ _ Hk)). split_and!.
  - destruct (filter (adds_job lc) (sy_callers s)) as [|cal cs] eqn:E.
    + left. unfold adding in He. rewrite E in He. simpl in He. lia.
    + right. exists cal. assert (Hin : cal ∈ filter (adds_job lc) (sy_callers s)) by (rewrite E; apply elem_of_cons; by left).
      by apply list_elem_of_filter in Hin as [? ?].
  - destruct (sy_starter s); simpl in He; lia.
  - intros E. rewrite E in He. simpl in He. lia.
  - intros itv. apply Hj.
Qed.

(** A metric that is created before [start] has run, and one stored afterwards
    whose entry is still missing. *)
Definition demo_early : list action :=
  ACall (CValueAdd "m" ∅ "sum" "@every 1m" false false (f64_of_Z 5)) :: replicate 8 (AMove 0) ++
  [AStart [0%nat]; AStart []; AStart []; AStart []; ACall (CIncrement "n" ∅ "@every 1m" false false); AMove 1; AMove 1].

Lemma cron_entries_bounded_witness :
  let s := after demo_early in
  entries_of (sy_stats s) 0 = 2%nat /\ (entries_of (sy_stats s) 0 <= 2)%nat /\ entries_of (sy_stats s) 1 = 0%nat /\
  (1 <= entries_of (sy_stats s) 1 \/ exists cal, cal ∈ sy_callers s /\ ca_pc cal = GAddJob 1)%nat.
Proof.
  pose proof (cron_entries_bounded (fun _ => None) demo_parse (inr "h") demo_http_settings demo_http_stats
    demo_early (after demo_early)) as H. split_and!; [vm_compute; reflexivity| |vm_compute; reflexivity|].
  - exact (proj1 (proj2 (H "m" 0%nat ltac:(reflexivity) ltac:(vm_compute; reflexivity) ltac:(vm_compute; reflexivity)))).
  - exact (proj1 (H "n" 1%nat ltac:(reflexivity) ltac:(vm_compute; reflexivity) ltac:(vm_compute; reflexivity))).
Defined.

(** ** A call alone *)

Fixpoint caller_steps (cron_Parse : string -> option string) (n : nat) (cal : caller) (st : Stats) : Stats * caller :=
  match n with
  | O => (st, cal)
  | S n => let x := caller_step cron_Parse cal st in caller_steps cron_Parse n x.2 x.1
  end.

Lemma caller_steps_S cron_Parse n cal st st' cal' :
  caller_step cron_Parse cal st = (st', cal') ->
  caller_steps cron_Parse (S n) cal st = caller_steps cron_Parse n cal' st'.
Proof. intros H. simpl. by rewrite H. Qed.

(** [SetValue] that is not interrupted ends within 6 steps with the state, or the
    error, of the call as one transition. *)
Theorem set_value_solo cron_Parse m tg itv keep nullable v st :
  let cal pc := mkCaller true (mkCall m tg "sum" itv keep nullable v) pc in
  caller_steps cron_Parse 6 (cal GLoad) st =
    match Stats_SetValue cron_Parse st m tg itv keep nullable v with
    | Ok st' => (st', cal UDone)
    | Err e => (st, cal (UErr e))
    | Panic => (st, cal GLoad)
    end.
Proof.
  intros cal. unfold Stats_SetValue, getPoint.
  assert (Hset : forall n l st, caller_steps cron_Parse (S (S (S n))) (cal (UDispatch l)) st = (on_point st l (SetValue v), cal UDone)).
  { intros n l st0. do 3 (erewrite caller_steps_S by reflexivity). cbn.
    rewrite (on_point_on_point st0 l (store_value v) (store_null 0)). by induction n. }
  destruct (points st !! _) as [l|] eqn:Hl.
  { erewrite caller_steps_S; [|unfold caller_step, ustep, call_key; cbn; rewrite Hl; reflexivity]. by rewrite Hset. }
  destruct (cron_Parse itv) as [e|] eqn:Hp.
  { erewrite caller_steps_S; [|unfold caller_step, ustep, call_key; cbn; rewrite Hl, Hp; reflexivity]. done. }
  erewrite caller_steps_S; [|unfold caller_step, ustep, call_key; cbn; rewrite Hl, Hp; reflexivity].
  do 2 (erewrite caller_steps_S by reflexivity). by rewrite Hset.
Qed.
