(* ===== verification/Election.v ===== *)
(** * Package [election] ([election/election.go], [election/structs.go])

    The manager's functions are sequences of ZooKeeper calls with local effects
    in between, run by several nodes against one server.  Each function is a
    [prog]: a tree of calls with typed continuations.  The same tree is executed
    alone ([exec]) or interleaved with those of other nodes ([net_step]).  The
    ZooKeeper server is a parameter: the class [ZkServer] has the replies it may
    give and [ZkLaws] what the client documentation promises of them, failures
    included. *)

From stdpp Require Import base gmap strings list relations functions.
From Stdlib Require Import ZArith Lia.
From S2P Require Import Prelude Chan Util.

Local Open Scope Z_scope.

(** ** Signals, configuration, cluster *)

Definition Master : Z := 1.
Definition Slave : Z := 2.
Definition ClusterChanged : Z := 3.
Definition Disconnected : Z := 4.

Definition defaultChannelSize : nat := 5.

Record Config : Type := mkConfig {
  ZKURL : list string;
  ZKElectionNodeURI : string;
  ZKSlaveNodesURI : string;
  ReconnectionTimeout : string;
  SessionTimeout : string;
  ClusterChangeCheckTime : string;
  ClusterChangeWaitTime : string;
}.

Record Cluster : Type := mkCluster {
  cl_IsMaster : bool;
  cl_Master : string;
  cl_Slaves : list string;
  cl_Nodes : list string;
  cl_NumNodes : Z;
}.

(** Errors of the ZooKeeper client: the two the code tells apart by their text,
    and any other. *)
Inductive zk_error : Type := ErrNoNode | ErrNodeExists | ErrZk (e : string).

Inductive election_error : Type :=
| EZk (e : zk_error)
| EHostname (e : string)
| ESessionTimeout (d : string)
| EReconnectionTimeout (d : string)
| EClusterChangeCheckTime (d : string)
| EClusterChangeWaitTime (d : string).

(** The manager's mutable fields; [clusterNodes] is the key set of the map. *)
Record Manager : Type := mkManager {
  zkConnection : bool;          (* not nil *)
  isMaster : bool;
  feedbackChannel : chan Z;
  clusterNodes : gset string;
  terminate : bool;
}.

(** [New]: the four durations must parse ([time.ParseDuration]). *)
Definition New (ParseDuration : string -> string + Z) (c : Config) : result election_error Manager :=
  match ParseDuration (SessionTimeout c), ParseDuration (ReconnectionTimeout c),
        ParseDuration (ClusterChangeCheckTime c), ParseDuration (ClusterChangeWaitTime c) with
  | inl _, _, _, _ => Err (ESessionTimeout (SessionTimeout c))
  | _, inl _, _, _ => Err (EReconnectionTimeout (ReconnectionTimeout c))
  | _, _, inl _, _ => Err (EClusterChangeCheckTime (ClusterChangeCheckTime c))
  | _, _, _, inl _ => Err (EClusterChangeWaitTime (ClusterChangeWaitTime c))
  | inr _, inr _, inr _, inr _ => Ok (mkManager false false (make_chan defaultChannelSize) ∅ false)
  end.

(** ** Programs *)

Inductive prog (A : Type) : Type :=
| Ret (a : A)
| Crash
| PGet (path : string) (k : zk_error + string -> prog A)
| PCreate (path data : string) (ephemeral : bool) (k : zk_error + string -> prog A)
| PDelete (path : string) (k : zk_error + unit -> prog A)
| PChildren (path : string) (k : zk_error + list string -> prog A)
| PConnect (k : option zk_error -> prog A)
| PExistsW (path : string) (k : option zk_error -> prog A)
| PState (k : bool -> prog A)               (* [State() != StateDisconnected] *)
| PClose (k : prog A)
| PHasConn (k : bool -> prog A)             (* [m.zkConnection != nil] *)
| PIsMaster (k : bool -> prog A)
| PSetMaster (b : bool) (k : prog A)
| PSetTerminate (b : bool) (k : prog A)
| PSignal (s : Z) (k : prog A)              (* [m.feedbackChannel <- s] *)
| PStoreNodes (ns : list string) (k : prog A)
| PGetNodes (k : gset string -> prog A)
| PClearNodes (k : prog A).
Arguments Ret {A} a.
Arguments Crash {A}.
Arguments PGet {A} path k.
Arguments PCreate {A} path data ephemeral k.
Arguments PDelete {A} path k.
Arguments PChildren {A} path k.
Arguments PConnect {A} k.
Arguments PExistsW {A} path k.
Arguments PState {A} k.
Arguments PClose {A} k.
Arguments PHasConn {A} k.
Arguments PIsMaster {A} k.
Arguments PSetMaster {A} b k.
Arguments PSetTerminate {A} b k.
Arguments PSignal {A} s k.
Arguments PStoreNodes {A} ns k.
Arguments PGetNodes {A} k.
Arguments PClearNodes {A} k.

Fixpoint pbind {A B : Type} (p : prog A) (f : A -> prog B) : prog B :=
  match p with
  | Ret a => f a
  | Crash => Crash
  | PGet n k => PGet n (fun r => pbind (k r) f)
  | PCreate n d e k => PCreate n d e (fun r => pbind (k r) f)
  | PDelete n k => PDelete n (fun r => pbind (k r) f)
  | PChildren n k => PChildren n (fun r => pbind (k r) f)
  | PConnect k => PConnect (fun r => pbind (k r) f)
  | PExistsW n k => PExistsW n (fun r => pbind (k r) f)
  | PState k => PState (fun r => pbind (k r) f)
  | PClose k => PClose (pbind k f)
  | PHasConn k => PHasConn (fun r => pbind (k r) f)
  | PIsMaster k => PIsMaster (fun r => pbind (k r) f)
  | PSetMaster b k => PSetMaster b (pbind k f)
  | PSetTerminate b k => PSetTerminate b (pbind k f)
  | PSignal s k => PSignal s (pbind k f)
  | PStoreNodes ns k => PStoreNodes ns (pbind k f)
  | PGetNodes k => PGetNodes (fun r => pbind (k r) f)
  | PClearNodes k => PClearNodes (pbind k f)
  end.

Notation "'let!' x := m 'in' k" := (pbind m (fun x => k))
  (at level 10, x pattern, m at level 100, k at level 200) : go_scope.
Local Open Scope go_scope.

(** ** The manager's functions *)

Section functions.
(** The configuration, and the outcome of [os.Hostname]. *)
Context (config : Config) (hostname : string + string).

Definition slaveNode (nodeName : string) : string := ZKSlaveNodesURI config +:+ "/" +:+ nodeName.

Definition getNodeData (node : string) : prog (zk_error + option string) :=
  PGet node (fun r =>
    match r with
    | inl ErrNoNode => Ret (inr None)
    | inl e => Ret (inl e)
    | inr data => Ret (inr (Some data))
    end).

Definition getZKMasterNode : prog (zk_error + option string) :=
  PHasConn (fun conn =>
    if negb conn then Ret (inr None)
    else let! r := getNodeData (ZKElectionNodeURI config) in
         match r with
         | inl e => Ret (inl e)
         | inr data => Ret (inr data)
         end).

Definition createSlaveDir : prog (option election_error) :=
  let! r := getNodeData (ZKSlaveNodesURI config) in
  match r with
  | inl e => Ret (Some (EZk e))
  | inr (Some _) => Ret None
  | inr None => PCreate (ZKSlaveNodesURI config) "" false (fun c =>
      match c with
      | inl e => Ret (Some (EZk e))
      | inr _ => Ret None
      end)
  end.

Definition registerAsSlave (nodeName : string) : prog (option election_error) :=
  let! e := createSlaveDir in
  match e with
  | Some e => Ret (Some e)
  | None =>
      let registered := PSetMaster false (PSignal Slave (Ret None)) in
      let! r := getNodeData (slaveNode nodeName) in
      match r with
      | inl e => Ret (Some (EZk e))
      | inr (Some _) => registered
      | inr None => PCreate (slaveNode nodeName) nodeName true (fun c =>
          match c with
          | inl e => Ret (Some (EZk e))
          | inr _ => registered
          end)
      end
  end.

(** [GetHostname] and [IsMaster]. *)
Definition GetHostname : election_error + string :=
  match hostname with inl e => inl (EHostname e) | inr name => inr name end.

Definition IsMaster : prog bool := PIsMaster (fun b => Ret b).

(** The end of [electForMaster], from [m.zkConnection.Create]. *)
Definition create_master (name : string) : prog (option election_error) :=
  PCreate (ZKElectionNodeURI config) name true (fun c =>
    match c with
    | inl ErrNodeExists => registerAsSlave name
    | inl e => Ret (Some (EZk e))
    | inr _ =>
        PSetMaster true (PSignal Master (
        let! r := getNodeData (slaveNode name) in
        match r with
        | inl _ => Ret None
        | inr None => Ret None
        | inr (Some _) => PDelete (slaveNode name) (fun _ => Ret None)
        end))
    end).

Definition electForMaster : prog (option election_error) :=
  match GetHostname with
  | inl e => Ret (Some e)
  | inr name =>
      let! r := getZKMasterNode in
      match r with
      | inl e => Ret (Some (EZk e))
      | inr None => create_master name
      | inr (Some zkMasterNode) =>
          if (name =? zkMasterNode)%string
          then PSetMaster true (create_master name)
          else registerAsSlave name
      end
  end.

(** [GetClusterInfo] returns a nil pointer with a nil error without a
    connection. *)
Definition GetClusterInfo : prog (zk_error + option Cluster) :=
  PHasConn (fun conn =>
    if negb conn then Ret (inr None)
    else let! r := getZKMasterNode in
         match r with
         | inl e => Ret (inl e)
         | inr masterNode =>
             let nodes := option_list masterNode in
             let! d := getNodeData (ZKSlaveNodesURI config) in
             match d with
             | inl e => Ret (inl e)
             | inr slaveDir =>
                 let cluster (nodes children : list string) :=
                   PIsMaster (fun b => Ret (inr (Some (mkCluster b (default "" masterNode) children nodes
                     (Z.of_nat (length nodes)))))) in
                 match slaveDir with
                 | None => cluster nodes []
                 | Some _ => PChildren (ZKSlaveNodesURI config) (fun c =>
                     match c with
                     | inl e => Ret (inl e)
                     | inr children => cluster (nodes ++ children) children
                     end)
                 end
             end
         end).

Definition listenForElectionEvents : prog (option election_error) :=
  PExistsW (ZKElectionNodeURI config) (fun r =>
    match r with Some e => Ret (Some (EZk e)) | None => Ret None end).

(** The part before the goroutine; [cluster.Nodes] on a nil pointer panics. *)
Definition listenForNodeEvents : prog (option election_error) :=
  let! r := GetClusterInfo in
  match r with
  | inl e => Ret (Some (EZk e))
  | inr None => Crash
  | inr (Some cluster) => PStoreNodes (cl_Nodes cluster) (Ret None)
  end.

(** [changed] in the goroutine: the sizes differ, or a node is unknown. *)
Definition cluster_changed (nodes : list string) (known : gset string) : bool :=
  if negb (length nodes =? GetSyncMapSize (elements known))%nat then true
  else existsb (fun node => negb (bool_decide (node ∈ known))) nodes.

(** One iteration of that goroutine after its sleep. *)
Definition check_nodes : prog unit :=
  let! r := GetClusterInfo in
  match r with
  | inl _ => Ret tt
  | inr None => Crash
  | inr (Some cluster) => PGetNodes (fun known =>
      if cluster_changed (cl_Nodes cluster) known
      then PClearNodes (PStoreNodes (cl_Nodes cluster) (PSignal ClusterChanged (Ret tt)))
      else Ret tt)
  end.

(** The part of [connect] before its goroutine. *)
Definition connect : prog (option election_error) :=
  PConnect (fun c => match c with Some e => Ret (Some (EZk e)) | None => Ret None end).

Definition Start : prog (option election_error) :=
  PSetTerminate false (
    let! e0 := connect in
    match e0 with Some e => Ret (Some e) | None =>
    let! e1 := electForMaster in
    match e1 with Some e => Ret (Some e) | None =>
    let! e2 := createSlaveDir in
    match e2 with Some e => Ret (Some e) | None =>
    let! e3 := listenForElectionEvents in
    match e3 with Some e => Ret (Some e) | None => listenForNodeEvents end end end end).

Definition Disconnect : prog unit :=
  PSetTerminate true (PHasConn (fun conn =>
    if negb conn then Ret tt
    else PState (fun st => if st then PClose (PSignal Disconnected (Ret tt)) else Ret tt))).

(** The goroutine of [listenForElectionEvents] on one event of the watch. *)
Inductive watch_event : Type := NodeDeleted | NodeCreated | OtherEvent.

Definition election_event (ev : watch_event) : prog (option election_error) :=
  match ev with NodeDeleted => electForMaster | _ => Ret None end.
End functions.

(** ** The server *)

(** A znode: its data and, if ephemeral, the session that owns it. *)
Notation tree := (gmap string (string * option nat)).

Class ZkServer (W : Type) : Type := {
  view : W -> tree;
  zk_Get : nat -> string -> W -> W -> zk_error + string -> Prop;
  zk_Create : nat -> string -> string -> bool -> W -> W -> zk_error + string -> Prop;
  zk_Delete : nat -> string -> W -> W -> zk_error + unit -> Prop;
  zk_Children : nat -> string -> W -> W -> zk_error + list string -> Prop;
  zk_Close : nat -> W -> W -> Prop;
}.

(** Any call may fail with another error, such as a lost connection, and then a
    [Create] or a [Delete] may or may not have had its effect.  Otherwise [Get]
    answers from the tree, [Create] is atomic and refuses an existing node,
    [Delete] removes one node, [Children] lists nodes of the tree once each, and
    closing a session removes its ephemeral nodes. *)
Definition created (i : nat) (p d : string) (e : bool) (t t' : tree) : Prop :=
  t !! p = None /\ t' = <[p := (d, if e then Some i else None)]> t.

Class ZkLaws (W : Type) `{ZkServer W} : Prop := {
  get_law i p w w' r : zk_Get i p w w' r -> view w' = view w /\
    match r with
    | inr d => exists o, view w !! p = Some (d, o)
    | inl ErrNoNode => view w !! p = None
    | inl _ => True
    end;
  create_law i p d e w w' r : zk_Create i p d e w w' r ->
    match r with
    | inr _ => created i p d e (view w) (view w')
    | inl ErrNodeExists => view w' = view w /\ is_Some (view w !! p)
    | inl ErrNoNode => view w' = view w
    | inl (ErrZk _) => view w' = view w \/ created i p d e (view w) (view w')
    end;
  delete_law i p w w' r : zk_Delete i p w w' r ->
    match r with
    | inr _ => view w' = delete p (view w)
    | inl (ErrZk _) => view w' = view w \/ view w' = delete p (view w)
    | inl _ => view w' = view w
    end;
  children_law i p w w' r : zk_Children i p w w' r -> view w' = view w /\
    match r with
    | inr ns => NoDup ns /\ forall n, n ∈ ns -> is_Some (view w !! (p +:+ "/" +:+ n))
    | inl _ => True
    end;
  close_law i w w' : zk_Close i w w' -> view w' = filter (fun kv => snd kv.2 <> Some i) (view w);
}.

(** ** Execution *)

Definition set_isMaster (m : Manager) (b : bool) : Manager :=
  mkManager (zkConnection m) b (feedbackChannel m) (clusterNodes m) (terminate m).
Definition set_terminate (m : Manager) (b : bool) : Manager :=
  mkManager (zkConnection m) (isMaster m) (feedbackChannel m) (clusterNodes m) b.
Definition set_conn (m : Manager) (b : bool) : Manager :=
  mkManager b (isMaster m) (feedbackChannel m) (clusterNodes m) (terminate m).
Definition set_feedback (m : Manager) (c : chan Z) : Manager :=
  mkManager (zkConnection m) (isMaster m) c (clusterNodes m) (terminate m).
Definition set_nodes (m : Manager) (ns : gset string) : Manager :=
  mkManager (zkConnection m) (isMaster m) (feedbackChannel m) ns (terminate m).

Section execution.
Context {W : Type} `{ZkServer W}.

(** One step of node [i].  A call on a nil connection panics; a signal waits
    for room in the channel. *)
Inductive pstep (i : nat) {A : Type} : prog A * W * Manager -> prog A * W * Manager -> Prop :=
| st_nil p w m : zkConnection m = false ->
    (match p with
     | PGet _ _ | PCreate _ _ _ _ | PDelete _ _ | PChildren _ _ | PExistsW _ _ | PState _ | PClose _ => True
     | _ => False
     end) -> pstep i (p, w, m) (Crash, w, m)
| st_get n k w w' m r : zkConnection m = true -> zk_Get i n w w' r ->
    pstep i (PGet n k, w, m) (k r, w', m)
| st_create n d e k w w' m r : zkConnection m = true -> zk_Create i n d e w w' r ->
    pstep i (PCreate n d e k, w, m) (k r, w', m)
| st_delete n k w w' m r : zkConnection m = true -> zk_Delete i n w w' r ->
    pstep i (PDelete n k, w, m) (k r, w', m)
| st_children n k w w' m r : zkConnection m = true -> zk_Children i n w w' r ->
    pstep i (PChildren n k, w, m) (k r, w', m)
| st_connect k w m r :
    pstep i (PConnect k, w, m) (k r, w, set_conn m (if r is None then true else false))
| st_exists n k w m r : zkConnection m = true -> pstep i (PExistsW n k, w, m) (k r, w, m)
| st_state k w m b : zkConnection m = true -> pstep i (PState k, w, m) (k b, w, m)
| st_close k w w' m : zkConnection m = true -> zk_Close i w w' -> pstep i (PClose k, w, m) (k, w', m)
| st_hasconn k w m : pstep i (PHasConn k, w, m) (k (zkConnection m), w, m)
| st_ismaster k w m : pstep i (PIsMaster k, w, m) (k (isMaster m), w, m)
| st_setmaster b k w m : pstep i (PSetMaster b k, w, m) (k, w, set_isMaster m b)
| st_setterminate b k w m : pstep i (PSetTerminate b k, w, m) (k, w, set_terminate m b)
| st_signal s k w m c : chan_send (feedbackChannel m) s = SendOk c ->
    pstep i (PSignal s k, w, m) (k, w, set_feedback m c)
| st_store ns k w m :
    pstep i (PStoreNodes ns k, w, m) (k, w, set_nodes m (list_to_set ns ∪ clusterNodes m))
| st_getnodes k w m : pstep i (PGetNodes k, w, m) (k (clusterNodes m), w, m)
| st_clear k w m : pstep i (PClearNodes k, w, m) (k, w, set_nodes m ∅).

(** A call by node [i] that runs alone to its return. *)
Definition exec (i : nat) {A : Type} (p : prog A) (w : W) (m : Manager) (a : A) (w' : W) (m' : Manager) : Prop :=
  rtc (pstep i) (p, w, m) (Ret a, w', m').
End execution.

(** ** What a call that runs alone does *)

(** The election node is none of the slave nodes. *)
Definition config_ok (c : Config) : Prop :=
  ZKElectionNodeURI c <> ZKSlaveNodesURI c /\ forall n, slaveNode c n <> ZKElectionNodeURI c.

Section outcomes.
Context {W : Type} `{HW : ZkServer W} {HL : ZkLaws W} (i : nat) (cfg : Config).

Lemma exec_inv {A} (p : prog A) w m a w' m' :
  exec i p w m a w' m' ->
  match p with
  | Ret b => a = b /\ w' = w /\ m' = m
  | _ => exists p1 w1 m1, pstep i (p, w, m) (p1, w1, m1) /\ exec i p1 w1 m1 a w' m'
  end.
Proof.
  unfold exec. intros H. apply rtc_inv in H as [Heq|([[p1 w1] m1] & Hs & Hr)].
  - by simplify_eq.
  - destruct p; eauto. inversion Hs; subst; done.
Qed.

Lemma exec_get {A} n (k : _ -> prog A) w m a w' m' :
  exec i (PGet n k) w m a w' m' -> zkConnection m = true ->
  exists w1 r, zk_Get i n w w1 r /\ exec i (k r) w1 m a w' m'.
Proof. intros (p1 & w1 & m1 & Hs & He)%exec_inv Hm. inversion Hs; subst; [congruence|]. eauto. Qed.

Lemma exec_create {A} n d e (k : _ -> prog A) w m a w' m' :
  exec i (PCreate n d e k) w m a w' m' -> zkConnection m = true ->
  exists w1 r, zk_Create i n d e w w1 r /\ exec i (k r) w1 m a w' m'.
Proof. intros (p1 & w1 & m1 & Hs & He)%exec_inv Hm. inversion Hs; subst; [congruence|]. eauto. Qed.

Lemma exec_delete {A} n (k : _ -> prog A) w m a w' m' :
  exec i (PDelete n k) w m a w' m' -> zkConnection m = true ->
  exists w1 r, zk_Delete i n w w1 r /\ exec i (k r) w1 m a w' m'.
Proof. intros (p1 & w1 & m1 & Hs & He)%exec_inv Hm. inversion Hs; subst; [congruence|]. eauto. Qed.

Lemma exec_hasconn {A} (k : _ -> prog A) w m a w' m' :
  exec i (PHasConn k) w m a w' m' -> exec i (k (zkConnection m)) w m a w' m'.
Proof. intros (p1 & w1 & m1 & Hs & He)%exec_inv. inversion Hs; subst; done. Qed.

Lemma exec_setmaster {A} b (k : prog A) w m a w' m' :
  exec i (PSetMaster b k) w m a w' m' -> exec i k w (set_isMaster m b) a w' m'.
Proof. intros (p1 & w1 & m1 & Hs & He)%exec_inv. inversion Hs; subst; done. Qed.

Lemma exec_signal {A} s (k : prog A) w m a w' m' :
  exec i (PSignal s k) w m a w' m' ->
  exists c, ch_buf c = ch_buf (feedbackChannel m) ++ [s] /\ exec i k w (set_feedback m c) a w' m'.
Proof.
  intros (p1 & w1 & m1 & Hs & He)%exec_inv. inversion Hs as [| | | | | | | | | | | | |s' k' w0 m0 c Hc| | |]; subst; [done|].
  exists c. split; [|done]. unfold chan_send in Hc. destruct (ch_closed _); [done|].
  destruct (_ <? _)%nat; [|done]. by injection Hc as <-.
Qed.

Lemma exec_bind {A B} (p : prog A) (f : A -> prog B) w m b w' m' :
  exec i (pbind p f) w m b w' m' ->
  exists a w1 m1, exec i p w m a w1 m1 /\ exec i (f a) w1 m1 b w' m'.
Proof.
  revert w m. induction p; intros w m He; cbn [pbind] in He;
    [by eexists _, w, m; split; [apply rtc_refl|]|..];
    apply exec_inv in He as (p1 & w1 & m1 & Hs & He); inversion Hs; subst; try done;
    try (apply exec_inv in He as (? & ? & ? & Hc & _); inversion Hc; done);
    match goal with IH : _ |- _ => apply IH in He as (a & w2 & m2 & Hp & Hf) end;
    exists a, w2, m2; (split; [|exact Hf]); (eapply rtc_l; [|exact Hp]); by econstructor.
Qed.

(** [getNodeData] answers from the tree or fails. *)
Lemma getNodeData_outcome n w m r w' m' :
  exec i (getNodeData n) w m r w' m' -> zkConnection m = true ->
  m' = m /\ view w' = view w /\ match r with inr o => fst <$> view w !! n = o | inl _ => True end.
Proof.
  intros He Hm. apply exec_get in He as (w1 & r1 & Hg & He); [|done]. apply get_law in Hg as [Hv Hr].
  destruct r1 as [[| |e]|d]; apply exec_inv in He as (-> & -> & ->); try done.
  - by rewrite Hr.
  - destruct Hr as [o ->]. done.
Qed.

Lemma createSlaveDir_outcome w m r w' m' :
  exec i (createSlaveDir cfg) w m r w' m' -> zkConnection m = true ->
  m' = m /\ forall p, p <> ZKSlaveNodesURI cfg -> view w' !! p = view w !! p.
Proof.
  intros He Hm. apply exec_bind in He as (d & w1 & m1 & Hg & He).
  apply getNodeData_outcome in Hg as (-> & Hv & _); [|done].
  destruct d as [e|[d|]]; [by apply exec_inv in He as (-> & -> & ->); rewrite Hv..|].
  apply exec_create in He as (w2 & c & Hc & He); [|done]. apply create_law in Hc.
  assert (Hv2 : view w2 = view w1 \/ created i (ZKSlaveNodesURI cfg) "" false (view w1) (view w2))
    by (destruct c as [[| |e]|d]; destruct_and?; auto).
  assert (Hend : w' = w2 /\ m' = m) by (destruct c; by apply exec_inv in He as (_ & -> & ->)).
  destruct Hend as [-> ->]. split; [done|]. intros p Hp.
  destruct Hv2 as [->|[_ ->]]; rewrite ?lookup_insert_ne by done; by rewrite Hv.
Qed.

Lemma registerAsSlave_outcome name w m w' m' :
  exec i (registerAsSlave cfg name) w m None w' m' -> zkConnection m = true ->
  isMaster m' = false /\ is_Some (view w' !! slaveNode cfg name) /\
  ch_buf (feedbackChannel m') = ch_buf (feedbackChannel m) ++ [Slave] /\
  forall p, p <> ZKSlaveNodesURI cfg -> p <> slaveNode cfg name -> view w' !! p = view w !! p.
Proof.
  intros He Hm. apply exec_bind in He as (r1 & w1 & m1 & Hd & He).
  apply createSlaveDir_outcome in Hd as (-> & Hv1); [|done].
  destruct r1 as [e|]; [by apply exec_inv in He as [? _]|].
  apply exec_bind in He as (r2 & w2 & m2 & Hg & He).
  apply getNodeData_outcome in Hg as (-> & Hv2 & Hr2); [|done].
  assert (Hreg : forall w3, exec i (PSetMaster false (PSignal Slave (Ret None))) w3 m (@None election_error) w' m' ->
    w' = w3 /\ isMaster m' = false /\ ch_buf (feedbackChannel m') = ch_buf (feedbackChannel m) ++ [Slave]).
  { intros w3 H3. apply exec_setmaster, exec_signal in H3 as (c & Hc & (_ & -> & ->)%exec_inv). done. }
  destruct r2 as [e|[d|]]; [by apply exec_inv in He as [? _]|..].
  - apply Hreg in He as (-> & Hf & Hb). split_and!; [done| |done|].
    + rewrite Hv2. destruct (view w1 !! _); [by eexists|done].
    + intros p Hp _. rewrite Hv2. by apply Hv1.
  - apply exec_create in He as (w3 & r3 & Hc & He); [|done]. apply create_law in Hc.
    destruct r3 as [e|d]; [by apply exec_inv in He as [? _]|].
    apply Hreg in He as (-> & Hf & Hb). destruct Hc as [_ Hv3]. split_and!; [done| |done|].
    + rewrite Hv3, lookup_insert_eq. by eexists.
    + intros p Hp Hp'. rewrite Hv3, lookup_insert_ne, Hv2 by done. by apply Hv1.
Qed.

Definition elected (name : string) (w : W) (m : Manager) (w' : W) (m' : Manager) : Prop :=
  let E := ZKElectionNodeURI cfg in
  match view w !! E with
  | None => isMaster m' = true /\ view w' !! E = Some (name, Some i) /\
      ch_buf (feedbackChannel m') = ch_buf (feedbackChannel m) ++ [Master]
  | Some d => isMaster m' = false /\ view w' !! E = Some d /\
      is_Some (view w' !! slaveNode cfg name) /\
      ch_buf (feedbackChannel m') = ch_buf (feedbackChannel m) ++ [Slave]
  end.

(** From the [Create] of the election node on. *)
Lemma create_master_outcome name w m w' m' :
  config_ok cfg -> exec i (create_master cfg name) w m None w' m' -> zkConnection m = true ->
  elected name w m w' m'.
Proof.
  intros [Hc1 Hc2] He Hm. unfold elected.
  apply exec_create in He as (w1 & r & Hc & He); [|done]. apply create_law in Hc.
  destruct r as [[| |e]|d].
  - by apply exec_inv in He as [? _].
  - destruct Hc as [Hv [d Hd]]. rewrite Hd.
    apply registerAsSlave_outcome in He as (Hf & Hs & Hb & Hv'); [|done]. split_and!; try done.
    by rewrite Hv', Hv.
  - by apply exec_inv in He as [? _].
  - destruct Hc as [-> Hv]. apply exec_setmaster, exec_signal in He as (c & Hb & He).
    apply exec_bind in He as (r & w2 & m2 & Hg & He).
    apply getNodeData_outcome in Hg as (-> & Hv2 & _); [|done].
    assert (Hend : view w' !! ZKElectionNodeURI cfg = view w2 !! ZKElectionNodeURI cfg /\ m' = set_feedback (set_isMaster m true) c).
    { destruct r as [e|[s|]]; [by apply exec_inv in He as (_ & -> & ->)| |by apply exec_inv in He as (_ & -> & ->)].
      apply exec_delete in He as (w3 & rd & Hd & (_ & -> & ->)%exec_inv); [|done].
      apply delete_law in Hd. split; [|done].
      assert (Hd' : view w3 = view w2 \/ view w3 = delete (slaveNode cfg name) (view w2))
        by (destruct rd as [[| |e]|u]; destruct_or?; auto).
      destruct Hd' as [->| ->]; [done|by rewrite lookup_delete_ne]. }
    destruct Hend as [-> ->]. rewrite Hv2, Hv, lookup_insert_eq. done.
Qed.

Lemma electForMaster_outcome name w m w' m' :
  config_ok cfg -> exec i (electForMaster cfg (inr name)) w m None w' m' -> zkConnection m = true ->
  elected name w m w' m'.
Proof.
  intros Hcfg He Hm. apply exec_bind in He as (r & w1 & m1 & Hg & He).
  apply exec_hasconn in Hg. rewrite Hm in Hg. apply exec_bind in Hg as (r0 & w0 & m0 & Hg & Hr).
  apply getNodeData_outcome in Hg as (-> & Hv & Hd); [|done].
  destruct r0 as [e|o]; apply exec_inv in Hr as (-> & -> & ->); [by apply exec_inv in He as [? _]|].
  assert (Hview : forall mm, elected name w0 mm w' m' -> feedbackChannel mm = feedbackChannel m -> elected name w m w' m').
  { intros mm. unfold elected. rewrite Hv. intros H <-. exact H. }
  destruct o as [d|]; [|by eapply Hview; [by apply create_master_outcome|]].
  destruct (name =? d)%string.
  - apply exec_setmaster in He. eapply Hview; [by apply create_master_outcome|done].
  - apply registerAsSlave_outcome in He as (Hf & Hs & Hb & Hv'); [|done]. destruct Hcfg as [Hc1 Hc2].
    unfold elected. destruct (view w !! _) as [n|] eqn:E; [|done]. split_and!; try done.
    by rewrite Hv', Hv.
Qed.
End outcomes.

(** ** A server

    The laws are satisfied by a tree that always answers. *)
#[export] Instance tree_server : ZkServer tree := {
  view w := w;
  zk_Get i p w w' r := w' = w /\ r = match w !! p with Some n => inr n.1 | None => inl ErrNoNode end;
  zk_Create i p d e w w' r :=
    match w !! p with
    | Some _ => w' = w /\ r = inl ErrNodeExists
    | None => w' = <[p := (d, if e then Some i else None)]> w /\ r = inr p
    end;
  zk_Delete i p w w' r :=
    match w !! p with
    | Some _ => w' = delete p w /\ r = inr tt
    | None => w' = w /\ r = inl ErrNoNode
    end;
  zk_Children i p w w' r := w' = w /\ exists ns, r = inr ns /\ NoDup ns /\
    forall n, n ∈ ns -> is_Some (w !! (p +:+ "/" +:+ n));
  zk_Close i w w' := w' = filter (fun kv => snd kv.2 <> Some i) w;
}.

#[export] Instance tree_laws : ZkLaws tree.
Proof.
  split; simpl.
  - intros i p w w' r [-> ->]. split; [done|]. destruct (w !! p) as [[d o]|] eqn:E; [by exists o|done].
  - intros i p d e w w' r. destruct (w !! p) as [n|] eqn:E; intros [-> ->]; [|done].
    split; [done|]. by exists n.
  - intros i p w w' r. destruct (w !! p); by intros [-> ->].
  - intros i p w w' r (-> & ns & -> & ?). done.
  - done.
Qed.

Definition demo_config : Config := mkConfig ["zk"] "/master" "/slaves" "1s" "1s" "1s" "1s".

Lemma demo_config_ok : config_ok demo_config.
Proof. split; [done|]. intros n. unfold slaveNode. simpl. intros [=]. Qed.

Definition demo_manager (master : bool) : Manager :=
  mkManager true master (make_chan defaultChannelSize) ∅ false.

(** Runs on that server: a step of the program, then its continuation. *)
Ltac zsimp := cbn [pbind getNodeData createSlaveDir registerAsSlave create_master electForMaster
  GetHostname getZKMasterNode negb zkConnection demo_manager set_isMaster set_feedback set_terminate String.eqb
  Ascii.eqb Bool.eqb].
Section tree_replies.
Context (i : nat) (p : string) (w : tree).

Lemma tree_get n : w !! p = Some n -> zk_Get i p w w (inr n.1).
Proof. intros H. simpl. by rewrite H. Qed.

Lemma tree_get_none : w !! p = None -> zk_Get i p w w (inl ErrNoNode).
Proof. intros H. simpl. by rewrite H. Qed.

Lemma tree_create d e : w !! p = None ->
  zk_Create i p d e w (<[p := (d, if e then Some i else None)]> w) (inr p).
Proof. intros H. simpl. by rewrite H. Qed.

Lemma tree_create_exists d e n : w !! p = Some n -> zk_Create i p d e w w (inl ErrNodeExists).
Proof. intros H. simpl. by rewrite H. Qed.
End tree_replies.

(** Looks a literal path up in a tree of literal paths. *)
Ltac zlookup := unfold slaveNode; cbn [ZKElectionNodeURI ZKSlaveNodesURI demo_config String.append];
  by simplify_map_eq.
Ltac zget l := eapply rtc_l; [apply st_get; [reflexivity|eapply l; zlookup]|zsimp].
Ltac zcreate l := eapply rtc_l; [apply st_create; [reflexivity|eapply l; zlookup]|zsimp].
Ltac lstep c := eapply rtc_l; [apply c; reflexivity || apply c|zsimp].

Lemma demo_first_election i n :
  exec i (electForMaster demo_config (inr n)) (∅ : tree) (demo_manager false) None
    (<["/master" := (n, Some i)]> ∅) (set_feedback (demo_manager true) (mkChan 5 [Master] false)).
Proof.
  unfold exec, electForMaster. zsimp. lstep st_hasconn. zget tree_get_none. zcreate tree_create.
  lstep st_setmaster. lstep st_signal. zget tree_get_none. apply rtc_refl.
Qed.

Lemma demo_reelection : exists w' m',
  exec 0 (electForMaster demo_config (inr "a")) ({["/master" := ("a", Some 0%nat)]} : tree)
    (demo_manager true) None w' m'.
Proof.
  eexists _, _. unfold exec, electForMaster. zsimp. lstep st_hasconn. zget tree_get. lstep st_setmaster.
  zcreate tree_create_exists. zget tree_get_none. zcreate tree_create. zget tree_get_none.
  zcreate tree_create. lstep st_setmaster. lstep st_signal. apply rtc_refl.
Qed.

(** C26. What one election does.  A call of [electForMaster] that returns
    without error makes the node master, with the election node its own, if
    there was no election node; if there was one, it leaves it alone and the
    node becomes a slave, whoever the election node names.  So a node that is
    the master already, and finds its own name there, takes itself out of
    office: it registers as a slave, while the election node still names it. *)
Theorem elect_outcome {W} {HW : ZkServer W} {HL : ZkLaws W} i cfg name w m w' m' :
  config_ok cfg -> zkConnection m = true ->
  exec i (electForMaster cfg (inr name)) w m None w' m' ->
  let E := ZKElectionNodeURI cfg in
  match view w !! E with
  | None => isMaster m' = true /\ view w' !! E = Some (name, Some i) /\
      ch_buf (feedbackChannel m') = ch_buf (feedbackChannel m) ++ [Master]
  | Some d => isMaster m' = false /\ view w' !! E = Some d /\
      is_Some (view w' !! slaveNode cfg name) /\
      ch_buf (feedbackChannel m') = ch_buf (feedbackChannel m) ++ [Slave]
  end.
Proof. intros Hc Hm He. by apply electForMaster_outcome. Qed.

Lemma elect_outcome_witness :
  let w : tree := {["/master" := ("a", Some 0%nat)]} in
  exists w' m', exec 0 (electForMaster demo_config (inr "a")) w (demo_manager true) None w' m' /\
    isMaster m' = false.
Proof.
  intros w. destruct demo_reelection as (w' & m' & H). exists w', m'. split; [exact H|].
  apply (elect_outcome 0 demo_config "a" w (demo_manager true) w' m' demo_config_ok eq_refl H).
Defined.

(** ** Several nodes

    Every node runs elections, any number of times and interleaved call by call
    with those of the others; somebody reads the feedback channels. *)

Record net (W : Type) : Type := mkNet {
  nworld : W;
  nprog : nat -> prog (option election_error);
  nmgr : nat -> Manager;
}.
Arguments mkNet {W} _ _ _.
Arguments nworld {W} _.
Arguments nprog {W} _ _.
Arguments nmgr {W} _ _.

Section network.
Context {W : Type} `{HW : ZkServer W} (cfg : Config) (name : nat -> string).

Inductive net_step : net W -> net W -> Prop :=
| ns_elect s i e : nprog s i = Ret e ->
    net_step s (mkNet (nworld s) (<[i := electForMaster cfg (inr (name i))]> (nprog s)) (nmgr s))
| ns_step s i p w m : pstep i (nprog s i, nworld s, nmgr s i) (p, w, m) ->
    net_step s (mkNet w (<[i := p]> (nprog s)) (<[i := m]> (nmgr s)))
| ns_recv s i x c : chan_recv (feedbackChannel (nmgr s i)) = RecvOk x c ->
    net_step s (mkNet (nworld s) (nprog s) (<[i := set_feedback (nmgr s i) c]> (nmgr s))).

(** Connected nodes that have not taken part in an election. *)
Definition net_init (w : W) : net W :=
  mkNet w (fun _ => Ret None) (fun _ => mkManager true false (make_chan defaultChannelSize) ∅ false).

(** What a program of node [n] may do: claim the mastership only once it knows
    ([b]) that the election node names it, create that node only with its own
    name, and neither delete it nor close the session. *)
Fixpoint safe {A : Type} (n : string) (b : bool) (p : prog A) : Prop :=
  let E := ZKElectionNodeURI cfg in
  match p with
  | Ret _ | Crash => True
  | PGet q k => forall r, safe n (b || (q =? E)%string && match r with inr d => (d =? n)%string | inl _ => false end) (k r)
  | PCreate q d _ k => (q = E -> d = n) /\
      forall r, safe n (b || (q =? E)%string && match r with inr _ => true | inl _ => false end) (k r)
  | PDelete q k => q <> E /\ forall r, safe n b (k r)
  | PChildren _ k => forall r, safe n b (k r)
  | PConnect k => forall r, safe n b (k r)
  | PExistsW _ k => forall r, safe n b (k r)
  | PState k => forall r, safe n b (k r)
  | PClose _ => False
  | PHasConn k => forall r, safe n b (k r)
  | PIsMaster k => forall r, safe n b (k r)
  | PSetMaster c k => (c = true -> b = true) /\ safe n b k
  | PSetTerminate _ k => safe n b k
  | PSignal _ k => safe n b k
  | PStoreNodes _ k => safe n b k
  | PGetNodes k => forall r, safe n b (k r)
  | PClearNodes k => safe n b k
  end.

Lemma safe_registerAsSlave n b : config_ok cfg -> safe n b (registerAsSlave cfg n).
Proof.
  intros [Hc1 Hc2]. cbn.
  intros [[| |e]|d]; cbn; [|done..|].
  - split; [congruence|]. intros [e|d]; cbn; [done|].
    intros [[| |e]|d']; cbn; [|done..|].
    + split; [done|]. intros [e|d']; cbn; [done|]. by split.
    + by split.
  - intros [[| |e]|d']; cbn; [|done..|].
    + split; [done|]. intros [e|d'']; cbn; [done|]. by split.
    + by split.
Qed.

Lemma safe_electForMaster n : config_ok cfg -> safe n false (electForMaster cfg (inr n)).
Proof.
  intros Hcfg. pose proof Hcfg as [Hc1 Hc2].
  assert (Hcreate : forall b, safe n b (create_master cfg n)).
  { intros b. cbn [create_master safe]. split; [done|].
    intros [[| |e]|d]; [done|by apply safe_registerAsSlave|done|].
    cbn. rewrite String.eqb_refl, orb_true_r. split; [done|].
    intros [[| |e]|d']; cbn; try done. }
  cbn. intros [|]; cbn; [|exact (Hcreate false)]. rewrite String.eqb_refl.
  intros [[| |e]|d]; cbn; [exact (Hcreate false)|done..|]. rewrite (String.eqb_sym n d).
  destruct (d =? n)%string; [split; [done|exact (Hcreate true)]|by apply safe_registerAsSlave].
Qed.

(** The election node names [n]. *)
Definition names (w : W) (n : string) : Prop := exists o, view w !! ZKElectionNodeURI cfg = Some (n, o).

Record net_inv (s : net W) : Prop := {
  ni_master i : isMaster (nmgr s i) = true -> names (nworld s) (name i);
  ni_safe i : exists b, safe (name i) b (nprog s i) /\ (b = true -> names (nworld s) (name i));
}.
End network.

Section network_safety.
Context {W : Type} `{HW : ZkServer W} {HL : ZkLaws W} (cfg : Config) (name : nat -> string).

(** A step of a safe program keeps what is known, and stays safe. *)
Lemma safe_pstep i n b (p p' : prog (option election_error)) w w' m m' :
  pstep i (p, w, m) (p', w', m') -> safe cfg n b p -> (b = true -> names cfg w n) ->
  (forall n', names cfg w n' -> names cfg w' n') /\
  (isMaster m' = true -> isMaster m = true \/ names cfg w' n) /\
  exists b', safe cfg n b' p' /\ (b' = true -> names cfg w' n).
Proof.
  intros Hs Hsafe Hb. inversion Hs; subst; cbn [safe] in Hsafe; try done;
    try (split_and!; [done|by left|by exists b]).
  - match goal with H : zk_Get _ _ _ _ _ |- _ => apply get_law in H as [Hv Hr] end.
    unfold names in *. rewrite Hv. split_and!; [done|by left|].
    eexists. split; [apply Hsafe|]. rewrite orb_true_iff, andb_true_iff.
    intros [?|[->%String.eqb_eq Hd]]; [by apply Hb|]. destruct r as [e|d]; [done|].
    apply String.eqb_eq in Hd as ->. done.
  - destruct Hsafe as [Hd Hsafe].
    match goal with H : zk_Create _ _ _ _ _ _ _ |- _ => apply create_law in H as Hc end.
    assert (Hkeep : forall n', names cfg w n' -> names cfg w' n').
    { intros n' [o Ho]. unfold names.
      assert (Hv : view w' = view w \/ exists p d e, created i p d e (view w) (view w'))
        by (destruct r as [[| |e']|d']; destruct_and?; destruct_or?; eauto 6).
      destruct Hv as [->|(q & dq & eq & Hnone & ->)]; [by exists o|].
      exists o. rewrite lookup_insert_ne; [done|]. intros ->. by rewrite Hnone in Ho. }
    split_and!; [done|by left|]. eexists. split; [apply Hsafe|]. rewrite orb_true_iff, andb_true_iff.
    intros [?|[Heq%String.eqb_eq Hr]]; [by apply Hkeep, Hb|]. destruct r as [err|d']; [done|].
    destruct Hc as [_ Hv]. unfold names. rewrite Hv, <- Heq, lookup_insert_eq, (Hd Heq). by eexists.
  - destruct Hsafe as [Hne Hsafe].
    match goal with H : zk_Delete _ _ _ _ _ |- _ => apply delete_law in H as Hv end.
    assert (Hkeep : forall n', names cfg w n' -> names cfg w' n').
    { unfold names. intros n' Ho.
      assert (Hv' : view w' = view w \/ exists q, q <> ZKElectionNodeURI cfg /\ view w' = delete q (view w))
        by (destruct r as [[| |e']|u]; destruct_or?; eauto).
      destruct Hv' as [->|(q & Hq & ->)]; [done|by rewrite lookup_delete_ne]. }
    split_and!; [done|by left|]. exists b. auto.
  - match goal with H : zk_Children _ _ _ _ _ |- _ => apply children_law in H as [Hv _] end.
    unfold names in *. rewrite Hv. split_and!; [done|by left|]. by exists b.
  - destruct Hsafe as [Hc Hsafe]. split_and!; [done|intros Hm; right; auto|by exists b].
Qed.

Lemma net_inv_step s s' : config_ok cfg -> net_inv cfg name s -> net_step cfg name s s' -> net_inv cfg name s'.
Proof.
  intros Hcfg [Hm Hsafe] Hs. destruct Hs as [s i e He|s i p w m Hp|s i x c Hr].
  - split; [done|]. intros j. simpl. destruct (decide (i = j)) as [<-|Hne].
    + rewrite fn_lookup_insert. exists false. split; [by apply safe_electForMaster|done].
    + rewrite fn_lookup_insert_ne by done. apply Hsafe.
  - destruct (Hsafe i) as (b & Hb & Hk).
    destruct (safe_pstep i (name i) b _ _ _ _ _ _ Hp Hb Hk) as (Hkeep & Hmm & b' & Hb' & Hk').
    split; intros j; simpl; (destruct (decide (i = j)) as [<-|Hne];
      [rewrite !fn_lookup_insert|rewrite !fn_lookup_insert_ne by done]).
    + intros Hj. destruct (Hmm Hj); auto.
    + auto.
    + by exists b'.
    + destruct (Hsafe j) as (bj & Hbj & Hkj). exists bj. auto.
  - split; [|done]. intros j. simpl. destruct (decide (i = j)) as [<-|Hne].
    + rewrite fn_lookup_insert. apply Hm.
    + rewrite fn_lookup_insert_ne by done. apply Hm.
Qed.
End network_safety.

(** C5. At most one master.  However the elections of any number of connected
    nodes interleave, and whichever calls fail, as long as no session ends two
    nodes that both consider themselves master have the same name: the election
    node names it. *)
Theorem at_most_one_master {W} {HW : ZkServer W} {HL : ZkLaws W} cfg name (w : W) s i j :
  config_ok cfg -> rtc (net_step cfg name) (net_init w) s ->
  isMaster (nmgr s i) = true -> isMaster (nmgr s j) = true ->
  name i = name j /\ exists o, view (nworld s) !! ZKElectionNodeURI cfg = Some (name i, o).
Proof.
  intros Hcfg Hr Hi Hj.
  assert (Hinv : net_inv cfg name s).
  { eapply (rtc_invariant _ (net_inv cfg name)); [intros a b; by apply net_inv_step|exact Hr|].
    split; [done|]. intros k. by exists false. }
  destruct (ni_master _ _ _ Hinv i Hi) as [o Ho]. destruct (ni_master _ _ _ Hinv j Hj) as [o' Ho'].
  split; [congruence|by exists o].
Qed.

Lemma demo_net_run : exists s,
  rtc (net_step demo_config (fun _ => "a")) (net_init (∅ : tree)) s /\ isMaster (nmgr s 0) = true.
Proof.
  eexists. split.
  - eapply rtc_l; [apply (ns_elect _ _ _ 0 None); reflexivity|].
    eapply rtc_l; [apply ns_step with (i := 0%nat); apply st_hasconn|].
    eapply rtc_l; [apply ns_step with (i := 0%nat); apply st_get; [reflexivity|apply tree_get_none; zlookup]|zsimp].
    eapply rtc_l; [apply ns_step with (i := 0%nat); apply st_create; [reflexivity|apply tree_create; zlookup]|zsimp].
    eapply rtc_l; [apply ns_step with (i := 0%nat); apply st_setmaster|]. apply rtc_refl.
  - reflexivity.
Qed.

Lemma at_most_one_master_witness :
  exists s : net tree, isMaster (nmgr s 0) = true /\ exists o, view (nworld s) !! "/master" = Some ("a", o).
Proof.
  destruct demo_net_run as (s & Hr & Hm). exists s. split; [exact Hm|].
  apply (at_most_one_master demo_config (fun _ => "a") (∅ : tree) s 0 0 demo_config_ok Hr Hm Hm).
Defined.

(** ** Sessions that end *)

Lemma exec_setterminate {W} `{ZkServer W} i {A} b (k : prog A) w m a w' m' :
  exec i (PSetTerminate b k) w m a w' m' -> exec i k w (set_terminate m b) a w' m'.
Proof. intros (p1 & w1 & m1 & Hs & He)%exec_inv. inversion Hs; subst; done. Qed.

(** [Disconnect] keeps the role, and either finds the connection down or removes
    everything the session owns. *)
Lemma Disconnect_outcome {W} `{HW : ZkServer W} {HL : ZkLaws W} i w m w' m' :
  exec i Disconnect w m tt w' m' -> zkConnection m = true ->
  isMaster m' = isMaster m /\ terminate m' = true /\
  (feedbackChannel m' = feedbackChannel m /\ w' = w \/
   ch_buf (feedbackChannel m') = ch_buf (feedbackChannel m) ++ [Disconnected] /\
   view w' = filter (fun kv => snd kv.2 <> Some i) (view w)).
Proof.
  intros He Hm. apply exec_setterminate, exec_hasconn in He. cbn in He. rewrite Hm in He. cbn in He.
  apply exec_inv in He as (p1 & w1 & m1 & Hs & He). inversion Hs; subst; [cbn in *; congruence|].
  destruct b; [|apply exec_inv in He as (_ & -> & ->); auto].
  apply exec_inv in He as (p2 & w2 & m2 & Hs2 & He). inversion Hs2; subst; [cbn in *; congruence|].
  apply exec_signal in He as (c & Hc & (_ & -> & ->)%exec_inv). split_and!; [done..|]. right. split; [done|].
  match goal with H : zk_Close _ _ _ |- _ => by apply close_law in H end.
Qed.

(** C39. A master that disconnects stays master in its own eyes.  [Disconnect]
    closes the session, which frees the election node, but does not reset
    [isMaster]: after it, another node's successful election makes that node
    master while [IsMaster] of the first is still true. *)
Theorem two_masters_after_disconnect {W} {HW : ZkServer W} {HL : ZkLaws W} cfg
    i j name_i name_j (w w1 w2 w3 : W) m m1 m2 mj mj' :
  config_ok cfg -> zkConnection m = true -> zkConnection m1 = true -> zkConnection mj = true ->
  view w !! ZKElectionNodeURI cfg = None ->
  exec i (electForMaster cfg (inr name_i)) w m None w1 m1 ->
  exec i Disconnect w1 m1 tt w2 m2 -> feedbackChannel m2 <> feedbackChannel m1 ->
  exec j (electForMaster cfg (inr name_j)) w2 mj None w3 mj' ->
  isMaster m2 = true /\ isMaster mj' = true.
Proof.
  intros Hcfg Hm Hm1 Hmj Hw He1 Hd Hf He2.
  apply electForMaster_outcome in He1; [|done..]. apply electForMaster_outcome in He2; [|done..].
  unfold elected in *. rewrite Hw in He1. destruct He1 as (Hi & Hown & _).
  apply Disconnect_outcome in Hd as (-> & _ & [[? _]|[_ Hv]]); [done| |done].
  assert (Hnone : view w2 !! ZKElectionNodeURI cfg = None).
  { rewrite Hv. apply map_lookup_filter_None. right. intros x Hx. rewrite Hown in Hx.
    injection Hx as <-. intros Hne. by apply Hne. }
  rewrite Hnone in He2. tauto.
Qed.

Lemma demo_disconnect :
  exec 0 Disconnect (<["/master" := ("a", Some 0%nat)]> (∅ : tree))
    (set_feedback (demo_manager true) (mkChan 5 [Master] false)) tt ∅
    (set_terminate (set_feedback (demo_manager true) (mkChan 5 [Master; Disconnected] false)) true).
Proof.
  unfold exec, Disconnect. lstep st_setterminate. lstep st_hasconn.
  eapply rtc_l; [apply (st_state 0 _ _ _ true); reflexivity|zsimp].
  eapply rtc_l; [apply (st_close 0 _ _ ∅); [reflexivity|vm_compute; reflexivity]|].
  lstep st_signal. apply rtc_refl.
Qed.

Lemma two_masters_after_disconnect_witness :
  isMaster (set_terminate (set_feedback (demo_manager true) (mkChan 5 [Master; Disconnected] false)) true) = true /\
  isMaster (set_feedback (demo_manager true) (mkChan 5 [Master] false)) = true.
Proof.
  refine (two_masters_after_disconnect demo_config 0 1 "a" "b" (∅ : tree) _ _ _ (demo_manager false) _ _
    (demo_manager false) _ demo_config_ok _ _ _ _ (demo_first_election 0 "a") demo_disconnect _
    (demo_first_election 1 "b")); [reflexivity..|discriminate].
Defined.

(** ** Cluster changes *)

Lemma list_to_set_size_le (l : list string) : (size (list_to_set l : gset string) <= length l)%nat.
Proof.
  induction l as [|x l IH]; [done|]. cbn [list_to_set length].
  pose proof (size_union_alt ({[x]} : gset string) (list_to_set l)) as Hu. rewrite size_singleton in Hu.
  pose proof (subseteq_size (list_to_set l ∖ {[x]} : gset string) (list_to_set l) ltac:(set_solver)). lia.
Qed.

Lemma list_to_set_size_NoDup (l : list string) : length l = size (list_to_set l : gset string) -> NoDup l.
Proof.
  induction l as [|x l IH]; intros Hl; [constructor|]. cbn [list_to_set length] in Hl.
  pose proof (list_to_set_size_le l) as Hle.
  destruct (decide (x ∈ (list_to_set l : gset string))) as [Hin|Hin].
  - rewrite (subseteq_union_1_L {[x]} (list_to_set l)) in Hl by set_solver. lia.
  - rewrite size_union, size_singleton in Hl by set_solver. constructor; [|apply IH; lia].
    by rewrite <- (elem_of_list_to_set (C := gset string)).
Qed.

(** The check for cluster changes.  On a list of nodes without repetition it
    reports a change exactly when the known nodes are not these; on a list with
    a repetition (the election node and a slave node naming the same host) it
    reports one even against the very nodes it has just stored, so on every
    later check. *)
Theorem cluster_changed_spec nodes known :
  (NoDup nodes -> cluster_changed nodes known = false <-> known = list_to_set nodes) /\
  (~ NoDup nodes -> cluster_changed nodes (list_to_set nodes) = true).
Proof.
  unfold cluster_changed. rewrite !(fun k => GetSyncMapSize_set (elements k) k (reflexivity _)). split.
  - intros Hnd. pose proof (size_list_to_set nodes Hnd (C := gset string)) as Hsz.
    destruct (Nat.eqb_spec (length nodes) (size known)) as [Hl|Hl]; simpl.
    + rewrite <- not_true_iff_false, existsb_exists. split.
      * intros Hn. symmetry. apply set_subseteq_size_eq; [|lia].
        intros n Hin. destruct (decide (n ∈ known)); [done|]. destruct Hn. exists n.
        split; [by apply list_elem_of_In, (elem_of_list_to_set (C := gset string))|].
        by rewrite bool_decide_eq_false_2.
      * intros -> (n & Hin & Hb). rewrite bool_decide_eq_true_2 in Hb; [done|].
        by apply elem_of_list_to_set, list_elem_of_In.
    + split; [done|]. intros ->. by rewrite Hsz in Hl.
  - intros Hnd. destruct (Nat.eqb_spec (length nodes) (size (list_to_set nodes : gset string))) as [Hl|]; [|done].
    destruct Hnd. by apply list_to_set_size_NoDup.
Qed.
