(* ===== verification/ElectionSession.v ===== *)
(** * Package [election]: the goroutines of a session ([connect] and the listeners)

    [Election] models what the manager's functions ask of ZooKeeper.  This file
    models their goroutines: the event loop of [connect] with its reconnection,
    and the loops of [listenForElectionEvents] and [listenForNodeEvents], with
    the shared [terminate] flag, the feedback channel and the connections they
    open and close.  A run is a list of moves of the goroutines, the user, the
    reader of the channel and ZooKeeper; the outcome of a call of [Election] is
    part of the move. *)

From stdpp Require Import base list.
From Stdlib Require Import ZArith Lia.
From S2P Require Import Prelude Chan Election.

Local Open Scope Z_scope.

(** ** Goroutines *)

(** The loop of [connect]: at its head, waiting for a session event, in
    [Disconnect], before its own signal, in the reconnection loop, or before the
    last signal. *)
Inductive conn_pc : Type := CHead | CRecv | CLost | CSend1 | CSend2 | CReconnect | CExit | CDone.

(** The loop of [listenForElectionEvents]. *)
Inductive elect_pc : Type := EHead | ERecv | EElect | EExit | EDone.

(** The loop of [listenForNodeEvents]. *)
Inductive nodes_pc : Type := NHead | NWork | NExit | NDone.

(** A ZooKeeper watch fires once: its channel then holds the event, and is closed
    behind it. *)
Inductive watch : Type := Armed | Fired (ev : watch_event) | Closed.

Inductive goroutine : Type :=
| TConn (pc : conn_pc)
| TElect (w : watch) (elections : nat) (pc : elect_pc)   (* [elections]: calls of [electForMaster] *)
| TNodes (pc : nodes_pc).

Record session : Type := mkSession {
  s_terminate : bool;
  s_conns : nat;                  (* open ZooKeeper connections *)
  s_feedback : chan Z;
  s_threads : list goroutine;
}.

(** Session events as the loop of [connect] tells them apart. *)
Inductive session_event : Type := SConnected | SSession | SLost | SOther.

(** How far [Start] gets, and the role it signals. *)
Inductive start_outcome : Type :=
| StartConnectErr
| StartElectErr
| StartDirErr (role : Z)
| StartWatchErr (role : Z)
| StartNodesErr (role : Z)
| StartOk (role : Z).

(** What a move depends on. *)
Inductive move : Type :=
| MStep                                 (* nothing but the state *)
| MEvent (e : session_event)            (* the session event received *)
| MState (connected : bool)             (* [State() != StateDisconnected] *)
| MConnectErr                           (* an attempt to reconnect fails *)
| MRestart (o : start_outcome)          (* it succeeds, and [Start] has this outcome *)
| MElect (role : option Z)              (* [electForMaster]: the role signalled, or an error *)
| MNodes (changed : bool).              (* the check of the nodes *)

Definition set_threads (t : list goroutine) (s : session) : session :=
  mkSession (s_terminate s) (s_conns s) (s_feedback s) t.

Definition set_term (b : bool) (s : session) : session :=
  mkSession b (s_conns s) (s_feedback s) (s_threads s).

Definition set_conns (n : nat) (s : session) : session :=
  mkSession (s_terminate s) n (s_feedback s) (s_threads s).

(** [m.feedbackChannel <- x]: no move while the channel is full. *)
Definition send_feedback (x : Z) (s : session) : option session :=
  match chan_send (s_feedback s) x with
  | SendOk c => Some (mkSession (s_terminate s) (s_conns s) c (s_threads s))
  | _ => None
  end.

Definition spawn (ts : list goroutine) (s : session) : session := set_threads (s_threads s ++ ts) s.

(** [Start]: clears [terminate], and opens a connection of its own. *)
Definition start (o : start_outcome) (s : session) : option (session * bool) :=
  let s := set_term false s in
  let connected := spawn [TConn CHead] (set_conns (S (s_conns s)) s) in
  match o with
  | StartConnectErr => Some (s, false)
  | StartElectErr => Some (connected, false)
  | StartDirErr r => (fun s => (s, false)) <$> send_feedback r connected
  | StartWatchErr r => (fun s => (s, false)) <$> send_feedback r connected
  | StartNodesErr r => (fun s => (spawn [TElect Armed 0 EHead] s, false)) <$> send_feedback r connected
  | StartOk r => (fun s => (spawn [TElect Armed 0 EHead; TNodes NHead] s, true)) <$> send_feedback r connected
  end.

(** A move of the loop of [connect]. *)
Definition conn_move (pc : conn_pc) (mv : move) (s : session) : option (session * conn_pc) :=
  match pc, mv with
  | CHead, MStep => Some (s, if s_terminate s then CExit else CRecv)
  | CRecv, MEvent SLost => Some (s, CLost)
  | CRecv, MEvent _ => Some (s, CHead)
  | CLost, MState connected =>
      let s := set_term true s in
      if connected then Some (set_conns (pred (s_conns s)) s, CSend1) else Some (s, CSend2)
  | CSend1, MStep => (fun s => (s, CSend2)) <$> send_feedback Disconnected s
  | CSend2, MStep => (fun s => (s, CReconnect)) <$> send_feedback Disconnected s
  | CReconnect, MConnectErr => Some (s, CReconnect)
  | CReconnect, MRestart o =>
      (fun x => (x.1, if x.2 : bool then CDone else CReconnect)) <$> start o (set_conns (S (s_conns s)) s)
  | CExit, MStep => (fun s => (s, CDone)) <$> send_feedback Disconnected s
  | _, _ => None
  end.

Definition elect_move (w : watch) (n : nat) (pc : elect_pc) (mv : move) (s : session)
    : option (session * (watch * nat * elect_pc)) :=
  match pc, mv with
  | EHead, MStep => Some (s, (w, n, if s_terminate s then EExit else ERecv))
  | ERecv, MStep =>
      match w with
      | Armed => None
      | Fired NodeDeleted => Some (s, (Closed, n, EElect))
      | Fired _ => Some (s, (Closed, n, EHead))
      | Closed => Some (s, (Closed, n, EHead))        (* the zero event of a closed channel *)
      end
  | EElect, MElect (Some r) => (fun s => (s, (w, S n, EHead))) <$> send_feedback r s
  | EElect, MElect None => Some (s, (w, S n, EHead))
  | EExit, MStep => (fun s => (s, (w, n, EDone))) <$> send_feedback Disconnected s
  | _, _ => None
  end.

Definition nodes_move (pc : nodes_pc) (mv : move) (s : session) : option (session * nodes_pc) :=
  match pc, mv with
  | NHead, MStep => Some (s, if s_terminate s then NExit else NWork)
  | NWork, MNodes true => (fun s => (s, NHead)) <$> send_feedback ClusterChanged s
  | NWork, MNodes false => Some (s, NHead)
  | NExit, MStep => (fun s => (s, NDone)) <$> send_feedback Disconnected s
  | _, _ => None
  end.

(** ** Runs *)

Inductive action : Type :=
| AThread (i : nat) (mv : move)
| AWatch (i : nat) (ev : watch_event)       (* ZooKeeper fires the watch of a goroutine *)
| AUserDisconnect (connected : bool)        (* [Disconnect] called by the application *)
| ARead.                                    (* the application reads the feedback channel *)

Definition put (i : nat) (t : goroutine) (s : session) : session := set_threads (<[i := t]> (s_threads s)) s.

Definition act (a : action) (s : session) : option session :=
  match a with
  | AThread i mv =>
      match s_threads s !! i with
      | Some (TConn pc) => (fun x => put i (TConn x.2) x.1) <$> conn_move pc mv s
      | Some (TElect w n pc) => (fun x => put i (TElect x.2.1.1 x.2.1.2 x.2.2) x.1) <$> elect_move w n pc mv s
      | Some (TNodes pc) => (fun x => put i (TNodes x.2) x.1) <$> nodes_move pc mv s
      | None => None
      end
  | AWatch i ev =>
      match s_threads s !! i with
      | Some (TElect Armed n pc) => Some (put i (TElect (Fired ev) n pc) s)
      | _ => None
      end
  | AUserDisconnect connected =>
      let s := set_term true s in
      if connected then send_feedback Disconnected (set_conns (pred (s_conns s)) s) else Some s
  | ARead =>
      match chan_recv (s_feedback s) with
      | RecvOk _ c => Some (mkSession (s_terminate s) (s_conns s) c (s_threads s))
      | _ => None
      end
  end.

Definition run : list action -> session -> option session := run_acts act.

(** A manager after a successful [Start], with an empty channel. *)
Definition started : session :=
  mkSession false 1 (make_chan defaultChannelSize) [TConn CHead; TElect Armed 0 EHead; TNodes NHead].

Definition live (t : goroutine) : bool :=
  match t with
  | TConn CDone | TElect _ _ EDone | TNodes NDone => false
  | _ => true
  end.

(** ** Watches fire once *)

Definition elect_ok (t : goroutine) : Prop :=
  match t with
  | TElect Closed n pc => (n <= 1)%nat /\ (pc = EElect -> n = 0%nat)
  | TElect _ n pc => n = 0%nat /\ pc <> EElect
  | _ => True
  end.

Lemma send_feedback_threads x s s' : send_feedback x s = Some s' -> s_threads s' = s_threads s.
Proof. unfold send_feedback. destruct (chan_send _ _); intros; by simplify_eq. Qed.

Lemma start_threads o s s' b :
  start o s = Some (s', b) -> exists ts, s_threads s' = s_threads s ++ ts /\ Forall elect_ok ts.
Proof.
  assert (Hsend : forall r s1 s2, send_feedback r s1 = Some s2 -> s_threads s2 = s_threads s1)
    by (intros; by eapply send_feedback_threads).
  unfold start. destruct o as [| |r|r|r|r]; intros H.
  1: simplify_eq; exists []; by rewrite app_nil_r.
  1: simplify_eq; eexists; by split; [done|repeat constructor].
  all: destruct (send_feedback r _) as [s1|] eqn:E; [|done]; simplify_eq/=; apply Hsend in E; simpl in E; rewrite E.
  1-2: eexists; by split; [done|repeat constructor].
  all: rewrite <- app_assoc; eexists; split; [done|repeat constructor]; done.
Qed.

Lemma act_elect_ok a s s' : act a s = Some s' -> Forall elect_ok (s_threads s) -> Forall elect_ok (s_threads s').
Proof.
  intros Ha Hs. destruct a as [i mv|i ev|b|]; simpl in Ha.
  - destruct (s_threads s !! i) as [[pc|w n pc|pc]|] eqn:Hi; [| | |done].
    + destruct (conn_move pc mv s) as [[s1 pc1]|] eqn:E; [|done]. simplify_eq/=. apply Forall_insert; [|done].
      unfold conn_move in E. repeat case_match; simplify_eq/=; try done;
        repeat match goal with
        | H : fmap _ (send_feedback _ _) = Some _ |- _ =>
            let E' := fresh in destruct (send_feedback _ _) eqn:E'; [|done]; simplify_eq/=; apply send_feedback_threads in E'; by rewrite E'
        end.
      destruct (start _ _) as [[s2 b]|] eqn:Es; [|done]. simplify_eq/=.
      apply start_threads in Es as (ts & -> & Hts). apply Forall_app. by split.
    + pose proof (Forall_lookup_1 _ _ _ _ Hs Hi) as Ht. simpl in Ht.
      destruct (elect_move w n pc mv s) as [[s1 [[w1 n1] pc1]]|] eqn:E; [|done]. simplify_eq/=.
      assert (Hts : s_threads s1 = s_threads s /\ elect_ok (TElect w1 n1 pc1)).
      { unfold elect_move in E. repeat case_match; simplify_eq/=;
          repeat match goal with
          | H : fmap _ (send_feedback _ _) = Some _ |- _ =>
              let E' := fresh in destruct (send_feedback _ _) eqn:E'; [|done]; simplify_eq/=; apply send_feedback_threads in E'
          end; (split; [done|]); simpl in *; try (destruct_and?; simplify_eq; split; done || lia).
        all: repeat case_match; simplify_eq; destruct_and?; try split; try done; try lia; naive_solver lia. }
      destruct Hts as [-> Hok]. by apply Forall_insert.
    + destruct (nodes_move pc mv s) as [[s1 pc1]|] eqn:E; [|done]. simplify_eq/=. apply Forall_insert; [|done].
      unfold nodes_move in E. repeat case_match; simplify_eq/=; try done;
        match goal with
        | H : fmap _ (send_feedback _ _) = Some _ |- _ =>
            let E' := fresh in destruct (send_feedback _ _) eqn:E'; [|done]; simplify_eq/=; apply send_feedback_threads in E'; by rewrite E'
        end.
  - destruct (s_threads s !! i) as [[pc|[] n pc|pc]|] eqn:Hi; try done. simplify_eq/=.
    apply Forall_insert; [done|]. exact (Forall_lookup_1 _ _ _ _ Hs Hi).
  - destruct b; [|by simplify_eq]. apply send_feedback_threads in Ha. by rewrite Ha.
  - destruct (chan_recv _); by simplify_eq.
Qed.

(** A goroutine whose watch is closed spins. *)
Definition spinning (i k : nat) (s : session) : Prop :=
  exists pc, s_threads s !! i = Some (TElect Closed k pc) /\ pc <> EElect.

(** The threads of a move: the old ones, the one that moved, and new ones. *)
Lemma act_threads a s s' j :
  act a s = Some s' ->
  (forall t, s_threads s !! j = Some t ->
     s_threads s' !! j = Some t \/
     (exists mv, a = AThread j mv) \/ (exists ev, a = AWatch j ev)).
Proof.
  intros Ha t Hj. assert (Hput : forall i x s1, (exists ts, s_threads s1 = s_threads s ++ ts) -> i <> j ->
    s_threads (put i x s1) !! j = Some t).
  { intros i x s1 [ts E] Hne. simpl. rewrite list_lookup_insert_ne, E by done. by apply lookup_app_l_Some. }
  assert (Hsend : forall x s1 s2, send_feedback x s1 = Some s2 -> s_threads s1 = s_threads s -> exists ts, s_threads s2 = s_threads s ++ ts).
  { intros x s1 s2 E%send_feedback_threads E1. exists []. by rewrite E, E1, app_nil_r. }
  assert (Hnil : exists ts, s_threads s = s_threads s ++ ts) by (exists []; by rewrite app_nil_r).
  destruct a as [i mv|i ev|b|]; simpl in Ha.
  - destruct (decide (i = j)) as [->|Hne]; [right; left; by eexists|left].
    destruct (s_threads s !! i) as [[pc|w n pc|pc]|] eqn:Hi; [| | |done].
    + destruct (conn_move pc mv s) as [[s1 pc1]|] eqn:E; [|done]. simplify_eq/=. apply (Hput i _ s1); [|done].
      unfold conn_move in E. repeat case_match; simplify_eq/=; try done;
        repeat match goal with
        | H : fmap _ (send_feedback _ _) = Some _ |- _ =>
            let E' := fresh in destruct (send_feedback _ _) eqn:E'; [|done]; simplify_eq/=; by eapply Hsend
        end.
      destruct (start _ _) as [[s2 b]|] eqn:Es; [|done]. simplify_eq/=.
      apply start_threads in Es as (ts & -> & _). by exists ts.
    + destruct (elect_move w n pc mv s) as [[s1 [[w1 n1] pc1]]|] eqn:E; [|done]. simplify_eq/=. apply (Hput i _ s1); [|done].
      unfold elect_move in E. repeat case_match; simplify_eq/=; try done;
        match goal with
        | H : fmap _ (send_feedback _ _) = Some _ |- _ =>
            let E' := fresh in destruct (send_feedback _ _) eqn:E'; [|done]; simplify_eq/=; by eapply Hsend
        end.
    + destruct (nodes_move pc mv s) as [[s1 pc1]|] eqn:E; [|done]. simplify_eq/=. apply (Hput i _ s1); [|done].
      unfold nodes_move in E. repeat case_match; simplify_eq/=; try done;
        match goal with
        | H : fmap _ (send_feedback _ _) = Some _ |- _ =>
            let E' := fresh in destruct (send_feedback _ _) eqn:E'; [|done]; simplify_eq/=; by eapply Hsend
        end.
  - destruct (decide (i = j)) as [->|Hne]; [right; right; by eexists|left].
    destruct (s_threads s !! i) as [[pc|[] n pc|pc]|] eqn:Hi; try done. simplify_eq/=. by apply (Hput i).
  - left. destruct b; [|by simplify_eq]. apply send_feedback_threads in Ha. by rewrite Ha.
  - left. destruct (chan_recv _); by simplify_eq.
Qed.

Lemma act_spinning a s s' i k : act a s = Some s' -> spinning i k s -> spinning i k s'.
Proof.
  intros Ha (pc & Hi & Hpc). destruct (act_threads a s s' i Ha _ Hi) as [H|[[mv ->]|[ev ->]]].
  - by exists pc.
  - simpl in Ha. rewrite Hi in Ha. destruct (elect_move Closed k pc mv s) as [[s1 [[w1 n1] pc1]]|] eqn:E; [|done].
    simplify_eq/=. unfold elect_move in E.
    assert (Hs1 : s_threads s1 = s_threads s /\ w1 = Closed /\ n1 = k /\ pc1 <> EElect).
    { destruct pc, mv; simplify_eq/=; try done; [split_and!; try done; by destruct (s_terminate s1)|].
      destruct (send_feedback _ _) eqn:E'; [|done]. simplify_eq/=. by apply send_feedback_threads in E'. }
    destruct Hs1 as (Et & -> & -> & Hpc1). exists pc1. split; [|done]. simpl. rewrite Et.
    apply list_lookup_insert_eq. by eapply lookup_lt_Some.
  - simpl in Ha. by rewrite Hi in Ha.
Qed.

(** C36. The watch on the election node is never renewed: in every run of a started
    manager, however long, each goroutine that listens for the death of the
    master calls [electForMaster] at most once, and never once another event
    (the creation of a new master, say) came first. *)
Theorem reelects_at_most_once l s i w n pc :
  run l started = Some s -> s_threads s !! i = Some (TElect w n pc) ->
  (n <= 1)%nat /\
  (w = Closed -> pc <> EElect -> forall l' s', run l' s = Some s' -> exists pc', s_threads s' !! i = Some (TElect Closed n pc')).
Proof.
  intros Hr Hi. split.
  - assert (Hok : Forall elect_ok (s_threads s)).
    { eapply (run_acts_invariant act (fun s => Forall elect_ok (s_threads s))); [apply act_elect_ok|exact Hr|].
      repeat constructor; done. }
    pose proof (Forall_lookup_1 _ _ _ _ Hok Hi) as H. simpl in H. destruct w; lia.
  - intros -> Hpc l' s' Hr'.
    destruct (run_acts_invariant act (spinning i n) (fun a s s' Ha => act_spinning a s s' i n Ha) l' s s' Hr') as (pc' & H & _);
      [by exists pc|by exists pc'].
Qed.

(** A new master is announced first: from then on the loop only turns round on
    the closed channel, here for one more round. *)
Lemma reelects_at_most_once_witness :
  exists pc', s_threads (mkSession false 1 (make_chan 5) [TConn CHead; TElect Closed 0 EHead; TNodes NHead]) !! 1%nat
              = Some (TElect Closed 0 pc').
Proof.
  apply (proj2 (reelects_at_most_once [AThread 1 MStep; AWatch 1 NodeCreated; AThread 1 MStep]
    (mkSession false 1 (make_chan 5) [TConn CHead; TElect Closed 0 EHead; TNodes NHead]) 1 Closed 0 EHead
    eq_refl eq_refl) eq_refl ltac:(discriminate) [AThread 1 MStep; AThread 1 MStep]).
  reflexivity.
Defined.

(** ** A lost session *)

(** The number of live goroutines. *)
Definition num_live (ts : list goroutine) : nat := length (filter (fun t => live t = true) ts).

Lemma num_live_app t1 t2 : num_live (t1 ++ t2) = (num_live t1 + num_live t2)%nat.
Proof. unfold num_live. by rewrite filter_app, length_app. Qed.

Lemma num_live_insert ts i t t' :
  ts !! i = Some t -> live t = true -> live t' = false -> num_live ts = S (num_live (<[i := t']> ts)).
Proof.
  intros Hi Ht Ht'. rewrite <- (take_drop_middle ts i t Hi) at 1.
  assert (Hl : (i < length ts)%nat) by by eapply lookup_lt_Some.
  rewrite (insert_take_drop ts i t') by done. rewrite !num_live_app.
  unfold num_live at 2 4. rewrite filter_cons_True by done. rewrite filter_cons_False by congruence. simpl. lia.
Qed.

(** One loss of the session with the recovery, and the reader of the signals. *)
Definition recovery (i : nat) : list action :=
  [AThread i MStep; AThread i (MEvent SLost); AThread i (MState true); AThread i MStep; AThread i MStep;
   AThread i (MRestart (StartOk Master)); ARead; ARead; ARead].

Lemma recovery_run i n ts :
  ts !! i = Some (TConn CHead) ->
  run (recovery i) (mkSession false (S n) (make_chan defaultChannelSize) ts) =
  Some (mkSession false (S (S n)) (make_chan defaultChannelSize)
          (<[i := TConn CDone]> (ts ++ [TConn CHead; TElect Armed 0 EHead; TNodes NHead]))).
Proof.
  intros Hi. assert (Hl : (i < length ts)%nat) by by eapply lookup_lt_Some.
  unfold recovery. cbn. rewrite Hi. repeat (cbn; rewrite list_lookup_insert_eq by (rewrite ?length_insert; done)).
  cbn. do 2 f_equal.
  rewrite !insert_app_l by (rewrite ?length_app, ?length_insert; simpl; lia).
  by rewrite !list_insert_insert_eq, <- app_assoc.
Qed.

(** Every recovery from a lost session leaks a connection and two goroutines:
    the reconnection opens one connection, [Start] opens another, and by
    clearing [terminate] it keeps the old listeners running beside the new
    ones.  For every [n] a run of a started manager ends with [n + 1] open
    connections and [2n + 3] live goroutines. *)
Theorem recoveries_leak n :
  exists l s, run l started = Some s /\ s_terminate s = false /\ s_conns s = S n /\
    num_live (s_threads s) = (3 + 2 * n)%nat.
Proof.
  enough (H : exists l s i, run l started = Some s /\
    s = mkSession false (S n) (make_chan defaultChannelSize) (s_threads s) /\
    s_threads s !! i = Some (TConn CHead) /\ num_live (s_threads s) = (3 + 2 * n)%nat).
  { destruct H as (l & s & i & Hr & E & _ & Hn). exists l, s. split_and!; [done|by rewrite E|by rewrite E|done]. }
  induction n as [|n (l & s & i & Hr & E & Hi & Hn)].
  { exists [], started, 0%nat. done. }
  assert (Hl : (i < length (s_threads s))%nat) by by eapply lookup_lt_Some.
  pose proof (recovery_run i n (s_threads s) Hi) as Hrec. rewrite <- E in Hrec.
  eexists (l ++ recovery i), _, (length (s_threads s)). split.
  { unfold run in *. rewrite run_acts_app, Hr. exact Hrec. }
  cbn [s_threads]. split_and!; [done| |].
  - rewrite list_lookup_insert_ne by lia. by rewrite lookup_app_r, Nat.sub_diag by done.
  - rewrite insert_app_l by done. rewrite num_live_app.
    pose proof (num_live_insert (s_threads s) i _ (TConn CDone) Hi eq_refl eq_refl) as H.
    change (num_live [TConn CHead; TElect Armed 0 EHead; TNodes NHead]) with 3%nat. lia.
Qed.

(** [Disconnect] does not last: a call of it by the application closes the
    connection, the session loop takes the event for a lost session, and after
    the reconnection delay the manager is connected and in the election again. *)
Theorem disconnect_undone n ts i role :
  ts !! i = Some (TConn CRecv) ->
  exists s, run [AUserDisconnect true; AThread i (MEvent SLost); AThread i (MState false); AThread i MStep;
                 AThread i (MRestart (StartOk role))] (mkSession false (S n) (make_chan defaultChannelSize) ts) = Some s /\
    s_terminate s = false /\ s_conns s = S (S n) /\ ch_buf (s_feedback s) = [Disconnected; Disconnected; role] /\
    s_threads s = <[i := TConn CDone]> ts ++ [TConn CHead; TElect Armed 0 EHead; TNodes NHead].
Proof.
  intros Hi. assert (Hl : (i < length ts)%nat) by by eapply lookup_lt_Some.
  cbn. rewrite Hi. repeat (cbn; rewrite list_lookup_insert_eq by (rewrite ?length_insert; done)).
  cbn. eexists. split; [done|]. cbn. split_and!; try done.
  rewrite !insert_app_l by (rewrite ?length_app, ?length_insert; simpl; lia).
  by rewrite !list_insert_insert_eq, <- app_assoc.
Qed.

Lemma disconnect_undone_witness :
  exists l s, run l (mkSession false 1 (make_chan defaultChannelSize) [TConn CRecv; TElect Armed 0 EHead; TNodes NHead]) = Some s /\
    s_terminate s = false /\ s_conns s = 2%nat.
Proof.
  destruct (disconnect_undone 0 [TConn CRecv; TElect Armed 0 EHead; TNodes NHead] 0 Slave eq_refl) as (s & H1 & H2 & H3 & _).
  eexists _, s. split; [exact H1|]. split; [exact H2|exact H3].
Defined.
