(* ===== verification/ElectionRefine.v ===== *)
(** * Package [election]: the session refines the programs

    [ElectionSession] takes the outcome of [Start] and [Disconnect] as part of a
    move; [Election] has them as programs of ZooKeeper calls.  This file proves
    that every execution of the programs, against any server, is one of the
    moves: the same signals on the feedback channel, the same [terminate] flag,
    a role that agrees with [isMaster], and a connection more if it opens one. *)

From stdpp Require Import base gmap strings list relations.
From Stdlib Require Import ZArith Lia.
From S2P Require Import Prelude Chan Util Election ElectionSession.

Local Open Scope Z_scope.

(** ** Programs that only talk to ZooKeeper *)

(** No signal, no change of role, flag or connection. *)
Fixpoint silent {A : Type} (p : prog A) : Prop :=
  match p with
  | Ret _ | Crash => True
  | PGet _ k => forall r, silent (k r)
  | PCreate _ _ _ k => forall r, silent (k r)
  | PDelete _ k => forall r, silent (k r)
  | PChildren _ k => forall r, silent (k r)
  | PExistsW _ k => forall r, silent (k r)
  | PState k => forall r, silent (k r)
  | PHasConn k => forall r, silent (k r)
  | PIsMaster k => forall r, silent (k r)
  | PStoreNodes _ k => silent k
  | PGetNodes k => forall r, silent (k r)
  | PClearNodes k => silent k
  | PConnect _ | PClose _ | PSetMaster _ _ | PSetTerminate _ _ | PSignal _ _ => False
  end.

Lemma silent_bind {A B} (p : prog A) (f : A -> prog B) : silent p -> (forall a, silent (f a)) -> silent (pbind p f).
Proof. induction p; simpl; auto. Qed.

Ltac silence :=
  repeat match goal with
  | |- silent (pbind _ _) => apply silent_bind; [|intros ?]
  | |- silent (match ?x with _ => _ end) => destruct x
  | |- silent _ => progress simpl
  | |- forall _, _ => intros ?
  | |- True => exact I
  end.

(** What a session sees of a manager. *)
Record agree (m m' : Manager) : Prop := {
  ag_conn : zkConnection m' = zkConnection m;
  ag_master : isMaster m' = isMaster m;
  ag_feedback : feedbackChannel m' = feedbackChannel m;
  ag_terminate : terminate m' = terminate m;
}.

#[export] Instance agree_preorder : PreOrder agree.
Proof. split; [by split|]. intros ??? [] []. split; congruence. Qed.

Section refinement.
Context {W : Type} `{HW : ZkServer W} (i : nat) (cfg : Config) (hostname : string + string).

Lemma silent_exec {A} (p : prog A) w m a w' m' : silent p -> exec i p w m a w' m' -> agree m m'.
Proof.
  revert w m. induction p; intros w m Hs He; simpl in Hs; try done;
    apply exec_inv in He; [by destruct He as (-> & -> & ->)|..];
    destruct He as (p1 & w1 & m1 & Hst & He); inversion Hst; subst;
    try (by apply exec_inv in He as (? & ? & ? & Hc & _); inversion Hc);
    try (match goal with IH : context[exec] |- _ => eapply IH in He; [|done] end; done).
  - match goal with IH : context[exec] |- _ => eapply IH in He as []; [|done] end. by split.
  - match goal with IH : context[exec] |- _ => eapply IH in He as []; [|done] end. by split.
Qed.

Lemma getZKMasterNode_silent : silent (getZKMasterNode cfg).
Proof. unfold getZKMasterNode, getNodeData. silence. Qed.

Lemma createSlaveDir_silent : silent (createSlaveDir cfg).
Proof. unfold createSlaveDir, getNodeData. silence. Qed.

Lemma GetClusterInfo_silent : silent (GetClusterInfo cfg).
Proof. unfold GetClusterInfo, getZKMasterNode, getNodeData. silence. Qed.

Lemma listenForElectionEvents_silent : silent (listenForElectionEvents cfg).
Proof. unfold listenForElectionEvents. silence. Qed.

Lemma listenForNodeEvents_silent : silent (listenForNodeEvents cfg).
Proof. unfold listenForNodeEvents. apply silent_bind; [apply GetClusterInfo_silent|]. intros ?. silence. Qed.

Lemma exec_send {A} s (k : prog A) w m a w' m' :
  exec i (PSignal s k) w m a w' m' ->
  exists c, chan_send (feedbackChannel m) s = SendOk c /\ exec i k w (set_feedback m c) a w' m'.
Proof.
  intros (p1 & w1 & m1 & Hs & He)%exec_inv. inversion Hs; subst; [done|]. by eexists.
Qed.

(** A call on a nil connection does not return. *)
Lemma exec_reply_create {A} n d e (k : _ -> prog A) w m a w' m' :
  exec i (PCreate n d e k) w m a w' m' -> exists w1 r, exec i (k r) w1 m a w' m'.
Proof.
  intros (p1 & w1 & m1 & Hs & He)%exec_inv. inversion Hs; subst; [|by eauto].
  apply exec_inv in He as (? & ? & ? & Hc & _). by inversion Hc.
Qed.

Lemma exec_reply_delete {A} n (k : _ -> prog A) w m a w' m' :
  exec i (PDelete n k) w m a w' m' -> exists w1 r, exec i (k r) w1 m a w' m'.
Proof.
  intros (p1 & w1 & m1 & Hs & He)%exec_inv. inversion Hs; subst; [|by eauto].
  apply exec_inv in He as (? & ? & ? & Hc & _). by inversion Hc.
Qed.

(** An election signals one role, the one it leaves in [isMaster], or fails and
    signals nothing. *)
Definition election_signals (m : Manager) (r : option election_error) (m' : Manager) : Prop :=
  zkConnection m' = zkConnection m /\ terminate m' = terminate m /\
  match r with
  | Some _ => feedbackChannel m' = feedbackChannel m
  | None => exists role, (role = Master \/ role = Slave) /\
      chan_send (feedbackChannel m) role = SendOk (feedbackChannel m') /\ isMaster m' = (role =? Master)
  end.

Lemma election_signals_agree m m1 r m' : agree m m1 -> election_signals m1 r m' -> election_signals m r m'.
Proof. intros [E1 E2 E3 E4] (H1 & H2 & H3). unfold election_signals. by rewrite <- E1, <- E3, <- E4. Qed.

Lemma registerAsSlave_signals name w m r w' m' :
  exec i (registerAsSlave cfg name) w m r w' m' -> election_signals m r m'.
Proof.
  intros He. apply exec_bind in He as (e & w1 & m1 & Hd & He).
  pose proof (silent_exec _ _ _ _ _ _ createSlaveDir_silent Hd) as Ha1.
  destruct e as [e|]; [apply exec_inv in He as (-> & -> & ->); by destruct Ha1|].
  apply exec_bind in He as (x & w2 & m2 & Hg & He).
  assert (Ha2 : agree m1 m2) by (eapply silent_exec; [|exact Hg]; unfold getNodeData; silence).
  apply (election_signals_agree _ m2); [by etrans|].
  assert (Hreg : forall w3 m3, exec i (PSetMaster false (PSignal Slave (Ret (@None election_error)))) w3 m3 r w' m' ->
    election_signals m3 r m').
  { intros w3 m3 H3%exec_setmaster. apply exec_send in H3 as (c & Hc & (-> & -> & ->)%exec_inv).
    split_and!; [done..|]. exists Slave. split_and!; [by right|done|done]. }
  destruct x as [e|[d|]]; [by apply exec_inv in He as (-> & -> & ->)|by eapply Hreg|].
  apply exec_reply_create in He as (w3 & [e|d] & He); [by apply exec_inv in He as (-> & -> & ->)|by eapply Hreg].
Qed.

Lemma create_master_signals name w m r w' m' :
  exec i (create_master cfg name) w m r w' m' -> election_signals m r m'.
Proof.
  intros He. apply exec_reply_create in He as (w1 & [[| |e]|d] & He);
    [by apply exec_inv in He as (-> & -> & ->)|by eapply registerAsSlave_signals|by apply exec_inv in He as (-> & -> & ->)|].
  apply exec_setmaster, exec_send in He as (c & Hc & He). apply exec_bind in He as (x & w2 & m2 & Hg & He).
  assert (Hend : r = None /\ agree (set_feedback (set_isMaster m true) c) m').
  { assert (Ha : agree (set_feedback (set_isMaster m true) c) m2)
      by (eapply silent_exec; [|exact Hg]; unfold getNodeData; silence).
    destruct x as [e|[s|]]; [by apply exec_inv in He as (-> & -> & ->)| |by apply exec_inv in He as (-> & -> & ->)].
    assert (Hs : agree m2 m') by (eapply silent_exec; [|exact He]; silence).
    split; [|by etrans].
    by apply exec_reply_delete in He as (w3 & ? & (-> & _)%exec_inv). }
  destruct Hend as [-> [E1 E2 E3 E4]]. simpl in *. split_and!; [done..|].
  exists Master. rewrite E3, E2. by split_and!; [left|..].
Qed.

Lemma electForMaster_signals w m r w' m' :
  exec i (electForMaster cfg hostname) w m r w' m' -> election_signals m r m'.
Proof.
  unfold electForMaster. destruct (GetHostname hostname) as [e|name].
  { by intros (-> & -> & ->)%exec_inv. }
  intros He. apply exec_bind in He as (x & w1 & m1 & Hg & He).
  apply (election_signals_agree _ m1); [by eapply silent_exec; [apply getZKMasterNode_silent|]|].
  destruct x as [e|[d|]]; [by apply exec_inv in He as (-> & -> & ->)| |by eapply create_master_signals].
  destruct (name =? d)%string; [|by eapply registerAsSlave_signals].
  apply exec_setmaster in He. by apply create_master_signals in He.
Qed.
End refinement.

(** The role signalled by a [Start] with this outcome. *)
Definition outcome_role (o : start_outcome) : option Z :=
  match o with
  | StartConnectErr | StartElectErr => None
  | StartDirErr r | StartWatchErr r | StartNodesErr r | StartOk r => Some r
  end.

Section start.
Context {W : Type} `{HW : ZkServer W} (i : nat) (cfg : Config) (hostname : string + string).

Lemma connect_exec w m e w' m' :
  exec i connect w m e w' m' -> m' = set_conn m (if e is None then true else false).
Proof.
  intros (p1 & w1 & m1 & Hs & He)%exec_inv. inversion Hs; subst; [done|].
  match goal with H : exec _ (match ?x with _ => _ end) _ _ _ _ _ |- _ => destruct x end;
    by apply exec_inv in He as (-> & -> & ->).
Qed.

(** The goroutines whose [go] statement a [Start] with this outcome reaches: those
    of [connect], [listenForElectionEvents] and [listenForNodeEvents]. *)
Definition spawned (o : start_outcome) : list goroutine :=
  match o with
  | StartConnectErr => []
  | StartElectErr | StartDirErr _ | StartWatchErr _ => [TConn CHead]
  | StartNodesErr _ => [TConn CHead; TElect Armed 0 EHead]
  | StartOk _ => [TConn CHead; TElect Armed 0 EHead; TNodes NHead]
  end.

(** What a session gains by a [start]. *)
Definition gains (o : start_outcome) (s s' : session) : Prop :=
  s_conns s' = (if o is StartConnectErr then s_conns s else S (s_conns s)) /\ s_threads s' = s_threads s ++ spawned o.

(** [start] with an outcome that signals [role]. *)
Lemma start_signals o role s c :
  outcome_role o = Some role -> chan_send (s_feedback s) role = SendOk c ->
  exists s', start o s = Some (s', match o with StartOk _ => true | _ => false end) /\
    s_feedback s' = c /\ s_terminate s' = false /\ gains o s s'.
Proof.
  intros Ho Hc. unfold start, send_feedback. destruct o; simpl in Ho; simplify_eq; simpl; rewrite Hc; simpl;
    eexists; (split; [done|]); (split; [done|]); (split; [done|]); (split; [done|]); simpl; by rewrite <- ?app_assoc.
Qed.

(** What an execution of [Start] amounts to for the session. *)
Definition start_as (m : Manager) (r : option election_error) (m' : Manager) (o : start_outcome) : Prop :=
  zkConnection m' = (if o is StartConnectErr then false else true) /\
  (r = None <-> exists role, o = StartOk role) /\
  (forall role, outcome_role o = Some role -> isMaster m' = (role =? Master)) /\
  forall s, s_feedback s = feedbackChannel m ->
    exists s', start o s = Some (s', match o with StartOk _ => true | _ => false end) /\
      s_feedback s' = feedbackChannel m' /\ s_terminate s' = terminate m' /\ gains o s s'.

Lemma start_as_role m r m' o role :
  outcome_role o = Some role -> (r = None <-> exists role, o = StartOk role) ->
  zkConnection m' = true -> isMaster m' = (role =? Master) -> terminate m' = false ->
  chan_send (feedbackChannel m) role = SendOk (feedbackChannel m') -> start_as m r m' o.
Proof.
  intros Ho Hr Hc Hm Ht Hs. split_and!; [by destruct o|done| |].
  - intros role' Ho'. congruence.
  - intros s Hf. rewrite <- Hf in Hs. destruct (start_signals o role s _ Ho Hs) as (s' & H1 & H2 & H3 & H4).
    exists s'. by rewrite Ht.
Qed.

Lemma start_exec w m r w' m' :
  exec i (Start cfg hostname) w m r w' m' -> exists o, start_as m r m' o.
Proof.
  intros He%exec_setterminate. apply exec_bind in He as (e0 & w0 & m0 & H0 & He).
  apply connect_exec in H0. destruct e0 as [e0|].
  { apply exec_inv in He as (-> & -> & ->). exists StartConnectErr. subst m0. split_and!; [done|by split; [|intros []]|done|].
    intros s Hs. eexists. split_and!; try done. split; [done|]. simpl. by rewrite app_nil_r. }
  apply exec_bind in He as (e1 & w1 & m1 & H1 & He). apply electForMaster_signals in H1 as (Hc1 & Ht1 & H1).
  subst m0. simpl in Hc1, Ht1, H1. destruct e1 as [e1|].
  { apply exec_inv in He as (-> & -> & ->). exists StartElectErr. split_and!; [done|by split; [|intros []]|done|].
    intros s Hs. eexists. split; [done|]. simpl. by rewrite Hs, H1, Ht1. }
  destruct H1 as (role & _ & Hsend & Hrole).
  assert (Hend : forall o m2, agree m1 m2 -> outcome_role o = Some role ->
    (r = None <-> exists role, o = StartOk role) -> m' = m2 -> exists o, start_as m r m' o).
  { intros o m2 [E1 E2 E3 E4] Ho Hr ->. exists o. apply (start_as_role m r m2 o role); congruence. }
  apply exec_bind in He as (e2 & w2 & m2 & H2 & He).
  apply silent_exec in H2 as Ha2; [|apply createSlaveDir_silent]. destruct e2 as [e2|].
  { apply exec_inv in He as (-> & -> & ->). apply (Hend (StartDirErr role) m2); try done. by split; [|intros []]. }
  apply exec_bind in He as (e3 & w3 & m3 & H3 & He).
  apply silent_exec in H3 as Ha3; [|apply listenForElectionEvents_silent].
  assert (Ha13 : agree m1 m3) by by etrans. destruct e3 as [e3|].
  { apply exec_inv in He as (-> & -> & ->). apply (Hend (StartWatchErr role) m3); try done. by split; [|intros []]. }
  apply silent_exec in He as Ha4; [|apply listenForNodeEvents_silent].
  assert (Ha14 : agree m1 m') by by etrans. destruct r as [e4|].
  - apply (Hend (StartNodesErr role) m'); try done. by split; [|intros []].
  - apply (Hend (StartOk role) m'); try done. split; [by exists role|done].
Qed.

(** C27. The session's [start] abstracts the program [Start].  Every execution of
    [Start] that returns, against any ZooKeeper server and whatever it answers,
    is a move of the session: from a session with the same feedback channel there
    is an outcome for which the session ends with the channel and the [terminate]
    flag of the execution, it succeeds exactly if [Start] returned no error, and
    the one role it signals is the one [isMaster] holds.  The session has one
    connection more exactly if the execution ends with one; it has gained the
    three goroutines of the listeners if [Start] returned no error, and that of
    [connect] if the execution ends with a connection. *)
Theorem start_refines w m r w' m' s :
  exec i (Start cfg hostname) w m r w' m' -> s_feedback s = feedbackChannel m ->
  exists o s', start o s = Some (s', if r is None then true else false) /\
    s_feedback s' = feedbackChannel m' /\ s_terminate s' = terminate m' /\
    (forall role, outcome_role o = Some role -> isMaster m' = (role =? Master)) /\
    s_conns s' = (if zkConnection m' then S (s_conns s) else s_conns s) /\
    (r = None -> s_threads s' = s_threads s ++ [TConn CHead; TElect Armed 0 EHead; TNodes NHead]) /\
    (exists l, s_threads s' = s_threads s ++ (if zkConnection m' then TConn CHead :: l else [])).
Proof.
  intros He Hs. apply start_exec in He as (o & Hconn & Hr & Hm & Hst).
  destruct (Hst s Hs) as (s' & H1 & H2 & H3 & [H4 H5]). exists o, s'. rewrite Hconn. split_and!; try done.
  - rewrite H1. f_equal. f_equal. destruct r as [e|].
    + destruct o as [| |role|role|role|role]; try done. discriminate (proj2 Hr (ex_intro _ role eq_refl)).
    + by destruct (proj1 Hr eq_refl) as [role ->].
  - rewrite H4. by destruct o.
  - intros [role ->]%Hr. done.
  - rewrite H5. exists (tail (spawned o)). by destruct o.
Qed.

(** [Disconnect] called by the application is the move [AUserDisconnect], with the
    state of the connection it found. *)
Theorem disconnect_refines w m w' m' s :
  exec i Disconnect w m tt w' m' -> s_feedback s = feedbackChannel m ->
  exists connected s', act (AUserDisconnect connected) s = Some s' /\
    s_feedback s' = feedbackChannel m' /\ s_terminate s' = terminate m' /\ terminate m' = true /\
    isMaster m' = isMaster m.
Proof.
  intros He%exec_setterminate Hs. apply exec_hasconn in He. simpl in He.
  destruct (zkConnection m); simpl in He.
  2: { apply exec_inv in He as (_ & _ & ->). exists false. by eexists. }
  apply exec_inv in He as (p1 & w1 & m1 & Hst & He). inversion Hst; subst.
  { apply exec_inv in He as (? & ? & ? & Hc & _). by inversion Hc. }
  match goal with H : exec _ (if ?x then _ else _) _ _ _ _ _ |- _ => destruct x end.
  - apply exec_inv in He as (p2 & w2 & m2 & Hst2 & He). inversion Hst2; subst.
    { apply exec_inv in He as (? & ? & ? & Hc & _). by inversion Hc. }
    apply exec_send in He as (c & Hc & (_ & -> & ->)%exec_inv). simpl in *.
    exists true. unfold act, send_feedback. simpl. rewrite Hs, Hc. by eexists.
  - apply exec_inv in He as (_ & -> & ->). exists false. by eexists.
Qed.
End start.

(** ** A start on an empty server *)

Definition fresh_manager : Manager := mkManager false false (make_chan defaultChannelSize) ∅ false.

Lemma demo_start :
  exists w' m', exec 0 (Start demo_config (inr "a")) (∅ : tree) fresh_manager None w' m' /\
    ch_buf (feedbackChannel m') = [Master].
Proof.
  eexists _, _. split; [|shelve]. unfold exec, Start, connect, fresh_manager. zsimp. lstep st_setterminate. zsimp.
  eapply rtc_l; [eapply st_connect with (r := None)|]. cbn [set_conn]. zsimp. lstep st_hasconn. zget tree_get_none. zcreate tree_create.
  lstep st_setmaster. lstep st_signal. zsimp. zget tree_get_none. zget tree_get_none. zcreate tree_create.
  eapply rtc_l; [eapply st_exists with (r := None); reflexivity|]. unfold listenForNodeEvents, GetClusterInfo, listenForElectionEvents. zsimp.
  lstep st_hasconn. cbn [set_conn]. zsimp. lstep st_hasconn. zget tree_get. zget tree_get.
  eapply rtc_l; [apply st_children with (r := inr []); [reflexivity|]|zsimp].
  { split; [reflexivity|]. exists []. split; [done|]. split; [constructor|]. by intros n ?%elem_of_nil. }
  lstep st_ismaster. lstep st_store. apply rtc_refl.
  Unshelve. reflexivity.
Qed.

Lemma start_refines_witness :
  exists o s', start o (mkSession true 0 (make_chan defaultChannelSize) []) = Some (s', true) /\
    ch_buf (s_feedback s') = [Master].
Proof.
  destruct demo_start as (w' & m' & He & Hb).
  destruct (start_refines 0 demo_config (inr "a") ∅ fresh_manager None w' m'
    (mkSession true 0 (make_chan defaultChannelSize) []) He eq_refl) as (o & s' & H1 & H2 & _).
  exists o, s'. split; [exact H1|]. rewrite H2. exact Hb.
Defined.
