(* ===== verification/TestSupport.v ===== *)
(** * The programs and helpers under [tests] ([tests/election/main.go], [tests/files/common.go])

    The election program used to try the package by hand, against the outcomes
    of the calls it makes and the signals it reads, and the helpers of the file
    tests. *)

From stdpp Require Import base gmap strings list.
From Stdlib Require Import ZArith Lia Ascii.
From S2P Require Import Prelude Chan Election ElectionSession.

Local Open Scope Z_scope.

(** ** [tests/files/common.go] *)

(** [GetScanPathRoot]; [env] is the variable GOPATH and [default_] the default of
    [go/build]. *)
Definition GetScanPathRoot (env default_ path : string) : string :=
  let gopath := if (env =? "")%string then default_ else env in
  gopath +:+ "src/stash.uol.intranet/s3-log-uploader/" +:+ path.

(** Nothing separates the root from [src]: a GOPATH of the usual form gives a path
    outside it. *)
Example GetScanPathRoot_unseparated :
  GetScanPathRoot "/home/u/go" "" "x" = "/home/u/gosrc/stash.uol.intranet/s3-log-uploader/x".
Proof. reflexivity. Qed.

Definition letterRunes : string := "abcdefghijklmnopqrstuvwxyzABCDEFGHIJKLMNOPQRSTUVWXYZ".

(** [strings.ToLower] on ASCII text. *)
Definition is_upper (c : ascii) : bool := let n := nat_of_ascii c in (65 <=? n)%nat && (n <=? 90)%nat.
Definition is_lower (c : ascii) : bool := let n := nat_of_ascii c in (97 <=? n)%nat && (n <=? 122)%nat.
Definition to_lower (c : ascii) : ascii := if is_upper c then ascii_of_nat (nat_of_ascii c + 32) else c.

Fixpoint ToLower (s : string) : string :=
  match s with
  | EmptyString => EmptyString
  | String c s => String (to_lower c) (ToLower s)
  end.

Fixpoint string_forall (f : ascii -> bool) (s : string) : bool :=
  match s with
  | EmptyString => true
  | String c s => f c && string_forall f s
  end.

(** The loop that fills the slice: [Intn k i] is the [i]-th result of
    [rand.Intn(k)]. *)
Fixpoint random_loop (Intn : nat -> nat -> nat) (i n : nat) : string :=
  match n with
  | O => EmptyString
  | S n => String (default zero (String.get (Intn (String.length letterRunes) i) letterRunes)) (random_loop Intn (S i) n)
  end.

(** [RandomString]; [make] panics on a negative length. *)
Definition RandomString (Intn : nat -> nat -> nat) (n : Z) : result Empty_set string :=
  if n <? 0 then Panic else Ok (ToLower (random_loop Intn 0 (Z.to_nat n))).

(** The letters become lower case letters. *)
Lemma letter_lower j : (j < String.length letterRunes)%nat ->
  is_lower (to_lower (default zero (String.get j letterRunes))) = true.
Proof.
  intros Hj. simpl in Hj.
  assert (H : forallb (fun j => is_lower (to_lower (default zero (String.get j letterRunes)))) (seq 0 52) = true)
    by (vm_compute; reflexivity).
  rewrite forallb_forall in H. apply H, in_seq. lia.
Qed.

(** [RandomString(n)] has [n] lower case letters, and panics for negative [n]. *)
Theorem RandomString_spec Intn n :
  (forall k i, (0 < k)%nat -> (Intn k i < k)%nat) ->
  match RandomString Intn n with
  | Ok s => 0 <= n /\ Z.of_nat (String.length s) = n /\ string_forall is_lower s = true
  | Panic => n < 0
  | Err _ => False
  end.
Proof.
  intros HI. unfold RandomString. destruct (Z.ltb_spec n 0); [done|]. split; [done|].
  assert (Hgen : forall m i, String.length (ToLower (random_loop Intn i m)) = m /\
    string_forall is_lower (ToLower (random_loop Intn i m)) = true).
  { intros m. induction m as [|m IH]; intros i; [done|]. cbn [random_loop ToLower String.length string_forall].
    destruct (IH (S i)) as [-> ->]. split; [done|]. rewrite andb_true_r. apply letter_lower, HI. simpl. lia. }
  destruct (Hgen (Z.to_nat n) 0%nat) as [-> ->]. split; [lia|done].
Qed.

(** ** [tests/election/main.go] *)

(** What the reader of the feedback channel logs for a signal. *)
Definition signal_log (signal : Z) : option string :=
  if signal =? Master then Some "master signal received"
  else if signal =? Slave then Some "slave signal received"
  else if signal =? ClusterChanged then Some "cluster changed signal received"
  else if signal =? Disconnected then Some "disconnected signal received"
  else None.

(** How far [main] gets: it leaves with code 0 when [New] or [GetClusterInfo] fail,
    and otherwise waits for a signal of the system.  The error of [Start] is
    overwritten without a look; the pointer to the channel is nil then. *)
Inductive main_outcome : Type := Exits | Waits (channel : bool).

Definition main (new : option election_error) (start : option election_error) (info : option zk_error) : main_outcome :=
  match new with
  | Some _ => Exits
  | None =>
      let feedbackChannel := if start is None then true else false in
      match info with
      | Some _ => Exits
      | None => Waits feedbackChannel
      end
  end.

(** The goroutine of [main] that reads the signals: [<-*feedbackChannel] panics on
    a nil pointer. *)
Definition reader (channel : bool) (s : session) : result Empty_set (option (option string * session)) :=
  if negb channel then Panic
  else match chan_recv (s_feedback s) with
       | RecvOk x c => Ok (Some (signal_log x, mkSession (s_terminate s) (s_conns s) c (s_threads s)))
       | _ => Ok None
       end.

(** A start that fails brings the program down in the reader. *)
Lemma reader_panics new e info s : main new (Some e) info = Exits \/
  exists channel, main new (Some e) info = Waits channel /\ reader channel s = Panic.
Proof. unfold main. destruct new; [by left|]. destruct info; [by left|]. right. by exists false. Qed.

(** The reader is the move [ARead] of the session, so while it runs no goroutine
    waits for good on a full channel. *)
Lemma reader_reads s l s' : reader true s = Ok (Some (l, s')) -> act ARead s = Some s'.
Proof. unfold reader, act. simpl. destruct (chan_recv (s_feedback s)); intros; by simplify_eq. Qed.

Lemma reader_makes_room s x : chan_wf (s_feedback s) -> ch_closed (s_feedback s) = false -> (0 < ch_cap (s_feedback s))%nat ->
  is_Some (send_feedback x s) \/ exists l s', reader true s = Ok (Some (l, s')) /\ is_Some (send_feedback x s').
Proof.
  intros Hw Ho Hc. unfold send_feedback, chan_send, chan_wf in *. rewrite Ho.
  destruct (Nat.ltb_spec (length (ch_buf (s_feedback s))) (ch_cap (s_feedback s))); [left; by eexists|right].
  unfold reader, chan_recv. simpl. destruct (ch_buf (s_feedback s)) as [|y buf] eqn:E; [simpl in *; lia|].
  eexists _, _. split; [done|]. simpl. rewrite Ho. simpl in *. destruct (Nat.ltb_spec (length buf) (ch_cap (s_feedback s))); [by eexists|lia].
Qed.
