(* ===== verification/Logh.v ===== *)
(** * Package [logh] ([logh/logh.go])

    The global log level, the six enabled flags the other packages test before
    they log, and loggers with a context.  The event filter of zerolog is a
    parameter. *)

From stdpp Require Import base strings list.
From Stdlib Require Import ZArith Lia.
From S2P Require Import Prelude.

Local Open Scope Z_scope.

(** ** Levels

    [Level] and [Format] are strings: any string can be passed. *)
Definition Level : Type := string.
Definition INFO : Level := "info".
Definition DEBUG : Level := "debug".
Definition WARN : Level := "warn".
Definition ERROR : Level := "error".
Definition FATAL : Level := "fatal".
Definition PANIC : Level := "panic".
Definition NONE : Level := "none".
Definition SILENT : Level := "silent".

Definition Format : Type := string.
Definition JSON : Format := "json".
Definition CONSOLE : Format := "console".

(** The levels of zerolog. *)
Inductive zlevel : Type :=
| DebugLevel | InfoLevel | WarnLevel | ErrorLevel | FatalLevel | PanicLevel | NoLevel | Disabled.

#[global] Instance zlevel_eq_dec : EqDecision zlevel.
Proof. solve_decision. Defined.

Definition zrank (l : zlevel) : Z :=
  match l with
  | DebugLevel => 0 | InfoLevel => 1 | WarnLevel => 2 | ErrorLevel => 3
  | FatalLevel => 4 | PanicLevel => 5 | NoLevel => 6 | Disabled => 7
  end.

(** zerolog: its events, the event a logger creates at a level under a global
    level (nil when it creates none; the flag says whether the logger was made by
    [zerolog.New] or is the zero value), [Event.Str] and [Event.Err], which asks
    the error for its text. *)
Class Zerolog : Type := {
  zl_event : Type;
  zl_new : bool -> zlevel -> zlevel -> option zl_event;
  zl_str : string -> string -> zl_event -> zl_event;
  zl_err : string -> zl_event -> zl_event;
}.

(** What its documentation says: a logger creates the events of the global level
    and above. *)
Class ZerologLaws (ZL : Zerolog) : Prop := {
  zl_order g l : zl_new true g l <> None <-> zrank g <= zrank l;
}.

Record logh_state : Type := mkLogh {
  global_level : zlevel;
  format : option bool;        (* the loggers write console text; [None]: zero loggers *)
  InfoEnabled : bool;
  DebugEnabled : bool;
  WarnEnabled : bool;
  ErrorEnabled : bool;
  FatalEnabled : bool;
  PanicEnabled : bool;
}.

(** Package initialisation: zero loggers, every flag off. *)
Definition logh_init : logh_state := mkLogh DebugLevel None false false false false false false.

Section logh.
Context `{ZL : Zerolog}.

Definition is_Some_b {A} (o : option A) : bool := match o with Some _ => true | None => false end.

(** [Info], [Debug], ...: an event, or nil. *)
Definition event_at (s : logh_state) (l : zlevel) : option zl_event :=
  zl_new (is_Some_b (format s)) (global_level s) l.

Definition Info (s : logh_state) : option zl_event := event_at s InfoLevel.
Definition Debug (s : logh_state) : option zl_event := event_at s DebugLevel.
Definition Warn (s : logh_state) : option zl_event := event_at s WarnLevel.
Definition Error (s : logh_state) : option zl_event := event_at s ErrorLevel.
Definition Panic_ (s : logh_state) : option zl_event := event_at s PanicLevel.
Definition Fatal (s : logh_state) : option zl_event := event_at s FatalLevel.

(** The [switch]: a level it does not know leaves the global level alone. *)
Definition SetGlobalLevel (lvl : Level) (old : zlevel) : zlevel :=
  if (lvl =? INFO)%string then InfoLevel
  else if (lvl =? DEBUG)%string then DebugLevel
  else if (lvl =? WARN)%string then WarnLevel
  else if (lvl =? ERROR)%string then ErrorLevel
  else if (lvl =? PANIC)%string then PanicLevel
  else if (lvl =? FATAL)%string then FatalLevel
  else if (lvl =? NONE)%string then NoLevel
  else if (lvl =? SILENT)%string then Disabled
  else old.

Definition ConfigureGlobalLogger (lvl : Level) (fmt : Format) (s : logh_state) : logh_state :=
  let s1 := mkLogh (SetGlobalLevel lvl (global_level s)) (Some (fmt =? CONSOLE)%string)
    (InfoEnabled s) (DebugEnabled s) (WarnEnabled s) (ErrorEnabled s) (FatalEnabled s) (PanicEnabled s) in
  mkLogh (global_level s1) (format s1) (is_Some_b (Info s1)) (is_Some_b (Debug s1)) (is_Some_b (Warn s1))
    (is_Some_b (Error s1)) (is_Some_b (Fatal s1)) (is_Some_b (Panic_ s1)).

(** ** Contextual loggers *)

Record ContextualLogger : Type := mkLogger { numKeyValues : nat; keyValues : list string }.

Definition CreateContextualLogger (kvs : list string) : result Empty_set ContextualLogger :=
  if Nat.even (length kvs) then Ok (mkLogger (length kvs) kvs) else Panic.

(** The loop [for j := 0; j < numKeyValues; j += 2], from [j], with [n] more
    rounds. *)
Fixpoint add_fields (n j : nat) (kvs : list string) (e : zl_event) : result Empty_set zl_event :=
  match n with
  | O => Ok e
  | S n =>
      match kvs !! j, kvs !! S j with
      | Some k, Some v => add_fields n (S (S j)) kvs (zl_str k v e)
      | _, _ => Panic
      end
  end.

Definition addContext (el : ContextualLogger) (e : option zl_event) : result Empty_set (option zl_event) :=
  match e with
  | None => Ok None
  | Some e => rmap Some (add_fields (Nat.div2 (S (numKeyValues el))) 0 (keyValues el) e)
  end.

Definition logger_at (l : zlevel) (el : ContextualLogger) (s : logh_state) : result Empty_set (option zl_event) :=
  addContext el (event_at s l).

Definition ContextualLogger_Info := logger_at InfoLevel.
Definition ContextualLogger_Debug := logger_at DebugLevel.
Definition ContextualLogger_Warn := logger_at WarnLevel.
Definition ContextualLogger_Error := logger_at ErrorLevel.
Definition ContextualLogger_Fatal := logger_at FatalLevel.
Definition ContextualLogger_Panic := logger_at PanicLevel.
End logh.

(** ** Contexts *)

Fixpoint pairs_of (kvs : list string) : list (string * string) :=
  match kvs with
  | k :: v :: kvs => (k, v) :: pairs_of kvs
  | _ => []
  end.

Lemma pairs_ind (P : list string -> Prop) :
  P [] -> (forall x, P [x]) -> (forall k v l, P l -> P (k :: v :: l)) -> forall l, P l.
Proof.
  intros H0 H1 H2 l. enough (P l /\ forall x, P (x :: l)) by tauto.
  induction l as [|x l [IH1 IH2]]; split; auto.
Qed.

Section facts.
Context `{ZL : Zerolog}.

Definition add_pairs (kvs : list (string * string)) (e : zl_event) : zl_event :=
  fold_left (fun e kv => zl_str kv.1 kv.2 e) kvs e.

Lemma add_fields_spec pre kvs e :
  Nat.even (length kvs) = true ->
  add_fields (Nat.div2 (length kvs)) (length pre) (pre ++ kvs) e = Ok (add_pairs (pairs_of kvs) e).
Proof.
  revert pre e. induction kvs as [|x|k v kvs IH] using pairs_ind; intros pre e He; [done|done|].
  cbn [length Nat.div2 add_fields]. rewrite list_lookup_middle by done.
  rewrite (lookup_app_r _ _ (S (length pre))), Nat.sub_succ_l, Nat.sub_diag by lia. cbn [lookup list_lookup].
  change (pre ++ k :: v :: kvs) with (pre ++ [k; v] ++ kvs). rewrite app_assoc.
  replace (S (S (length pre))) with (length (pre ++ [k; v])) by (rewrite length_app; simpl; lia).
  by rewrite IH.
Qed.

Lemma even_div2 n : Nat.even n = true -> Nat.div2 (S n) = Nat.div2 n.
Proof. intros H. apply Nat.even_spec in H. symmetry. by apply Nat.Even_div2. Qed.

(** The type invariant of the loggers: [CreateContextualLogger] establishes it
    (it panics on a list of odd length), and under it the loop of [addContext]
    never indexes out of range and adds the pairs in order, at every level. *)
Theorem context_total kvs :
  match CreateContextualLogger kvs with
  | Ok el => forall s l, logger_at l el s = Ok (add_pairs (pairs_of kvs) <$> event_at s l)
  | Panic => Nat.odd (length kvs) = true
  | Err _ => False
  end.
Proof.
  unfold CreateContextualLogger, logger_at, addContext. destruct (Nat.even (length kvs)) eqn:He.
  - intros s l. destruct (event_at s l) as [e|]; [|done]. cbn [numKeyValues keyValues].
    rewrite even_div2 by done. pose proof (add_fields_spec [] kvs e He) as E. cbn [length app] in E.
    by rewrite E.
  - by rewrite <- Nat.negb_even, He.
Qed.

Lemma is_Some_b_spec {A} (o : option A) : is_Some_b o = true <-> o <> None.
Proof. by destruct o. Qed.

(** The flag of a level. *)
Definition flag_of (s : logh_state) (l : zlevel) : bool :=
  match l with
  | InfoLevel => InfoEnabled s | DebugLevel => DebugEnabled s | WarnLevel => WarnEnabled s
  | ErrorLevel => ErrorEnabled s | FatalLevel => FatalEnabled s | PanicLevel => PanicEnabled s
  | NoLevel | Disabled => false
  end.

(** The flags after [ConfigureGlobalLogger] are exactly the levels whose loggers
    create events, so code that tests a flag before it logs never meets a nil
    event, and the enabled levels are the ones of the global level and above. *)
Theorem flags_exact `{!ZerologLaws ZL} lvl fmt s l :
  let s' := ConfigureGlobalLogger lvl fmt s in
  zrank l <= zrank PanicLevel ->
  (flag_of s' l = true <-> event_at s' l <> None) /\
  (flag_of s' l = true <-> zrank (SetGlobalLevel lvl (global_level s)) <= zrank l).
Proof.
  intros s' Hl. rewrite <- (zl_order _ l).
  destruct l; simpl in Hl; try lia; split; apply is_Some_b_spec.
Qed.

(** A level the switch does not name leaves the global level alone; ["none"] and
    ["silent"] turn every flag off; and ["panic"] is above ["fatal"]: it turns the
    fatal messages off. *)
Theorem levels_off `{!ZerologLaws ZL} fmt s l :
  zrank l <= zrank PanicLevel ->
  flag_of (ConfigureGlobalLogger NONE fmt s) l = false /\
  flag_of (ConfigureGlobalLogger SILENT fmt s) l = false /\
  FatalEnabled (ConfigureGlobalLogger PANIC fmt s) = false /\
  global_level (ConfigureGlobalLogger "INFO" fmt s) = global_level s.
Proof.
  intros Hl. split_and!; [| |change (flag_of (ConfigureGlobalLogger PANIC fmt s) FatalLevel = false)|done];
    apply not_true_is_false; intros Hf; apply flags_exact in Hf; simpl in *; lia.
Qed.
End facts.

(** ** An instance *)

#[export] Instance zerolog_list : Zerolog := {|
  zl_event := zlevel * list (string * string);
  zl_new c g l := if c && (zrank g <=? zrank l) then Some (l, []) else None;
  zl_str k v e := (e.1, e.2 ++ [(k, v)]);
  zl_err t e := (e.1, e.2 ++ [("error", t)]);
|}.

#[export] Instance zerolog_list_laws : ZerologLaws zerolog_list.
Proof. constructor. intros g l. simpl. destruct (Z.leb_spec (zrank g) (zrank l)); split; done || lia. Qed.

Lemma flags_exact_witness :
  let s' := ConfigureGlobalLogger "warn" CONSOLE logh_init in
  flag_of s' ErrorLevel = true /\ event_at s' ErrorLevel <> None.
Proof.
  assert (H : zrank ErrorLevel <= zrank PanicLevel) by (simpl; lia).
  destruct (flags_exact "warn" CONSOLE logh_init ErrorLevel H) as [H1 H2].
  assert (Hf : flag_of (ConfigureGlobalLogger "warn" CONSOLE logh_init) ErrorLevel = true) by (apply H2; vm_compute; discriminate).
  exact (conj Hf (proj1 H1 Hf)).
Defined.
