(* ===== verification/Http.v ===== *)
(** * [net/http] as the servers of the library use it

    Headers with canonical keys, the response writer of the server, and
    handlers.  A handler is a tree of calls of its [http.ResponseWriter]
    ([hprog]); a middleware gives it another writer, an instance of the class
    [ResponseWriter].  Used by [Rip] and [TestServer]. *)

From stdpp Require Import base gmap strings list.
From Stdlib Require Import ZArith Lia Ascii.
From S2P Require Import Prelude.

Local Open Scope Z_scope.
Local Open Scope go_scope.

(** ** Headers

    [textproto.CanonicalMIMEHeaderKey]: the first letter and every letter after
    a hyphen in upper case, the others in lower case; a key with a byte that is
    not a token character is left alone. *)

Definition is_upper (c : ascii) : bool := let n := nat_of_ascii c in (65 <=? n)%nat && (n <=? 90)%nat.
Definition is_lower (c : ascii) : bool := let n := nat_of_ascii c in (97 <=? n)%nat && (n <=? 122)%nat.
Definition is_digit (c : ascii) : bool := let n := nat_of_ascii c in (48 <=? n)%nat && (n <=? 57)%nat.

Definition to_upper (c : ascii) : ascii := if is_lower c then ascii_of_nat (nat_of_ascii c - 32) else c.
Definition to_lower (c : ascii) : ascii := if is_upper c then ascii_of_nat (nat_of_ascii c + 32) else c.

Fixpoint string_forallb (f : ascii -> bool) (s : string) : bool :=
  match s with
  | EmptyString => true
  | String c s' => f c && string_forallb f s'
  end.

Fixpoint string_elem (c : ascii) (s : string) : bool :=
  match s with
  | EmptyString => false
  | String d s' => Ascii.eqb c d || string_elem c s'
  end.

Definition is_token (c : ascii) : bool :=
  is_upper c || is_lower c || is_digit c || string_elem c "!#$%&'*+-.^_`|~".

Fixpoint canonical_from (upper : bool) (s : string) : string :=
  match s with
  | EmptyString => EmptyString
  | String c s' =>
      String (if upper then to_upper c else to_lower c) (canonical_from (Ascii.eqb c "-") s')
  end.

Definition CanonicalHeaderKey (s : string) : string :=
  if string_forallb is_token s then canonical_from true s else s.

Notation Header := (gmap string (list string)).

Definition Header_Set (k v : string) (h : Header) : Header := <[CanonicalHeaderKey k := [v]]> h.
Definition Header_Add (k v : string) (h : Header) : Header :=
  let k := CanonicalHeaderKey k in <[k := default [] (h !! k) ++ [v]]> h.
Definition Header_Del (k : string) (h : Header) : Header := delete (CanonicalHeaderKey k) h.
Definition Header_Get (k : string) (h : Header) : string :=
  default "" (h !! CanonicalHeaderKey k ≫= head).

(** ** Decimal numbers

    [strconv.ParseInt(s, 10, 64)]: an optional sign and digits, in range. *)

Fixpoint parse_digits (acc : Z) (s : string) : option Z :=
  match s with
  | EmptyString => Some acc
  | String c s' =>
      if is_digit c then parse_digits (10 * acc + (Z.of_nat (nat_of_ascii c) - 48)) s' else None
  end.

Definition ParseInt (s : string) : option Z :=
  let unsigned (s : string) := match s with EmptyString => None | _ => parse_digits 0 s end in
  let v := match s with
           | String "-" s' => Z.opp <$> unsigned s'
           | String "+" s' => unsigned s'
           | _ => unsigned s
           end in
  v ≫= fun z => if (- two63 <=? z) && (z <? two63) then Some z else None.

(** ** The writer a handler sees *)

Inductive write_error : Type := ErrBodyNotAllowed | ErrContentLength | ErrWrite (e : string).

(** The methods; a [WriteHeader] or [Write] that panics changes nothing. *)
Class ResponseWriter (W : Type) : Type := {
  w_Header : W -> Header;
  w_SetHeaders : Header -> W -> W;            (* the map [Header()] returns is mutable *)
  w_WriteHeader : Z -> W -> result Empty_set W;
  w_Write : string -> W -> result Empty_set (W * (Z * option write_error));
}.

(** The server's own writer: the header map, and what went out: the status with
    a snapshot of the headers, the body, and the number of [WriteHeader] calls
    the server ignored because the header was out already.  A valid
    [Content-Length] limits the body.  The body is what [Write] accepted; the
    server does not send it in answer to a HEAD request ([sent_body]). *)
Record response : Type := mkResponse {
  rs_header : Header;
  rs_sent : option (Z * Header);
  rs_contentLength : option Z;
  rs_written : Z;
  rs_body : string;
  rs_superfluous : nat;
}.

Definition new_response : response := mkResponse ∅ None None 0 "" 0.

Definition rs_status (r : response) : option Z := fst <$> rs_sent r.

(** Statuses without a body. *)
Definition bodyAllowedForStatus (s : Z) : bool :=
  negb ((100 <=? s) && (s <=? 199) || (s =? 204) || (s =? 304)).

Definition declared_length (h : Header) : option Z :=
  ParseInt (Header_Get "Content-Length" h) ≫= fun n => if 0 <=? n then Some n else None.

Definition response_WriteHeader (s : Z) (r : response) : result Empty_set response :=
  match rs_sent r with
  | Some _ =>
      Ok (mkResponse (rs_header r) (rs_sent r) (rs_contentLength r) (rs_written r) (rs_body r)
            (S (rs_superfluous r)))
  | None =>
      if (s <? 100) || (999 <? s) then Panic
      else
        let cl := declared_length (rs_header r) in
        let h := match cl with Some _ => rs_header r | None => Header_Del "Content-Length" (rs_header r) end in
        Ok (mkResponse h (Some (s, rs_header r)) cl (rs_written r) (rs_body r) (rs_superfluous r))
  end.

Definition response_Write (b : string) (r : response) : result Empty_set (response * (Z * option write_error)) :=
  let* r := match rs_sent r with None => response_WriteHeader 200 r | Some _ => Ok r end in
  let n := Z.of_nat (String.length b) in
  if n =? 0 then Ok (r, (0, None))
  else if negb (bodyAllowedForStatus (default 200 (rs_status r))) then Ok (r, (0, Some ErrBodyNotAllowed))
  else
    let written := rs_written r + n in
    let body (x : string) :=
      mkResponse (rs_header r) (rs_sent r) (rs_contentLength r) written (rs_body r +:+ x) (rs_superfluous r) in
    if match rs_contentLength r with Some l => l <? written | None => false end
    then Ok (body "", (0, Some ErrContentLength))
    else Ok (body b, (n, None)).

#[export] Instance response_writer : ResponseWriter response := {|
  w_Header := rs_header;
  w_SetHeaders h r :=
    mkResponse h (rs_sent r) (rs_contentLength r) (rs_written r) (rs_body r) (rs_superfluous r);
  w_WriteHeader := response_WriteHeader;
  w_Write := response_Write;
|}.

(** When the outermost handler returns, the server sends a header if nothing
    did. *)
Definition finish_request (r : response) : response :=
  match rs_sent r with
  | Some _ => r
  | None =>
      mkResponse (rs_header r) (Some (200, rs_header r)) (rs_contentLength r) (rs_written r) (rs_body r)
        (rs_superfluous r)
  end.

(** ** Handlers *)

Record request : Type := mkRequest {
  rq_method : string;
  rq_proto : string;
  rq_path : string;       (* [URL.Path] *)
  rq_uri : string;        (* [RequestURI] *)
  rq_header : Header;
  rq_body : string;
}.

(** The body the client gets. *)
Definition sent_body (rq : request) (r : response) : string :=
  if (rq_method rq =? "HEAD")%string then "" else rs_body r.

Lemma sent_body_get rq r : rq_method rq <> "HEAD" -> sent_body rq r = rs_body r.
Proof. intros H%String.eqb_neq. unfold sent_body. by rewrite H. Qed.

(** What the request's context holds under [statsTagskey]: a [*sync.Map], or
    nothing. *)
Definition context : Type := option (gmap string string).

(** A handler's calls.  [HTry p q next] runs [p] in a function whose deferred
    closure recovers from a panic and then runs [q]. *)
Inductive hprog : Type :=
| HRet
| HPanic
| HSet (k v : string) (next : hprog)
| HAdd (k v : string) (next : hprog)
| HDel (k : string) (next : hprog)
| HWriteHeader (s : Z) (next : hprog)
| HWrite (b : string) (next : Z * option write_error -> hprog)
| HContext (f : context -> context) (next : hprog)
| HTry (p q next : hprog).

(** Runs a handler; the flag is false when it ends in a panic. *)
Fixpoint run_handler {W : Type} `{ResponseWriter W} (p : hprog) (w : W) (c : context) : W * context * bool :=
  match p with
  | HRet => (w, c, true)
  | HPanic => (w, c, false)
  | HSet k v next => run_handler next (w_SetHeaders (Header_Set k v (w_Header w)) w) c
  | HAdd k v next => run_handler next (w_SetHeaders (Header_Add k v (w_Header w)) w) c
  | HDel k next => run_handler next (w_SetHeaders (Header_Del k (w_Header w)) w) c
  | HWriteHeader s next =>
      match w_WriteHeader s w with
      | Ok w => run_handler next w c
      | _ => (w, c, false)
      end
  | HWrite b next =>
      match w_Write b w with
      | Ok (w, o) => run_handler (next o) w c
      | _ => (w, c, false)
      end
  | HContext f next => run_handler next w (f c)
  | HTry p q next =>
      match run_handler p w c with
      | (w, c, true) => run_handler next w c
      | (w, c, false) =>
          match run_handler q w c with
          | (w, c, true) => run_handler next w c
          | r => r
          end
      end
  end.

(** [http.Handler]: it can only use the writer through its methods. *)
Definition Handler : Type := forall W : Type, ResponseWriter W -> request -> W -> context -> W * context * bool.

Definition HandlerFunc (f : request -> hprog) : Handler := fun W _ r w c => run_handler (f r) w c.

(** ** Writers that behave alike *)

Record writer_sim {W1 W2 : Type} (RW1 : ResponseWriter W1) (RW2 : ResponseWriter W2)
    (R : W1 -> W2 -> Prop) : Prop := {
  sim_Header a b : R a b -> w_Header a = w_Header b;
  sim_SetHeaders h a b : R a b -> R (w_SetHeaders h a) (w_SetHeaders h b);
  sim_WriteHeader s a b : R a b ->
    match w_WriteHeader s a, w_WriteHeader s b with
    | Ok a', Ok b' => R a' b'
    | Panic, Panic => True
    | _, _ => False
    end;
  sim_Write x a b : R a b ->
    match w_Write x a, w_Write x b with
    | Ok (a', o), Ok (b', o') => R a' b' /\ o = o'
    | Panic, Panic => True
    | _, _ => False
    end;
}.

(** Outcomes of a handler on two writers. *)
Definition same_run {W1 W2 : Type} (R : W1 -> W2 -> Prop) (o1 : W1 * context * bool) (o2 : W2 * context * bool) : Prop :=
  R o1.1.1 o2.1.1 /\ o1.1.2 = o2.1.2 /\ o1.2 = o2.2.

(** A handler that does the same on writers that behave alike. *)
Class Parametric (h : Handler) : Prop :=
  parametric W1 W2 (RW1 : ResponseWriter W1) (RW2 : ResponseWriter W2) R r w1 w2 c :
    writer_sim RW1 RW2 R -> R w1 w2 -> same_run R (h W1 RW1 r w1 c) (h W2 RW2 r w2 c).

Lemma run_handler_sim {W1 W2} (RW1 : ResponseWriter W1) (RW2 : ResponseWriter W2) R p w1 w2 c :
  writer_sim RW1 RW2 R -> R w1 w2 -> same_run R (run_handler p w1 c) (run_handler p w2 c).
Proof.
  intros Hs. revert w1 w2 c.
  induction p as [| |k v p IH|k v p IH|k p IH|s p IH|b p IH|f p IH|p IHp q IHq n IHn];
    intros w1 w2 c HR; cbn [run_handler]; try done.
  1-3: rewrite (sim_Header _ _ _ Hs w1 w2) by done; apply IH; by apply Hs.
  - pose proof (sim_WriteHeader _ _ _ Hs s w1 w2 HR) as H.
    destruct (w_WriteHeader s w1) as [a|[]|], (w_WriteHeader s w2) as [a'|[]|]; try done. by apply IH.
  - pose proof (sim_Write _ _ _ Hs b w1 w2 HR) as H.
    destruct (w_Write b w1) as [[a o]|[]|], (w_Write b w2) as [[a' o']|[]|]; try done.
    destruct H as [H <-]. by apply IH.
  - by apply IH.
  - destruct (IHp w1 w2 c HR) as (H1 & H2 & H3).
    destruct (run_handler p w1 c) as [[a ca] ba], (run_handler p w2 c) as [[a' ca'] ba']. simpl in *. subst.
    destruct ba'; [by apply IHn|].
    destruct (IHq a a' ca' H1) as (H4 & H5 & H6).
    destruct (run_handler q a ca') as [[d cd] bd], (run_handler q a' ca') as [[d' cd'] bd']. simpl in *. subst.
    destruct bd'; [by apply IHn|done].
Qed.

#[export] Instance HandlerFunc_parametric f : Parametric (HandlerFunc f).
Proof. intros W1 W2 RW1 RW2 R r w1 w2 c Hs HR. by apply run_handler_sim. Qed.

(** ** Facts *)

Example canonical_examples :
  CanonicalHeaderKey "accept-encoding" = "Accept-Encoding" /\
  CanonicalHeaderKey "X-REQUEST-mycenae-ID" = "X-Request-Mycenae-Id" /\
  CanonicalHeaderKey "a key" = "a key".
Proof. vm_compute. done. Qed.

Lemma Header_Get_Set k v h : Header_Get k (Header_Set k v h) = v.
Proof. unfold Header_Get, Header_Set. by rewrite lookup_insert_eq. Qed.

Lemma Header_Get_Set_ne k k' v h :
  CanonicalHeaderKey k <> CanonicalHeaderKey k' -> Header_Get k' (Header_Set k v h) = Header_Get k' h.
Proof. intros Hne. unfold Header_Get, Header_Set. by rewrite lookup_insert_ne. Qed.

(** What a [Write] does to the server's response: it never panics, sends the
    header if nothing did, and reports what it added to the body. *)
Lemma response_Write_spec x r :
  exists r' k e, response_Write x r = Ok (r', (k, e)) /\
    rs_sent r' = Some (default (200, rs_header r) (rs_sent r)) /\
    rs_superfluous r' = rs_superfluous r /\
    Z.of_nat (String.length (rs_body r')) = Z.of_nat (String.length (rs_body r)) + k.
Proof.
  unfold response_Write.
  assert (H : exists r1, match rs_sent r with None => response_WriteHeader 200 r | Some _ => Ok r end = Ok r1 /\
    rs_sent r1 = Some (default (200, rs_header r) (rs_sent r)) /\ rs_superfluous r1 = rs_superfluous r /\ rs_body r1 = rs_body r).
  { unfold response_WriteHeader. destruct (rs_sent r) as [x0|] eqn:E; [|by eexists]. exists r. by rewrite E. }
  destruct H as (r1 & -> & Hs & Hn & Hb). cbn [rbind].
  destruct (_ =? 0); [exists r1, 0, None; split_and!; try done; rewrite Hb; lia|].
  destruct (negb _); [eexists r1, 0, _; split_and!; try done; rewrite Hb; lia|].
  destruct (match rs_contentLength r1 with Some l => _ | None => _ end); eexists _, _, _; split_and!; try done; simpl;
    rewrite string_length_app, Hb; simpl; lia.
Qed.

(** A body that may be sent in full. *)
Definition accepts_body (r : response) : Prop :=
  match rs_sent r with
  | Some (s, h) => bodyAllowedForStatus s = true /\ rs_contentLength r = None
  | None => declared_length (rs_header r) = None
  end.

Lemma response_Write_accepted x r :
  accepts_body r ->
  exists r', response_Write x r = Ok (r', (Z.of_nat (String.length x), None)) /\ rs_body r' = rs_body r +:+ x /\
    rs_sent r' = Some (default (200, rs_header r) (rs_sent r)) /\ rs_contentLength r' = None.
Proof.
  unfold accepts_body, response_Write, response_WriteHeader, rs_status.
  destruct (rs_sent r) as [[s h]|] eqn:E.
  - intros [Hs Hc]. cbn [rbind]. rewrite E. cbn. rewrite Hs, Hc.
    destruct x as [|a x]; simpl; [exists r|eexists]; split_and!; try done. by rewrite string_app_nil_r.
  - intros Hd. cbn [Z.ltb Z.compare Pos.compare Pos.compare_cont orb]. rewrite Hd. cbn.
    destruct x as [|a x]; simpl; eexists; split_and!; try done; simpl; by rewrite ?string_app_nil_r.
Qed.

(** Once the header is out, nothing changes it. *)
Lemma sent_sim x : x <> None -> writer_sim response_writer response_writer (fun a b => a = b /\ rs_sent b = x).
Proof.
  intros Hx. split; simpl.
  - by intros a b [-> _].
  - by intros h a b [-> ?].
  - intros s a b [-> Hb]. unfold response_WriteHeader. rewrite Hb. by destruct x.
  - intros y a b [-> Hb]. unfold response_Write. rewrite Hb. destruct x as [x|]; [|done]. cbn [rbind].
    repeat case_match; simplify_eq; simpl; auto.
Qed.

Lemma handler_sent (h : Handler) `{!Parametric h} rq r c x :
  rs_sent r = Some x -> rs_sent (h response _ rq r c).1.1 = Some x.
Proof.
  intros H. by destruct (parametric _ _ _ _ _ rq r r c (sent_sim (Some x) ltac:(done)) (conj eq_refl H)) as [[_ ?] _].
Qed.

(** *** Decimal numbers *)

Example ParseInt_examples :
  ParseInt "120" = Some 120 /\ ParseInt "-7" = Some (-7) /\ ParseInt "+7" = Some 7 /\
  ParseInt "" = None /\ ParseInt "1 " = None /\ ParseInt "9223372036854775808" = None.
Proof. vm_compute. done. Qed.
