(* ===== verification/Rip.v ===== *)
(** * Package [rip]: responses, errors and the log middleware

    [rip.go], [log_middleware.go], [router.go] and the interface of [error.go].
    Response helpers are handler trees of [Http]; the log middleware runs a
    handler on a writer of its own and updates the statistics of [Snitch]. *)

From stdpp Require Import base gmap strings list pretty.
From Stdlib Require Import ZArith Lia Ascii.
From S2P Require Import Prelude Float64 GoValue Snitch SnitchState Logh Http.

Local Open Scope Z_scope.
Local Open Scope go_scope.

(** ** [gobol.Error] and [customError]

    The answers of the methods.  An error that embeds a nil [error] panics in
    [Error()]: [None]. *)
Record gobol_Error : Type := mkGError {
  ge_Error : option string;
  ge_StatusCode : Z;
  ge_Message : string;
  ge_Package : string;
  ge_Function : string;
}.

Record customError : Type := mkCustomError {
  ce_error : option string;
  ce_msg : string;
  ce_pkg : string;
  ce_function : string;
  ce_httpCode : Z;
}.

Definition customError_Package (e : customError) : string := ce_pkg e.
Definition customError_Function (e : customError) : string := ce_function e.
Definition customError_Message (e : customError) : string := ce_msg e.
Definition customError_StatusCode (e : customError) : Z := ce_httpCode e.

Definition as_gobol (e : customError) : gobol_Error :=
  mkGError (ce_error e) (customError_StatusCode e) (customError_Message e) (customError_Package e)
    (customError_Function e).

(** ** Logging of errors *)

Record rip_env : Type := mkRipEnv {
  logger : option ContextualLogger;
  logErrorAsDebug : bool;
  logh_now : logh_state;
}.

Section rip.
Context `{ZL : Zerolog}.

Definition SetLogger (forceErrorToDebugLog : bool) (env : rip_env) : result Empty_set rip_env :=
  rmap (fun l => mkRipEnv (Some l) forceErrorToDebugLog (logh_now env)) (CreateContextualLogger ["pkg"; "rip"]).

(** [logError]; [gerr] is a nil interface when it is [None]. *)
Definition logError (env : rip_env) (gerr : option gobol_Error) : result Empty_set (option zl_event) :=
  match logger env with
  | None => Ok None
  | Some el =>
      let* ev := if logErrorAsDebug env
                 then if DebugEnabled (logh_now env) then ContextualLogger_Debug el (logh_now env) else Ok None
                 else if ErrorEnabled (logh_now env) then ContextualLogger_Error el (logh_now env) else Ok None in
      match ev with
      | None => Ok None
      | Some ev =>
          match gerr with
          | None => Panic
          | Some g =>
              match ge_Error g with
              | None => Panic
              | Some t => Ok (Some (zl_err t (zl_str "func" (ge_Function g) (zl_str "pkg" (ge_Package g) ev))))
              end
          end
      end
  end.

Definition errBasic (pkg function message : string) (code : Z) (e : option string) : option gobol_Error :=
  match e with
  | Some _ => Some (as_gobol (mkCustomError e message pkg function code))
  | None => None
  end.

Definition errUnmarshal (pkg function : string) (e : option string) : option gobol_Error :=
  errBasic pkg function "Wrong JSON format" 400 e.

(** ** Requests

    [gzip.NewReader] fails or gives a reader; [json.Decoder.Decode] of a reader
    gives the value or an error.  The flag says whether the body was closed. *)
Inductive reader : Type := RawBody (b : string) | GzipBody (b : string).

Definition FromJSON {T : Type} (gzip_NewReader : string -> string + reader) (Decode : reader -> string + T)
    (Validate : T -> option gobol_Error) (r : request) : option gobol_Error * bool :=
  if (Header_Get "Content-Encoding" (rq_header r) =? "gzip")%string then
    match gzip_NewReader (rq_body r) with
    | inl err => (errUnmarshal "rip" "FromJSON" (Some err), false)
    | inr rd =>
        match Decode rd with
        | inl err => (errUnmarshal "rip" "FromJSON" (Some err), false)
        | inr t => (Validate t, true)
        end
    end
  else
    match Decode (RawBody (rq_body r)) with
    | inl err => (errUnmarshal "rip" "FromJSON" (Some err), false)
    | inr t => (Validate t, true)
    end.

(** ** Responses *)

Definition write_error_text (e : write_error) : string :=
  match e with
  | ErrBodyNotAllowed => "http: request method or response status code does not allow body"
  | ErrContentLength => "http: wrote more than the declared Content-Length"
  | ErrWrite s => s
  end.

(** [payload] is the outcome of [json.Marshal]. *)
Definition SuccessJSON (statusCode : Z) (payload : string + string) : hprog :=
  match payload with
  | inl err => HWriteHeader 500 (HWrite err (fun _ => HRet))
  | inr b => HAdd "Content-Type" "application/json" (HWriteHeader statusCode (HWrite b (fun _ => HRet)))
  end.

Definition Success (statusCode : Z) (payload : option string) : hprog :=
  HWriteHeader statusCode
    match payload with
    | None => HRet
    | Some b => HWrite b (fun o => match o.2 with
                                   | Some err => HWrite (write_error_text err) (fun _ => HRet)
                                   | None => HRet
                                   end)
    end.

(** [json.Encoder.Encode] of an [errorJSON]: [omitempty] drops a nil [Error]; the
    message is a string, never nil.  [json_string] quotes a string. *)
Context (json_string : string -> string).

Definition dquote : string := String (ascii_of_nat 34) "".
Definition newline : string := String (ascii_of_nat 10) "".

Definition errorJSON (error : option string) (message : string) : string :=
  "{" +:+ match error with
          | Some e => dquote +:+ "error" +:+ dquote +:+ ":" +:+ json_string e +:+ ","
          | None => ""
          end +:+ dquote +:+ "message" +:+ dquote +:+ ":" +:+ json_string message +:+ "}" +:+ newline.

(** What both branches of [Fail] end with. *)
Definition fail_encode (code : Z) (ej : string) : hprog :=
  HWriteHeader code (HWrite ej (fun o => match o.2 with
    | Some err => HWriteHeader 500 (HWrite (write_error_text err) (fun _ => HRet))
    | None => HRet
    end)).

(** [if ev := logError(gerr); ev == nil { log.Println(gerr.Message()) }] *)
Definition fail_log (env : rip_env) (gerr : option gobol_Error) (next : gobol_Error -> hprog) : hprog :=
  match logError env gerr with
  | Ok _ => match gerr with Some g => next g | None => HPanic end
  | _ => HPanic
  end.

Definition Fail (env : rip_env) (gerr : option gobol_Error) : hprog :=
  HTry
    (fail_log env gerr (fun g =>
       let rest := match ge_Error g with
                   | None => HPanic
                   | Some e => fail_encode (ge_StatusCode g) (errorJSON (Some e) (ge_Message g))
                   end in
       if ge_StatusCode g <? 500 then
         match ge_Error g with
         | None => HPanic
         | Some e => if (e =? "")%string && (ge_Message g =? "")%string
                     then HWriteHeader (ge_StatusCode g) HRet else rest
         end
       else rest))
    (fail_log env gerr (fun g =>
       if (ge_StatusCode g <? 500) && (ge_Message g =? "")%string
       then HWriteHeader (ge_StatusCode g) HRet
       else fail_encode (ge_StatusCode g) (errorJSON None (ge_Message g))))
    HRet.

(** ** [router.go] *)

Definition MethodNotAllowed : hprog := HWriteHeader 405 HRet.
Definition NotFound : hprog := HWriteHeader 404 HRet.
End rip.

(** ** The log middleware *)

Record LogResponseWriter (W : Type) : Type := mkLogWriter { lw_inner : W; lw_status : Z; lw_size : Z }.
Arguments mkLogWriter {W}. Arguments lw_inner {W}. Arguments lw_status {W}. Arguments lw_size {W}.

Definition log_Write {W} `{ResponseWriter W} (b : string) (w : LogResponseWriter W)
    : result Empty_set (LogResponseWriter W * (Z * option write_error)) :=
  let status := if lw_status w =? 0 then 200 else lw_status w in
  let* x := w_Write b (lw_inner w) in
  Ok (mkLogWriter x.1 status (lw_size w + x.2.1), x.2).

Definition log_WriteHeader {W} `{ResponseWriter W} (s : Z) (w : LogResponseWriter W)
    : result Empty_set (LogResponseWriter W) :=
  let* x := w_WriteHeader s (lw_inner w) in
  Ok (mkLogWriter x s (lw_size w)).

Definition log_Header {W} `{ResponseWriter W} (w : LogResponseWriter W) : Header := w_Header (lw_inner w).

#[export] Instance log_writer {W} (RW : ResponseWriter W) : ResponseWriter (LogResponseWriter W) := {|
  w_Header := log_Header;
  w_SetHeaders h w := mkLogWriter (w_SetHeaders h (lw_inner w)) (lw_status w) (lw_size w);
  w_WriteHeader := log_WriteHeader;
  w_Write := log_Write;
|}.

Record LogHandler : Type := mkLogHandler {
  service : string;
  system : string;
  next : Handler;
  allowCORS : bool;
  connectionStatsTags : gmap string string;
}.

(** [cors.AllowAll().Handler] is the package [github.com/rs/cors]. *)
Definition NewLogMiddleware (cors_AllowAll : Handler -> Handler) (service system : string) (next : Handler)
    (allowCORS : bool) : LogHandler :=
  mkLogHandler service system (if allowCORS then cors_AllowAll next else next) allowCORS
    {[ "type" := "tcp"; "source" := "http" ]}.

(** [AddStatsMap] stores the tags if the context has a map. *)
Definition AddStatsMap (tags : gmap string string) (c : context) : context := union tags <$> c.

Section middleware.
Context `{ZL : Zerolog} (cron_Parse : string -> option string).

(** The text of an error of [snitch]. *)
Context (error_text : snitch_error -> string).

(** The three updates; the flag is false when logging the error panics. *)
Definition increment (env : rip_env) (metric : string) (tags : gmap string string) (st : Stats) : Stats * bool :=
  match Increment cron_Parse st metric tags "@every 1m" false true with
  | Ok st' => (st', true)
  | Err e => (st, is_ok (logError env (Some (as_gobol (mkCustomError None (error_text e) "log_middleware" "increment" 0)))))
  | Panic => (st, false)
  end.

(** [logger.Error()] of a nil logger dereferences it. *)
Definition log_stats_error (env : rip_env) : bool :=
  if ErrorEnabled (logh_now env) then
    match logger env with
    | Some el => is_ok (ContextualLogger_Error el (logh_now env))
    | None => match event_at (logh_now env) ErrorLevel with Some _ => false | None => true end
    end
  else true.

Definition valueAdd (env : rip_env) (metric : string) (tags : gmap string string) (v : float64) (st : Stats) : Stats * bool :=
  match ValueAdd cron_Parse st metric tags "avg" "@every 1m" false false v with
  | Ok st' => (st', true)
  | Err e => (st, log_stats_error env)
  | Panic => (st, false)
  end.

Definition incrementHTTPConn (env : rip_env) (h : LogHandler) (st : Stats) : Stats * bool :=
  match Increment cron_Parse st "network.connection" (connectionStatsTags h) "@every 10s" false true with
  | Ok st' => (st', true)
  | Err e => (st, log_stats_error env)
  | Panic => (st, false)
  end.

Definition request_id_header (name : string) : string := "X-REQUEST-" +:+ name +:+ "-ID".

Definition with_request_ids (h : LogHandler) (rid : string) (hd : Header) : Header :=
  let hd := Header_Add (request_id_header (service h)) rid hd in
  if (Header_Get (request_id_header (system h)) hd =? "")%string
  then Header_Add (request_id_header (system h)) rid hd else hd.

(** The tags of a request's statistics. *)
Definition request_tags (r : request) (status : Z) (userTags : context) : gmap string string :=
  let tags := {[ "protocol" := rq_proto r; "method" := rq_method r; "status" := pretty status ]} in
  let tags := if negb (status =? 404) && negb (status =? 405) then <["path" := rq_path r]> tags else tags in
  default ∅ userTags ∪ tags.

(** [ServeHTTP], less the goroutine it starts ([incrementHTTPConn]); [rid] is the
    request's id and [d] its duration in nanoseconds.  The next handler gets a
    context made from [context.Background()]: the request's own, [ctx], is not
    used.  The flag is false when the request ends in a panic. *)
Definition LogHandler_ServeHTTP {W} (RW : ResponseWriter W) (env : rip_env) (h : LogHandler) (rid : string) (d : Z)
    (r : request) (ctx : context) (w : W) (st : Stats) : W * Stats * bool :=
  let w := w_SetHeaders (with_request_ids h rid (w_Header w)) w in
  match next h (LogResponseWriter W) (log_writer RW) r (mkLogWriter w 0 0) (Some ∅) with
  | (logw, _, false) => (lw_inner logw, st, false)
  | (logw, userTags, true) =>
      let tags := request_tags r (lw_status logw) userTags in
      match increment env "request.count" tags st with
      | (st, false) => (lw_inner logw, st, false)
      | (st, true) =>
          let '(st, ok) := valueAdd env "request.duration" tags (f64_div (f64_of_Z d) (f64_of_Z 1000000)) st in
          (lw_inner logw, st, ok)
      end
  end.
End middleware.

(** ** What [Fail] answers *)

Section fail.
Context `{ZL : Zerolog} (json_string : string -> string).

(** The part of a response a client sees (of a HEAD request, the header only). *)
Definition visible (r : response) : option (Z * Header) * string := (rs_sent r, rs_body r).

Definition valid_status (s : Z) : bool := (100 <=? s) && (s <=? 999).

Lemma response_WriteHeader_valid s r :
  rs_sent r = None -> declared_length (rs_header r) = None -> valid_status s = true ->
  response_WriteHeader s r =
  Ok (mkResponse (Header_Del "Content-Length" (rs_header r)) (Some (s, rs_header r)) None (rs_written r) (rs_body r)
        (rs_superfluous r)).
Proof.
  intros Hr Hd Hs. unfold response_WriteHeader, valid_status in *. rewrite Hr, Hd.
  apply andb_prop in Hs as [H1 H2]. destruct (Z.ltb_spec s 100); [lia|]. by destruct (Z.ltb_spec 999 s); [lia|].
Qed.

Lemma response_WriteHeader_invalid s r :
  rs_sent r = None -> valid_status s = false -> response_WriteHeader s r = Panic.
Proof.
  intros Hr Hs. unfold response_WriteHeader, valid_status in *. rewrite Hr.
  destruct (Z.ltb_spec s 100); [done|]. destruct (Z.ltb_spec 999 s); [done|].
  apply andb_false_iff in Hs as [?|?]; lia.
Qed.

Lemma errorJSON_length e m : Z.of_nat (String.length (errorJSON json_string e m)) =? 0 = false.
Proof. apply Z.eqb_neq. unfold errorJSON. simpl. lia. Qed.

(** A program that answers a status and a body, or panics and leaves the response
    alone if the status is not valid. *)
Definition answers (code : Z) (body : string) (r : response) (c : context) (p : hprog) : Prop :=
  exists r', run_handler p r c = (r', c, valid_status code) /\
    if valid_status code
    then visible r' = (Some (code, rs_header r), if bodyAllowedForStatus code then rs_body r +:+ body else rs_body r)
    else r' = r.

Lemma answers_encode code e m r c :
  rs_sent r = None -> declared_length (rs_header r) = None ->
  answers code (errorJSON json_string e m) r c (fail_encode code (errorJSON json_string e m)).
Proof.
  intros Hr Hd. unfold answers, fail_encode. pose proof (errorJSON_length e m) as Hl.
  generalize dependent (errorJSON json_string e m). intros ej Hl. cbn [run_handler w_WriteHeader response_writer].
  destruct (valid_status code) eqn:Hs.
  - rewrite response_WriteHeader_valid by done. cbn [run_handler w_Write response_writer].
    unfold response_Write at 1. cbn [rs_sent rbind]. rewrite Hl. unfold rs_status at 1. cbn.
    destruct (bodyAllowedForStatus code) eqn:Hb; cbn [negb snd run_handler]; [by eexists|].
    cbn [w_WriteHeader response_writer response_WriteHeader rs_sent run_handler w_Write].
    unfold response_Write. cbn -[String.length]. rewrite Hb. by eexists.
  - rewrite response_WriteHeader_invalid by done. by exists r.
Qed.

Lemma answers_header code r c :
  rs_sent r = None -> declared_length (rs_header r) = None -> answers code "" r c (HWriteHeader code HRet).
Proof.
  intros Hr Hd. unfold answers. cbn [run_handler w_WriteHeader response_writer]. destruct (valid_status code) eqn:Hs.
  - rewrite response_WriteHeader_valid by done. eexists. split; [done|]. rewrite string_app_nil_r. by destruct (bodyAllowedForStatus code).
  - rewrite response_WriteHeader_invalid by done. by exists r.
Qed.

Lemma answers_try code body body' r c p q :
  answers code body r c p -> answers code body' r c q -> answers code body r c (HTry p q HRet).
Proof.
  intros (rp & Ep & Hp) (rq & Eq & Hq). unfold answers. cbn [run_handler].
  rewrite Ep. destruct (valid_status code); [by exists rp|]. subst. rewrite Eq. by exists r.
Qed.

Lemma answers_recover code body r c q :
  answers code body r c q -> answers code body r c (HTry HPanic q HRet).
Proof.
  intros (rq & Eq & Hq). unfold answers. cbn [run_handler]. rewrite Eq. exists rq. split; [|done].
  by destruct (valid_status code).
Qed.

(** The JSON document [Fail] means to send: nothing for a client error without
    texts, the cause and the message otherwise; an error without a cause has no
    ["error"] field. *)
Definition fail_body (g : gobol_Error) : string :=
  if (ge_StatusCode g <? 500) && (default "" (ge_Error g) =? "")%string && (ge_Message g =? "")%string
  then "" else errorJSON json_string (ge_Error g) (ge_Message g).

(** C31. What [Fail] does on a response that is not out: when the error can be
    logged and has a valid status the client gets that status and the JSON
    document, with the recovered branch standing in for errors without a cause;
    otherwise, and for a nil error, the recovered branch panics again, the
    response is untouched and the request is aborted. *)
Theorem fail_outcome env gerr r c :
  rs_sent r = None -> declared_length (rs_header r) = None ->
  exists r',
    match gerr with
    | Some g =>
        let code := ge_StatusCode g in
        let replies := is_ok (logError env (Some g)) && valid_status code in
        run_handler (Fail json_string env gerr) r c = (r', c, replies) /\
        if replies
        then visible r' = (Some (code, rs_header r), if bodyAllowedForStatus code then rs_body r +:+ fail_body g else rs_body r)
        else r' = r
    | None => run_handler (Fail json_string env gerr) r c = (r', c, false) /\ r' = r
    end.
Proof.
  intros Hr Hd. destruct gerr as [g|]; cycle 1.
  { exists r. unfold Fail, fail_log. cbn [run_handler]. by destruct (logError env None). }
  cbv zeta. destruct (logError env (Some g)) as [ev|[]|] eqn:Hl; cbn [is_ok andb]; cycle 1.
  { exists r. unfold Fail, fail_log. by rewrite Hl. }
  change (answers (ge_StatusCode g) (fail_body g) r c (Fail json_string env (Some g))).
  unfold Fail, fail_log. rewrite Hl. unfold fail_body.
  pose proof (fun e => answers_encode (ge_StatusCode g) e (ge_Message g) r c Hr Hd) as Henc.
  pose proof (answers_header (ge_StatusCode g) r c Hr Hd) as Hhdr.
  assert (Hrec : exists b, answers (ge_StatusCode g) b r c
    (if (ge_StatusCode g <? 500) && (ge_Message g =? "")%string then HWriteHeader (ge_StatusCode g) HRet
     else fail_encode (ge_StatusCode g) (errorJSON json_string None (ge_Message g)))) by (case_match; eauto).
  destruct (ge_Error g) as [e|]; cbn [default id].
  - destruct Hrec as [b Hrec]. eapply answers_try; [|exact Hrec].
    destruct (ge_StatusCode g <? 500); [|apply Henc]. cbn [andb].
    destruct ((e =? "")%string && (ge_Message g =? "")%string); [apply Hhdr|apply Henc].
  - clear Hrec. rewrite andb_true_r. destruct (ge_StatusCode g <? 500) eqn:Hc; apply answers_recover; [|apply Henc].
    cbn [andb]. destruct (ge_Message g =? "")%string; [apply Hhdr|apply Henc].
Qed.
End fail.

(** ** The log middleware changes nothing of the response *)

Lemma log_sim {W} (RW : ResponseWriter W) : writer_sim (log_writer RW) RW (fun lw w => lw_inner lw = w).
Proof.
  split; simpl.
  - by intros a b <-.
  - by intros h a b <-.
  - intros s a b <-. unfold log_WriteHeader. by destruct (w_WriteHeader s (lw_inner a)) as [x|[]|].
  - intros x a b <-. unfold log_Write. by destruct (w_Write x (lw_inner a)) as [[y o]|[]|].
Qed.

Section updates.
Context `{ZL : Zerolog} (cron_Parse : string -> option string) (error_text : snitch_error -> string).

(** With intervals that [cron] accepts the updates of the statistics succeed. *)
Lemma ValueAdd_ok st m tg agg itv keep nullable v :
  cron_Parse itv = None -> agg ∈ aggregationsContants ->
  exists st', ValueAdd cron_Parse st m tg agg itv keep nullable v = Ok st'.
Proof.
  intros Hc Ha. unfold ValueAdd, getPoint. destruct (points st !! _); [by eexists|].
  rewrite Hc, bool_decide_true by done. by eexists.
Qed.

Lemma increment_ok env m tg st :
  cron_Parse "@every 1m" = None ->
  exists st', Increment cron_Parse st m tg "@every 1m" false true = Ok st' /\
    increment cron_Parse error_text env m tg st = (st', true).
Proof.
  intros Hc. destruct (ValueAdd_ok st m tg "sum" "@every 1m" false true (f64_of_Z 1) Hc) as [st' H]; [set_solver|].
  exists st'. unfold increment, Increment. by rewrite H.
Qed.

Lemma valueAdd_ok env m tg v st :
  cron_Parse "@every 1m" = None ->
  exists st', ValueAdd cron_Parse st m tg "avg" "@every 1m" false false v = Ok st' /\
    valueAdd cron_Parse env m tg v st = (st', true).
Proof.
  intros Hc. destruct (ValueAdd_ok st m tg "avg" "@every 1m" false false v Hc) as [st' H]; [set_solver|].
  exists st'. unfold valueAdd. by rewrite H.
Qed.


(** ** What the middleware logs of a response *)

(** [n] is the number of ignored [WriteHeader] calls, [b] the length of the body,
    when the handler starts. *)
Definition log_tracks (n : nat) (b : Z) (lw : LogResponseWriter response) (r : response) : Prop :=
  lw_inner lw = r /\ (n <= rs_superfluous r)%nat /\
  lw_size lw = Z.of_nat (String.length (rs_body r)) - b /\
  (forall s h, rs_sent r = Some (s, h) -> 100 <= s) /\
  (rs_superfluous r = n -> lw_status lw = default 0 (rs_status r)).

Lemma log_tracks_sim n b : writer_sim (log_writer response_writer) response_writer (log_tracks n b).
Proof.
  split; simpl.
  - by intros lw r (<- & _).
  - by intros h lw r (<- & ? & ? & ? & ?).
  - intros s lw r (<- & Hn & Hb & Hs & Hst). unfold log_WriteHeader. cbn [w_WriteHeader response_writer].
    unfold response_WriteHeader in *. destruct (rs_sent (lw_inner lw)) as [[s0 h0]|] eqn:Hsent; cbn [rbind].
    + split_and!; simpl; [done|lia|done|done|lia].
    + destruct ((s <? 100) || (999 <? s)) eqn:Hv; [done|]. apply orb_false_iff in Hv as [H1 H2].
      cbn [rbind]. split_and!; simpl; [done|done|done| |done]. intros s' h' [= <- <-]. lia.
  - intros x lw r (<- & Hn & Hb & Hs & Hst). unfold log_Write. cbn [w_Write response_writer].
    destruct (response_Write_spec x (lw_inner lw)) as (r' & k & e & -> & Hs' & Hn' & Hb'). cbn [rbind fst snd].
    split; [|done]. split_and!; simpl; [done|lia|lia| |].
    + intros s h. rewrite Hs'. intros [= E]. destruct (rs_sent (lw_inner lw)) as [[s0 h0]|]; simplify_eq/=; [by eapply Hs|lia].
    + rewrite Hn'. intros E. rewrite (Hst E). unfold rs_status. rewrite Hs'.
      destruct (rs_sent (lw_inner lw)) as [[s0 h0]|] eqn:E'; [|done]. specialize (Hs _ _ eq_refl). simpl.
      destruct (Z.eqb_spec s0 0); [lia|done].
Qed.
End updates.

(** What [ServeHTTP] hands to the statistics: the final log writer and the tags,
    or nothing after a panic. *)
Definition served (h : LogHandler) (rid : string) (r : request) (w : response)
    : option (LogResponseWriter response * context) :=
  match next h (LogResponseWriter response) (log_writer response_writer) r
          (mkLogWriter (w_SetHeaders (with_request_ids h rid (w_Header w)) w) 0 0) (Some ∅) with
  | (lw, c, true) => Some (lw, c)
  | (_, _, false) => None
  end.

(** The status and the size the middleware logs: the size is the number of
    bytes of the body, and if the handler calls [WriteHeader] at most once, and
    not after writing, the status is the one that went out, or 0 when the
    handler sent nothing (although the client then gets a 200). *)
Theorem logged_status h rid r w lw c :
  Parametric (next h) -> rs_sent w = None -> served h rid r w = Some (lw, c) ->
  lw_size lw = Z.of_nat (String.length (rs_body (lw_inner lw))) - Z.of_nat (String.length (rs_body w)) /\
  (rs_superfluous (lw_inner lw) = rs_superfluous w -> lw_status lw = default 0 (rs_status (lw_inner lw))) /\
  rs_status (finish_request (lw_inner lw)) = Some (default 200 (rs_status (lw_inner lw))).
Proof.
  intros Hp Hs Hv. unfold served in Hv.
  pose proof (parametric _ _ _ _ _ r (mkLogWriter (w_SetHeaders (with_request_ids h rid (w_Header w)) w) 0 0)
    (w_SetHeaders (with_request_ids h rid (w_Header w)) w) (Some ∅)
    (log_tracks_sim (rs_superfluous w) (Z.of_nat (String.length (rs_body w))))) as H.
  destruct H as ((E & _ & Hb & _ & Hst) & _).
  { split_and!; simpl; [done..|lia| |]; unfold rs_status; simpl; rewrite Hs; done. }
  destruct (next h (LogResponseWriter response) _ _ _ _) as [[lw' c'] []]; [|done]. simplify_eq. simpl in *.
  rewrite <- E in *. split_and!; [done..|]. unfold finish_request, rs_status.
  by destruct (rs_sent (lw_inner lw)) as [x|] eqn:Ex; rewrite ?Ex.
Qed.

(** *** Keys *)

Fixpoint last_char (s : string) (d : ascii) : ascii :=
  match s with
  | EmptyString => d
  | String c s' => last_char s' c
  end.

Lemma last_char_app s a t d d' : last_char (s +:+ String a t) d = last_char (String a t) d'.
Proof. revert d. induction s as [|b s IH]; intros d; [done|]. exact (IH b). Qed.

Lemma join_last l m : exists p, join ", " (l ++ [m]) = p +:+ m.
Proof.
  induction l as [|s l [p IH]]; [by exists ""|]. exists (s +:+ ", " +:+ p). rewrite !string_app_assoc.
  change ((s :: l) ++ [m]) with (s :: (l ++ [m])).
  destruct (l ++ [m]) as [|y k] eqn:E; [by destruct l|]. rewrite <- IH. done.
Qed.

(** The metrics of a key end it. *)
Lemma key_ends m a t tg d : m = String a t -> last_char (keyFromMetricID m tg) d = last_char m d.
Proof.
  intros ->. unfold keyFromMetricID. destruct (join_last (go_sort string_ltb (merged_tag <$> tg)) (String a t)) as [p ->].
  by rewrite (last_char_app _ _ _ _ d).
Qed.

(** ** The statistics of a sequence of requests *)

(** A request served, or the goroutine of one; they interleave freely. *)
Inductive mw_event : Type :=
| Serve (rid : string) (d : Z) (r : request) (ctx : context) (w : response)
| Connection.

Section counting.
Context `{ZL : Zerolog} (cron_Parse : string -> option string) (error_text : snitch_error -> string).
Context (env : rip_env) (h : LogHandler).

Definition mw_step (st : Stats) (ev : mw_event) : Stats :=
  match ev with
  | Serve rid d r ctx w => (LogHandler_ServeHTTP cron_Parse error_text response_writer env h rid d r ctx w st).1.2
  | Connection => (incrementHTTPConn cron_Parse env h st).1
  end.

Definition count_key (ev : mw_event) : option string :=
  match ev with
  | Serve rid d r ctx w =>
      (fun x => keyFromMetricID "request.count" (map_to_list (request_tags r (lw_status x.1) x.2))) <$> served h rid r w
  | Connection => None
  end.

(** The events counted under a key. *)
Definition counted_as (k : string) (evs : list mw_event) : nat :=
  length (filter (fun ev => count_key ev = Some k) evs).

Definition counter_is (k : string) (n : Z) (st : Stats) : Prop :=
  if n =? 0 then point_at st k = None
  else exists p, point_at st k = Some p /\ value p = f64_of_Z n /\ count p = n /\ aggregation p = "sum" /\ valNull p = 0.

Lemma counter_other k n st st' m tg agg itv keep nullable v :
  stats_wf st -> ValueAdd cron_Parse st m tg agg itv keep nullable v = Ok st' ->
  keyFromMetricID m (map_to_list tg) <> k -> counter_is k n st -> stats_wf st' /\ counter_is k n st'.
Proof.
  intros Hst Hv Hk Hc. split; [by eapply ValueAdd_wf|]. unfold counter_is in *.
  rewrite (ValueAdd_point_at _ _ _ _ _ _ _ _ _ _ k Hst Hv), decide_False by done. done.
Qed.

Lemma counter_same n st st' m tg itv :
  stats_wf st -> Increment cron_Parse st m tg itv false true = Ok st' -> 0 <= n -> n + 1 < max_exact ->
  let k := keyFromMetricID m (map_to_list tg) in
  counter_is k n st -> stats_wf st' /\ counter_is k (n + 1) st'.
Proof.
  intros Hst Hv Hn Hmax k Hc. unfold Increment in Hv. split; [by eapply ValueAdd_wf|]. unfold counter_is in *.
  rewrite (ValueAdd_point_at _ _ _ _ _ _ _ _ _ _ k Hst Hv), decide_True by done.
  destruct (Z.eqb_spec (n + 1) 0); [lia|]. eexists. split; [done|].
  assert (Hadd : f64_add (f64_of_Z n) (f64_of_Z 1) = f64_of_Z (n + 1)) by (apply f64_add_of_Z; lia).
  assert (H64 : int64_of_Z (n + 1) = n + 1).
  { apply int64_of_Z_id. unfold int64_range, two63. unfold max_exact in Hmax. lia. }
  destruct (Z.eqb_spec n 0) as [->|Hn0].
  - rewrite Hc. cbn [default]. unfold aggregate. simpl. rewrite <- f64_of_Z_0, Hadd. done.
  - destruct Hc as (p & -> & Hval & Hcnt & Hagg & Hnull). cbn [default id]. unfold aggregate. rewrite Hagg. simpl.
    rewrite Hval, Hcnt, Hadd, H64. done.
Qed.

Context (Hmin : cron_Parse "@every 1m" = None) (Hsec : cron_Parse "@every 10s" = None).

(** Keys of the middleware's other metrics. *)
Definition is_count_key (k : string) : Prop := last_char k "n" = "t"%char.

Lemma count_key_ends ev k : count_key ev = Some k -> is_count_key k.
Proof.
  destruct ev as [rid d r ctx w|]; [|done]. simpl. destruct (served h rid r w) as [x|]; [|done]. intros [= <-].
  unfold is_count_key. by rewrite (key_ends "request.count" "r" "equest.count") by done.
Qed.

Lemma other_key k m a t tg : is_count_key k -> m = String a t -> last_char m "n" = "n"%char -> keyFromMetricID m tg <> k.
Proof. intros Hk Hm Hl <-. unfold is_count_key in Hk. rewrite (key_ends m a t) in Hk by done. congruence. Qed.

Lemma mw_step_counter k n st ev :
  is_count_key k -> stats_wf st -> counter_is k n st -> 0 <= n -> n + 1 < max_exact ->
  stats_wf (mw_step st ev) /\
  counter_is k (if bool_decide (count_key ev = Some k) then n + 1 else n) (mw_step st ev).
Proof.
  intros Hk Hst Hc Hn Hmax. destruct ev as [rid d r ctx w|]; simpl.
  - unfold LogHandler_ServeHTTP, served. cbn [w_Header w_SetHeaders response_writer].
    destruct (next h (LogResponseWriter response) _ _ _ _) as [[lw c] []]; [|done].
    set (tags := request_tags r (lw_status lw) c). cbn [fmap option_fmap option_map fst snd].
    destruct (increment_ok cron_Parse error_text env "request.count" tags st Hmin) as (st1 & Hi & ->).
    destruct (valueAdd_ok cron_Parse env "request.duration" tags (f64_div (f64_of_Z d) (f64_of_Z 1000000)) st1 Hmin)
      as (st2 & Hv & ->). cbn [fst snd].
    assert (H1 : stats_wf st1 /\ counter_is k (if bool_decide
      (Some (keyFromMetricID "request.count" (map_to_list tags)) = Some k) then n + 1 else n) st1).
    { case_bool_decide as E.
      - injection E as <-. by eapply counter_same.
      - eapply counter_other; [done|exact Hi| |done]. naive_solver. }
    destruct H1 as [Hst1 Hc1]. eapply counter_other; [done|exact Hv| |done].
    by eapply (other_key _ _ "r" "equest.duration").
  - unfold incrementHTTPConn.
    destruct (ValueAdd_ok cron_Parse st "network.connection" (connectionStatsTags h) "sum" "@every 10s" false true
      (f64_of_Z 1) Hsec) as [st' Hv]; [set_solver|]. unfold Increment. rewrite Hv. cbn [fst].
    eapply counter_other; [done|exact Hv| |done]. by eapply (other_key _ _ "n" "etwork.connection").
Qed.

Lemma mw_steps_counter k evs n st :
  is_count_key k -> stats_wf st -> counter_is k n st -> 0 <= n -> n + Z.of_nat (length evs) < max_exact ->
  counter_is k (n + Z.of_nat (counted_as k evs)) (foldl mw_step st evs).
Proof.
  intros Hk. revert n st. induction evs as [|ev evs IH]; intros n st Hst Hc Hn Hmax.
  { unfold counted_as. simpl. by rewrite Z.add_0_r. }
  cbn [length] in Hmax. destruct (mw_step_counter k n st ev Hk Hst Hc Hn) as [Hst' Hc']; [lia|].
  simpl. unfold counted_as. rewrite filter_cons. fold (counted_as k evs) in *.
  case_bool_decide as E.
  - rewrite decide_True by done. cbn [length]. fold (counted_as k evs).
    replace (n + Z.of_nat (S (counted_as k evs))) with (n + 1 + Z.of_nat (counted_as k evs)) by lia.
    apply IH; [done|done|lia|lia].
  - rewrite decide_False by done. apply IH; [done|done|lia|lia].
Qed.
End counting.

(** The request counter is exact for requests that are served one at a time:
    through any sequence of requests and of the goroutines that count connections,
    the point of a key of ["request.count"] that was not there before holds the
    number of requests that ended without a panic and whose protocol, method,
    status, path and user tags have that key.  [RipConc] interleaves them. *)
Theorem sequential_requests_counted `{Zerolog} cron_Parse error_text env h st evs k :
  cron_Parse "@every 1m" = None -> cron_Parse "@every 10s" = None -> stats_wf st -> points st !! k = None ->
  (0 < counted_as h k evs)%nat -> Z.of_nat (length evs) < max_exact ->
  let n := Z.of_nat (counted_as h k evs) in
  exists p, point_at (foldl (mw_step cron_Parse error_text env h) st evs) k = Some p /\
    value p = f64_of_Z n /\ count p = n /\ IsValueNull p = false.
Proof.
  intros H1 H2 Hst Hp Hn Hmax n.
  assert (Hk : is_count_key k).
  { unfold counted_as in Hn. destruct (filter _ evs) as [|ev l] eqn:E; [simpl in Hn; lia|].
    assert (Hin : ev ∈ filter (fun ev => count_key h ev = Some k) evs) by (rewrite E; set_solver).
    apply list_elem_of_filter in Hin as [Hin _]. by eapply count_key_ends. }
  assert (HC : counter_is k (0 + n) (foldl (mw_step cron_Parse error_text env h) st evs)).
  { apply mw_steps_counter; [done..| |lia|lia]. unfold counter_is, point_at. by rewrite Hp. }
  unfold counter_is in HC. destruct (Z.eqb_spec (0 + n) 0); [lia|]. destruct HC as (p & ? & ? & ? & ? & Hnull).
  exists p. split_and!; try done. unfold IsValueNull. by rewrite Hnull.
Qed.

(** ** Examples *)

Definition demo_env : rip_env := mkRipEnv None false logh_init.

Definition demo_handler : LogHandler :=
  mkLogHandler "svc" "sys" (HandlerFunc (fun r =>
    if (rq_path r =? "/boom")%string then HPanic
    else HContext (AddStatsMap {[ "user" := "u" ]}) (Success 201 (Some "ok")))) false ∅.

Definition demo_request (path : string) : request := mkRequest "GET" "HTTP/1.1" path path ∅ "".

Lemma fail_outcome_witness :
  exists r, run_handler (Fail id demo_env (Some (mkGError None 400 "bad" "p" "f"))) new_response None = (r, None, true) /\
    rs_sent r = Some (400, ∅).
Proof.
  destruct (fail_outcome id demo_env (Some (mkGError None 400 "bad" "p" "f")) new_response None) as (r & H1 & H2);
    [reflexivity|vm_compute; reflexivity|].
  exists r. split; [exact H1|exact (f_equal fst H2)].
Defined.


Lemma logged_status_witness :
  exists lw c, served demo_handler "id" (demo_request "/x") new_response = Some (lw, c) /\ lw_status lw = 201 /\ lw_size lw = 2.
Proof.
  eexists _, _. split; [reflexivity|].
  edestruct (logged_status demo_handler "id" (demo_request "/x") new_response) as (H1 & H2 & _);
    [apply HandlerFunc_parametric|reflexivity|reflexivity|].
  split; [exact (H2 eq_refl)|exact H1].
Defined.

Lemma sequential_requests_counted_witness :
  let k := keyFromMetricID "request.count" (map_to_list (request_tags (demo_request "/x") 201 (Some {[ "user" := "u" ]}))) in
  let evs := [Serve "a" 5 (demo_request "/x") None new_response; Connection; Serve "b" 6 (demo_request "/boom") None new_response;
              Serve "c" 7 (demo_request "/x") None new_response] in
  exists p, point_at (foldl (mw_step (fun _ => None) (fun _ => "") demo_env demo_handler) demo_new evs) k = Some p /\
    value p = f64_of_Z 2.
Proof.
  cbv zeta. edestruct (sequential_requests_counted (fun _ => None) (fun _ => "") demo_env demo_handler demo_new
    [Serve "a" 5 (demo_request "/x") None new_response; Connection; Serve "b" 6 (demo_request "/boom") None new_response;
     Serve "c" 7 (demo_request "/x") None new_response]
    (keyFromMetricID "request.count" (map_to_list (request_tags (demo_request "/x") 201 (Some {[ "user" := "u" ]})))))
    as (p & H1 & H2 & _).
  - reflexivity.
  - reflexivity.
  - apply (New_wf (fun _ => inr 0) (inr "h") demo_settings). reflexivity.
  - reflexivity.
  - apply Nat.ltb_lt. vm_compute. reflexivity.
  - reflexivity.
  - exists p. split; [exact H1|]. rewrite H2. vm_compute. reflexivity.
Defined.
