(* ===== verification/Gzip.v ===== *)
(** * Package [compress] ([compress/gzip.go]) and the interface of [compress/gzip]

    The gzip format itself is a parameter ([GzipLib]): a writer that turns
    operations into chunks written to its output, and a reader.  [RipGzip] and
    [Files] are proved against the same interface. *)

From stdpp Require Import base strings list.
From Stdlib Require Import ZArith Lia Ascii.
From S2P Require Import Prelude.

Local Open Scope Z_scope.

(** ** The interface *)

Fixpoint sconcat (l : list string) : string :=
  match l with
  | [] => ""
  | s :: l => s +:+ sconcat l
  end.

(** The operations on a writer before [Close]. *)
Inductive gz_op : Type := GWrite (b : string) | GFlush.

(** What a reader yields: [gzip.NewReader] fails, or there is a stream of data
    that ends well or with an error. *)
Inductive gunzip_result : Type :=
| BadHeader (e : string)
| Stream (data : string) (err : option string).

Class GzipLib : Type := {
  gz_state : Type;
  gz_new : Z -> option gz_state;                       (* [NewWriterLevel]; [None]: invalid level *)
  gz_do : gz_op -> gz_state -> gz_state * list string;  (* the chunks written to the output *)
  gz_close : gz_state -> list string;
  gz_bad_name : string -> option string;                (* the error of writing a header with this name *)
  gunzip : string -> gunzip_result;
}.

Section ops.
Context `{GZ : GzipLib}.

(** The output of a sequence of operations. *)
Fixpoint gz_run (ops : list gz_op) (g : gz_state) : gz_state * string :=
  match ops with
  | [] => (g, "")
  | o :: ops =>
      let x := gz_do o g in
      let y := gz_run ops x.1 in (y.1, sconcat x.2 +:+ y.2)
  end.

Definition gz_stream (ops : list gz_op) (g : gz_state) : string :=
  let x := gz_run ops g in x.2 +:+ sconcat (gz_close x.1).

Definition op_data (o : gz_op) : string := match o with GWrite b => b | GFlush => "" end.
Definition ops_data (ops : list gz_op) : string := sconcat (op_data <$> ops).
End ops.

Lemma gz_run_snoc `{GZ : GzipLib} ops o g :
  gz_run (ops ++ [o]) g = ((gz_do o (gz_run ops g).1).1, (gz_run ops g).2 +:+ sconcat (gz_do o (gz_run ops g).1).2).
Proof.
  revert g. induction ops as [|o' ops IH]; intros g; cbn [gz_run app].
  - cbn [fst snd]. by rewrite string_app_nil_r.
  - rewrite IH. cbn [fst snd]. by rewrite string_app_assoc.
Qed.

(** What the documentation of [compress/gzip] promises: the valid levels, and
    that a closed stream reads back as the data written; and the first [Write]
    writes the header of the format at once. *)
Class GzipLaws (GZ : GzipLib) : Prop := {
  gz_level l : gz_new l <> None <-> -2 <= l <= 9;
  gz_roundtrip l g ops : gz_new l = Some g -> gunzip (gz_stream ops g) = Stream (ops_data ops) None;
  gz_header l g b : gz_new l = Some g -> (gz_do (GWrite b) g).2 <> [];
}.

Definition DefaultCompression : Z := -1.

(** ** [compress/gzip.go]

    Writes to a [bytes.Buffer] do not fail; [gzip.NewWriter] is the default
    level. *)
Section compress.
Context `{GZ : GzipLib}.

Definition ZipBytes (data : string) : result string string :=
  match gz_new DefaultCompression with
  | None => Panic
  | Some g => Ok (gz_stream [GWrite data; GFlush] g)
  end.

Definition UnzipBytes (data : string) : result string string :=
  match gunzip data with
  | BadHeader e => Err e
  | Stream _ (Some e) => Err e
  | Stream d None => Ok d
  end.

Lemma sconcat_app l1 l2 : sconcat (l1 ++ l2) = sconcat l1 +:+ sconcat l2.
Proof. induction l1 as [|s l1 IH]; [done|]. cbn [sconcat app]. by rewrite IH, string_app_assoc. Qed.

Lemma ops_data_snoc ops o : ops_data (ops ++ [o]) = ops_data ops +:+ op_data o.
Proof. unfold ops_data. rewrite fmap_app, sconcat_app. simpl. by rewrite string_app_nil_r. Qed.

Lemma gz_new_default `{!GzipLaws GZ} : exists g, gz_new DefaultCompression = Some g.
Proof.
  destruct (gz_new DefaultCompression) as [g|] eqn:E; [by exists g|].
  exfalso. apply (proj2 (gz_level DefaultCompression)); [|done]. unfold DefaultCompression. lia.
Qed.

(** [UnzipBytes] undoes [ZipBytes], for every slice of bytes. *)
Theorem zip_unzip `{!GzipLaws GZ} data : exists z, ZipBytes data = Ok z /\ UnzipBytes z = Ok data.
Proof.
  destruct gz_new_default as [g Hg]. unfold ZipBytes, UnzipBytes. rewrite Hg. eexists. split; [done|].
  rewrite (gz_roundtrip _ _ _ Hg). unfold ops_data. simpl. by rewrite string_app_nil_r.
Qed.
End compress.

(** ** An instance: a header, every byte behind a mark, an end mark *)

Fixpoint marked (s : string) : string :=
  match s with
  | EmptyString => ""
  | String c s' => String "D" (String c (marked s'))
  end.

Fixpoint unmark (s : string) : string * option string :=
  match s with
  | String "D" (String c s') => let x := unmark s' in (String c x.1, x.2)
  | String "E" EmptyString => ("", None)
  | _ => ("", Some "unexpected EOF")
  end.

Definition header_once (g : bool) : list string := if g then [] else ["H"].

#[export] Instance toy_gzip : GzipLib := {|
  gz_state := bool;
  gz_new l := if (-2 <=? l) && (l <=? 9) then Some false else None;
  gz_do o g := (true, header_once g ++ [marked (op_data o)]);
  gz_close g := header_once g ++ ["E"];
  gz_bad_name n := None;
  gunzip s := match s with
              | String "H" s' => let x := unmark s' in Stream x.1 x.2
              | _ => BadHeader "gzip: invalid header"
              end;
|}.

Lemma unmark_marked s t : unmark (marked s +:+ t) = (s +:+ (unmark t).1, (unmark t).2).
Proof.
  induction s as [|c s IH]; [apply surjective_pairing|].
  change (unmark (marked (String c s) +:+ t)) with
    (let x := unmark (marked s +:+ t) in (String c x.1, x.2)). by rewrite IH.
Qed.

Lemma toy_run ops u :
  unmark ((gz_run ops true).2 +:+ u) = (ops_data ops +:+ (unmark u).1, (unmark u).2).
Proof.
  induction ops as [|o ops IH]; [apply surjective_pairing|].
  cbn [gz_run]. simpl gz_do. cbn [fst snd sconcat header_once app].
  rewrite !string_app_nil_r, string_app_assoc, unmark_marked, IH. unfold ops_data. cbn [fmap list_fmap sconcat fst snd].
  by rewrite string_app_assoc.
Qed.

Lemma toy_state ops : (gz_run ops true).1 = true.
Proof. induction ops as [|o ops IH]; [done|]. exact IH. Qed.

#[export] Instance toy_gzip_laws : GzipLaws toy_gzip.
Proof.
  split.
  - intros l. simpl. destruct (Z.leb_spec (-2) l), (Z.leb_spec l 9); simpl; split; done || lia.
  - intros l g ops Hg. simpl in Hg. destruct (_ && _); [|done]. injection Hg as <-.
    unfold gz_stream. destruct ops as [|o ops]; [done|].
    cbn [gz_run]. simpl gz_do. cbn [fst snd sconcat header_once app]. rewrite toy_state. cbn [gz_close toy_gzip header_once app sconcat].
    rewrite !string_app_nil_r, !string_app_assoc.
    match goal with |- gunzip ("H" +:+ ?s) = _ =>
      change (let x := unmark s in Stream x.1 x.2 = Stream (ops_data (o :: ops)) None) end.
    cbv zeta. rewrite unmark_marked, toy_run. unfold ops_data. simpl. by rewrite string_app_nil_r.
  - intros l g b Hg. simpl in Hg. destruct (_ && _); [|done]. by injection Hg as <-.
Qed.

Lemma zip_unzip_witness : exists z, ZipBytes "hi" = Ok z /\ UnzipBytes z = Ok "hi".
Proof. exact (zip_unzip "hi"). Defined.
