(* ===== verification/RipGzip.v ===== *)
(** * Package [rip]: the gzip middleware ([gzip_middleware.go])

    A handler that gives the next one a compressing writer.  The theorems are
    for every next handler that uses its writer through the methods. *)

From stdpp Require Import base gmap strings list.
From Stdlib Require Import ZArith Lia.
From S2P Require Import Prelude Http Gzip.

Local Open Scope Z_scope.
Local Open Scope go_scope.

Definition encodingGzip : string := "gzip".
Definition headerAcceptEncoding : string := "Accept-Encoding".
Definition headerContentEncoding : string := "Content-Encoding".
Definition headerContentLength : string := "Content-Length".
Definition headerVary : string := "Vary".
Definition headerSecWebSocketKey : string := "Sec-WebSocket-Key".

(** [strings.Contains] *)
Definition string_contains (s sub : string) : bool :=
  match String.index 0 sub s with Some _ => true | None => false end.

Section gzip.
Context `{GZ : GzipLib}.

(** The writer of [compress/gzip] keeps the first error of its output. *)
Record GzipResponseWriter (W : Type) : Type := mkGzipWriter {
  gw_inner : W;
  gw_gz : gz_state;
  gw_err : option write_error;
}.
Arguments mkGzipWriter {W}. Arguments gw_inner {W}. Arguments gw_gz {W}. Arguments gw_err {W}.

(** Chunks written to the output, until an error. *)
Fixpoint write_chunks {W} `{ResponseWriter W} (cs : list string) (w : W) : result Empty_set (W * option write_error) :=
  match cs with
  | [] => Ok (w, None)
  | c :: cs =>
      let* x := w_Write c w in
      match x.2.2 with
      | Some e => Ok (x.1, Some e)
      | None => write_chunks cs x.1
      end
  end.

Definition gzip_Write {W} `{ResponseWriter W} (b : string) (w : GzipResponseWriter W)
    : result Empty_set (GzipResponseWriter W * (Z * option write_error)) :=
  match gw_err w with
  | Some e => Ok (w, (0, Some e))
  | None =>
      let g := gz_do (GWrite b) (gw_gz w) in
      let* x := write_chunks g.2 (gw_inner w) in
      Ok (mkGzipWriter x.1 g.1 x.2, match x.2 with Some e => (0, Some e) | None => (Z.of_nat (String.length b), None) end)
  end.

Definition gzip_WriteHeader {W} `{ResponseWriter W} (s : Z) (w : GzipResponseWriter W) : result Empty_set (GzipResponseWriter W) :=
  let* x := w_WriteHeader s (gw_inner w) in Ok (mkGzipWriter x (gw_gz w) (gw_err w)).

Definition gzip_Header {W} `{ResponseWriter W} (w : GzipResponseWriter W) : Header := w_Header (gw_inner w).

#[export] Instance gzip_writer {W} (RW : ResponseWriter W) : ResponseWriter (GzipResponseWriter W) := {|
  w_Header := gzip_Header;
  w_SetHeaders h w := mkGzipWriter (w_SetHeaders h (gw_inner w)) (gw_gz w) (gw_err w);
  w_WriteHeader := gzip_WriteHeader;
  w_Write := gzip_Write;
|}.

(** [gz.Close]: nothing more after an error. *)
Definition gzip_Close {W} `{ResponseWriter W} (w : GzipResponseWriter W) : result Empty_set W :=
  match gw_err w with
  | Some _ => Ok (gw_inner w)
  | None => rmap fst (write_chunks (gz_close (gw_gz w)) (gw_inner w))
  end.

(** Whether [ServeHTTP] compresses. *)
Definition compresses (r : request) (hd : Header) : bool :=
  string_contains (Header_Get headerAcceptEncoding (rq_header r)) encodingGzip &&
  (String.length (Header_Get headerSecWebSocketKey (rq_header r)) =? 0)%nat &&
  negb (Header_Get headerContentEncoding hd =? encodingGzip)%string.

Definition gzip_headers (hd : Header) : Header :=
  Header_Set headerVary headerAcceptEncoding (Header_Set headerContentEncoding encodingGzip hd).

(** [GzipHandler.ServeHTTP]; [pool.Get] makes a writer of the level, or panics if
    the level is not valid, and [Reset] starts it afresh. *)
Definition GzipHandler_ServeHTTP (level : Z) (next : Handler) : Handler := fun W RW r w c =>
  if negb (compresses r (w_Header w)) then next W RW r w c
  else match gz_new level with
       | None => (w, c, false)
       | Some g =>
           let w := w_SetHeaders (gzip_headers (w_Header w)) w in
           match next (GzipResponseWriter W) (gzip_writer RW) r (mkGzipWriter w g None) c with
           | (gw, c, false) => (gw_inner gw, c, false)
           | (gw, c, true) =>
               let w := w_SetHeaders (Header_Del headerContentLength (w_Header (gw_inner gw))) (gw_inner gw) in
               match gzip_Close (mkGzipWriter w (gw_gz gw) (gw_err gw)) with
               | Ok w => (w, c, true)
               | _ => (w, c, false)
               end
           end
       end.

Definition NewGzipMiddleware (level : Z) (next : Handler) : Handler := GzipHandler_ServeHTTP level next.

(** ** The middleware stacks *)

Lemma write_chunks_sim {W1 W2} (RW1 : ResponseWriter W1) (RW2 : ResponseWriter W2) R cs w1 w2 :
  writer_sim RW1 RW2 R -> R w1 w2 ->
  match write_chunks cs w1, write_chunks cs w2 with
  | Ok (a, o), Ok (b, o') => R a b /\ o = o'
  | Panic, Panic => True
  | _, _ => False
  end.
Proof.
  intros Hs. revert w1 w2. induction cs as [|c cs IH]; intros w1 w2 HR; [done|]. cbn [write_chunks].
  pose proof (sim_Write _ _ _ Hs c w1 w2 HR) as H.
  destruct (w_Write c w1) as [[a o]|[]|], (w_Write c w2) as [[b o']|[]|]; try done.
  destruct H as [H <-]. cbn [rbind fst snd]. destruct (o.2); [done|]. by apply IH.
Qed.

Definition gzip_rel {W1 W2} (R : W1 -> W2 -> Prop) (a : GzipResponseWriter W1) (b : GzipResponseWriter W2) : Prop :=
  R (gw_inner a) (gw_inner b) /\ gw_gz a = gw_gz b /\ gw_err a = gw_err b.

Lemma gzip_sim {W1 W2} (RW1 : ResponseWriter W1) (RW2 : ResponseWriter W2) R :
  writer_sim RW1 RW2 R -> writer_sim (gzip_writer RW1) (gzip_writer RW2) (gzip_rel R).
Proof.
  intros Hs. split; simpl.
  - intros a b (H & _). by apply Hs.
  - intros h a b (H & Hg & He). split_and!; simpl; [by apply Hs|done|done].
  - intros s a b (H & Hg & He). unfold gzip_WriteHeader. pose proof (sim_WriteHeader _ _ _ Hs s _ _ H) as H'.
    destruct (w_WriteHeader s (gw_inner a)) as [x|[]|], (w_WriteHeader s (gw_inner b)) as [y|[]|]; done.
  - intros x a b (H & Hg & He). unfold gzip_Write. rewrite Hg, He. destruct (gw_err b) eqn:Eb; [split; [|done]; unfold gzip_rel; split_and!; congruence|].
    pose proof (write_chunks_sim _ _ _ (gz_do (GWrite x) (gw_gz b)).2 _ _ Hs H) as H'.
    destruct (write_chunks _ (gw_inner a)) as [[a' o]|[]|], (write_chunks _ (gw_inner b)) as [[b' o']|[]|]; try done.
    destruct H' as [H' <-]. split; [|done]. by split_and!.
Qed.

(** The middleware only uses the writer it is given through its methods. *)
#[export] Instance GzipHandler_parametric level next :
  Parametric next -> Parametric (GzipHandler_ServeHTTP level next).
Proof.
  intros Hn W1 W2 RW1 RW2 R r w1 w2 c Hs HR. unfold GzipHandler_ServeHTTP.
  rewrite (sim_Header _ _ _ Hs w1 w2) by done. destruct (negb _); [by apply (parametric _ _ RW1 RW2)|].
  destruct (gz_new level) as [g|]; [|done].
  set (hd := gzip_headers (w_Header w2)).
  destruct (parametric _ _ _ _ _ r (mkGzipWriter (w_SetHeaders hd w1) g None) (mkGzipWriter (w_SetHeaders hd w2) g None) c
    (gzip_sim _ _ _ Hs)) as ((H1 & H2 & H3) & H4 & H5); [split_and!; [by apply Hs|done|done]|].
  destruct (next _ _ _ _ _) as [[gw1 c1] ok1], (next _ (gzip_writer RW2) _ _ _) as [[gw2 c2] ok2].
  simpl in H1, H2, H3, H4, H5. subst. destruct ok2; [|done].
  rewrite (sim_Header _ _ _ Hs (gw_inner gw1) (gw_inner gw2)) by done.
  set (hd' := Header_Del _ _). unfold gzip_Close. cbn [gw_err gw_inner gw_gz]. rewrite H2, H3.
  pose proof (sim_SetHeaders _ _ _ Hs hd' _ _ H1) as H.
  destruct (gw_err gw2); [done|].
  pose proof (write_chunks_sim _ _ _ (gz_close (gw_gz gw2)) _ _ Hs H) as H'.
  destruct (write_chunks _ (w_SetHeaders hd' (gw_inner gw1))) as [[a o]|[]|],
    (write_chunks _ (w_SetHeaders hd' (gw_inner gw2))) as [[b o']|[]|]; try done.
  by destruct H' as [H' _].
Qed.

(** ** The body *)

(** A writer that records the bytes its [Write] accepts. *)
Record recorder (W : Type) : Type := mkRecorder { rec_inner : W; rec_bytes : string }.
Arguments mkRecorder {W}. Arguments rec_inner {W}. Arguments rec_bytes {W}.

#[export] Instance recorder_writer {W} (RW : ResponseWriter W) : ResponseWriter (recorder W) := {|
  w_Header w := w_Header (rec_inner w);
  w_SetHeaders h w := mkRecorder (w_SetHeaders h (rec_inner w)) (rec_bytes w);
  w_WriteHeader s w := rmap (fun x => mkRecorder x (rec_bytes w)) (w_WriteHeader s (rec_inner w));
  w_Write b w := rmap (fun x => (mkRecorder x.1 (rec_bytes w +:+ match x.2.2 with None => b | Some _ => "" end), x.2))
                   (w_Write b (rec_inner w));
|}.

(** A response whose status has a body, without a declared length. *)
Definition full_body (r : response) : Prop :=
  match rs_sent r with
  | Some (s, _) => bodyAllowedForStatus s = true /\ rs_contentLength r = None
  | None => True
  end.

Lemma response_Write_full x r r' o :
  response_Write x r = Ok (r', o) -> full_body r' -> accepts_body r /\ full_body r.
Proof.
  unfold response_Write, full_body, accepts_body, response_WriteHeader.
  destruct (rs_sent r) as [[s h]|] eqn:E; cbn [rbind].
  - intros H. repeat case_match; simplify_eq/=; tauto.
  - cbn [Z.ltb Z.compare Pos.compare Pos.compare_cont orb]. intros H Hf. split; [|done].
    cbn [rbind] in H. repeat case_match; simplify_eq/=; tauto.
Qed.

Lemma write_chunks_full cs r r' o :
  write_chunks cs r = Ok (r', o) -> full_body r' ->
  full_body r /\ o = None /\ rs_body r' = rs_body r +:+ sconcat cs.
Proof.
  revert r. induction cs as [|c cs IH]; intros r H Hf; cbn [write_chunks] in H.
  { simplify_eq. by rewrite string_app_nil_r. }
  apply rbind_Ok_inv in H as ([r1 o1] & Hw & H). cbn [fst snd] in H. cbn [w_Write response_writer] in Hw.
  assert (Hf1 : full_body r1).
  { destruct (o1.2); [by simplify_eq|]. by eapply IH in H as [? _]. }
  destruct (response_Write_full _ _ _ _ Hw Hf1) as [Ha Hr].
  destruct (response_Write_accepted c r Ha) as (r2 & Hw' & Hb & _).
  rewrite Hw in Hw'. injection Hw' as -> ->. cbn [snd] in H.
  destruct (IH _ H Hf) as (_ & -> & ->). rewrite Hb. split_and!; [done..|]. cbn [sconcat]. by rewrite string_app_assoc.
Qed.

Lemma response_WriteHeader_full s r r' :
  response_WriteHeader s r = Ok r' -> full_body r' -> full_body r /\ rs_body r' = rs_body r.
Proof.
  unfold response_WriteHeader, full_body. destruct (rs_sent r) as [[s0 h0]|] eqn:E; intros H.
  - by simplify_eq/=.
  - by destruct (_ || _); simplify_eq/=.
Qed.

(** The compressed bytes are those of a stream of everything the writer accepted. *)
Definition gzip_tracks (g : gz_state) (gw : GzipResponseWriter response) (rc : recorder (GzipResponseWriter response)) : Prop :=
  rec_inner rc = gw /\
  (full_body (gw_inner gw) -> gw_err gw = None /\ exists ops,
     gw_gz gw = (gz_run ops g).1 /\ rs_body (gw_inner gw) = (gz_run ops g).2 /\ rec_bytes rc = ops_data ops).

Lemma gzip_tracks_sim g :
  writer_sim (gzip_writer response_writer) (recorder_writer (gzip_writer response_writer)) (gzip_tracks g).
Proof.
  split; simpl.
  - by intros gw rc [-> _].
  - intros h gw rc [-> H]. split; [done|]. exact H.
  - intros s gw rc [-> H]. unfold gzip_WriteHeader. cbn [w_WriteHeader response_writer].
    destruct (response_WriteHeader s (gw_inner gw)) as [r'|[]|] eqn:E; [|done]. cbn. split; [done|].
    cbn [gw_inner gw_err gw_gz]. intros Hf. destruct (response_WriteHeader_full _ _ _ E Hf) as [Hf' ->]. by apply H.
  - intros b gw rc [-> H]. unfold gzip_Write. destruct (gw_err gw) as [e|] eqn:Ee; cbn.
    + split; [|done]. split; [done|]. intros Hf. by destruct (H Hf).
    + destruct (write_chunks _ (gw_inner gw)) as [[r' o]|[]|] eqn:E; [|done]. cbn.
      split; [|done]. split; [done|]. cbn [gw_inner gw_err gw_gz]. intros Hf.
      destruct (write_chunks_full _ _ _ _ E Hf) as (Hf' & -> & Hb). split; [done|].
      destruct (H Hf') as (_ & ops & Hg & Hr & Hd). exists (ops ++ [GWrite b]). rewrite gz_run_snoc, ops_data_snoc, <- Hg.
      cbn. by rewrite Hb, Hr, Hd.
Qed.

(** The response of the middleware is a stream of what the next handler wrote. *)
Lemma gzip_stream `{!GzipLaws GZ} level g next rq r c r' c' :
  Parametric next -> gz_new level = Some g -> compresses rq (rs_header r) = true -> rs_body r = "" ->
  GzipHandler_ServeHTTP level next response response_writer rq r c = (r', c', true) -> full_body r' ->
  gunzip (rs_body r') =
    Stream (rec_bytes (next (recorder (GzipResponseWriter response)) (recorder_writer (gzip_writer response_writer)) rq
      (mkRecorder (mkGzipWriter (w_SetHeaders (gzip_headers (rs_header r)) r) g None) "") c).1.1) None.
Proof.
  intros Hp Hg Hc Hb. unfold GzipHandler_ServeHTTP. cbn [w_Header response_writer]. rewrite Hc, Hg. cbn [negb].
  set (w1 := w_SetHeaders (gzip_headers (rs_header r)) r). set (written := next (recorder _) _ _ _ _).
  destruct (parametric _ _ _ _ _ rq (mkGzipWriter w1 g None) (mkRecorder (mkGzipWriter w1 g None) "") c (gzip_tracks_sim g))
    as ((H1 & H2) & H3 & H4).
  { split; [done|]. intros _. split; [done|]. exists []. by rewrite <- Hb. }
  fold written in H1, H2, H3, H4. clearbody written.
  destruct (next (GzipResponseWriter response) _ _ _ _) as [[gw c1] ok]. simpl in H1, H2, H3, H4.
  destruct ok; [|done]. unfold gzip_Close. cbn [gw_err gw_inner gw_gz].
  set (w2 := w_SetHeaders _ (gw_inner gw)).
  assert (Hw2 : full_body w2 <-> full_body (gw_inner gw)) by done.
  destruct (gw_err gw) as [e|] eqn:Ee.
  { intros [= <- <-] Hf. by destruct (H2 (proj1 Hw2 Hf)). }
  destruct (write_chunks (gz_close (gw_gz gw)) w2) as [[r1 o1]|[]|] eqn:E; [|done]. cbn [rmap rbind fst].
  intros [= <- <-] Hf. destruct (write_chunks_full _ _ _ _ E Hf) as (Hf' & _ & Hb').
  destruct (H2 (proj1 Hw2 Hf')) as (_ & ops & Hg' & Hr & Hd). rewrite Hb', Hd.
  replace (rs_body w2) with (gz_run ops g).2 by done. rewrite Hg'. by eapply gz_roundtrip.
Qed.

(** C13. What the client gets through the gzip middleware is a gzip stream of
    exactly the bytes the handler wrote: for every handler that does not panic and
    whose response has a status with a body and no declared length, and every
    request other than HEAD that is to be compressed, the body decompresses to
    them. *)
Theorem gzip_body_roundtrip `{!GzipLaws GZ} level g next rq r c :
  Parametric next -> gz_new level = Some g -> compresses rq (rs_header r) = true ->
  rs_sent r = None -> rs_body r = "" ->
  let o := GzipHandler_ServeHTTP level next response response_writer rq r c in
  let written := next (recorder (GzipResponseWriter response)) (recorder_writer (gzip_writer response_writer)) rq
    (mkRecorder (mkGzipWriter (w_SetHeaders (gzip_headers (rs_header r)) r) g None) "") c in
  o.2 = true -> full_body o.1.1 -> rq_method rq <> "HEAD" -> gunzip (sent_body rq o.1.1) = Stream (rec_bytes written.1.1) None.
Proof.
  intros Hp Hg Hc _ Hb o written Ho Hf Hm. rewrite sent_body_get by done. eapply gzip_stream; [done..| |exact Hf].
  fold o. by rewrite <- Ho, <- !surjective_pairing.
Qed.
End gzip.

(** ** A declared length *)

(** A response that is out with a declared length: its headers stay, and its body
    does not outgrow the length. *)
Record limited (x : Z * Header) (n : Z) (r : response) : Prop := {
  li_sent : rs_sent r = Some x;
  li_length : rs_contentLength r = Some n;
  li_written : Z.of_nat (String.length (rs_body r)) <= rs_written r;
  li_body : Z.of_nat (String.length (rs_body r)) <= n;
}.

Lemma limited_Write x n b r r' o : limited x n r -> response_Write b r = Ok (r', o) -> limited x n r'.
Proof.
  intros [H1 H2 H3 H4]. unfold response_Write. rewrite H1. cbn [rbind]. intros H.
  destruct (_ =? 0); [by simplify_eq|]. destruct (negb _); [by simplify_eq|]. rewrite H2 in H.
  destruct (Z.ltb_spec n (rs_written r + Z.of_nat (String.length b))); simplify_eq; split; simpl; try done;
    rewrite string_length_app; simpl; lia.
Qed.

Lemma limited_chunks `{GZ : GzipLib} x n cs r r' o : limited x n r -> write_chunks cs r = Ok (r', o) -> limited x n r'.
Proof.
  revert r. induction cs as [|c cs IH]; intros r Hl H; cbn [write_chunks] in H; [by simplify_eq|].
  apply rbind_Ok_inv in H as ([r1 o1] & Hw & H). cbn [w_Write response_writer] in Hw.
  pose proof (limited_Write _ _ _ _ _ _ Hl Hw) as H1. cbn [fst snd] in H. destruct (o1.2); [by simplify_eq|]. by eapply IH.
Qed.

Lemma write_chunks_total `{GZ : GzipLib} cs (r : response) : exists r' o, write_chunks cs r = Ok (r', o).
Proof.
  revert r. induction cs as [|c cs IH]; intros r; cbn [write_chunks]; [by eexists _, _|].
  destruct (response_Write_spec c r) as (r1 & k & e & E & _). cbn [w_Write response_writer]. rewrite E. cbn [rbind fst snd].
  destruct e; [by eexists _, _|apply IH].
Qed.

Lemma limited_close `{GZ : GzipLib} x n r h gz err :
  limited x n r -> exists r', gzip_Close (mkGzipWriter response (w_SetHeaders h r) gz err) = Ok r' /\ limited x n r'.
Proof.
  intros [L1 L2 L3 L4]. assert (L : limited x n (w_SetHeaders h r)) by by split.
  unfold gzip_Close. cbn [gw_err gw_inner gw_gz]. destruct err; [by eexists|].
  destruct (write_chunks_total (gz_close gz) (w_SetHeaders h r)) as (r' & o & E). rewrite E. exists r'. split; [done|].
  by eapply limited_chunks.
Qed.

Lemma limited_first n b r r' o :
  rs_sent r = None -> rs_body r = "" -> rs_written r = 0 -> declared_length (rs_header r) = Some n -> 0 <= n ->
  response_Write b r = Ok (r', o) -> limited (200, rs_header r) n r'.
Proof.
  intros Hs Hb Hw Hd Hn H. unfold response_Write, response_WriteHeader in H. rewrite Hs, Hd in H.
  cbn [Z.ltb Z.compare Pos.compare Pos.compare_cont orb rbind rs_contentLength rs_written rs_body rs_sent rs_header] in H.
  destruct (_ =? 0); [simplify_eq; split; simpl; rewrite ?Hb, ?Hw; simpl; done || lia|].
  cbn in H. rewrite Hw, Hb in H.
  destruct (Z.ltb_spec n (0 + Z.of_nat (String.length b))); simplify_eq; split; simpl; try done; rewrite ?Hw; simpl; try lia.
Qed.

(** The handler of the standard library's file servers: it declares the length of
    what it writes. *)
Definition declares (v b : string) : hprog := HSet headerContentLength v (HWrite b (fun _ => HRet)).

(** The middleware drops [Content-Length] too late: a handler that declares a
    length and writes its body has sent the header by the time the middleware
    deletes it, so the client gets the length of the uncompressed body, and the
    server cuts the gzip stream off at that length. *)
Theorem gzip_keeps_content_length {GZ : GzipLib} `{!GzipLaws GZ} level g rq r c v n b :
  gz_new level = Some g -> compresses rq (rs_header r) = true -> rs_sent r = None -> rs_body r = "" -> rs_written r = 0 ->
  ParseInt v = Some n -> 0 <= n ->
  let o := GzipHandler_ServeHTTP level (HandlerFunc (fun _ => declares v b)) response response_writer rq r c in
  exists hd, rs_sent o.1.1 = Some (200, hd) /\ Header_Get headerContentLength hd = v /\
    Z.of_nat (String.length (rs_body o.1.1)) <= n.
Proof.
  intros Hg Hc Hs Hb Hw Hv Hn o. unfold o, GzipHandler_ServeHTTP. cbn [w_Header response_writer]. rewrite Hc, Hg. cbn [negb].
  unfold HandlerFunc, declares. cbn [run_handler w_SetHeaders w_Header w_Write gzip_writer response_writer gw_inner gw_gz gw_err].
  set (r1 := mkResponse _ _ _ _ _ _). unfold gzip_Write. cbn [gw_err gw_gz gw_inner].
  pose proof (gz_header _ _ b Hg) as Hne.
  destruct (gz_do (GWrite b) g) as [g' [|x cs]]; [done|]. cbn [snd fst write_chunks].
  destruct (response_Write_spec x r1) as (r2 & k & e & E & _). cbn [w_Write response_writer]. rewrite E. cbn [rbind fst snd].
  assert (Hcl : Header_Get headerContentLength (rs_header r1) = v) by (simpl; apply Header_Get_Set).
  assert (Hl : limited (200, rs_header r1) n r2).
  { eapply limited_first; [done..| |done|exact E]. unfold declared_length. fold headerContentLength. rewrite Hcl, Hv. simpl.
    by destruct (Z.leb_spec 0 n); [|lia]. }
  assert (Hend : exists r3 err,
    (let* x0 := match e with Some e0 => Ok (r2, Some e0) | None => write_chunks cs r2 end in
     Ok (mkGzipWriter response x0.1 g' x0.2,
         match x0.2 with Some e0 => (0, Some e0) | None => (Z.of_nat (String.length b), None) end)) =
    Ok (mkGzipWriter response r3 g' err, match err with Some e0 => (0, Some e0) | None => (Z.of_nat (String.length b), None) end) /\
    limited (200, rs_header r1) n r3).
  { destruct e as [e|]; [by exists r2, (Some e)|].
    destruct (write_chunks_total cs r2) as (r3 & o3 & E3). rewrite E3. exists r3, o3. split; [done|]. by eapply limited_chunks. }
  destruct Hend as (r3 & err & -> & L3). cbn [run_handler gw_inner gw_gz gw_err].
  destruct (limited_close _ _ r3 (Header_Del headerContentLength (rs_header r3)) g' err L3) as (r4 & E4 & [L1 L2 L4 L5]).
  cbn [w_Header w_SetHeaders response_writer] in E4 |- *. rewrite E4. exists (rs_header r1). done.
Qed.

(** ** Examples *)

Definition demo_gzip_request : request :=
  mkRequest "GET" "HTTP/1.1" "/" "/" (Header_Set "accept-encoding" "deflate, gzip" ∅) "".

Lemma gzip_body_roundtrip_witness :
  let o := GzipHandler_ServeHTTP 5 (HandlerFunc (fun _ => HWrite "hel" (fun _ => HWrite "lo" (fun _ => HRet)))) response
             response_writer demo_gzip_request new_response None in
  gunzip (sent_body demo_gzip_request o.1.1) = Stream "hello" None.
Proof.
  refine (gzip_body_roundtrip 5 false (HandlerFunc (fun _ => HWrite "hel" (fun _ => HWrite "lo" (fun _ => HRet))))
    demo_gzip_request new_response None _ eq_refl _ eq_refl eq_refl _ _ _).
  - vm_compute. reflexivity.
  - vm_compute. reflexivity.
  - vm_compute. split; reflexivity.
  - discriminate.
Defined.

(** Five bytes declared and written: the client cannot read the gzip stream. *)
Lemma gzip_keeps_content_length_witness :
  let o := GzipHandler_ServeHTTP 5 (HandlerFunc (fun _ => declares "5" "hello")) response
             response_writer demo_gzip_request new_response None in
  (exists hd, rs_sent o.1.1 = Some (200, hd) /\ Header_Get headerContentLength hd = "5" /\
     Z.of_nat (String.length (rs_body o.1.1)) <= 5) /\
  gunzip (rs_body o.1.1) = Stream "" (Some "unexpected EOF").
Proof.
  split; [|vm_compute; reflexivity].
  apply (gzip_keeps_content_length (GZ := toy_gzip) 5 false demo_gzip_request new_response None "5" 5 "hello"); try (vm_compute; reflexivity).
  vm_compute. discriminate.
Defined.
