(* ===== verification/RipStack.v ===== *)
(** * Package [rip]: the middlewares stacked

    How a server of the library serves a request: the log middleware around the
    gzip middleware around the application's handler.  The client gets the
    compressed body, the log middleware measures it, and the statistics of
    [snitch] are updated with the status that went out. *)

From stdpp Require Import base gmap strings list.
From Stdlib Require Import ZArith Lia.
From S2P Require Import Prelude Float64 Snitch SnitchState Logh Http Rip Gzip RipGzip.

Local Open Scope Z_scope.
Local Open Scope go_scope.

(** The two middlewares around a handler, without the CORS handler. *)
Definition stack `{GZ : GzipLib} (service system : string) (level : Z) (app : Handler) : LogHandler :=
  NewLogMiddleware (fun h => h) service system (NewGzipMiddleware level app) false.

Section stack.
Context `{ZL : Zerolog} `{GZ : GzipLib} `{!GzipLaws GZ}.
Context (cron_Parse : string -> option string) (error_text : snitch_error -> string) (env : rip_env).

(** A request that the log middleware finishes: its response is the next
    handler's, the log writer has its size and status, and both statistics are
    updated with them. *)
Lemma log_finishes h rid d rq ctx w st :
  Parametric (next h) -> cron_Parse "@every 1m" = None -> rs_sent w = None ->
  let w1 := w_SetHeaders (with_request_ids h rid (rs_header w)) w in
  let x := LogHandler_ServeHTTP cron_Parse error_text response_writer env h rid d rq ctx w st in
  x.2 = true ->
  exists lw c st', served h rid rq w = Some (lw, c) /\ lw_inner lw = x.1.1 /\
    next h response response_writer rq w1 (Some ∅) = (x.1.1, c, true) /\
    Increment cron_Parse st "request.count" (request_tags rq (lw_status lw) c) "@every 1m" false true = Ok st' /\
    ValueAdd cron_Parse st' "request.duration" (request_tags rq (lw_status lw) c) "avg" "@every 1m" false false
      (f64_div (f64_of_Z d) (f64_of_Z 1000000)) = Ok x.1.2.
Proof.
  intros Hp Hc Hs w1 x. unfold x, LogHandler_ServeHTTP, served. cbn [w_Header response_writer].
  fold w1. pose proof (parametric _ _ _ _ _ rq (mkLogWriter w1 0 0) w1 (Some ∅) (log_sim response_writer) eq_refl) as (H1 & H2 & H3).
  destruct (next h response _ _ _ _) as [[r' c'] ok'].
  destruct (next h (LogResponseWriter response) _ _ _ _) as [[lw c] ok]. simpl in H1, H2, H3. subst.
  destruct ok'; [|done].
  destruct (increment_ok cron_Parse error_text env "request.count" (request_tags rq (lw_status lw) c') st Hc) as (st1 & Hi & ->).
  destruct (valueAdd_ok cron_Parse env "request.duration" (request_tags rq (lw_status lw) c')
    (f64_div (f64_of_Z d) (f64_of_Z 1000000)) st1 Hc) as (st2 & Hv & ->).
  intros _. by exists lw, c', st1.
Qed.

(** C11. A request other than HEAD through the log middleware and the gzip
    middleware, for every handler that does not panic and whose response has a
    status with a body and no declared length: the client's body decompresses to
    exactly the bytes the handler wrote; the request counter and the mean duration
    are updated under the tags with the status the log writer holds, which is the
    one that went out if no [WriteHeader] came too late; and the size the log
    writer holds, which goes to no statistic, is that of the compressed body. *)
Theorem stack_serves service system rid d level app g rq ctx w st :
  let h := stack service system level app in
  Parametric app -> cron_Parse "@every 1m" = None -> gz_new level = Some g ->
  compresses rq (with_request_ids h rid (rs_header w)) = true -> rs_sent w = None -> rs_body w = "" ->
  let w1 := w_SetHeaders (with_request_ids h rid (rs_header w)) w in
  let written := app (recorder (GzipResponseWriter response)) (recorder_writer (gzip_writer response_writer)) rq
    (mkRecorder _ (mkGzipWriter _ (w_SetHeaders (gzip_headers (rs_header w1)) w1) g None) "") (Some ∅) in
  let x := LogHandler_ServeHTTP cron_Parse error_text response_writer env h rid d rq ctx w st in
  x.2 = true -> full_body x.1.1 -> rq_method rq <> "HEAD" ->
  gunzip (sent_body rq x.1.1) = Stream (rec_bytes _ written.1.1) None /\
  exists lw c st', served h rid rq w = Some (lw, c) /\
    lw_size lw = Z.of_nat (String.length (rs_body x.1.1)) /\
    (rs_superfluous x.1.1 = rs_superfluous w -> lw_status lw = default 0 (rs_status x.1.1)) /\
    let tags := request_tags rq (lw_status lw) c in
    Increment cron_Parse st "request.count" tags "@every 1m" false true = Ok st' /\
    ValueAdd cron_Parse st' "request.duration" tags "avg" "@every 1m" false false
      (f64_div (f64_of_Z d) (f64_of_Z 1000000)) = Ok x.1.2.
Proof.
  intros h Ha Hc Hg Hz Hs Hb w1 written x Hx Hf Hm.
  assert (Hp : Parametric (next h)) by by apply GzipHandler_parametric.
  destruct (log_finishes h rid d rq ctx w st Hp Hc Hs Hx) as (lw & c & st' & Hv & Hl & Hr & Hi & Ht).
  fold x w1 in Hl, Hr, Ht. split.
  - rewrite sent_body_get by done. unfold written. by eapply gzip_stream; [..|exact Hr|exact Hf].
  - destruct (logged_status h rid rq w lw c Hp Hs Hv) as (Hsz & Hst & _). rewrite Hl in Hsz, Hst. rewrite Hb in Hsz.
    exists lw, c, st'. split_and!; [done| |done|done]. simpl in Hsz. lia.
Qed.
End stack.

(** ** Examples *)

Definition demo_app : Handler :=
  HandlerFunc (fun _ => HWriteHeader 201 (HWrite "hel" (fun _ => HWrite "lo" (fun _ => HRet)))).

Definition demo_stack : LogHandler := stack (GZ := toy_gzip) "svc" "sys" 5 demo_app.

Lemma stack_serves_witness :
  let x := LogHandler_ServeHTTP (fun _ => None) (fun _ => "") response_writer demo_env demo_stack "id" 5
             demo_gzip_request None new_response demo_new in
  gunzip (sent_body demo_gzip_request x.1.1) = Stream "hello" None /\
  exists lw c, served demo_stack "id" demo_gzip_request new_response = Some (lw, c) /\
    lw_size lw = Z.of_nat (String.length (rs_body x.1.1)) /\ lw_status lw = 201.
Proof.
  destruct (stack_serves (GZ := toy_gzip) (fun _ => None) (fun _ => "") demo_env "svc" "sys" "id" 5 5 demo_app false
    demo_gzip_request None new_response demo_new) as (H1 & lw & c & st' & H2 & H3 & H4 & _);
    try (vm_compute; reflexivity); [apply HandlerFunc_parametric|vm_compute; split; reflexivity|discriminate|].
  split; [exact H1|]. exists lw, c. split; [exact H2|]. split; [exact H3|]. rewrite H4; vm_compute; reflexivity.
Defined.
