(* ===== verification/RipConc.v ===== *)
(** * Package [rip]: requests served at the same time

    Each request runs in a goroutine of its own: once its handler has returned it
    updates the statistics with the calls [request.count] and [request.duration],
    one after the other; the goroutine that [ServeHTTP] starts counts the
    connection.  The calls are the threads of [SnitchConc], loads, stores and
    compare-and-swaps that interleave in any order. *)

From stdpp Require Import base gmap strings list.
From Stdlib Require Import ZArith Lia Ascii.
From S2P Require Import Prelude Float64 GoValue Snitch SnitchState SnitchConc Logh Http Rip.

Local Open Scope Z_scope.

(** ** Goroutines that make calls one after the other *)

(** The calls left, the first of them at [g_pc]. *)
Record goroutine : Type := mkGo { g_calls : list call; g_pc : upc }.

Definition start_go (cs : list call) : goroutine := mkGo cs GLoad.

Definition idle (g : goroutine) : bool := match g_calls g with [] => true | _ => false end.

Section steps.
Context (cron_Parse : string -> option string).

(** A step of the call, or on to the next one; an error is logged. *)
Definition go_step (g : goroutine) (st : Stats) : Stats * goroutine :=
  match g_calls g with
  | [] => (st, g)
  | c :: cs =>
      match g_pc g with
      | UDone | UErr _ => (st, mkGo cs GLoad)
      | pc => let '(st', pc') := ustep cron_Parse c pc st in (st', mkGo (c :: cs) pc')
      end
  end.

Definition go_move (i : nat) (x : Stats * list goroutine) : Stats * list goroutine :=
  match x.2 !! i with
  | Some g => let '(st, g') := go_step g x.1 in (st, <[i := g']> x.2)
  | None => x
  end.

Definition go_run (s : list nat) (x : Stats * list goroutine) : Stats * list goroutine := foldl (fun x i => go_move i x) x s.
End steps.

(** ** The calls of a request *)

Definition count_call (tags : gmap string string) : call := mkCall "request.count" tags "sum" "@every 1m" false true (f64_of_Z 1).
Definition duration_call (tags : gmap string string) (d : Z) : call :=
  mkCall "request.duration" tags "avg" "@every 1m" false false (f64_div (f64_of_Z d) (f64_of_Z 1000000)).
Definition connection_call (tags : gmap string string) : call :=
  mkCall "network.connection" tags "sum" "@every 10s" false true (f64_of_Z 1).

Definition event_calls (h : LogHandler) (ev : mw_event) : list call :=
  match ev with
  | Serve rid d r ctx w =>
      match served h rid r w with
      | Some (lw, c) => let tags := request_tags r (lw_status lw) c in [count_call tags; duration_call tags d]
      | None => []
      end
  | Connection => [connection_call (connectionStatsTags h)]
  end.

Definition do_call (cron_Parse : string -> option string) (st : Stats) (c : call) : Stats :=
  match ValueAdd cron_Parse st (c_metric c) (c_tags c) (c_aggregation c) (c_interval c) (c_keep c) (c_nullable c) (c_value c) with
  | Ok st' => st'
  | _ => st
  end.

(** The calls of an event, made without interruption, are the event's step of
    [Rip], with [LogHandler_ServeHTTP] and [incrementHTTPConn]. *)
Lemma event_alone `{Zerolog} cron_Parse error_text env h st ev :
  cron_Parse "@every 1m" = None ->
  mw_step cron_Parse error_text env h st ev = foldl (do_call cron_Parse) st (event_calls h ev).
Proof.
  intros Hmin. destruct ev as [rid d r ctx w|]; simpl.
  - unfold LogHandler_ServeHTTP, served. cbn [w_Header response_writer].
    destruct (next h (LogResponseWriter response) _ _ _ _) as [[lw c] []]; [|done]. cbn [fst snd event_calls foldl].
    set (tags := request_tags r (lw_status lw) c).
    destruct (increment_ok cron_Parse error_text env "request.count" tags st Hmin) as (st1 & Hi & ->).
    destruct (valueAdd_ok cron_Parse env "request.duration" tags (f64_div (f64_of_Z d) (f64_of_Z 1000000)) st1 Hmin)
      as (st2 & Hv & ->). cbn [fst snd]. unfold do_call. cbn [c_metric c_tags c_aggregation c_interval c_keep c_nullable c_value count_call duration_call].
    unfold Increment in Hi. by rewrite Hi, Hv.
  - unfold incrementHTTPConn, do_call, Increment. cbn.
    by destruct (ValueAdd _ _ _ _ _ _ _ _ _).
Qed.

Lemma events_alone `{Zerolog} cron_Parse error_text env h st evs :
  cron_Parse "@every 1m" = None ->
  foldl (mw_step cron_Parse error_text env h) st evs = foldl (do_call cron_Parse) st (concat (event_calls h <$> evs)).
Proof.
  intros Hmin. revert st. induction evs as [|ev evs IH]; intros st; [done|]. cbn [foldl fmap list_fmap concat].
  by rewrite foldl_app, IH, (event_alone _ _ _ _ _ ev).
Qed.

(** The calls under a key of the counter are those that add 1 to a sum. *)
Lemma event_calls_key h ev k c :
  is_count_key k -> c ∈ event_calls h ev -> call_key c = k -> c_value c = f64_of_Z 1.
Proof.
  intros Hk Hin Hc. destruct ev as [rid d r ctx w|]; simpl in Hin.
  - destruct (served h rid r w) as [[lw x]|]; [|by apply elem_of_nil in Hin].
    apply elem_of_cons in Hin as [->|Hin%list_elem_of_singleton]; [done|]. subst c.
    exfalso. eapply (other_key k "request.duration" "r"%char "equest.duration"); [done..|exact Hc].
  - apply list_elem_of_singleton in Hin as ->. done.
Qed.

Lemma count_key_calls h ev k :
  is_count_key k ->
  length (filter (fun c => call_key c = k) (event_calls h ev)) = if decide (count_key h ev = Some k) then 1%nat else 0%nat.
Proof.
  intros Hk. destruct ev as [rid d r ctx w|]; simpl.
  - destruct (served h rid r w) as [[lw x]|]; [|by rewrite decide_False]. cbn [fmap option_fmap option_map fst snd].
    set (tags := request_tags r (lw_status lw) x).
    rewrite !filter_cons, (decide_False (P := call_key (duration_call tags d) = k)), filter_nil;
      [|by eapply (other_key k "request.duration" "r"%char "equest.duration")].
    change (call_key (count_call tags)) with (keyFromMetricID "request.count" (map_to_list tags)).
    destruct (decide (keyFromMetricID "request.count" (map_to_list tags) = k)) as [->|Hne].
    + by rewrite decide_True.
    + rewrite decide_False; [done|]. by intros [= E].
  - rewrite filter_cons, decide_False, filter_nil; [done|].
    by eapply (other_key k "network.connection" "n"%char "etwork.connection").
Qed.

(** ** The counter while the goroutines run *)

(** Whether a call at a program point has still to swap the value, to count, to
    clear the null flag. *)
Definition owes_value (pc : upc) : nat := match pc with ACount _ | ANull _ | UDone => 0 | _ => 1 end.
Definition owes_count (pc : upc) : nat := match pc with ANull _ | UDone => 0 | _ => 1 end.
Definition owes_null (pc : upc) : nat := match pc with UDone => 0 | _ => 1 end.

Section counter.
Context (cron_Parse : string -> option string) (k : string) (l : nat).

Definition keyed (cs : list call) : nat := length (filter (fun c => call_key c = k) cs).

(** What a goroutine owes to the point of the key. *)
Definition owes (f : upc -> nat) (g : goroutine) : nat :=
  match g_calls g with
  | [] => 0
  | c :: cs => (if decide (call_key c = k) then f (g_pc g) else 0) + keyed cs
  end.

Definition owed (f : upc -> nat) (gs : list goroutine) : nat := foldr (fun g n => (owes f g + n)%nat) 0%nat gs.

Lemma owed_insert f gs i g g' :
  gs !! i = Some g -> (owed f (<[i := g']> gs) + owes f g = owed f gs + owes f g')%nat.
Proof.
  unfold owed. revert i. induction gs as [|x gs IH]; intros [|i] Hi; simplify_eq/=; [lia|]. specialize (IH i Hi). lia.
Qed.

(** A call of the key works on the point [l], the others never do. *)
Definition at_point (pc : upc) : option nat :=
  match pc with
  | GAddJob l | UDispatch l | ALoad l | ACas l _ | ACount l | ANull l | MaxGet l | MinNull l | MinGet l | SValue l => Some l
  | _ => None
  end.

Definition on_track (c : call) (pc : upc) : Prop :=
  if decide (call_key c = k) then
    c_value c = f64_of_Z 1 /\
    match pc with
    | GLoad | UDone => True
    | UDispatch l' | ALoad l' | ACas l' _ | ACount l' | ANull l' => l' = l
    | _ => False
    end
  else at_point pc <> Some l.

Definition go_ok (g : goroutine) : Prop :=
  match g_calls g with
  | [] => True
  | c :: cs => on_track c (g_pc g) /\ Forall (fun c => call_key c = k -> c_value c = f64_of_Z 1) cs
  end.

(** [v], [n]: the value and the count at the end. *)
Record counting (v n : Z) (total : nat) (x : Stats * list goroutine) : Prop := {
  ct_key : points x.1 !! k = Some l;
  ct_inj : forall k', points x.1 !! k' = Some l -> k' = k;
  ct_gos : Forall go_ok x.2;
  ct_point : exists p z m, store x.1 !! l = Some p /\ aggregation p = "sum" /\ value p = f64_of_Z z /\ count p = m /\
    0 <= z /\ 0 <= m /\ z + Z.of_nat (owed owes_value x.2) = v /\ m + Z.of_nat (owed owes_count x.2) = n /\
    (valNull p = 0 \/ owed owes_null x.2 = total);
}.

Lemma counting_bound v n total x : counting v n total x -> (l < length (store x.1))%nat.
Proof. intros [_ _ _ (p & _ & _ & Hp & _)]. by eapply lookup_lt_Some. Qed.

(** A call of another key does not touch the point. *)
Lemma ustep_other c pc st st' pc' :
  call_key c <> k -> at_point pc <> Some l -> (l < length (store st))%nat ->
  points st !! k = Some l -> (forall k', points st !! k' = Some l -> k' = k) ->
  ustep cron_Parse c pc st = (st', pc') ->
  at_point pc' <> Some l /\ store st' !! l = store st !! l /\
  points st' !! k = Some l /\ (forall k', points st' !! k' = Some l -> k' = k).
Proof.
  intros Hc Hpc Hl Hk Hinj Hs.
  assert (Hon : forall l' f, l' <> l -> store (on_point st l' f) !! l = store st !! l).
  { intros l' f Hne. simpl. by rewrite list_lookup_alter_ne. }
  destruct pc; simpl in Hpc, Hs; repeat case_match; simplify_eq/=;
    try (split_and!; try done; try (intros [= ->]; done); try (apply Hon; congruence); fail).
  - split_and!; try done. intros [= ->]. by apply Hc, Hinj.
  - split_and!; [intros [= <-]; lia|by rewrite lookup_app_l|by rewrite lookup_insert_ne|].
    intros k' [[_ Hl']|[_ Hl']]%lookup_insert_Some; [lia|by apply Hinj].
Qed.

(** The state of the point after a step of one of its calls is [p']. *)
Ltac settle p' :=
  split_and!; try done; exists p'; split_and!; simpl; try done; try lia;
  try match goal with Hon : forall f, store _ !! _ = Some (f _) |- store _ !! _ = Some _ => by apply Hon end;
  try match goal with Hv : value _ = f64_of_Z _ |- value _ = f64_of_Z _ => rewrite Hv; f_equal; lia end;
  try (by left); try (by right).

(** A call of the key: a step of the compare-and-swap loop. *)
Lemma ustep_same c pc st st' pc' p z m :
  call_key c = k -> on_track c pc -> points st !! k = Some l ->
  store st !! l = Some p -> aggregation p = "sum" -> value p = f64_of_Z z -> count p = m -> 0 <= z -> z + 1 < max_exact ->
  0 <= m -> m + 1 < max_exact ->
  ustep cron_Parse c pc st = (st', pc') ->
  on_track c pc' /\ points st' = points st /\
  exists p', store st' !! l = Some p' /\ aggregation p' = "sum" /\
    value p' = f64_of_Z (z + Z.of_nat (owes_value pc) - Z.of_nat (owes_value pc')) /\
    count p' = m + Z.of_nat (owes_count pc) - Z.of_nat (owes_count pc') /\
    (owes_value pc' <= owes_value pc)%nat /\ (owes_count pc' <= owes_count pc)%nat /\
    ((owes_null pc' = owes_null pc /\ valNull p' = valNull p) \/ valNull p' = 0).
Proof.
  unfold on_track. intros Hc Hpc Hk Hp Ha Hv Hm Hz Hz1 Hm0 Hm1 Hs. rewrite decide_True in Hpc |- * by done.
  destruct Hpc as [Hval Hpc].
  assert (Hon : forall f, store (on_point st l f) !! l = Some (f p)) by (intros f; simpl; by rewrite list_lookup_alter_eq, Hp).
  destruct pc as [| |x|x|x|x ob|x|x|x|x|x|x| |e]; simpl in Hpc; try done; try subst x; simpl in Hs.
  - rewrite Hc, Hk in Hs. simplify_eq. settle p.
  - rewrite Hp, Ha in Hs. simplify_eq/=. settle p.
  - rewrite Hp in Hs. simplify_eq/=. settle p.
  - rewrite Hp in Hs. destruct (Z.eqb_spec (Float64bits (value p)) (Float64bits ob)) as [E|E]; simplify_eq/=; [|settle p].
    settle (store_value (f64_add ob (c_value c)) p).
    assert (ob = value p) as -> by (destruct ob as [b], (value p) as [b']; simpl in E; congruence).
    rewrite Hv, Hval, f64_add_of_Z by lia. f_equal. lia.
  - simplify_eq/=. settle (add_count p). rewrite int64_of_Z_id; [lia|]. unfold int64_range, two63. unfold max_exact in Hm1. lia.
  - simplify_eq/=. settle (store_null 0 p).
  - simplify_eq/=. settle p.
Qed.
Lemma owes_start f cs : f GLoad = 1%nat -> owes f (mkGo cs GLoad) = keyed cs.
Proof.
  intros Hf. destruct cs as [|c cs]; [done|]. unfold owes, keyed. cbn [g_calls g_pc]. rewrite filter_cons, Hf.
  by destruct (decide (call_key c = k)).
Qed.

Lemma go_ok_start cs : Forall (fun c => call_key c = k -> c_value c = f64_of_Z 1) cs -> go_ok (mkGo cs GLoad).
Proof.
  destruct cs as [|c cs']; [done|]. intros [Hc Hcs]%Forall_cons.
  split; [|done]. unfold on_track. cbn [g_pc]. destruct (decide (call_key c = k)); [by split; [apply Hc|]|done].
Qed.

(** A step of the goroutine at [i], the first call being at [pc]. *)
Lemma counting_call v n total st gs i c cs pc st' pc' :
  v + 1 < max_exact -> n + 1 < max_exact -> counting v n total (st, gs) ->
  gs !! i = Some (mkGo (c :: cs) pc) -> ustep cron_Parse c pc st = (st', pc') ->
  counting v n total (st', <[i := mkGo (c :: cs) pc']> gs).
Proof.
  intros Hv1 Hn1 Hct Hi Hs. pose proof (counting_bound _ _ _ _ Hct) as Hb. destruct Hct as [Hk Hinj Hgos Hpoint]. simpl in *.
  pose proof (Forall_lookup_1 _ _ _ _ Hgos Hi) as [Htr Hcs]. cbn [g_pc] in Htr.
  pose proof (fun f => owed_insert f gs i _ (mkGo (c :: cs) pc') Hi) as Howe. unfold owes in Howe. cbn [g_calls g_pc] in Howe.
  destruct Hpoint as (p & z & m & Hp & Ha & Hv & Hm & Hz & Hm0 & Hzv & Hmn & Hnull).
  destruct (decide (call_key c = k)) as [Hc|Hc].
  - destruct (ustep_same c pc st st' pc' p z m) as (Htr' & Hpts & p' & Hp' & Ha' & Hv' & Hm' & Hle1 & Hle2 & Hnull'); try done; [lia|lia|].
    split; simpl; rewrite ?Hpts; [done|done| |].
    + apply Forall_insert; [done|by split].
    + pose proof (Howe owes_value). pose proof (Howe owes_count). pose proof (Howe owes_null).
      eexists p', _, _. split_and!; [done..|lia|lia|lia|lia|].
      destruct Hnull' as [[E1 E2]|E]; [|by left]. rewrite E2. destruct Hnull as [?|Hnull]; [by left|right; lia].
  - unfold on_track in Htr. rewrite decide_False in Htr by done.
    destruct (ustep_other c pc st st' pc' Hc Htr Hb Hk Hinj Hs) as (Htr' & Hp' & Hk' & Hinj').
    split; simpl; [done|done| |].
    + apply Forall_insert; [done|]. split; [|done]. unfold on_track. cbn [g_pc]. by rewrite decide_False.
    + pose proof (Howe owes_value). pose proof (Howe owes_count). pose proof (Howe owes_null).
      exists p, z, m. rewrite Hp'. split_and!; try done; [lia|lia|]. destruct Hnull; [by left|right; lia].
Qed.

(** The goroutine goes on to its next call. *)
Lemma counting_next v n total st gs i c cs pc :
  counting v n total (st, gs) -> gs !! i = Some (mkGo (c :: cs) pc) -> pc = UDone \/ (exists e, pc = UErr e) ->
  counting v n total (st, <[i := mkGo cs GLoad]> gs).
Proof.
  intros [Hk Hinj Hgos Hpoint] Hi Hpc. simpl in *. pose proof (Forall_lookup_1 _ _ _ _ Hgos Hi) as [Htr Hcs]. cbn [g_pc] in Htr.
  assert (Howe : forall f, f GLoad = 1%nat -> f UDone = 0%nat -> owed f (<[i := mkGo cs GLoad]> gs) = owed f gs).
  { intros f Hf1 Hf0. pose proof (owed_insert f gs i _ (mkGo cs GLoad) Hi) as H. rewrite owes_start in H by done.
    unfold owes in H. cbn [g_calls g_pc] in H. unfold on_track in Htr.
    destruct (decide (call_key c = k)) as [Hc|Hc]; [|lia].
    destruct Hpc as [->|[e ->]]; [rewrite Hf0 in H; lia|]. by destruct Htr. }
  split; simpl; [done|done| |].
  - apply Forall_insert; [done|by apply go_ok_start].
  - rewrite !Howe by done. done.
Qed.

Lemma go_move_counting v n total i x :
  v + 1 < max_exact -> n + 1 < max_exact -> counting v n total x -> counting v n total (go_move cron_Parse i x).
Proof.
  intros Hv Hn Hct. destruct x as [st gs]. unfold go_move. simpl. destruct (gs !! i) as [[[|c cs] pc]|] eqn:Hi; [..|done].
  { simpl. by rewrite list_insert_id. }
  assert (Hstep : forall st' pc', ustep cron_Parse c pc st = (st', pc') -> counting v n total (st', <[i := mkGo (c :: cs) pc']> gs))
    by (intros; by eapply counting_call).
  unfold go_step. cbn [g_calls g_pc].
  destruct pc; try (destruct (ustep _ _ _ _) as [st' pc'] eqn:E; by apply Hstep);
    (eapply counting_next; [done..|]; eauto).
Qed.

Lemma go_run_counting v n total s x :
  v + 1 < max_exact -> n + 1 < max_exact -> counting v n total x -> counting v n total (go_run cron_Parse s x).
Proof.
  intros Hv Hn. revert x. induction s as [|i s IH]; intros x Hct; [done|]. apply IH. by apply go_move_counting.
Qed.
End counter.

(** ** The counter of requests *)

Definition goroutines (h : LogHandler) (evs : list mw_event) : list goroutine := start_go ∘ event_calls h <$> evs.

Lemma owed_goroutines h k f evs :
  is_count_key k -> f GLoad = 1%nat -> owed k f (goroutines h evs) = counted_as h k evs.
Proof.
  intros Hk Hf. unfold counted_as. induction evs as [|ev evs IH]; [done|].
  change (owed k f (goroutines h (ev :: evs))) with (owes k f (mkGo (event_calls h ev) GLoad) + owed k f (goroutines h evs))%nat.
  rewrite IH, owes_start by done. unfold keyed. rewrite count_key_calls, filter_cons by done.
  by destruct (decide (count_key h ev = Some k)).
Qed.

Lemma owed_idle k f gs : forallb idle gs = true -> owed k f gs = 0%nat.
Proof.
  induction gs as [|g gs IH]; [done|]. simpl. intros [Hg Hgs]%andb_prop. rewrite IH by done.
  unfold idle in Hg. unfold owes. by destruct (g_calls g).
Qed.

Lemma counting_start h k l st p v n evs :
  is_count_key k -> stats_wf st -> points st !! k = Some l -> store st !! l = Some p -> aggregation p = "sum" ->
  value p = f64_of_Z v -> count p = n -> 0 <= v -> 0 <= n ->
  let N := counted_as h k evs in
  counting k l (v + Z.of_nat N) (n + Z.of_nat N) N (st, goroutines h evs).
Proof.
  intros Hk Hst Hl Hp Ha Hv Hn Hv0 Hn0 N. split; simpl.
  - done.
  - intros k' Hk'. by eapply (wf_inj st Hst).
  - apply Forall_fmap, Forall_forall. intros ev _. apply go_ok_start, Forall_forall. intros c Hin. by eapply event_calls_key.
  - exists p, v, n. rewrite !owed_goroutines by done. split_and!; try done. by right.
Qed.

(** C10. The request counter is exact while requests are served at the same time.
    The calls that a request or a connection makes are those that, made without
    interruption, are its step of the statistics in [LogHandler_ServeHTTP] and
    [incrementHTTPConn].
    Any number of requests and of the goroutines that count connections make
    their calls of the statistics in any interleaving of single steps, from a
    state in which the counter of a key has its point (a sum), and the cron does not
    fire it meanwhile.  At every moment its value and its count have grown by the
    number of requests that ended without a panic and whose protocol, method,
    status, path and user tags have that key, less those that have not yet swapped
    the value, or counted; when all have finished, by exactly that number. *)
Theorem requests_counted `{Zerolog} cron_Parse error_text env h st k l p v n evs s :
  cron_Parse "@every 1m" = None -> stats_wf st -> points st !! k = Some l -> store st !! l = Some p -> aggregation p = "sum" ->
  value p = f64_of_Z v -> count p = n -> 0 <= v -> 0 <= n ->
  let N := Z.of_nat (counted_as h k evs) in
  0 < N -> v + N + 1 < max_exact -> n + N + 1 < max_exact ->
  let x := go_run cron_Parse s (st, goroutines h evs) in
  (forall st0, foldl (mw_step cron_Parse error_text env h) st0 evs =
               foldl (do_call cron_Parse) st0 (concat (event_calls h <$> evs))) /\
  points x.1 !! k = Some l /\
  exists p', store x.1 !! l = Some p' /\
    value p' = f64_of_Z (v + N - Z.of_nat (owed k owes_value x.2)) /\
    count p' = n + N - Z.of_nat (owed k owes_count x.2) /\
    (forallb idle x.2 = true -> value p' = f64_of_Z (v + N) /\ count p' = n + N /\ IsValueNull p' = false).
Proof.
  intros Hmin Hst Hl Hp Ha Hv Hn Hv0 Hn0 N HN Hvm Hnm x. split; [intros st0; by apply events_alone|].
  assert (Hk : is_count_key k).
  { unfold N, counted_as in HN. destruct (filter _ evs) as [|ev l'] eqn:E; [simpl in HN; lia|].
    assert (Hin : ev ∈ filter (fun ev => count_key h ev = Some k) evs) by (rewrite E; set_solver).
    apply list_elem_of_filter in Hin as [Hin _]. by eapply count_key_ends. }
  pose proof (go_run_counting cron_Parse k l _ _ _ s _ Hvm Hnm
    (counting_start h k l st p v n evs Hk Hst Hl Hp Ha Hv Hn Hv0 Hn0)) as [Hkey _ _ (p' & z & m & Hp' & _ & Hv' & Hm' & _ & _ & Hz & Hm & Hnull)].
  fold x in Hkey, Hp', Hz, Hm, Hnull. split; [done|].
  exists p'. split_and!; [done|rewrite Hv'; f_equal; lia|lia|]. intros Hx. rewrite owed_idle in Hz, Hm, Hnull by done.
  split_and!; [rewrite Hv'; f_equal; lia|lia|]. unfold IsValueNull. destruct Hnull as [->|Hnull]; [done|lia].
Qed.

(** Two requests of the same kind and a connection, after one request, in lock
    step. *)
Definition demo_counted : mw_event := Serve "a" 5 (demo_request "/x") None new_response.
Definition demo_counted_stats : Stats := mw_step (fun _ => None) (fun _ => "") demo_env demo_handler demo_new demo_counted.
Definition demo_key : string :=
  keyFromMetricID "request.count" (map_to_list (request_tags (demo_request "/x") 201 (Some {[ "user" := "u" ]}))).

Lemma demo_counted_wf : stats_wf demo_counted_stats.
Proof.
  assert (Hk : is_count_key demo_key) by (apply (count_key_ends demo_handler demo_counted); vm_compute; reflexivity).
  assert (Hn : stats_wf demo_new) by (apply (New_wf (fun _ => inr 0) (inr "h") demo_settings); reflexivity).
  assert (Hc : counter_is demo_key 0 demo_new) by reflexivity.
  exact (proj1 (mw_step_counter (fun _ => None) (fun _ => "") demo_env demo_handler eq_refl eq_refl demo_key 0 demo_new
    demo_counted Hk Hn Hc ltac:(lia) ltac:(reflexivity))).
Qed.

Lemma requests_counted_witness :
  let x := go_run (fun _ => None) (concat (replicate 24 [0; 1; 2]%nat)) (demo_counted_stats, goroutines demo_handler [demo_counted; Connection; demo_counted]) in
  exists p, store x.1 !! 0%nat = Some p /\ value p = f64_of_Z (1 + 2) /\ count p = 1 + 2.
Proof.
  intros x.
  destruct (requests_counted (fun _ => None) (fun _ => "") demo_env demo_handler demo_counted_stats demo_key 0
    (default demo_sum_point (store demo_counted_stats !! 0%nat)) 1 1 [demo_counted; Connection; demo_counted]
    (concat (replicate 24 [0; 1; 2]%nat))) as (_ & _ & p & H1 & _ & _ & H); try (vm_compute; reflexivity); try lia.
  - exact demo_counted_wf.
  - destruct H as (H2 & H3 & _); [vm_compute; reflexivity|]. exists p. split; [exact H1|]. split; [exact H2|exact H3].
Defined.
