(* ===== verification/TestServer.v ===== *)
(** * Package [tester/httpserver] ([httpserver.go], [utils.go])

    The HTTP server of the tests: a map from cleaned URIs to responses, and a
    channel of the requests it answered.  The handler is a handler tree of
    [Http]; the listener and the HTTP client are parameters. *)

From stdpp Require Import base gmap strings list.
From Stdlib Require Import ZArith Lia Ascii.
From S2P Require Import Prelude Chan Http.

Local Open Scope Z_scope.
Local Open Scope go_scope.

Record RequestData : Type := mkRequestData {
  rd_URI : string;
  rd_Body : string;
  rd_Method : string;
  rd_Headers : Header;
}.

Record ResponseData : Type := mkResponseData {
  rsd_request : RequestData;      (* the embedded [RequestData] *)
  rsd_Status : Z;
}.

Record HTTPServer : Type := mkHTTPServer {
  requestChannel : chan RequestData;
  responseMap : gmap string ResponseData;
}.

(** ** [CleanURI] *)

Definition is_slash (c : ascii) : bool := Ascii.eqb c "/".

(** [multipleBarRegexp.ReplaceAllString(name, "/")]: every run of slashes becomes
    one; [seen] says that the last character was a slash. *)
Fixpoint collapse (seen : bool) (s : string) : string :=
  match s with
  | EmptyString => ""
  | String c s' =>
      if is_slash c then if seen then collapse true s' else String c (collapse true s')
      else String c (collapse false s')
  end.

Definition has_slash_prefix (s : string) : bool :=
  match s with String c _ => is_slash c | EmptyString => false end.

Definition CleanURI (name : string) : string :=
  collapse false (if negb (has_slash_prefix name) then name +:+ "/" else name).

(** ** The server *)

Definition set_URI (u : string) (d : ResponseData) : ResponseData :=
  mkResponseData (mkRequestData u (rd_Body (rsd_request d)) (rd_Method (rsd_request d)) (rd_Headers (rsd_request d)))
    (rsd_Status d).

Definition add_response (m : gmap string ResponseData) (d : ResponseData) : gmap string ResponseData :=
  let d := set_URI (CleanURI (rd_URI (rsd_request d))) d in <[rd_URI (rsd_request d) := d]> m.

Inductive server_error : Type := ErrNoResponses | ErrListen (e : string).

(** [listen] is the outcome of [net.Listen]. *)
Definition NewHTTPServer (channelSize : nat) (responses : list ResponseData) (listen : option string)
    : result server_error HTTPServer :=
  match responses with
  | [] => Err ErrNoResponses
  | _ =>
      let hs := mkHTTPServer (make_chan channelSize) (foldl add_response ∅ responses) in
      match listen with
      | Some e => Err (ErrListen e)
      | None => Ok hs
      end
  end.

(** [CopyHeaders] of a source that [range] yields in this order. *)
Definition CopyHeaders (source : list (string * list string)) (dest : Header) : Header :=
  foldl (fun dest kv => foldl (fun dest v => Header_Set kv.1 v dest) dest kv.2) dest source.

(** The same calls on the writer's headers. *)
Definition copy_headers (source : list (string * list string)) (next : hprog) : hprog :=
  foldr (fun kv next => foldr (fun v next => HSet kv.1 v next) next kv.2) next source.

(** [handler]: its calls of the response writer, and what it sends to the channel
    if it gets there.  [o1] and [o2] are the orders in which [range] yields the
    selected response's headers and the request's. *)
Definition handler (hl : HTTPServer) (o1 o2 : Header -> list (string * list string)) (req : request)
    : hprog * option RequestData :=
  let cleanURI := CleanURI (rq_uri req) in
  match responseMap hl !! cleanURI with
  | Some d =>
      if (rd_Method (rsd_request d) =? rq_method req)%string then
        (copy_headers (o1 (rd_Headers (rsd_request d))) (copy_headers (o2 (rq_header req)) (HWriteHeader (rsd_Status d)
           (if (0 <? String.length (rd_Body (rsd_request d)))%nat
            then HWrite (rd_Body (rsd_request d)) (fun _ => HRet) else HRet))),
         Some (mkRequestData cleanURI (rq_body req) (rq_method req) (rq_header req)))
      else (HWriteHeader 404 HRet, None)
  | None => (HWriteHeader 404 HRet, None)
  end.

(** A request served: the handler returns, it waits for room in the channel, or it
    panics. *)
Inductive serve_outcome : Type :=
| Served (r : response) (hl : HTTPServer)
| Waiting (r : response)
| Aborted.

Definition serve (hl : HTTPServer) (o1 o2 : Header -> list (string * list string)) (req : request) : serve_outcome :=
  let '(p, sent) := handler hl o1 o2 req in
  match run_handler p new_response None with
  | (_, _, false) => Aborted
  | (r, _, true) =>
      match sent with
      | None => Served (finish_request r) hl
      | Some x =>
          match chan_send (requestChannel hl) x with
          | SendOk c => Served (finish_request r) (mkHTTPServer c (responseMap hl))
          | SendBlocks => Waiting r
          | SendPanics => Aborted
          end
      end
  end.

(** ** [utils.go] *)

(** An [http.Response]: the read of its body fails or succeeds. *)
Record http_response : Type := mkHttpResponse {
  hr_status : Z;
  hr_header : Header;
  hr_body : string + string;
  hr_RequestURI : string;      (* of [res.Request] *)
  hr_Method : string;
}.

Definition ParseResponse (res : http_response) : result string ResponseData :=
  match hr_body res with
  | inl err => Err err
  | inr b => Ok (mkResponseData (mkRequestData (hr_RequestURI res) b (hr_Method res) (hr_header res)) (hr_status res))
  end.

Definition CreateNewTestHTTPServer (responses : list ResponseData) (listen : option string) : result Empty_set HTTPServer :=
  match NewHTTPServer 5 responses listen with
  | Ok s => Ok s
  | _ => Panic
  end.

Definition TestServerURL : string := "http://localhost:18080/".

(** [DoRequest]; [NewRequest] gives the headers of a new request for a method and
    a URL, or fails, and [Do] sends it.  Every error is a panic. *)
Definition DoRequest (NewRequest : string -> string -> string -> option Header)
    (Do : string -> string -> Header -> string -> string + http_response)
    (order : list (string * list string)) (q : RequestData) : result Empty_set ResponseData :=
  let url := TestServerURL +:+ rd_URI q in
  match NewRequest (rd_Method q) url (rd_Body q) with
  | None => Panic
  | Some h =>
      match Do (rd_Method q) url (CopyHeaders order h) (rd_Body q) with
      | inl _ => Panic
      | inr res =>
          match ParseResponse res with
          | Ok d => Ok (set_URI (rd_URI q) d)
          | _ => Panic
          end
      end
  end.

Definition maxRequestTimeout : nat := 10.

(** [WaitForHTTPServerRequest] after [seconds] seconds, with [n] more rounds at
    most; [poll] is what the channel has in each round. *)
Fixpoint wait_from (poll : nat -> option RequestData) (n seconds : nat) : option RequestData * nat :=
  match poll seconds with
  | Some r => (Some r, seconds)
  | None =>
      match n with
      | O => (None, S seconds)
      | S n => wait_from poll n (S seconds)
      end
  end.

Definition WaitForHTTPServerRequest (poll : nat -> option RequestData) : option RequestData * nat :=
  wait_from poll (maxRequestTimeout - 1) 0.

(** ** URIs *)

Lemma collapse_idem b s : collapse b (collapse b s) = collapse b s.
Proof.
  revert b. induction s as [|c s IH]; intros b; [done|]. cbn [collapse].
  destruct (is_slash c) eqn:E; [destruct b|]; cbn [collapse]; rewrite ?E, ?IH; done.
Qed.

Lemma collapse_snoc b s : collapse b (collapse b (s +:+ "/") +:+ "/") = collapse b (s +:+ "/").
Proof.
  revert b. induction s as [|c s IH]; intros b; [by destruct b|].
  change (String c s +:+ "/") with (String c (s +:+ "/")). cbn [collapse].
  destruct (is_slash c) eqn:E; [destruct b|]; [apply IH|..];
    match goal with |- context [String c ?t +:+ "/"] => change (String c t +:+ "/") with (String c (t +:+ "/")) end;
    cbn [collapse]; by rewrite E, IH.
Qed.

Lemma collapse_prefix s : has_slash_prefix (collapse false s) = has_slash_prefix s.
Proof. destruct s as [|c s]; [done|]. simpl. destruct (is_slash c) eqn:E; simpl; by rewrite E. Qed.

(** [CleanURI] is idempotent, has no effect on how a URI starts except for the
    empty one, and the slash that [DoRequest] puts before a URI that has one is
    dropped again. *)
Theorem CleanURI_canonical u :
  CleanURI (CleanURI u) = CleanURI u /\
  has_slash_prefix (CleanURI u) = has_slash_prefix u || (u =? "")%string /\
  (has_slash_prefix u = true -> CleanURI ("/" +:+ u) = CleanURI u).
Proof.
  unfold CleanURI. split_and!.
  - destruct (has_slash_prefix u) eqn:E; cbn [negb].
    + rewrite collapse_prefix, E. cbn [negb]. apply collapse_idem.
    + destruct u as [|c u]; [done|]. rewrite collapse_prefix. simpl in E. simpl has_slash_prefix. rewrite E.
      cbn [negb]. apply collapse_snoc.
  - destruct (has_slash_prefix u) eqn:E; cbn [negb]; rewrite collapse_prefix; [done|].
    destruct u as [|c u]; [done|]. simpl in *. by rewrite E.
  - intros E. rewrite E. destruct u as [|c u]; [done|]. simpl in *. rewrite E. by apply Ascii.eqb_eq in E as ->.
Qed.

(** ** Which response is selected *)

Definition response_key (d : ResponseData) : string := CleanURI (rd_URI (rsd_request d)).

Lemma responses_lookup responses m k :
  foldl add_response m responses !! k =
  match last (filter (fun d => response_key d = k) responses) with
  | Some d => Some (set_URI k d)
  | None => m !! k
  end.
Proof.
  induction responses as [|d responses IH] using rev_ind; [done|].
  rewrite foldl_app, filter_app. cbn [foldl]. unfold add_response at 1. cbn [rsd_request set_URI rd_URI].
  fold (response_key d). destruct (decide (response_key d = k)) as [<-|Hne].
  - rewrite lookup_insert_eq, filter_cons_True, filter_nil by done. by rewrite last_snoc.
  - rewrite lookup_insert_ne by done. by rewrite filter_cons_False, filter_nil, app_nil_r by done.
Qed.

Lemma run_copy_headers o next r c :
  run_handler (copy_headers o next) r c = run_handler next (w_SetHeaders (CopyHeaders o (rs_header r)) r) c.
Proof.
  revert r. induction o as [|[k vs] o IH]; intros r; [by destruct r|].
  cbn [copy_headers foldr fst snd]. fold (copy_headers o next).
  assert (H : forall p, run_handler (foldr (fun v next => HSet k v next) p vs) r c =
    run_handler p (w_SetHeaders (foldl (fun dest v => Header_Set k v dest) (rs_header r) vs) r) c).
  { clear IH. revert r. induction vs as [|v vs IHv]; intros r p; [by destruct r|]. cbn [foldr run_handler]. by rewrite IHv. }
  rewrite H, IH. done.
Qed.

(** The response of the server to a request: [d] is the selected response. *)
Definition selected (responses : list ResponseData) (req : request) : option ResponseData :=
  last (filter (fun d => response_key d = CleanURI (rq_uri req)) responses) ≫= fun d =>
    if (rd_Method (rsd_request d) =? rq_method req)%string then Some d else None.

Lemma handler_selected n responses hs o1 o2 req :
  NewHTTPServer n responses None = Ok hs ->
  handler hs o1 o2 req =
  match selected responses req with
  | Some d =>
      (copy_headers (o1 (rd_Headers (rsd_request d))) (copy_headers (o2 (rq_header req)) (HWriteHeader (rsd_Status d)
         (if (0 <? String.length (rd_Body (rsd_request d)))%nat
          then HWrite (rd_Body (rsd_request d)) (fun _ => HRet) else HRet))),
       Some (mkRequestData (CleanURI (rq_uri req)) (rq_body req) (rq_method req) (rq_header req)))
  | None => (HWriteHeader 404 HRet, None)
  end.
Proof.
  intros Hn. assert (Hm : responseMap hs = foldl add_response ∅ responses) by (destruct responses; by simplify_eq/=).
  unfold handler, selected. rewrite Hm, responses_lookup.
  destruct (last _) as [d|]; [|done]. cbn. by destruct (_ =? _)%string.
Qed.

(** ** The headers of a response *)

Definition canonical_keys (h : Header) : Prop := forall k, is_Some (h !! k) -> CanonicalHeaderKey k = k.

(** [range] yields the entries of a map once each. *)
Definition range_order (o : Header -> list (string * list string)) : Prop := forall h, o h ≡ₚ map_to_list h.

(** The last value of every header. *)
Definition last_values (h : Header) : Header := omap (fun vs => (fun v => [v]) <$> last vs) h.

Lemma copy_values k vs dest :
  foldl (fun dest v => Header_Set k v dest) dest vs = match last vs with Some v => Header_Set k v dest | None => dest end.
Proof.
  induction vs as [|v vs IH] using rev_ind; [done|]. rewrite foldl_app, IH, last_snoc. simpl.
  destruct (last vs); [|done]. unfold Header_Set. by rewrite insert_insert_eq.
Qed.

Lemma CopyHeaders_lookup o dest K :
  NoDup o.*1 -> Forall (fun kv => CanonicalHeaderKey kv.1 = kv.1) o ->
  CopyHeaders o dest !! K =
  match (list_to_map o : Header) !! K ≫= last with Some v => Some [v] | None => dest !! K end.
Proof.
  revert dest. induction o as [|[k vs] o IH]; intros dest; [done|].
  cbn [fmap list_fmap fst]. intros [Hk Hnd]%NoDup_cons [Hc Hall]%Forall_cons. simpl in Hc.
  change (CopyHeaders ((k, vs) :: o) dest) with (CopyHeaders o (foldl (fun dest v => Header_Set k v dest) dest vs)).
  rewrite IH, copy_values by done. cbn [list_to_map foldr fst snd].
  destruct (decide (k = K)) as [->|Hne].
  - rewrite lookup_insert_eq, (not_elem_of_list_to_map_1 o K) by done. cbn.
    destruct (last vs) as [v|]; [|done]. unfold Header_Set. by rewrite Hc, lookup_insert_eq.
  - rewrite lookup_insert_ne by done. destruct (_ ≫= last); [done|].
    destruct (last vs) as [v|]; [|done]. unfold Header_Set. by rewrite Hc, lookup_insert_ne.
Qed.

Lemma CopyHeaders_range (o : Header -> list (string * list string)) h dest :
  range_order o -> canonical_keys h -> CopyHeaders (o h) dest = last_values h ∪ dest.
Proof.
  intros Ho Hh. apply map_eq. intros K.
  specialize (Ho h).
  assert (Hnd : NoDup (o h).*1) by (rewrite Ho; apply NoDup_fst_map_to_list).
  rewrite CopyHeaders_lookup; [|done|].
  - assert (E : (list_to_map (o h) : Header) = h).
    { rewrite <- (list_to_map_to_list h) at 2. by apply list_to_map_proper. }
    rewrite E, lookup_union. unfold last_values. rewrite lookup_omap.
    destruct (h !! K) as [vs|]; cbn; [|by rewrite (left_id_L None union)].
    destruct (last vs); cbn; [by destruct (dest !! K)|by rewrite (left_id_L None union)].
  - apply Forall_forall. intros [k vs] Hin. rewrite Ho in Hin. apply elem_of_map_to_list in Hin. simpl. apply Hh. by exists vs.
Qed.

(** The headers and the body of the answer: the last value of each of the
    request's headers, else of the configured ones; and the configured body, if
    the status has one and it fits into the declared length. *)
Definition answer_headers (d : ResponseData) (req : request) : Header :=
  last_values (rq_header req) ∪ last_values (rd_Headers (rsd_request d)).

Definition answer_body (d : ResponseData) (req : request) : string :=
  let b := rd_Body (rsd_request d) in
  let fits := match declared_length (answer_headers d req) with Some n => Z.of_nat (String.length b) <=? n | None => true end in
  if negb (rq_method req =? "HEAD")%string && bodyAllowedForStatus (rsd_Status d) && fits then b else "".

Lemma run_answer (d : ResponseData) hd :
  (100 <=? rsd_Status d) && (rsd_Status d <=? 999) = true ->
  exists r, run_handler (HWriteHeader (rsd_Status d)
      (if (0 <? String.length (rd_Body (rsd_request d)))%nat
       then HWrite (rd_Body (rsd_request d)) (fun _ => HRet) else HRet)) (w_SetHeaders hd new_response) None = (r, None, true) /\
    rs_sent r = Some (rsd_Status d, hd) /\
    rs_body r = if bodyAllowedForStatus (rsd_Status d) &&
                   match declared_length hd with Some n => Z.of_nat (String.length (rd_Body (rsd_request d))) <=? n | None => true end
                then rd_Body (rsd_request d) else "".
Proof.
  intros [Hs1 Hs2]%andb_prop. cbn [run_handler w_WriteHeader response_writer]. unfold response_WriteHeader.
  cbn [rs_sent new_response w_SetHeaders response_writer rs_header].
  destruct (Z.ltb_spec (rsd_Status d) 100); [lia|]. destruct (Z.ltb_spec 999 (rsd_Status d)); [lia|]. cbn [orb].
  destruct (Nat.ltb_spec 0 (String.length (rd_Body (rsd_request d)))) as [Hlen|Hlen].
  - cbn [run_handler w_Write response_writer]. unfold response_Write. cbn [rs_sent rbind].
    destruct (Z.eqb_spec (Z.of_nat (String.length (rd_Body (rsd_request d)))) 0); [lia|]. unfold rs_status. cbn -[String.length Z.of_nat].
    destruct (bodyAllowedForStatus (rsd_Status d)); [|by eexists]. cbn -[String.length Z.of_nat].
    destruct (declared_length hd) as [n0|]; [|by eexists].
    rewrite Z.leb_antisym. destruct (_ <? _); by eexists.
  - eexists. split; [done|]. split; [done|]. simpl. destruct (rd_Body (rsd_request d)); [|simpl in Hlen; lia].
    by destruct (_ && _).
Qed.

(** C32. What the test server does with a request, on every branch, when the header
    keys of the request and of the configured responses are canonical, as
    [net/http] makes them, and the channel is open (the package never closes it).  The last of
    the configured responses whose cleaned URI is the request's is selected, if
    its method is the request's.  A configured status that is not valid panics.
    Otherwise the client gets the status, with the last value of each header of
    the request and of the response (the request's first), and the configured body unless
    the status has none or the body outgrows the [Content-Length] among these
    headers, which may be the request's; then the request is put in the channel
    after the earlier ones, or waits for room.  If no response is selected the
    answer is a 404 without a body and the request is not recorded. *)
Theorem server_answers n responses hs o1 o2 req ch :
  NewHTTPServer n responses None = Ok hs -> range_order o1 -> range_order o2 ->
  canonical_keys (rq_header req) -> Forall (fun d => canonical_keys (rd_Headers (rsd_request d))) responses ->
  ch_closed ch = false ->
  let hs := mkHTTPServer ch (responseMap hs) in
  match selected responses req with
  | Some d =>
      if (100 <=? rsd_Status d) && (rsd_Status d <=? 999) then
        exists r, rs_sent r = Some (rsd_Status d, answer_headers d req) /\ sent_body req r = answer_body d req /\
          serve hs o1 o2 req =
            if (length (ch_buf ch) <? ch_cap ch)%nat
            then Served r (mkHTTPServer (mkChan (ch_cap ch) (ch_buf ch ++
                   [mkRequestData (CleanURI (rq_uri req)) (rq_body req) (rq_method req) (rq_header req)]) false) (responseMap hs))
            else Waiting r
      else serve hs o1 o2 req = Aborted
  | None => exists r, serve hs o1 o2 req = Served r hs /\ rs_sent r = Some (404, ∅) /\ rs_body r = ""
  end.
Proof.
  intros Hn Ho1 Ho2 Hq Hall Hc hs'. pose proof (handler_selected n responses hs o1 o2 req Hn) as Hh.
  assert (Hh' : handler hs' o1 o2 req = handler hs o1 o2 req) by done.
  unfold serve. rewrite Hh', Hh. destruct (selected responses req) as [d|] eqn:Hsel; [|by eexists].
  assert (Hd : canonical_keys (rd_Headers (rsd_request d))).
  { unfold selected in Hsel. destruct (last _) as [d'|] eqn:El; [|done]. cbn in Hsel.
    destruct (_ =? _)%string; [|done]. simplify_eq. apply last_Some in El as [l El].
    assert (Hin : d ∈ filter (fun d => response_key d = CleanURI (rq_uri req)) responses) by (rewrite El; set_solver).
    apply list_elem_of_filter in Hin as [_ Hin]. by rewrite Forall_forall in Hall; apply Hall. }
  rewrite !run_copy_headers. cbn [rs_header new_response w_SetHeaders response_writer].
  rewrite !CopyHeaders_range, (right_id_L ∅ union) by done. fold (answer_headers d req).
  destruct ((100 <=? rsd_Status d) && (rsd_Status d <=? 999)) eqn:Hs.
  - destruct (run_answer d (answer_headers d req) Hs) as (r & Hr & Hsent & Hbody).
    match goal with |- context [run_handler ?p ?w None] =>
      change (run_handler p w None) with (run_handler p (w_SetHeaders (answer_headers d req) new_response) None) end.
    rewrite Hr. exists r. split_and!; [done| |].
    + unfold sent_body, answer_body. rewrite Hbody. by destruct (rq_method req =? "HEAD")%string.
    + unfold chan_send. cbn [requestChannel hs']. rewrite Hc. unfold finish_request. rewrite Hsent.
      by destruct (length (ch_buf ch) <? ch_cap ch)%nat.
  - cbn [run_handler w_WriteHeader response_writer]. unfold response_WriteHeader. cbn [rs_sent].
    apply andb_false_iff in Hs as [Hs|Hs]; [destruct (Z.ltb_spec (rsd_Status d) 100); [done|lia]|].
    destruct (Z.ltb_spec 999 (rsd_Status d)); [by rewrite orb_true_r|lia].
Qed.

Definition demo_response (u : string) : ResponseData := mkResponseData (mkRequestData u "pong" "GET" ∅) 200.
Definition demo_server (u : string) : HTTPServer := mkHTTPServer (make_chan 5) (foldl add_response ∅ [demo_response u]).
Definition demo_ping : request := mkRequest "GET" "HTTP/1.1" "/ping" "//ping" ∅ "".

(** An answer of a POST whose body is shorter than the configured one: the answer's
    body does not fit the request's declared length. *)
Definition demo_post : request := mkRequest "POST" "HTTP/1.1" "/ping" "/ping" {[ "Content-Length" := ["3"] ]} "abc".
Definition demo_post_response : ResponseData :=
  mkResponseData (mkRequestData "/ping" "pong" "POST" {[ "X-A" := ["1"; "2"] ]}) 201.
Definition demo_post_server : HTTPServer := mkHTTPServer (make_chan 5) (foldl add_response ∅ [demo_response "/ping"; demo_post_response]).

Lemma server_answers_witness :
  exists r hs', serve demo_post_server map_to_list map_to_list demo_post = Served r hs' /\
    rs_sent r = Some (201, {[ "Content-Length" := ["3"]; "X-A" := ["2"] ]}) /\ sent_body demo_post r = "" /\
    length (ch_buf (requestChannel hs')) = 1%nat.
Proof.
  destruct (server_answers 5 [demo_response "/ping"; demo_post_response] demo_post_server map_to_list map_to_list demo_post
    (make_chan 5) eq_refl) as (r & H1 & H2 & H3).
  - intros h. reflexivity.
  - intros h. reflexivity.
  - intros k [v Hv]. unfold demo_post, demo_post_response in Hv. cbn [rq_header rsd_request rd_Headers] in Hv. apply lookup_singleton_Some in Hv as [<- _]. vm_compute. reflexivity.
  - constructor; [by intros k [v Hv]|]. constructor; [|constructor].
    intros k [v Hv]. unfold demo_post, demo_post_response in Hv. cbn [rq_header rsd_request rd_Headers] in Hv. apply lookup_singleton_Some in Hv as [<- _]. vm_compute. reflexivity.
  - reflexivity.
  - exists r. eexists. split; [exact H3|]. split; [rewrite H1; vm_compute; reflexivity|].
    split; [rewrite H2; vm_compute; reflexivity|reflexivity].
Defined.

(** A response configured with a URI that does not start with a slash answers
    no request: [CleanURI] adds the missing slash at the end. *)
Theorem response_unreachable n responses hs o1 o2 req :
  NewHTTPServer n responses None = Ok hs ->
  Forall (fun d => has_slash_prefix (rd_URI (rsd_request d)) = false /\ rd_URI (rsd_request d) <> "") responses ->
  has_slash_prefix (rq_uri req) = true ->
  exists r, serve hs o1 o2 req = Served r hs /\ rs_sent r = Some (404, ∅) /\ rs_body r = "".
Proof.
  intros Hn Hall Hreq. unfold serve. rewrite (handler_selected n responses) by done.
  replace (selected responses req) with (@None ResponseData); [by eexists|].
  unfold selected. destruct (last _) as [d|] eqn:El; [|done]. exfalso.
  apply last_Some in El as [l El].
  assert (Hd : d ∈ filter (fun d => response_key d = CleanURI (rq_uri req)) responses) by (rewrite El; set_solver).
  apply list_elem_of_filter in Hd as [Heq Hd].
  rewrite Forall_forall in Hall. destruct (Hall d Hd) as [H1 H2].
  apply (f_equal has_slash_prefix) in Heq. unfold response_key, CleanURI in Heq.
  rewrite !collapse_prefix, Hreq, H1 in Heq. cbn [negb] in Heq. rewrite Hreq in Heq.
  destruct (rd_URI (rsd_request d)) as [|c u]; [done|]. simpl in *. congruence.
Qed.

Lemma response_unreachable_witness :
  exists r, serve (demo_server "ping") map_to_list map_to_list demo_ping = Served r (demo_server "ping") /\ rs_sent r = Some (404, ∅) /\ rs_body r = "".
Proof.
  apply (response_unreachable 5 [demo_response "ping"]); [reflexivity| |reflexivity].
  constructor; [split; [reflexivity|discriminate]|constructor].
Defined.

(** The server copies the headers of the request to the response, its
    [Content-Length] included: a request that declares a body shorter than the
    configured answer gets the status without the answer. *)
Theorem request_length_echoed hs o1 o2 req d n :
  responseMap hs !! CleanURI (rq_uri req) = Some d -> rd_Method (rsd_request d) = rq_method req ->
  (100 <=? rsd_Status d) && (rsd_Status d <=? 999) = true ->
  declared_length (CopyHeaders (o2 (rq_header req)) (CopyHeaders (o1 (rd_Headers (rsd_request d))) ∅)) = Some n ->
  n < Z.of_nat (String.length (rd_Body (rsd_request d))) -> bodyAllowedForStatus (rsd_Status d) = true -> 0 <= n ->
  ch_closed (requestChannel hs) = false -> (length (ch_buf (requestChannel hs)) < ch_cap (requestChannel hs))%nat ->
  exists r hs', serve hs o1 o2 req = Served r hs' /\ rs_status r = Some (rsd_Status d) /\ rs_body r = "".
Proof.
  intros Hl Hm Hs Hd Hn Hb Hn0 Hc Hroom. unfold serve, handler. rewrite Hl, Hm, String.eqb_refl.
  rewrite !run_copy_headers. cbn [run_handler w_WriteHeader response_writer].
  unfold response_WriteHeader. cbn [rs_sent new_response w_SetHeaders response_writer rs_header]. rewrite Hd.
  apply andb_prop in Hs as [Hs1 Hs2]. destruct (Z.ltb_spec (rsd_Status d) 100); [lia|].
  destruct (Z.ltb_spec 999 (rsd_Status d)); [lia|]. cbn [orb].
  unfold chan_send. rewrite Hc, (proj2 (Nat.ltb_lt _ _) Hroom).
  destruct (Nat.ltb_spec 0 (String.length (rd_Body (rsd_request d)))); [|lia].
  cbn [run_handler w_Write response_writer]. unfold response_Write. cbn -[String.length].
  rewrite Hb. cbn -[String.length].
  destruct (Z.eqb_spec (Z.of_nat (String.length (rd_Body (rsd_request d)))) 0); [lia|].
  destruct (Z.ltb_spec n (0 + Z.of_nat (String.length (rd_Body (rsd_request d))))); [|lia].
  by eexists _, _.
Qed.

Lemma request_length_echoed_witness :
  exists r hs', serve demo_post_server map_to_list map_to_list demo_post = Served r hs' /\ rs_status r = Some 201 /\ rs_body r = "".
Proof.
  apply (request_length_echoed demo_post_server map_to_list map_to_list demo_post
    (set_URI "/ping" demo_post_response) 3); try (vm_compute; reflexivity).
  - vm_compute. discriminate.
  - apply Nat.ltb_lt. reflexivity.
Defined.

(** ** Waiting for a request *)

Lemma wait_from_spec poll n s :
  wait_from poll n s = match find (fun i => bool_decide (poll i <> None)) (seq s (S n)) with
                       | Some i => (poll i, i)
                       | None => (None, S (s + n))
                       end.
Proof.
  revert s. induction n as [|n IH]; intros s; cbn [wait_from seq find].
  - destruct (poll s) eqn:E; [rewrite bool_decide_true by done; by rewrite E|].
    rewrite bool_decide_false by tauto. by rewrite Nat.add_0_r.
  - destruct (poll s) eqn:E; [rewrite bool_decide_true by done; by rewrite E|].
    rewrite bool_decide_false by tauto. rewrite IH. cbn [seq find].
    destruct (bool_decide (poll (S s) ≠ None)); [done|]. destruct (find _ _); [done|]. f_equal. lia.
Qed.

(** [WaitForHTTPServerRequest] ends: it returns the request of the first of
    ten polls, one second apart, that finds one, and nil after ten seconds. *)
Theorem wait_bounded poll :
  WaitForHTTPServerRequest poll =
    match find (fun i => bool_decide (poll i <> None)) (seq 0 10) with
    | Some i => (poll i, i)
    | None => (None, 10%nat)
    end.
Proof. exact (wait_from_spec poll 9 0). Qed.

(** The server keeps one value of a header: [CopyHeaders] sets each in turn. *)
Theorem copy_keeps_last k vs v dest :
  CopyHeaders [(k, vs ++ [v])] dest !! CanonicalHeaderKey k = Some [v].
Proof. unfold CopyHeaders. cbn [foldl fst snd]. rewrite foldl_app. apply lookup_insert_eq. Qed.
