(* ===== verification/Files.v ===== *)
(** * Package [files] ([file_ops.go], [scanner.go], [structs.go])

    File operations over a map from paths to contents, with the number of open
    descriptors, and the directory scanner over a tree walked as
    [filepath.Walk] does.  Every call of [os] may fail: the failures are an
    argument ([os_faults]). *)

From stdpp Require Import base gmap strings list.
From Stdlib Require Import ZArith Lia Ascii.
From S2P Require Import Prelude Gzip.

Local Open Scope Z_scope.
Local Open Scope go_scope.

(** ** The operating system *)

Record os_state : Type := mkOs {
  os_files : gmap string string;
  os_fds : nat;
}.

(** The errors of the calls on a path; how many bytes the first [Read] of a file
    of a given size returns; the number of bytes an output takes before it
    fails; and what a reader still gets of a file that is truncated while it is
    being read. *)
Record os_faults : Type := mkFaults {
  f_open : string -> option string;
  f_stat : string -> option string;
  f_read : string -> nat -> string + nat;
  f_create : string -> option string;
  f_write : string -> option (nat * string);
  f_remove : string -> option string;
  f_truncated : string -> string;
}.

(** An error of [os], or one of the package's own. *)
Inductive file_error : Type :=
| ErrOS (e : string)
| ErrNotExist
| ErrZeroLength (path : string)
| ErrGzip (e : string).

Definition with_fds (n : nat) (s : os_state) : os_state := mkOs (os_files s) n.
Definition set_file (p c : string) (s : os_state) : os_state := mkOs (<[p := c]> (os_files s)) (os_fds s).

Section ops.
Context (F : os_faults).

(** [os.Open]: the contents, and a descriptor. *)
Definition os_Open (p : string) (s : os_state) : result file_error string * os_state :=
  match f_open F p with
  | Some e => (Err (ErrOS e), s)
  | None =>
      match os_files s !! p with
      | None => (Err ErrNotExist, s)
      | Some c => (Ok c, with_fds (S (os_fds s)) s)
      end
  end.

Definition os_Close (s : os_state) : os_state := with_fds (pred (os_fds s)) s.

(** [os.Create] truncates. *)
Definition os_Create (p : string) (s : os_state) : option file_error * os_state :=
  match f_create F p with
  | Some e => (Some (ErrOS e), s)
  | None => (None, with_fds (S (os_fds s)) (set_file p "" s))
  end.

(** Bytes appended to an output. *)
Definition os_Append (p : string) (b : string) (s : os_state) : option file_error * os_state :=
  let old := default "" (os_files s !! p) in
  match f_write F p with
  | Some (n, e) =>
      if (String.length (old +:+ b) <=? n)%nat then (None, set_file p (old +:+ b) s)
      else (Some (ErrOS e), set_file p (String.substring 0 n (old +:+ b)) s)
  | None => (None, set_file p (old +:+ b) s)
  end.

(** ** [file_ops.go] *)

(** The size is what the callers use of an [os.FileInfo]. *)
Definition GetFileInfo (filePath : string) (s : os_state) : result file_error Z * os_state :=
  match os_Open filePath s with
  | (Ok c, s) =>
      match f_stat F filePath with
      | Some e => (Err (ErrOS e), os_Close s)
      | None => (Ok (Z.of_nat (String.length c)), os_Close s)
      end
  | (Err e, s) => (Err e, s)
  | (Panic, s) => (Panic, s)
  end.

Fixpoint zeros (n : nat) : string := match n with O => "" | S n => String zero (zeros n) end.

(** A buffer of the file's size filled by one [Read]. *)
Definition ReadFileBytes (filePath : string) (s : os_state) : result file_error string * os_state :=
  match os_Open filePath s with
  | (Ok c, s) =>
      match f_stat F filePath with
      | Some e => (Err (ErrOS e), os_Close s)
      | None =>
          let fileSize := String.length c in
          if (fileSize =? 0)%nat then (Err (ErrZeroLength filePath), os_Close s)
          else match f_read F filePath fileSize with
               | inl e => (Err (ErrOS e), os_Close s)
               | inr n => (Ok (String.substring 0 n c +:+ zeros (fileSize - n)), os_Close s)
               end
      end
  | (Err e, s) => (Err e, s)
  | (Panic, s) => (Panic, s)
  end.

(** The last element of [strings.Split(filePath, "/")]. *)
Fixpoint base_from (acc s : string) : string :=
  match s with
  | EmptyString => acc
  | String c s' => if Ascii.eqb c "/" then base_from "" s' else base_from (acc +:+ String c "") s'
  end.

Definition base_name (p : string) : string := base_from "" p.

Context `{GZ : GzipLib}.

(** The deferred [output.Close()] runs on every return after [Create]. *)
Definition GzipFile (filePath outputPath : string) (s : os_state) : result file_error unit * os_state :=
  match os_Create outputPath s with
  | (Some e, s) => (Err e, s)
  | (None, s) =>
      match ReadFileBytes filePath s with
      | (Err e, s) => (Err e, os_Close s)
      | (Panic, s) => (Panic, s)
      | (Ok fileBuffer, s) =>
          match gz_new DefaultCompression with
          | None => (Panic, s)
          | Some g =>
              match gz_bad_name (base_name filePath) with
              | Some e => (Err (ErrGzip e), os_Close s)
              | None =>
                  let x := gz_run [GWrite fileBuffer] g in
                  match os_Append outputPath x.2 s with
                  | (Some e, s) => (Err e, os_Close s)
                  | (None, s) =>
                      match os_Append outputPath (sconcat (gz_close x.1)) s with
                      | (Some e, s) => (Err e, os_Close s)
                      | (None, s) => (Ok (), os_Close s)
                      end
                  end
              end
          end
      end
  end.

(** [input] is never closed; an error of [io.Copy] is returned as nil. *)
Definition GzipDecompressFile (filePath outputPath : string) (s : os_state) : result file_error unit * os_state :=
  match os_Open filePath s with
  | (Err e, s) => (Err e, s)
  | (Panic, s) => (Panic, s)
  | (Ok c, s) =>
      match gunzip c with
      | BadHeader e => (Err (ErrGzip e), s)
      | Stream _ _ =>
          match os_Create outputPath s with
          | (Some e, s) => (Err e, s)
          | (None, s) =>
              match gunzip (if decide (filePath = outputPath) then f_truncated F c else c) with
              | BadHeader _ => (Ok (), os_Close s)
              | Stream d err =>
                  match os_Append outputPath d s, err with
                  | (Some _, s), _ => (Ok (), os_Close s)
                  | (None, s), Some _ => (Ok (), os_Close s)
                  | (None, s), None => (Ok (), os_Close s)
                  end
              end
          end
      end
  end.

Definition DeleteFile (filePath : string) (s : os_state) : result file_error unit * os_state :=
  match f_remove F filePath with
  | Some e => (Err (ErrOS e), s)
  | None =>
      match os_files s !! filePath with
      | None => (Err ErrNotExist, s)
      | Some _ => (Ok (), mkOs (delete filePath (os_files s)) (os_fds s))
      end
  end.
End ops.

(** No failures. *)
Definition no_faults : os_faults :=
  mkFaults (fun _ => None) (fun _ => None) (fun _ n => inr n) (fun _ => None) (fun _ => None) (fun _ => None) (fun _ => "").

(** ** Facts *)

Lemma substring_all s : String.substring 0 (String.length s) s = s.
Proof. induction s as [|c s IH]; [done|]. exact (f_equal (String c) IH). Qed.

Section theorems.
Context `{GZ : GzipLib} `{!GzipLaws GZ}.

(** C33. [GzipFile] then [GzipDecompressFile] restores a file: for every non-empty
    file, and two other paths for the archive and the copy, when no call of the
    system fails and the name fits the gzip header; the file itself is not
    touched. *)
Theorem gzip_file_roundtrip s p z q c :
  os_files s !! p = Some c -> c <> "" -> p <> z -> z <> q -> p <> q -> gz_bad_name (base_name p) = None ->
  let r1 := GzipFile no_faults p z s in
  let r2 := GzipDecompressFile no_faults z q r1.2 in
  r1.1 = Ok () /\ r2.1 = Ok () /\ os_files r2.2 !! q = Some c /\ os_files r2.2 !! p = Some c.
Proof.
  intros Hp Hc Hpz Hzq Hpq Hname. cbv zeta. destruct gz_new_default as [g Hg].
  assert (Hlen : (String.length c =? 0)%nat = false) by (destruct c; done).
  assert (E1 : GzipFile no_faults p z s =
    (Ok (), mkOs (<[z := gz_stream [GWrite c] g]> (os_files s)) (os_fds s))).
  { unfold GzipFile, os_Create. cbn [f_create no_faults]. unfold ReadFileBytes, os_Open. cbn [f_open no_faults f_stat f_read].
    cbn [os_files with_fds set_file]. rewrite lookup_insert_ne, Hp, Hlen by done.
    rewrite Hg, Hname, substring_all, Nat.sub_diag, string_app_nil_r.
    unfold os_Append. repeat (progress cbn -[gz_run gz_close] || rewrite lookup_insert_eq || rewrite insert_insert_eq).
    unfold set_file, os_Close, with_fds. cbn [os_files os_fds pred]. by rewrite !insert_insert_eq. }
  rewrite E1. cbn [fst snd]. unfold GzipDecompressFile, os_Open. cbn [f_open no_faults os_files].
  rewrite lookup_insert_eq, (gz_roundtrip _ _ _ Hg). unfold os_Create. cbn [f_create no_faults].
  rewrite decide_False by done. rewrite (gz_roundtrip _ _ _ Hg). unfold os_Append. cbn [f_write no_faults].
  cbn [set_file os_files with_fds os_Close fst snd]. rewrite !lookup_insert_eq. cbn [default].
  unfold ops_data. simpl. rewrite string_app_nil_r.
  split_and!; try done. rewrite !lookup_insert_ne by done. done.
Qed.

(** Compressing a file onto itself destroys it: the output is created, and so
    truncated, before the input is read. *)
Theorem gzip_in_place_destroys F s p c :
  os_files s !! p = Some c -> f_create F p = None -> f_open F p = None -> f_stat F p = None ->
  let r := GzipFile F p p s in r.1 = Err (ErrZeroLength p) /\ os_files r.2 !! p = Some "".
Proof.
  intros Hp Hc Ho Hs. cbv zeta. unfold GzipFile, os_Create. rewrite Hc. unfold ReadFileBytes, os_Open. rewrite Ho.
  cbn [os_files with_fds set_file]. rewrite lookup_insert_eq, Hs. cbn. split; [done|apply lookup_insert_eq].
Qed.

(** [GzipDecompressFile] reports success for every file with a gzip header
    whose output can be created, also when the data are corrupt or the output
    cannot be written, and each such call leaks the descriptor of its input. *)
Theorem decompress_always_succeeds F s z q c d e :
  os_files s !! z = Some c -> f_open F z = None -> gunzip c = Stream d e -> f_create F q = None ->
  let r := GzipDecompressFile F z q s in r.1 = Ok () /\ os_fds r.2 = S (os_fds s).
Proof.
  intros Hz Ho Hg Hc. cbv zeta. unfold GzipDecompressFile, os_Open. rewrite Ho, Hz, Hg. unfold os_Create. rewrite Hc.
  assert (Ha : forall b s', os_fds (os_Append F q b s').2 = os_fds s') by (intros b s'; unfold os_Append; by repeat case_match).
  destruct (gunzip (if decide (z = q) then _ else _)) as [e'|d' e']; [done|].
  pose proof (Ha d' (with_fds (S (os_fds (with_fds (S (os_fds s)) s))) (set_file q "" (with_fds (S (os_fds s)) s)))) as Hf.
  destruct (os_Append F q d' _) as [[w|] s']; simpl in Hf |- *; [by rewrite Hf|].
  destruct e'; simpl; by rewrite Hf.
Qed.

(** The other operations close what they open, on every path: an operation
    that fails at any of its calls leaves the descriptors as they were, and only
    [GzipFile] changes files, its output alone. *)
Theorem descriptors_balanced F s p z :
  os_fds (GetFileInfo F p s).2 = os_fds s /\ os_files (GetFileInfo F p s).2 = os_files s /\
  os_fds (ReadFileBytes F p s).2 = os_fds s /\ os_files (ReadFileBytes F p s).2 = os_files s /\
  os_fds (GzipFile F p z s).2 = os_fds s /\
  (forall q, q <> z -> os_files (GzipFile F p z s).2 !! q = os_files s !! q).
Proof.
  assert (Hread : forall s, os_fds (ReadFileBytes F p s).2 = os_fds s /\ os_files (ReadFileBytes F p s).2 = os_files s /\
    (ReadFileBytes F p s).1 <> Panic).
  { intros s0. unfold ReadFileBytes, os_Open. by repeat case_match; simplify_eq/=. }
  assert (Happ : forall b s', os_fds (os_Append F z b s').2 = os_fds s' /\
    forall q, q <> z -> os_files (os_Append F z b s').2 !! q = os_files s' !! q).
  { intros b s'. unfold os_Append. repeat case_match; split; try done; intros q Hq; simpl; by rewrite lookup_insert_ne. }
  split; [|split]; [unfold GetFileInfo, os_Open; by repeat case_match; simplify_eq/=..|].
  split; [apply Hread|]. split; [apply Hread|].
  unfold GzipFile, os_Create. destruct (f_create F z) as [e|]; [done|].
  set (s1 := with_fds _ _). destruct (Hread s1) as (H1 & H2 & H3).
  assert (Hs1 : forall q, q <> z -> os_files s1 !! q = os_files s !! q) by (intros q Hq; simpl; by rewrite lookup_insert_ne).
  destruct (ReadFileBytes F p s1) as [[b|e|] s2]; simpl in H1, H2, H3; [|by simpl; rewrite H1, H2|done].
  destruct gz_new_default as [g ->]. destruct (gz_bad_name (base_name p)); [by simpl; rewrite H1, H2|].
  destruct (Happ (gz_run [GWrite b] g).2 s2) as [H4 H5]. destruct (os_Append F z _ s2) as [[e|] s3]; simpl in H4, H5 |- *.
  { rewrite H4, H1. split; [done|]. intros q Hq. by rewrite H5, H2, Hs1. }
  destruct (Happ (sconcat (gz_close (gz_run [GWrite b] g).1)) s3) as [H6 H7].
  destruct (os_Append F z _ s3) as [[e|] s4]; simpl in *; rewrite H6, H4, H1;
    (split; [done|]; intros q Hq; by rewrite H7, H5, H2, Hs1).
Qed.

(** [ReadFileBytes] trusts one [Read]: it returns the bytes that call gave
    and zeros for the rest of the file, without an error. *)
Theorem short_read_pads F s p c n :
  os_files s !! p = Some c -> c <> "" -> f_open F p = None -> f_stat F p = None ->
  f_read F p (String.length c) = inr n -> (n <= String.length c)%nat ->
  exists b, (ReadFileBytes F p s).1 = Ok b /\ String.length b = String.length c /\
    b = String.substring 0 n c +:+ zeros (String.length c - n).
Proof.
  intros Hp Hc Ho Hs Hr Hn. unfold ReadFileBytes, os_Open. rewrite Ho, Hp, Hs.
  assert (Hlen : (String.length c =? 0)%nat = false) by (destruct c; done). rewrite Hlen, Hr. eexists. split; [done|].
  split; [|done]. rewrite string_length_app.
  assert (H0 : forall k, String.length (zeros k) = k) by (induction k; simpl; auto).
  assert (H1 : forall m s, (m <= String.length s)%nat -> String.length (String.substring 0 m s) = m).
  { induction m as [|m IH]; intros [|a s0] Hm; simpl in *; try done; try lia. rewrite IH; lia. }
  rewrite H0, H1 by done. lia.
Qed.
End theorems.

(** ** Examples *)

Definition demo_os : os_state := mkOs {[ "a/b.log" := "data" ]} 3.

Lemma gzip_file_roundtrip_witness :
  let r := GzipDecompressFile no_faults "z" "q" (GzipFile no_faults "a/b.log" "z" demo_os).2 in
  r.1 = Ok () /\ os_files r.2 !! "q" = Some "data".
Proof.
  destruct (gzip_file_roundtrip demo_os "a/b.log" "z" "q" "data") as (_ & H1 & H2 & _);
    [reflexivity|discriminate|discriminate|discriminate|discriminate|reflexivity|].
  split; [exact H1|exact H2].
Defined.

Lemma gzip_in_place_destroys_witness :
  os_files (GzipFile no_faults "a/b.log" "a/b.log" demo_os).2 !! "a/b.log" = Some "".
Proof. apply (gzip_in_place_destroys no_faults demo_os "a/b.log" "data"); reflexivity. Defined.

(** A file with a header and no data. *)
Lemma decompress_always_succeeds_witness :
  let r := GzipDecompressFile no_faults "z" "q" (mkOs {[ "z" := "H" ]} 0) in
  r.1 = Ok () /\ os_fds r.2 = 1%nat.
Proof.
  apply (decompress_always_succeeds no_faults (mkOs {[ "z" := "H" ]} 0) "z" "q" "H" "" (Some "unexpected EOF")); reflexivity.
Defined.

Lemma descriptors_balanced_witness : os_fds (GzipFile no_faults "a/b.log" "z" demo_os).2 = 3%nat.
Proof. apply (descriptors_balanced no_faults demo_os "a/b.log" "z"). Defined.

Lemma short_read_pads_witness :
  let F := mkFaults (fun _ => None) (fun _ => None) (fun _ _ => inr 2%nat) (fun _ => None) (fun _ => None) (fun _ => None) (fun _ => "") in
  exists b, (ReadFileBytes F "a/b.log" demo_os).1 = Ok b /\ b = "da" +:+ zeros 2.
Proof.
  destruct (short_read_pads
    (mkFaults (fun _ => None) (fun _ => None) (fun _ _ => inr 2%nat) (fun _ => None) (fun _ => None) (fun _ => None) (fun _ => ""))
    demo_os "a/b.log" "data" 2) as (b & H1 & _ & H2); try reflexivity; [discriminate|simpl; lia|].
  exists b. split; [exact H1|exact H2].
Defined.
