(* ===== verification/FileScanner.v ===== *)
(** * Package [files]: the directory scanner ([scanner.go], [structs.go])

    [Scan] runs [visit] over a directory tree in the order of [filepath.Walk].
    The reference it is compared with is a list of entries cut at the first
    error and partitioned. *)

From stdpp Require Import base strings list.
From Stdlib Require Import ZArith Lia.
From S2P Require Import Prelude.

Local Open Scope Z_scope.

(** ** Data *)

Record File : Type := mkFile {
  Name : string;
  Path : string;
  Size : Z;
  LastModification : Z;
  Ignored : bool;
}.

Record ScanResult : Type := mkScanResult {
  res_Files : list File;
  res_Ignored : list File;
  res_Errors : list string;
}.

Record Scanner : Type := mkScanner {
  fileRegexp : string -> bool;
  minFileSize : Z;
  filesFound : list File;
  ignoredFiles : list File;
  errorsFound : list string;
}.

(** [regexp.MustCompile] panics on an expression that does not compile. *)
Definition NewScanner (Compile : string -> option (string -> bool)) (fileRegexp : string) (minFileSize : Z)
    : result Empty_set Scanner :=
  match Compile fileRegexp with
  | Some re => Ok (mkScanner re minFileSize [] [] [])
  | None => Panic
  end.

(** An [os.FileInfo]. *)
Record FileInfo : Type := mkInfo { fi_Name : string; fi_Size : Z; fi_ModTime : Z; fi_IsDir : bool }.

(** ** [visit] *)

Definition add_error (e : string) (s : Scanner) : Scanner :=
  mkScanner (fileRegexp s) (minFileSize s) (filesFound s) (ignoredFiles s) (errorsFound s ++ [e]).
Definition add_found (f : File) (s : Scanner) : Scanner :=
  mkScanner (fileRegexp s) (minFileSize s) (filesFound s ++ [f]) (ignoredFiles s) (errorsFound s).
Definition add_ignored (f : File) (s : Scanner) : Scanner :=
  mkScanner (fileRegexp s) (minFileSize s) (filesFound s) (ignoredFiles s ++ [f]) (errorsFound s).

(** [f] is nil only together with an error. *)
Definition visit (path : string) (f : option FileInfo) (err : option string) (s : Scanner)
    : result Empty_set (option string) * Scanner :=
  match err with
  | Some e => (Ok (Some e), add_error e s)
  | None =>
      match f with
      | None => (Panic, s)
      | Some f =>
          if fi_IsDir f then (Ok None, s)
          else
            let file (ignored : bool) := mkFile (fi_Name f) path (fi_Size f) (fi_ModTime f) ignored in
            if fileRegexp s path then
              if fi_Size f <? minFileSize s then (Ok None, add_ignored (file true) s)
              else (Ok None, add_found (file false) s)
            else (Ok None, add_ignored (file true) s)
      end
  end.

(** ** Directory trees and [filepath.Walk]

    A directory whose names cannot be read has an error; an entry whose [Lstat]
    fails has one too. *)
Inductive node : Type :=
| NFile (size mtime : Z)
| NDir (size mtime : Z) (err : option string) (entries : entries)
with entries : Type :=
| ENil
| EBad (name err : string) (rest : entries)
| ENode (name : string) (n : node) (rest : entries).

Definition node_info (name : string) (n : node) : FileInfo :=
  match n with
  | NFile sz t => mkInfo name sz t false
  | NDir sz t _ _ => mkInfo name sz t true
  end.

Section walk.
(** [filepath.Join] *)
Context (Join : string -> string -> string).

(** [walk]; an error or a panic ends it. *)
Fixpoint walk (path name : string) (n : node) (s : Scanner) : result Empty_set (option string) * Scanner :=
  match n with
  | NFile _ _ => visit path (Some (node_info name n)) None s
  | NDir _ _ err es =>
      match visit path (Some (node_info name n)) err s with
      | (Ok err1, s) =>
          match err, err1 with
          | None, None => walk_entries path es s
          | _, _ => (Ok err1, s)
          end
      | r => r
      end
  end
with walk_entries (path : string) (es : entries) (s : Scanner) : result Empty_set (option string) * Scanner :=
  match es with
  | ENil => (Ok None, s)
  | EBad name err rest =>
      match visit (Join path name) None (Some err) s with
      | (Ok None, s) => walk_entries path rest s
      | r => r
      end
  | ENode name n rest =>
      match walk (Join path name) name n s with
      | (Ok None, s) => walk_entries path rest s
      | r => r
      end
  end.

(** [filepath.Walk] of a root whose [Lstat] gives a node or an error. *)
Definition Walk (root : string) (base : string) (t : string + node) (s : Scanner) : result Empty_set (option string) * Scanner :=
  match t with
  | inl e => visit root None (Some e) s
  | inr n => walk root base n s
  end.

Definition Scan (directoryRoot base : string) (t : string + node) (s : Scanner)
    : result Empty_set (ScanResult * option string) * Scanner :=
  let s := mkScanner (fileRegexp s) (minFileSize s) [] [] [] in
  let '(r, s) := Walk directoryRoot base t s in
  (rmap (fun err => (mkScanResult (filesFound s) (ignoredFiles s) (errorsFound s), err)) r, s).

(** ** The reference *)

(** What is met, in order: files and errors. *)
Inductive met : Type := MFile (path name : string) (size mtime : Z) | MErr (e : string).

Fixpoint node_met (path name : string) (n : node) : list met :=
  match n with
  | NFile sz t => [MFile path name sz t]
  | NDir _ _ (Some e) _ => [MErr e]
  | NDir _ _ None es => entries_met path es
  end
with entries_met (path : string) (es : entries) : list met :=
  match es with
  | ENil => []
  | EBad name e rest => MErr e :: entries_met path rest
  | ENode name n rest => node_met (Join path name) name n ++ entries_met path rest
  end.

Definition tree_met (root base : string) (t : string + node) : list met :=
  match t with
  | inl e => [MErr e]
  | inr n => node_met root base n
  end.

(** The files before the first error, and that error. *)
Fixpoint cut (l : list met) : list (string * string * Z * Z) * option string :=
  match l with
  | [] => ([], None)
  | MErr e :: _ => ([], Some e)
  | MFile p n sz t :: l => let x := cut l in ((p, n, sz, t) :: x.1, x.2)
  end.

Definition wanted (s : Scanner) (f : string * string * Z * Z) : bool :=
  let '(p, n, sz, t) := f in fileRegexp s p && (minFileSize s <=? sz).

Definition mk_file (ignored : bool) (f : string * string * Z * Z) : File :=
  let '(p, n, sz, t) := f in mkFile n p sz t ignored.

(** The scanner after the files and the error of a list. *)
Definition scanned (x : list (string * string * Z * Z) * option string) (s : Scanner) : Scanner :=
  mkScanner (fileRegexp s) (minFileSize s)
    (filesFound s ++ (mk_file false <$> filter (fun f => wanted s f = true) x.1))
    (ignoredFiles s ++ (mk_file true <$> filter (fun f => wanted s f = false) x.1))
    (errorsFound s ++ option_list x.2).

Lemma scanned_nil s : scanned ([], None) s = s.
Proof. unfold scanned. simpl. rewrite !app_nil_r. by destruct s. Qed.

Lemma scanned_app l x s : scanned x (scanned (l, None) s) = scanned (l ++ x.1, x.2) s.
Proof.
  unfold scanned. simpl. rewrite app_nil_r, !filter_app, !fmap_app, <- !app_assoc. done.
Qed.

Lemma visit_file path name sz t s :
  visit path (Some (mkInfo name sz t false)) None s = (Ok None, scanned ([(path, name, sz, t)], None) s).
Proof.
  unfold visit, scanned. cbn [fi_IsDir fi_Size fi_Name fi_ModTime fst snd option_list].
  rewrite app_nil_r. destruct (fileRegexp s path) eqn:E; [destruct (Z.ltb_spec sz (minFileSize s))|].
  - assert (Hw : wanted s (path, name, sz, t) = false) by (simpl; rewrite E; simpl; lia).
    rewrite filter_cons_False, filter_nil, filter_cons_True, filter_nil by congruence. simpl. by rewrite app_nil_r.
  - assert (Hw : wanted s (path, name, sz, t) = true) by (simpl; rewrite E; simpl; lia).
    rewrite filter_cons_True, filter_nil, filter_cons_False, filter_nil by congruence. simpl. by rewrite app_nil_r.
  - assert (Hw : wanted s (path, name, sz, t) = false) by (simpl; by rewrite E).
    rewrite filter_cons_False, filter_nil, filter_cons_True, filter_nil by congruence. simpl. by rewrite app_nil_r.
Qed.

Lemma visit_error path f e s : visit path f (Some e) s = (Ok (Some e), scanned ([], Some e) s).
Proof. unfold visit, scanned. simpl. by rewrite !app_nil_r. Qed.

Lemma cut_app l1 l2 :
  cut (l1 ++ l2) = match (cut l1).2 with
                   | Some e => cut l1
                   | None => ((cut l1).1 ++ (cut l2).1, (cut l2).2)
                   end.
Proof.
  induction l1 as [|[p n sz t|e] l1 IH]; simpl; [by destruct (cut l2)| |done].
  rewrite IH. by destruct (cut l1) as [? [e|]].
Qed.

Scheme node_ind2 := Induction for node Sort Prop
  with entries_ind2 := Induction for entries Sort Prop.
Combined Scheme node_entries_ind from node_ind2, entries_ind2.

Lemma walk_scanned :
  (forall n path name s, walk path name n s = (Ok (cut (node_met path name n)).2, scanned (cut (node_met path name n)) s)) /\
  (forall es path s, walk_entries path es s = (Ok (cut (entries_met path es)).2, scanned (cut (entries_met path es)) s)).
Proof.
  apply node_entries_ind.
  - intros sz t path name s. cbn [walk node_info]. by rewrite visit_file.
  - intros sz t [e|] es IH path name s; cbn [walk node_info node_met].
    + rewrite visit_error. done.
    + unfold visit. cbn [fi_IsDir]. apply IH.
  - intros path s. by rewrite scanned_nil.
  - intros name e rest IH path s. cbn [walk_entries entries_met cut]. by rewrite visit_error.
  - intros name n IHn rest IH path s. cbn [walk_entries entries_met]. rewrite IHn, cut_app.
    destruct (cut (node_met (Join path name) name n)) as [l [e|]]; cbn [fst snd]; [done|].
    rewrite IH. by rewrite scanned_app.
Qed.

Lemma scan_result root base t s :
  let x := cut (tree_met root base t) in
  Scan root base t s =
  (Ok (mkScanResult (mk_file false <$> filter (fun f => wanted s f = true) x.1)
        (mk_file true <$> filter (fun f => wanted s f = false) x.1) (option_list x.2), x.2),
   scanned x (mkScanner (fileRegexp s) (minFileSize s) [] [] [])).
Proof.
  cbv zeta. unfold Scan, Walk. destruct t as [e|n]; cbn [tree_met].
  - by rewrite visit_error.
  - rewrite (proj1 walk_scanned). done.
Qed.

(** C19. [Scan] is the reference: whatever the scanner found before, the result
    has, in the order of the walk, the files up to the first error, found when
    the path matches and the size is enough and ignored otherwise, and that
    error, which is also returned. *)
Theorem scan_spec root base t s :
  let x := cut (tree_met root base t) in
  (Scan root base t s).1 =
  Ok (mkScanResult (mk_file false <$> filter (fun f => wanted s f = true) x.1)
        (mk_file true <$> filter (fun f => wanted s f = false) x.1) (option_list x.2), x.2).
Proof. cbv zeta. by rewrite scan_result. Qed.

(** No file is lost or reported twice: in a scan without errors, the found and
    the ignored files together are a permutation of the files of the tree. *)
Theorem scan_partition root base t s res :
  (Scan root base t s).1 = Ok (res, None) ->
  (fun f => (Path f, Name f, Size f, LastModification f)) <$> (res_Files res ++ res_Ignored res)
    ≡ₚ (cut (tree_met root base t)).1 /\
  length (cut (tree_met root base t)).1 = length (tree_met root base t) /\ res_Errors res = [].
Proof.
  rewrite scan_result. cbv zeta. cbn [fst]. destruct (cut (tree_met root base t)) as [l o] eqn:Hcut. cbn [fst snd]. intros [= <- ->].
  cbn [res_Files res_Ignored res_Errors option_list]. split_and!; [| |done].
  - rewrite fmap_app, <- !list_fmap_compose.
    assert (Hid : forall b (k : list (string * string * Z * Z)), ((fun f => (Path f, Name f, Size f, LastModification f)) ∘ mk_file b) <$> k = k).
    { intros b k. rewrite <- (list_fmap_id k) at 2. apply list_fmap_ext. by intros _ [[[p n] sz] mt] _. }
    rewrite !Hid. clear. induction l as [|f l IH]; [done|]. destruct (wanted s f) eqn:E.
    + rewrite filter_cons_True, filter_cons_False by congruence. rewrite <- app_comm_cons. by rewrite IH.
    + rewrite filter_cons_False, filter_cons_True by congruence. by rewrite <- Permutation_middle, IH.
  - clear -Hcut. revert l Hcut. induction (tree_met root base t) as [|[p n sz mt|e] k IH]; intros l Hcut; simplify_eq/=; [done|].
    destruct (cut k) as [l' o'] eqn:E. simplify_eq/=. f_equal. by apply IH.
Qed.
End walk.

(** ** Examples *)

Definition demo_tree : string + node :=
  inr (NDir 0 0 None (ENode "a.log" (NFile 10 1) (ENode "d" (NDir 0 0 None (ENode "b.txt" (NFile 5 2) ENil)) ENil))).

Definition demo_scanner : Scanner := mkScanner (fun p => (String.length p <=? 7)%nat) 3 [] [] [].

Definition demo_join (p n : string) : string := p +:+ "/" +:+ n.

Lemma scan_partition_witness :
  exists res, (Scan demo_join "r" "r" demo_tree demo_scanner).1 = Ok (res, None) /\
    (fun f => (Path f, Name f, Size f, LastModification f)) <$> (res_Files res ++ res_Ignored res)
      ≡ₚ [("r/a.log", "a.log", 10, 1); ("r/d/b.txt", "b.txt", 5, 2)].
Proof.
  eexists. split; [reflexivity|].
  exact (proj1 (scan_partition demo_join "r" "r" demo_tree demo_scanner _ eq_refl)).
Defined.
