(* ===== verification/Solar.v ===== *)
(** * Package [solar] ([solr_service.go], [solr_admin.go], [solr_search.go])

    The service over the Solr client.  The client ([github.com/uol/go-solr]) is a
    function from the calls made so far and the next call to its outcome, which
    may be a panic; the service is a state and error monad over the trace of
    the calls and the cache of interfaces.  A deferred [recoverFromFailure]
    turns a panic into the zero values of the results. *)

From stdpp Require Import base gmap strings list pretty.
From Stdlib Require Import ZArith Lia.
From S2P Require Import Prelude.

Local Open Scope Z_scope.

(** ** The client *)

Definition Values : Type := list (string * string).        (* [url.Values] in the order of [Add] *)
Definition Document : Type := list (string * string).

(** The calls on a [solr.Query]. *)
Inductive qop : Type :=
| QQ (query : string)
| QFieldList (fields : string)
| QStart (n : Z)
| QRows (n : Z)
| QFilterQuery (fq : string)
| QAddFacet (f : string)
| QAddChildFacet (f : string)
| QSetFacetMinCount (n : Z)
| QSetParam (k v : string).

Definition Query : Type := list qop.

Record Field : Type := mkField {
  fld_Name : string;
  fld_Type : string;
  fld_MultiValued : bool;
  fld_Stored : bool;
  fld_Indexed : bool;
  fld_DocValues : bool;
}.

Inductive scall : Type :=
| CNewInterface (url collection : string)
| CAdd (collection : string) (docs : list Document) (params : Values)
| CDelete (collection query : string) (params : Values)
| CResult (collection : string) (q : Query)
| CBlockJoin (collection : string) (q : Query)
| CSchema (collection : string)
| CPost (collection : string) (f : Field)
| CAction (action : string) (params : Values).

(** A decoded JSON value, as far as the service looks into it. *)
Inductive json : Type := JString (s : string) | JArray (l : list json) | JOther.

(** What a call returns: the fields of its response the service reads. *)
Record reply : Type := mkReply {
  rp_Status : Z;
  rp_Success : bool;
  rp_Result : string;
  rp_Response : gmap string json;
}.

Inductive outcome : Type := ROk (r : reply) | RErr (e : string) | RPanic.

(** ** The service *)

Record SolrService : Type := mkSolr {
  url : string;
  solrInterfaceCache : gset string;     (* the collections with an interface *)
  trace : list (scall * outcome);
}.

Inductive solr_error : Type :=
| ErrClient (e : string)
| ErrNilDocument
| ErrNoDocuments
| ErrNoID
| ErrNoQuery
| ErrDelete (result : string)
| ErrCreate
| ErrRemove
| ErrList.

Definition M (A : Type) : Type := SolrService -> result solr_error A * SolrService.

Definition ret {A} (a : A) : M A := fun s => (Ok a, s).
Definition throw {A} (e : solr_error) : M A := fun s => (Err e, s).
Definition panic {A} : M A := fun s => (Panic, s).
Definition bind {A B} (m : M A) (k : A -> M B) : M B := fun s =>
  match m s with
  | (Ok a, s) => k a s
  | (Err e, s) => (Err e, s)
  | (Panic, s) => (Panic, s)
  end.

Notation "'do' x <- m ;; k" := (bind m (fun x => k)) (at level 10, x name, m at level 99, k at level 200).

(** [defer ss.recoverFromFailure()] in a function whose zero results are [d]. *)
Definition recovering {A} (d : A) (m : M A) : M A := fun s =>
  match m s with
  | (Panic, s) => (Ok d, s)
  | r => r
  end.

Section solar.
Context (client : list (scall * outcome) -> scall -> outcome).

Definition call (c : scall) : M reply := fun s =>
  let o := client (trace s) c in
  let s := mkSolr (url s) (solrInterfaceCache s) (trace s ++ [(c, o)]) in
  match o with
  | ROk r => (Ok r, s)
  | RErr e => (Err (ErrClient e), s)
  | RPanic => (Panic, s)
  end.

(** [admin] is the outcome of [solr.NewCollectionsAdmin]. *)
Definition NewSolrService (u : string) (admin : option string) : result solr_error SolrService :=
  match admin with
  | Some e => Err (ErrClient e)
  | None => Ok (mkSolr u ∅ [])
  end.

(** [getSolrInterface]; an interface is named by its collection. *)
Definition getSolrInterface (collection : string) : M unit := fun s =>
  if decide (collection ∈ solrInterfaceCache s) then (Ok (), s)
  else (do _ <- call (CNewInterface (url s) collection) ;;
        (fun s => (Ok (), mkSolr (url s) ({[collection]} ∪ solrInterfaceCache s) (trace s)))) s.

Definition commit_params (commit : bool) : Values := if commit then [("commit", "true")] else [].

Definition AddDocument (collection : string) (commit : bool) (doc : option Document) : M unit :=
  recovering tt
    match doc with
    | None => throw ErrNilDocument
    | Some d =>
        do _ <- getSolrInterface collection ;;
        do _ <- call (CAdd collection [d] (commit_params commit)) ;;
        ret tt
    end.

Definition AddDocuments (collection : string) (commit : bool) (docs : list Document) : M unit :=
  recovering tt
    match docs with
    | [] => throw ErrNoDocuments
    | _ =>
        do _ <- getSolrInterface collection ;;
        do _ <- call (CAdd collection docs (commit_params commit)) ;;
        ret tt
    end.

Definition DeleteDocumentByQuery (collection : string) (commit : bool) (query : string) : M unit :=
  recovering tt
    (if (query =? "")%string then throw ErrNoQuery
     else
       do _ <- getSolrInterface collection ;;
       do r <- call (CDelete collection query (commit_params commit)) ;;
       if negb (rp_Success r) then throw (ErrDelete (rp_Result r)) else ret tt).

Definition DeleteDocumentByID (collection : string) (commit : bool) (id : string) : M unit :=
  recovering tt
    (if (id =? "")%string then throw ErrNoID
     else
       do _ <- DeleteDocumentByQuery collection commit ("id:" +:+ id) ;;
       ret tt).

(** *** [solr_search.go] *)

Definition buildBasicQuery (query fields : string) (start rows : Z) : Query :=
  [QQ query] ++ (if (fields =? "")%string then [] else [QFieldList fields]) ++ [QStart start; QRows rows].

Definition buildFilteredQuery (query fields : string) (start rows : Z) (filterQueries : list string) : Query :=
  buildBasicQuery query fields start rows ++ (QFilterQuery <$> filterQueries).

Definition SimpleQuery (collection query fields : string) (start rows : Z) : M (option reply) :=
  recovering None
    (do _ <- getSolrInterface collection ;;
     do r <- call (CResult collection (buildBasicQuery query fields start rows)) ;;
     ret (Some r)).

Definition FilteredQuery (collection query fields : string) (start rows : Z) (filterQueries : list string) : M (option reply) :=
  recovering None
    (do _ <- getSolrInterface collection ;;
     do r <- call (CResult collection (buildFilteredQuery query fields start rows filterQueries)) ;;
     ret (Some r)).

Definition addFacets (facetFields : list string) (q : Query) : Query := q ++ (QAddFacet <$> facetFields).
Definition addChildrenFacets (facetFields : list string) (q : Query) : Query := q ++ (QAddChildFacet <$> facetFields).

Definition Facets (collection query fields : string) (start rows : Z) (filterQueries facetFields childrenFacetFields : list string)
    (blockJoin : bool) (facetLimit minCount : Z) : M (option reply) :=
  recovering None
    (do _ <- getSolrInterface collection ;;
     let q := buildFilteredQuery query fields start rows filterQueries in
     let q := addChildrenFacets childrenFacetFields (addFacets facetFields q) in
     let q := q ++ [QSetFacetMinCount minCount; QSetParam "facet.limit" (pretty facetLimit)] in
     do r <- (if blockJoin then call (CBlockJoin collection q) else call (CResult collection q)) ;;
     ret (Some r)).

(** *** [solr_admin.go] *)

Definition getSchema (collection : string) : M unit :=
  do _ <- getSolrInterface collection ;;
  do _ <- call (CSchema collection) ;;
  ret tt.

Definition AddNewField (collection name fieldType : string) (multiValued stored indexed docValues : bool) : M unit :=
  do _ <- getSchema collection ;;
  do _ <- call (CPost collection (mkField name fieldType multiValued stored indexed docValues)) ;;
  ret tt.

Definition CreateCollection (collection configSet : string) (numShards replicationFactor : Z) : M unit :=
  let params := [("name", collection); ("numShards", pretty numShards);
                 ("replicationFactor", pretty replicationFactor); ("waitForFinalState", "true")] in
  let params := if (configSet =? "")%string then params else params ++ [("collection.configName", configSet)] in
  do r <- call (CAction "CREATE" params) ;;
  if negb (rp_Status r =? 0) then throw ErrCreate else ret tt.

Definition DeleteCollection (collection : string) : M unit :=
  do r <- call (CAction "DELETE" [("name", collection)]) ;;
  if negb (rp_Status r =? 0) then throw ErrRemove else ret tt.

(** [item.(string)] of every element. *)
Fixpoint strings_of (l : list json) : option (list string) :=
  match l with
  | [] => Some []
  | JString s :: l => cons s <$> strings_of l
  | _ => None
  end.

Definition ListCollections : M (list string) :=
  do r <- call (CAction "LIST" []) ;;
  if negb (rp_Status r =? 0) then throw ErrList
  else match rp_Response r !! "collections" with
       | Some (JArray l) => match strings_of l with Some ss => ret ss | None => panic end
       | _ => panic
       end.
End solar.

(** ** A program logic for the service

    [I] holds at every exit, [Q] when the program returns. *)

Section logic.
Context (I : SolrService -> Prop).

Definition triple {A} (P : SolrService -> Prop) (m : M A) (Q : A -> SolrService -> Prop) : Prop :=
  forall s, I s -> P s -> I (m s).2 /\ forall a, (m s).1 = Ok a -> Q a (m s).2.

Lemma triple_ret {A} (a : A) (Q : A -> SolrService -> Prop) : triple (Q a) (ret a) Q.
Proof. intros s HI HP. split; [done|]. by intros b [= <-]. Qed.

Lemma triple_throw {A} P e (Q : A -> SolrService -> Prop) : triple P (throw e) Q.
Proof. intros s HI HP. by split. Qed.

Lemma triple_panic {A} P (Q : A -> SolrService -> Prop) : triple P panic Q.
Proof. intros s HI HP. by split. Qed.

Lemma triple_bind {A B} P (R : A -> SolrService -> Prop) (Q : B -> SolrService -> Prop) m k :
  triple P m R -> (forall a, triple (R a) (k a) Q) -> triple P (bind m k) Q.
Proof.
  intros Hm Hk s HI HP. destruct (Hm s HI HP) as [HI' HR]. unfold bind.
  destruct (m s) as [[a|e|] s']; simpl in *; [|by split..]. by apply Hk, HR.
Qed.

Lemma triple_weaken {A} P (P' : SolrService -> Prop) (Q Q' : A -> SolrService -> Prop) m :
  triple P m Q -> (forall s, P' s -> P s) -> (forall a s, Q a s -> Q' a s) -> triple P' m Q'.
Proof. intros H HP HQ s HI HP'. destruct (H s HI (HP _ HP')) as [? HA]. split; [done|]. intros a E. by apply HQ, HA. Qed.

Lemma triple_recovering {A} P (d : A) m (Q : A -> SolrService -> Prop) :
  triple P m Q -> triple P (recovering d m) (fun _ _ => True).
Proof. intros H s HI HP. destruct (H s HI HP) as [HI' _]. unfold recovering. by destruct (m s) as [[a|e|] s']. Qed.
End logic.

Notation always I m := (triple I (fun _ => True) m (fun _ _ => True)).

Create HintDb solar.
#[export] Hint Resolve triple_throw triple_panic : solar.

(** ** The cache of interfaces *)

(** A successful creation of an interface, and the collection a call needs. *)
Definition is_creation (c : string) (x : scall * outcome) : bool :=
  match x with
  | (CNewInterface _ c', ROk _) => (c =? c')%string
  | _ => false
  end.

Definition needs (k : scall) : option string :=
  match k with
  | CAdd c _ _ | CDelete c _ _ | CResult c _ | CBlockJoin c _ | CSchema c | CPost c _ => Some c
  | CNewInterface _ _ | CAction _ _ => None
  end.

Definition creations (c : string) (tr : list (scall * outcome)) : nat :=
  length (filter (fun x => is_creation c x = true) tr).

(** Every call on a collection comes after a creation of its interface. *)
Definition ordered (tr : list (scall * outcome)) : Prop :=
  forall l1 x l2 c, tr = l1 ++ x :: l2 -> needs x.1 = Some c -> (0 < creations c l1)%nat.

Record cache_inv (s : SolrService) : Prop := {
  ci_once c : creations c (trace s) = if decide (c ∈ solrInterfaceCache s) then 1%nat else 0%nat;
  ci_ordered : ordered (trace s);
}.

Lemma creations_snoc c tr x : creations c (tr ++ [x]) = (creations c tr + if is_creation c x then 1 else 0)%nat.
Proof.
  unfold creations. rewrite filter_app, length_app. f_equal.
  destruct (is_creation c x) eqn:E; [rewrite filter_cons_True by done|rewrite filter_cons_False by congruence]; done.
Qed.

Lemma ordered_snoc tr x :
  ordered tr -> (forall c, needs x.1 = Some c -> (0 < creations c tr)%nat) -> ordered (tr ++ [x]).
Proof.
  intros Ho Hx l1 y l2 c E Hy. destruct l2 as [|z l2 _] using rev_ind.
  - apply app_inj_tail in E as [-> ->]. by apply Hx.
  - rewrite app_comm_cons, app_assoc in E. apply app_inj_tail in E as [-> _]. by eapply Ho.
Qed.

Section cache.
Context (client : list (scall * outcome) -> scall -> outcome).

Lemma triple_call k P :
  (forall u c, k <> CNewInterface u c) ->
  (forall c, needs k = Some c -> forall s, P s -> c ∈ solrInterfaceCache s) ->
  (forall s tr, P s -> P (mkSolr (url s) (solrInterfaceCache s) tr)) ->
  triple cache_inv P (call client k) (fun _ => P).
Proof.
  intros Hk Hn HP s [H1 H2] Hp. unfold call.
  assert (Hinv : cache_inv (mkSolr (url s) (solrInterfaceCache s) (trace s ++ [(k, client (trace s) k)]))).
  { split; simpl.
    - intros c. rewrite creations_snoc, H1. destruct k; try (by rewrite Nat.add_0_r). by destruct (Hk url0 collection).
    - apply ordered_snoc; [done|]. intros c Hc. rewrite H1, decide_True by (by eapply Hn). lia. }
  destruct (client (trace s) k); (split; [done|]); intros a; simpl; [intros _; by apply HP|done|done].
Qed.

Lemma triple_interface c :
  triple cache_inv (fun _ => True) (getSolrInterface client c) (fun _ s => c ∈ solrInterfaceCache s).
Proof.
  intros s [H1 H2] _. unfold getSolrInterface. destruct (decide (c ∈ solrInterfaceCache s)) as [Hc|Hc]; [done|].
  unfold bind, call. destruct (client (trace s) _) as [r|e|]; simpl.
  - split; [|intros _ _; set_solver]. split; simpl.
    + intros d. rewrite creations_snoc, H1. simpl. destruct (String.eqb_spec d c) as [->|Hne].
      * rewrite decide_False, decide_True by set_solver. done.
      * rewrite Nat.add_0_r. destruct (decide (d ∈ solrInterfaceCache s));
          [rewrite decide_True by set_solver|rewrite decide_False by set_solver]; done.
    + by apply ordered_snoc.
  - split; [|done]. split; simpl; [intros d; by rewrite creations_snoc, H1, Nat.add_0_r|by apply ordered_snoc].
  - split; [|done]. split; simpl; [intros d; by rewrite creations_snoc, H1, Nat.add_0_r|by apply ordered_snoc].
Qed.

(** A call on the collection whose interface is at hand, or an administrative one. *)
Lemma triple_use c k :
  needs k = Some c ->
  triple cache_inv (fun s => c ∈ solrInterfaceCache s) (call client k) (fun _ s => c ∈ solrInterfaceCache s).
Proof.
  intros Hn. apply triple_call; [by intros u d ->| |done]. intros d Hd s Hs. rewrite Hn in Hd. by injection Hd as <-.
Qed.

Lemma triple_action a ps : always cache_inv (call client (CAction a ps)).
Proof. by apply triple_call. Qed.

Lemma triple_end {A} P (a : A) : triple cache_inv P (ret a) (fun _ _ => True).
Proof. eapply triple_weaken; [apply (triple_ret _ a (fun _ _ => True))|done|done]. Qed.
End cache.

#[export] Hint Resolve triple_end : solar.

(** ** The operations of the service *)

Inductive solr_op : Type :=
| OAddDocument (collection : string) (commit : bool) (doc : option Document)
| OAddDocuments (collection : string) (commit : bool) (docs : list Document)
| ODeleteByQuery (collection : string) (commit : bool) (query : string)
| ODeleteByID (collection : string) (commit : bool) (id : string)
| OSimpleQuery (collection query fields : string) (start rows : Z)
| OFilteredQuery (collection query fields : string) (start rows : Z) (fqs : list string)
| OFacets (collection query fields : string) (start rows : Z) (fqs ffs cfs : list string) (blockJoin : bool) (limit minCount : Z)
| OAddNewField (collection name fieldType : string) (multiValued stored indexed docValues : bool)
| OCreateCollection (collection configSet : string) (numShards replicationFactor : Z)
| ODeleteCollection (collection : string)
| OListCollections.

Section ops.
Context (client : list (scall * outcome) -> scall -> outcome).

Definition run_op (o : solr_op) : SolrService -> SolrService :=
  match o with
  | OAddDocument c cm d => fun s => (AddDocument client c cm d s).2
  | OAddDocuments c cm ds => fun s => (AddDocuments client c cm ds s).2
  | ODeleteByQuery c cm q => fun s => (DeleteDocumentByQuery client c cm q s).2
  | ODeleteByID c cm i => fun s => (DeleteDocumentByID client c cm i s).2
  | OSimpleQuery c q f st rw => fun s => (SimpleQuery client c q f st rw s).2
  | OFilteredQuery c q f st rw fq => fun s => (FilteredQuery client c q f st rw fq s).2
  | OFacets c q f st rw fq ff cf bj l mc => fun s => (Facets client c q f st rw fq ff cf bj l mc s).2
  | OAddNewField c n t mv sd ix dv => fun s => (AddNewField client c n t mv sd ix dv s).2
  | OCreateCollection c cs n r => fun s => (CreateCollection client c cs n r s).2
  | ODeleteCollection c => fun s => (DeleteCollection client c s).2
  | OListCollections => fun s => (ListCollections client s).2
  end.

(** Runs a program that gets the interface of a collection and uses it. *)
Ltac solve_triple :=
  repeat first
    [ eapply triple_recovering
    | eapply triple_bind; [first [apply triple_interface | by apply triple_use | apply triple_action]|intros ?]
    | progress eauto with solar
    | case_match ].

Lemma delete_by_query_keeps c cm q : always cache_inv (DeleteDocumentByQuery client c cm q).
Proof. unfold DeleteDocumentByQuery. solve_triple. Qed.

Lemma run_op_keeps o s : cache_inv s -> cache_inv (run_op o s).
Proof.
  assert (Hk : forall A (m : M A), always cache_inv m -> cache_inv s -> cache_inv (m s).2).
  { intros A m Hm Hs. by destruct (Hm s Hs I). }
  destruct o; simpl; apply Hk.
  - unfold AddDocument. solve_triple.
  - unfold AddDocuments. solve_triple.
  - apply delete_by_query_keeps.
  - unfold DeleteDocumentByID. eapply triple_recovering. case_match; [eauto with solar|].
    eapply triple_bind; [apply delete_by_query_keeps|]. eauto with solar.
  - unfold SimpleQuery. solve_triple.
  - unfold FilteredQuery. solve_triple.
  - unfold Facets. solve_triple.
  - unfold AddNewField, getSchema.
    eapply (triple_bind _ _ (fun _ s => collection ∈ solrInterfaceCache s)); [|intros ?; solve_triple].
    eapply triple_bind; [apply triple_interface|intros ?]. eapply triple_bind; [by apply triple_use|intros ?].
    apply (triple_ret _ tt (fun _ s => collection ∈ solrInterfaceCache s)).
  - unfold CreateCollection. solve_triple.
  - unfold DeleteCollection. solve_triple.
  - unfold ListCollections. solve_triple.
Qed.
End ops.

(** C18. The cache of interfaces: through any sequence of operations, errors and
    panics of the client included, the service creates at most one interface per
    collection successfully, and no call on a collection is made before its
    interface was created. *)
Theorem interfaces_cached client u s0 ops c :
  NewSolrService u None = Ok s0 ->
  let s := foldl (fun s o => run_op client o s) s0 ops in
  (creations c (trace s) <= 1)%nat /\ ordered (trace s).
Proof.
  intros [= <-]. cbv zeta.
  assert (H : cache_inv (foldl (fun s o => run_op client o s) (mkSolr u ∅ []) ops)).
  { induction ops as [|o ops IH] using rev_ind.
    - split; simpl; [intros d; by rewrite decide_False by set_solver|]. intros l1 x l2 d E. by destruct l1.
    - rewrite foldl_app. by apply run_op_keeps. }
  destruct H as [H1 H2]. rewrite H1. split; [|done]. destruct (decide _); lia.
Qed.

Definition demo_reply : reply := mkReply 0 true "" ∅.

Lemma interfaces_cached_witness :
  let s := foldl (fun s o => run_op (fun _ _ => ROk demo_reply) o s) (mkSolr "u" ∅ [])
             [OAddDocuments "c" true [[("id", "1")]]; ODeleteByID "c" false "1"] in
  creations "c" (trace s) = 1%nat /\ ordered (trace s).
Proof.
  destruct (interfaces_cached (fun _ _ => ROk demo_reply) "u" (mkSolr "u" ∅ [])
    [OAddDocuments "c" true [[("id", "1")]]; ODeleteByID "c" false "1"] "c" eq_refl) as [_ H].
  split; [vm_compute; reflexivity|exact H].
Defined.

(** ** Errors and panics *)

Section errors.
Context (client : list (scall * outcome) -> scall -> outcome).

(** A state in which the collection has its interface. *)
Definition ready (c : string) (s : SolrService) : Prop := c ∈ solrInterfaceCache s.

Lemma interface_ready c s : ready c s -> getSolrInterface client c s = (Ok (), s).
Proof. intros H. unfold getSolrInterface. by rewrite decide_True. Qed.

Lemma use_ready {A} c (m : unit -> M A) s : ready c s -> bind (getSolrInterface client c) m s = m tt s.
Proof. intros H. unfold bind. by rewrite interface_ready. Qed.

(** A panic of the client is reported as success: the functions with a
    deferred [recoverFromFailure] have unnamed results, so after the recovery
    they return a nil error (and a nil result), as if the documents had been
    added or deleted or the query had been answered. *)
Theorem recovered_panic_is_success c s cm d q f start rows :
  ready c s ->
  (client (trace s) (CAdd c [d] (commit_params cm)) = RPanic -> (AddDocument client c cm (Some d) s).1 = Ok tt) /\
  (q <> "" -> client (trace s) (CDelete c q (commit_params cm)) = RPanic -> (DeleteDocumentByQuery client c cm q s).1 = Ok tt) /\
  (client (trace s) (CResult c (buildBasicQuery q f start rows)) = RPanic -> (SimpleQuery client c q f start rows s).1 = Ok None).
Proof.
  intros Hr. split_and!.
  - intros Hp. unfold AddDocument, recovering. rewrite use_ready by done. unfold bind, call. by rewrite Hp.
  - intros Hq Hp. apply String.eqb_neq in Hq. unfold DeleteDocumentByQuery, recovering. rewrite Hq.
    rewrite use_ready by done. unfold bind, call. by rewrite Hp.
  - intros Hp. unfold SimpleQuery, recovering. rewrite use_ready by done. unfold bind, call. by rewrite Hp.
Qed.

Lemma delete_by_query_ready c s cm q :
  ready c s -> q <> "" ->
  let k := CDelete c q (commit_params cm) in
  let o := client (trace s) k in
  DeleteDocumentByQuery client c cm q s =
  (match o with
   | ROk r => if rp_Success r then Ok tt else Err (ErrDelete (rp_Result r))
   | RErr e => Err (ErrClient e)
   | RPanic => Ok tt
   end, mkSolr (url s) (solrInterfaceCache s) (trace s ++ [(k, o)])).
Proof.
  intros Hr Hq. apply String.eqb_neq in Hq. cbv zeta. unfold DeleteDocumentByQuery, recovering. rewrite Hq.
  rewrite use_ready by done. unfold bind, call. destruct (client (trace s) _) as [r|e|]; [|done|done].
  by destruct (rp_Success r).
Qed.

(** What a deletion does: without an id or a query it is refused and the
    client is not called; otherwise the client gets exactly one deletion with
    the query (["id:"] and the id, unquoted) and the commit flag, and the result
    is nil only if the response says success, or the client panicked. *)
Theorem delete_spec c s cm id :
  ready c s ->
  let k := CDelete c ("id:" +:+ id) (commit_params cm) in
  let o := client (trace s) k in
  DeleteDocumentByID client c cm id s =
  if (id =? "")%string then (Err ErrNoID, s)
  else (match o with
        | ROk r => if rp_Success r then Ok tt else Err (ErrDelete (rp_Result r))
        | RErr e => Err (ErrClient e)
        | RPanic => Ok tt
        end, mkSolr (url s) (solrInterfaceCache s) (trace s ++ [(k, o)])).
Proof.
  intros Hr. cbv zeta. unfold DeleteDocumentByID. destruct (id =? "")%string; [done|].
  unfold recovering, bind. rewrite delete_by_query_ready by done.
  destruct (client (trace s) _) as [r|e|]; [|done|done]. by destruct (rp_Success r).
Qed.

Lemma strings_of_spec l names : strings_of l = Some names <-> l = JString <$> names.
Proof.
  revert names. induction l as [|j l IH]; intros names.
  - simpl. split; [by intros [= <-]|by destruct names].
  - destruct j as [x| |]; [|by destruct names..]. simpl. destruct (strings_of l) as [k|] eqn:E.
    + pose proof (proj1 (IH k) eq_refl) as Hk. split; [by intros [= <-]; rewrite Hk|].
      destruct names as [|y names]; [done|]. intros [= <- H]. apply IH in H. by simplify_eq.
    + split; [done|]. destruct names as [|y names]; [done|]. intros [= <- H]. apply IH in H. done.
Qed.

(** [ListCollections] returns the names of a well-formed answer, and panics,
    with nothing to recover it, when the answer has status 0 but no list of
    strings under ["collections"]. *)
Theorem list_collections_spec s r :
  client (trace s) (CAction "LIST" []) = ROk r -> rp_Status r = 0 ->
  (forall names, rp_Response r !! "collections" = Some (JArray (JString <$> names)) ->
     (ListCollections client s).1 = Ok names) /\
  ((forall names, rp_Response r !! "collections" <> Some (JArray (JString <$> names))) ->
     (ListCollections client s).1 = Panic).
Proof.
  intros Hc Hs. unfold ListCollections, bind, call. rewrite Hc, Hs. cbn [Z.eqb negb]. split.
  - intros names ->. by rewrite (proj2 (strings_of_spec _ names)).
  - intros H. destruct (rp_Response r !! "collections") as [[x|l|]|]; try done.
    destruct (strings_of l) as [names|] eqn:E; [|done]. apply strings_of_spec in E as ->. by destruct (H names).
Qed.
End errors.

(** *** Examples *)

Definition demo_ready : SolrService := mkSolr "u" {[ "c" ]} [].

Lemma demo_is_ready : ready "c" demo_ready.
Proof. unfold ready. simpl. set_solver. Qed.

Lemma recovered_panic_is_success_witness : (AddDocument (fun _ _ => RPanic) "c" true (Some [("id", "1")]) demo_ready).1 = Ok tt.
Proof.
  destruct (recovered_panic_is_success (fun _ _ => RPanic) "c" demo_ready true [("id", "1")] "q" "" 0 10) as [H _].
  - exact demo_is_ready.
  - exact (H eq_refl).
Defined.

(** An id that is a query deletes everything. *)
Lemma delete_spec_witness :
  (DeleteDocumentByID (fun _ _ => ROk demo_reply) "c" true "1 OR *:*" demo_ready) =
  (Ok tt, mkSolr "u" {[ "c" ]} [(CDelete "c" "id:1 OR *:*" [("commit", "true")], ROk demo_reply)]).
Proof.
  apply (delete_spec (fun _ _ => ROk demo_reply) "c" demo_ready true "1 OR *:*"). exact demo_is_ready.
Defined.

Definition demo_list : reply := mkReply 0 true "" {[ "collections" := JArray [JString "a"; JString "b"] ]}.

Lemma list_collections_spec_witness : (ListCollections (fun _ _ => ROk demo_list) demo_ready).1 = Ok ["a"; "b"].
Proof. apply (list_collections_spec (fun _ _ => ROk demo_list) demo_ready demo_list); reflexivity. Defined.
