(* ===== verification/Databases.v ===== *)
(** * Packages [cassandra], [cockroach] and [loader]

    How the sessions of the database drivers are configured and how the
    configuration files are read.  The drivers ([gocql], [gorm]), [docker] and
    the decoders are parameters. *)

From stdpp Require Import base strings list pretty sets.
From Stdlib Require Import ZArith Lia Ascii.
From S2P Require Import Prelude.

Local Open Scope Z_scope.

(** ** [cassandra/cassandra.go] *)

Record Settings : Type := mkSettings {
  Keyspace : string;
  Consistency : string;
  Nodes : list string;
  Username : string;
  Password : string;
  Connections : Z;
  Retry : Z;
  PageSize : Z;
  ProtoVersion : Z;
  Timeout : string;
}.

Inductive consistency : Type := One | Quorum | All | DriverConsistency (code : Z).

(** The fields of [gocql.ClusterConfig] that [New] touches. *)
Record cluster : Type := mkCluster {
  cc_Hosts : list string;
  cc_Timeout : Z;
  cc_Keyspace : string;
  cc_ProtoVersion : Z;
  cc_Consistency : consistency;
  cc_Auth : option (string * string);
  cc_NumConns : Z;
  cc_NumRetries : option Z;
  cc_TokenAware : bool;
}.

Record cql_session : Type := mkCql { cs_config : cluster; cs_PageSize : option Z }.

Section cassandra.
(** [time.ParseDuration], [gocql.NewCluster] and [CreateSession]. *)
Context (ParseDuration : string -> string + Z) (NewCluster : list string -> cluster) (CreateSession : cluster -> option string).

Definition configure (t : option Z) (settings : Settings) (c : cluster) : cluster :=
  mkCluster (cc_Hosts c) (default (cc_Timeout c) t) (Keyspace settings)
    (if negb (ProtoVersion settings =? 0) then ProtoVersion settings else 3)
    (if (Consistency settings =? "one")%string then One
     else if (Consistency settings =? "quorum")%string then Quorum
     else if (Consistency settings =? "all")%string then All
     else cc_Consistency c)
    (Some (Username settings, Password settings)) (Connections settings) (Some (Retry settings)) true.

Definition cassandra_New (settings : Settings) : result string cql_session :=
  let c := NewCluster (Nodes settings) in
  let session (t : option Z) :=
    let c := configure t settings c in
    match CreateSession c with
    | Some e => Err e
    | None => Ok (mkCql c (if negb (PageSize settings =? 0) then Some (PageSize settings) else None))
    end in
  if negb (Timeout settings =? "")%string then
    match ParseDuration (Timeout settings) with
    | inl e => Err e
    | inr t => session (Some t)
    end
  else session None.

(** A Cassandra session that is created has the configured keyspace, hosts'
    policy and credentials, protocol 3 unless another was set, and a misspelt
    consistency level (an upper-case one, say) is not refused: the driver's
    default stays. *)
Theorem cassandra_config settings s :
  cassandra_New settings = Ok s ->
  let c := cs_config s in
  cc_Keyspace c = Keyspace settings /\ cc_Auth c = Some (Username settings, Password settings) /\
  cc_TokenAware c = true /\ (ProtoVersion settings = 0 -> cc_ProtoVersion c = 3) /\
  (Consistency settings ∉ ["one"; "quorum"; "all"] -> cc_Consistency c = cc_Consistency (NewCluster (Nodes settings))) /\
  (Timeout settings = "" -> cc_Timeout c = cc_Timeout (NewCluster (Nodes settings))) /\
  CreateSession c = None.
Proof.
  unfold cassandra_New. intros H. cbv zeta.
  assert (Hs : exists t, cs_config s = configure t settings (NewCluster (Nodes settings)) /\
    CreateSession (cs_config s) = None /\ (Timeout settings = "" -> t = None)).
  { destruct (String.eqb_spec (Timeout settings) ""); cbn [negb] in H.
    - destruct (CreateSession _) eqn:E; [done|]. simplify_eq. exists None. done.
    - destruct (ParseDuration _); [done|]. destruct (CreateSession _) eqn:E; [done|]. simplify_eq. by eexists. }
  destruct Hs as (t & -> & Hc & Ht). split_and!; try done.
  - intros Hp. unfold configure. simpl. by rewrite Hp.
  - intros Hn. unfold configure. simpl.
    destruct (String.eqb_spec (Consistency settings) "one"); [set_solver|].
    destruct (String.eqb_spec (Consistency settings) "quorum"); [set_solver|].
    destruct (String.eqb_spec (Consistency settings) "all"); [set_solver|done].
  - intros E. by rewrite (Ht E).
Qed.
End cassandra.

(** ** [cockroach/connection.go] *)

Definition certs_url (host database user certsPath : string) : string :=
  "postgresql://" +:+ user +:+ "@" +:+ host +:+ "/" +:+ database +:+ "?ssl=true&sslmode=require&sslrootcert=" +:+
  certsPath +:+ "/ca.crt&sslkey=" +:+ certsPath +:+ "/client." +:+ user +:+ ".key&sslcert=" +:+ certsPath +:+
  "/client." +:+ user +:+ ".crt".

Definition password_url (host database user password : string) : string :=
  "postgresql://" +:+ user +:+ ":" +:+ password +:+ "@" +:+ host +:+ "/" +:+ database +:+ "?ssl=true&sslmode=require".

(** A pattern of runs of digits separated by dots, at the start of a string:
    ["[0-9]+\\.[0-9]+\\.[0-9]+\\.[0-9]+"] with [n] more dots to come; [seen] says
    that the run has a digit.  A run followed by a dot is the whole run. *)
Definition is_digit (c : ascii) : bool := let n := nat_of_ascii c in (48 <=? n)%nat && (n <=? 57)%nat.

Fixpoint ip_at (n : nat) (seen : bool) (s : string) : bool :=
  match n, seen with
  | O, true => true
  | _, _ =>
      match s with
      | EmptyString => false
      | String c s' =>
          if is_digit c then ip_at n true s'
          else if seen && Ascii.eqb c "." then match n with O => false | S n => ip_at n false s' end
          else false
      end
  end.

(** [regexp.MatchString]: the expression is not anchored. *)
Fixpoint ip_matches (s : string) : bool :=
  ip_at 3 false s || match s with EmptyString => false | String _ s' => ip_matches s' end.

Section cockroach.
(** [gorm.Open]: the connection of a URL, or an error. *)
Context (gorm_Open : string -> option string).

Definition NewConnUsingCerts (host database user certsPath : string) : result string string :=
  let u := certs_url host database user certsPath in
  match gorm_Open u with Some e => Err e | None => Ok u end.

Definition NewConnUsingPassword (host database user password : string) : result string string :=
  let u := password_url host database user password in
  match gorm_Open u with Some e => Err e | None => Ok u end.

(** The first line of the output of [docker inspect], without quotes. *)
Fixpoint first_line (s : string) : string :=
  match s with
  | EmptyString => ""
  | String c s' =>
      if Ascii.eqb c (ascii_of_nat 10) then ""
      else if Ascii.eqb c "'" then first_line s' else String c (first_line s')
  end.

(** [inspect] is the outcome of the command; a failure is a panic. *)
Definition NewConnUsingDocker (inspect : string + string) (database user password : string) (port : Z) : result string string :=
  match inspect with
  | inl _ => Panic
  | inr output =>
      let firstLine := first_line output in
      if negb (ip_matches firstLine) then Err ("'" +:+ firstLine +:+ "' is not a valid IP")
      else NewConnUsingPassword (firstLine +:+ ":" +:+ pretty port) database user password
  end.
End cockroach.

(** [GetConnection], and what [Close] logs: the error of the driver goes no
    further. *)
Definition GetConnection (dbConnection : string) : string := dbConnection.

Inductive close_log : Type := LogClosing | LogCloseError (e : string) | LogClosed.

Definition Close (InfoEnabled ErrorEnabled : bool) (dbClose : option string) : list close_log :=
  (if InfoEnabled then [LogClosing] else []) ++
  match dbClose with
  | Some e => if ErrorEnabled then [LogCloseError e] else []
  | None => if InfoEnabled then [LogClosed] else []
  end.

Lemma ip_at_app n b s t : ip_at n b s = true -> ip_at n b (s +:+ t) = true.
Proof.
  revert n b. induction s as [|c s IH]; intros n b H.
  - destruct n, b; simpl in H; try done. by destruct t.
  - change (String c s +:+ t) with (String c (s +:+ t)).
    destruct n as [|n], b; cbn [ip_at] in H |- *; try done;
      repeat case_match; simplify_eq/=; auto; done.
Qed.

(** The check of the address is not anchored: an output of [docker] with an
    address anywhere in its first line is taken as the host as it is, in front of
    the port. *)
Theorem docker_address_unanchored gorm_Open ip a b output database user password port :
  ip_at 3 false ip = true -> first_line output = a +:+ ip +:+ b -> (forall u, gorm_Open u = None) ->
  NewConnUsingDocker gorm_Open (inr output) database user password port =
  Ok (password_url (a +:+ ip +:+ b +:+ ":" +:+ pretty port) database user password).
Proof.
  intros Hip Hl Ho. unfold NewConnUsingDocker. rewrite Hl.
  assert (Hm : ip_matches (a +:+ ip +:+ b) = true).
  { clear Hl. induction a as [|c a IH].
    - change ("" +:+ ip +:+ b) with (ip +:+ b). pose proof (ip_at_app 3 false ip b Hip) as H.
      destruct (ip +:+ b) as [|c s]; [done|]. cbn [ip_matches]. by rewrite H.
    - change (String c a +:+ ip +:+ b) with (String c (a +:+ ip +:+ b)). cbn [ip_matches]. by rewrite IH, orb_true_r. }
  rewrite Hm. cbn [negb]. unfold NewConnUsingPassword. rewrite Ho. by rewrite !string_app_assoc.
Qed.

(** The parts of a URL are not escaped: a password with an at sign moves into the
    host. *)
Theorem password_url_ambiguous host database user p q :
  password_url host database user (p +:+ "@" +:+ q) = password_url (q +:+ "@" +:+ host) database user p.
Proof. unfold password_url. by rewrite !string_app_assoc. Qed.

Lemma docker_address_unanchored_witness :
  NewConnUsingDocker (fun _ => None) (inr "'x10.0.0.1/y'") "db" "u" "p" 26257 =
  Ok (password_url "x10.0.0.1/y:26257" "db" "u" "p").
Proof. apply (docker_address_unanchored (fun _ => None) "10.0.0.1" "x" "/y"); reflexivity. Defined.

Definition demo_settings : Settings := mkSettings "ks" "QUORUM" ["h"] "u" "p" 2 1 0 0 "".
Definition demo_cluster (hosts : list string) : cluster := mkCluster hosts 600 "" 4 (DriverConsistency 9) None 2 None false.

Lemma cassandra_config_witness :
  exists s, cassandra_New (fun _ => inl "") demo_cluster (fun _ => None) demo_settings = Ok s /\
    cc_Consistency (cs_config s) = DriverConsistency 9.
Proof.
  eexists. split; [reflexivity|].
  apply (cassandra_config (fun _ => inl "") demo_cluster (fun _ => None) demo_settings _ eq_refl).
  simpl. set_solver.
Defined.

(** ** [loader/loader.go]

    [filepath.Abs], the reads and the decoders are parameters; a value is decoded
    in full or an error is returned. *)
Section loader.
Context {T : Type} (Abs : string -> string + string).

Definition ConfJson (Open : string -> string + string) (Decode : string -> string + T) (path : string) : result string T :=
  match Abs path with
  | inl e => Err e
  | inr p => match Open p with
             | inl e => Err e
             | inr confFile => match Decode confFile with inl e => Err e | inr t => Ok t end
             end
  end.

Definition ConfYaml (ReadFile : string -> string + string) (Unmarshal : string -> string + T) (path : string) : result string T :=
  match Abs path with
  | inl e => Err e
  | inr p => match ReadFile p with
             | inl e => Err e
             | inr confFile => match Unmarshal confFile with inl e => Err e | inr t => Ok t end
             end
  end.

Definition ConfToml (DecodeFile : string -> string + T) (path : string) : result string T :=
  match Abs path with
  | inl e => Err e
  | inr p => match DecodeFile p with inl e => Err e | inr t => Ok t end
  end.
End loader.

(** The loaders agree on a file that the decoders read alike. *)
Theorem loaders_agree {T} Abs (Open : string -> string + string) (D : string -> string + T) path :
  ConfJson Abs Open D path = ConfYaml Abs Open D path /\
  ConfJson Abs Open D path = ConfToml Abs (fun p => match Open p with inl e => inl e | inr f => D f end) path.
Proof. unfold ConfJson, ConfYaml, ConfToml. destruct (Abs path); [done|]. by destruct (Open s). Qed.
